(* ===== verification/_CoqProject ===== *)
-Q . S2P
Prelude.v
Bytes.v
Protocol.v
FrameProtocol.v
ChallengeStore.v
Platform.v
Simulator.v
DerSignature.v
CryptoEngine.v
DeviceRegistry.v
ChallengeGenerator.v
TransportInterface.v
TcpTransport.v
AgentService.v
Hkdf.v
DpapiStorage.v
MultiDeviceManager.v
EcdhKeyExchange.v
Win32.v
NamedPipeIpc.v
Credential.v
ComServer.v
TcpWorker.v
Threads.v
TcpThreads.v
TcpRoles.v
TcpRaces.v
TcpSends.v
TcpSockets.v
Phone.v
PhoneThreads.v
PhonePairing.v
Session.v
AgentThreads.v
PhoneKeys.v
AgentRaces.v
ComThreads.v
AgentHost.v
Ctap2Bridge.v
BluetoothTransport.v
