(* ===== verification/Prelude.v ===== *)
(** * PhoneKey: a verification library for PhoneKey

    PhoneKey unlocks a Windows PC with a phone: the agent sends the phone a fresh
    challenge over TCP, the phone returns a payload signed with a key it was
    paired with, the agent checks it, and a credential provider in the logon
    screen asks the agent, over a named pipe, for the credential.  The library
    models the C++ of src/windows: all of common/, agent/ and
    credential-provider/; and of the Android application (src/android/app/src/main/
    java/com/phonekey) the protocol: its codecs, its connection, its answer to a
    request and its end of pairing.

    ** Parts

    Shared definitions
    - Prelude (this file): outcomes ([Res], with [UB] for undefined behaviour),
      the state monad [Proc], lenses, weakest preconditions [wp]/[wlp], the
      tactics and the lemmas on lists that everything uses.
    - Bytes: bytes, [w]-bit words with wrap-around, bounds-checked memory reads
      and writes, big-endian codecs.
    - Platform: what the program uses of Windows (CNG, ECDH, clock, Winsock, DPAPI,
      files) as type classes, with their documented behaviour as separate
      classes of laws.  Calls may fail at any time; the [Live] classes, which
      say when they succeed, are used only where a theorem says that a good
      request is granted.
    - Simulator: a concrete world that satisfies all those laws, for witnesses.
    - Win32: programs as trees of operating-system calls, their runs as traces
      and the interleavings of two runs, for the pipe code.
    - Threads: threads as trees of atomic steps on a shared state, pools of them,
      schedules, and the rules of rely-guarantee with which the runs of a pool
      are shown to be safe, finite and free of deadlock.

    The unlock protocol
    - Protocol: common/Protocol.cpp, the 108-byte signed payload.
    - FrameProtocol: common/FrameProtocol.cpp, CRC-protected frames.
    - ChallengeStore, ChallengeGenerator: agent/ChallengeStore.cpp and
      ChallengeGenerator.cpp, one-time challenges with a 30 s life.
    - DerSignature, CryptoEngine: common/CryptoEngine.cpp and
      PublicKeyImporter.cpp, signature conversion and checking, key import.
    - DeviceRegistry: agent/DeviceRegistry.cpp, the keys that may unlock.
    - TransportInterface, TcpTransport, TcpWorker, TcpSockets: the interfaces of
      common/TransportInterface.h, and common/TcpTransport.cpp with theorems on its
      stream, its workers and its sockets.
    - TcpThreads, TcpRoles, TcpRaces, TcpSends: the same TcpTransport.cpp with every
      access to what its threads share as a step; what each thread may do to the
      others; opening and closing under interference; sending under
      interference.
    - BluetoothTransport: common/BluetoothTransport.cpp, a second instance of the
      same interfaces.
    - AgentService: agent/AgentService.cpp over any transport, then over TCP.
    - AgentThreads, AgentRaces: the methods of AgentService that run while the
      agent is up, with what they call, as threads; unlocking under interference.
    - AgentHost: agent/PhoneKeyAgent.cpp, the executable's [main].
    - Phone: FrameProtocol.kt, ProtocolEncoder.kt, TcpTransportClient.kt and
      UnlockController.kt, the phone's end; PhoneThreads: TcpTransportClient.kt
      again, as threads; Session: agent and phone together.

    Pairing and storage
    - Hkdf: common/HkdfEngine.cpp and SasEngine.cpp; EcdhKeyExchange:
      common/EcdhKeyExchange.cpp; DpapiStorage and MultiDeviceManager:
      agent/DpapiStorage.cpp and MultiDeviceManager.cpp; Ctap2Bridge:
      common/Ctap2Bridge.cpp; PhonePairing: HkdfManager.kt, SasManager.kt and
      EcdhManager.kt; PhoneKeys: the export of the signing key in KeyManager.kt.

    The logon screen
    - NamedPipeIpc: common/NamedPipeIpc.cpp, client and server.
    - Credential: PhoneKeyCredential.cpp and the stateless methods of
      PhoneKeyCredentialProvider.cpp and dllmain.cpp; ComServer: the reference
      counts and events of the three files' classes; ComThreads: the same with
      every interlocked operation and member access as a step.

    ** How code becomes definitions

    A method is a [Proc] over the state it changes, under the method's name; an
    overloaded or ambiguous name gets a prefix ([tcp_], [th_], [ble_], [pipe_],
    [agent_], [kt_], [phone_]) or the name of its file.  A class is a record of
    its members.  A pointer argument is the list of bytes readable from it, or [None] when it is
    null; an output parameter is passed by its old value and returned; locals
    that C++ leaves indeterminate are arguments.  Unsigned arithmetic wraps where
    it can reach the width.  A method that holds its mutex for its whole body is
    one atomic step, and the store's theorems are about all interleavings of such
    steps.  The pipe code, which is not protected by a mutex, is a program of
    Win32 instead, so that every call and every access to a shared member is a
    point where other threads can run; and the TCP transport, whose members are
    shared by the thread that owns it, the worker and the senders, is given a
    second time as threads of Threads.  In TcpThreads a member is read or written whole;
    [accept] and [recv] block, possibly for ever, on a socket that is open, and the
    other socket calls return; a callback is a thread of a class that its
    theorems name: it may send and do anything but open or close.  In
    AgentThreads the agent's methods are such threads too, a step being a method
    that holds the mutex of the store or the registry, another CNG call, a
    reading of the clock or a send.  The lemmas [alone_*] tie the two versions of
    a method together.

    Kotlin code is a function to [option]: [None] is an exception, and a nullable
    result is an inner [option].  [Int], [Short], [Byte] and [Long] are signed and
    wrap ([swrap]).

    Fuel.  [drain_loop] gets the length of its buffer, of which every iteration
    that continues drops a byte; [send_loop] the length of the frame, of which
    every iteration sends a byte; [expand_loop], [import_loop], [strip_zeros]
    their number of iterations; for all of these the specifications hold for
    that fuel, so it is enough.  [receive_loop] and [ServerWorker] run as long
    as the peers let them: their fuel is a number of reads or of clients, their
    result says whether they ended within it, and [workers_terminate] gives the
    fuel that suffices on a stream that ends.  In TcpThreads a worker that
    has used up its fuel is stuck for ever, and the theorem that nobody is stuck
    asks for more fuel than there are bytes left to read (every read that does not
    end the worker takes one), so that it never is.  The phone's [inner_loop] gets the
    length of its buffer; by [inner_loop_fuel], when that is not enough no fuel
    is, and the loop does not end.  [kt_expand_loop] gets its output's length.
    Out of fuel, [expand_loop] is undefined and [kt_expand_loop] throws, which
    their specifications exclude.

    ** What the theorems show

    - Unlocking: success needs an outstanding challenge of this PC, unexpired by the
      clock of that moment, and a valid signature of the device's trusted key over
      that challenge, and a good response is accepted; no replay; no bytes on the wire do more than consume
      challenges they prove (AgentService).  The store linearizes to a table of
      one-time tokens, a race has one winner (ChallengeStore).
    - Codecs: serializers and parsers are inverse, parsers accept nothing else and
      read nothing outside their buffers, corrupted frames are rejected
      (Protocol, FrameProtocol); DER conversion inverts the encoder and reads out
      of bounds on exactly the stated inputs (DerSignature).
    - Transport: the receiver implements a function on byte streams, whatever the
      segmentation, and tells its listener every frame sent, through noise; what is
      written is what was asked (TcpTransport); its workers
      end (TcpWorker) and its sockets are accounted for (TcpSockets).
    - Threads: in every interleaving nothing undefined happens, nobody is stuck in a
      blocking call, a join or a loop, and at the end all is joined and closed
      (TcpRaces); whenever the mutex is free the wire carries what the senders
      wrote in sequence order, the whole frame of each send that succeeded and a
      part of each that failed (TcpSends).  Callbacks, requests and registrations
      of new phones in any threads keep the store a history of issues and of
      acceptances that were authorised, by the store and the clock, when they
      happened, each session accepted once per issue; the one thing that can go
      wrong is the conversion of a signature that it reads past (AgentRaces).
    - Both ends: phone and PC have the same frame and payload formats, and the phone
      gets every frame the PC sends, in order (Phone); what its threads send is whole
      frames with different numbers (PhoneThreads); a request that is sent,
      read, signed and answered is accepted and consumes its challenge (Session);
      their key derivations and PINs are the same functions, but the shared
      secrets they are applied to are in opposite byte orders (PhonePairing).
    - Keys and handles: signature checking, registry and key exchange refine
      abstract descriptions and leave no CNG object behind (CryptoEngine,
      DeviceRegistry, EcdhKeyExchange, AgentHost).  HKDF is RFC 5869's (Hkdf).
      Registering the key a phone exports makes the agent trust that point and
      nothing else for it, whatever it does next (PhoneKeys).
    - Logon: in every interleaving the client gets the server's answer to its own
      request or fails, pipe handles are closed once (NamedPipeIpc); a credential
      is handed over only when the agent granted that request (Credential);
      COM objects live exactly as long as they are referenced, and no method, not
      even one that uses no member, runs on a destroyed one (ComServer), also when
      threads share them (ComThreads, without the racy Advise and UnAdvise).
    - Storage: saved data loads back, and loading works when DPAPI and the files do
      (DpapiStorage); the paired-device list
      refines an ordered table (MultiDeviceManager).

    Each component's Examples record behaviour that looks unintended.

    ** Not modelled

    Console output; WSAStartup and WSACleanup; exceptions of the allocator and of
    the C++ library; torn accesses to plain members, and memory orderings weaker
    than interleaving. Of the Android application: status messages, the main thread,
    keystore, fingerprint prompt and QR code (calls into Android; the prompt's
    result is an argument), the user interface and the Bluetooth stub. Tests,
    scripts, the installer and documents are not program logic. ECDSA, SHA-256 and
    ECDH are parameters: nothing is proved about their strength. AgentThreads takes
    a send as one step, which TcpSends justifies for one transport; the two are not
    composed into one pool.  AgentRaces leaves out removing a phone and registering
    a known one again, which destroy a key that a running check may hold
    ([stale_handle] in DeviceRegistry). *)
From stdpp Require Export base tactics list gmap strings.
From Stdlib Require Export ZArith Lia ZifyBool.

Declare Scope phonekey_scope.
Delimit Scope phonekey_scope with pk.
Open Scope Z_scope.

(** ** Outcomes of memory-accessing code

    [Def a] is a defined result; [UB] is C++ undefined behaviour (an access
    outside the object a pointer points into). *)
Inductive Res (A : Type) : Type :=
| Def (a : A)
| UB.
Arguments Def {A} a.
Arguments UB {A}.

#[global] Instance Res_ret : MRet Res := fun A a => Def a.
#[global] Instance Res_bind : MBind Res :=
  fun A B k m => match m with Def a => k a | UB => UB end.

(** ** Stateful code: explicit state passing over outcomes *)
Definition Proc (S A : Type) : Type := S -> Res (A * S).

Definition pret {S A : Type} (a : A) : Proc S A := fun s => Def (a, s).
Definition pbind {S A B : Type} (m : Proc S A) (k : A -> Proc S B) : Proc S B :=
  fun s => match m s with Def (a, s') => k a s' | UB => UB end.
Definition pget {S : Type} : Proc S S := fun s => Def (s, s).
Definition pput {S : Type} (s : S) : Proc S unit := fun _ => Def (tt, s).
(** A library call given as a pure state transformer. *)
Definition pcall {S A : Type} (f : S -> A * S) : Proc S A := fun s => Def (f s).
(** Memory access that leaves the state alone. *)
Definition plift {S A : Type} (r : Res A) : Proc S A :=
  fun s => match r with Def a => Def (a, s) | UB => UB end.

Notation "'let*' p ':=' c1 'in' c2" := (pbind c1 (fun p => c2))
  (at level 10, p binder, c1 at level 100, c2 at level 200,
   format "'[v' 'let*'  p  ':='  c1  'in' '/' c2 ']'") : phonekey_scope.
Notation "c1 ;; c2" := (pbind c1 (fun _ => c2))
  (at level 100, c2 at level 200, right associativity) : phonekey_scope.
(** The same for code that only accesses memory. *)
Notation "'let?' p ':=' c1 'in' c2" := (@mbind Res Res_bind _ _ (fun p => c2) c1)
  (at level 10, p binder, c1 at level 100, c2 at level 200,
   format "'[v' 'let?'  p  ':='  c1  'in' '/' c2 ']'") : phonekey_scope.
Open Scope phonekey_scope.

(** Running a component's method inside a larger state that contains it. *)
Class Lens (S V : Type) := {
  view : S -> V;
  put : V -> S -> S;
}.
Class LensLaws (S V : Type) `{Lens S V} := {
  view_put : forall v s, view (put v s) = v;
  put_view : forall s, put (view s) s = s;
  put_put : forall v v' s, put v (put v' s) = put v s;
}.
Definition zoom {S V A : Type} `{Lens S V} (m : Proc V A) : Proc S A :=
  fun s => match m (view s) with Def (a, v) => Def (a, put v s) | UB => UB end.

(** ** Weakest preconditions

    [wp m Q s]: from [s], [m] has a defined result and it satisfies [Q];
    [wlp m Q s]: if it has a defined result, it satisfies [Q].  Both are
    instances of [wpx], whose first argument says what undefined behaviour
    makes of the claim. *)
Definition wpx {S A : Type} (ub : Prop) (m : Proc S A) (Q : A -> S -> Prop) (s : S) : Prop :=
  match m s with Def (a, s') => Q a s' | UB => ub end.
Abbreviation wp := (wpx False).
Abbreviation wlp := (wpx True).

Section Wpx.
Context {S : Type} (ub : Prop).

Lemma wp_ret {A} (a : A) (Q : A -> S -> Prop) s : Q a s -> wpx ub (pret a) Q s.
Proof. done. Qed.

Lemma wp_bind {A B} (m : Proc S A) (k : A -> Proc S B) Q s :
  wpx ub m (fun a s' => wpx ub (k a) Q s') s -> wpx ub (pbind m k) Q s.
Proof. unfold wpx, pbind. destruct (m s) as [[a s']|]; done. Qed.

Lemma wp_mono {A} (m : Proc S A) (Q Q' : A -> S -> Prop) s :
  wpx ub m Q s -> (forall a s', Q a s' -> Q' a s') -> wpx ub m Q' s.
Proof. unfold wpx. destruct (m s) as [[a s']|]; auto. Qed.

Lemma wp_and {A} (m : Proc S A) (Q R : A -> S -> Prop) s :
  wpx ub m Q s -> wpx ub m R s -> wpx ub m (fun a s' => Q a s' /\ R a s') s.
Proof. unfold wpx. destruct (m s) as [[a s']|]; auto. Qed.

(** The run itself as part of the postcondition. *)
Lemma wp_run {A} (m : Proc S A) (Q : A -> S -> Prop) s :
  wpx ub m Q s -> wpx ub m (fun a s' => m s = Def (a, s') /\ Q a s') s.
Proof. unfold wpx. destruct (m s) as [[a s']|]; auto. Qed.

(** A procedure with a known postcondition, as the first of a sequence. *)
Lemma wp_seq {A B} (m : Proc S A) (k : A -> Proc S B) (R : A -> S -> Prop) Q s :
  wpx ub m R s -> (forall a s', R a s' -> wpx ub (k a) Q s') -> wpx ub (pbind m k) Q s.
Proof. intros H K. apply wp_bind. by eapply wp_mono. Qed.

Lemma wp_call {A} (f : S -> A * S) (Q : A -> S -> Prop) s :
  (forall a s', f s = (a, s') -> Q a s') -> wpx ub (pcall f) Q s.
Proof. unfold wpx, pcall. destruct (f s) as [a s'] eqn:E. auto. Qed.

Lemma wp_lift {A} (r : Res A) (a : A) (Q : A -> S -> Prop) s :
  r = Def a -> Q a s -> wpx ub (plift r) Q s.
Proof. intros -> H. done. Qed.

Lemma wp_get (Q : S -> S -> Prop) (s : S) : Q s s -> wpx ub pget Q s.
Proof. done. Qed.

Lemma wp_put (Q : unit -> S -> Prop) (s s' : S) : Q tt s' -> wpx ub (pput s') Q s.
Proof. done. Qed.

Lemma wp_zoom {V A} `{Lens S V} (m : Proc V A) (Q : A -> S -> Prop) s :
  wpx ub m (fun a v => Q a (put v s)) (view s) -> wpx ub (zoom m) Q s.
Proof. unfold wpx, zoom. destruct (m (view s)) as [[a v]|]; done. Qed.

Lemma wpx_weaken {A} (m : Proc S A) (Q : A -> S -> Prop) s : wp m Q s -> wpx ub m Q s.
Proof. unfold wpx. by destruct (m s) as [[a s']|]. Qed.

End Wpx.

(** A procedure that is defined and leaves a part [f] of the state alone. *)
Definition leaves {S K A : Type} (f : S -> K) (m : Proc S A) : Prop :=
  forall s, wp m (fun _ s' => f s' = f s) s.

Section Leaves.
Context {S K : Type} (f : S -> K).

Lemma leaves_ret {A} (a : A) : leaves f (pret a).
Proof. done. Qed.

Lemma leaves_call {A} (g : S -> A * S) : (forall s, f (g s).2 = f s) -> leaves f (pcall g).
Proof. intros H s. apply wp_call. intros a s' E. specialize (H s). by rewrite E in H. Qed.

Lemma leaves_bind {A B} (m : Proc S A) (k : A -> Proc S B) :
  leaves f m -> (forall a, leaves f (k a)) -> leaves f (pbind m k).
Proof.
  intros M N s. eapply wp_seq; [apply M|]. intros a s1 E. eapply wp_mono; [apply N|].
  intros b s2 E2. by rewrite E2.
Qed.

Lemma leaves_if {A} (b : bool) (m n : Proc S A) : leaves f m -> leaves f n -> leaves f (if b then m else n).
Proof. by destruct b. Qed.
End Leaves.
#[export] Hint Resolve leaves_ret leaves_call leaves_bind leaves_if : phonekey.

Lemma wlp_lift {S A} (r : Res A) (Q : A -> S -> Prop) s :
  (forall a, r = Def a -> Q a s) -> wlp (plift r) Q s.
Proof. unfold wpx, plift. destruct r; auto. Qed.

Lemma wlp_elim {S A} (m : Proc S A) (Q : A -> S -> Prop) s a s' :
  wlp m Q s -> m s = Def (a, s') -> Q a s'.
Proof. unfold wpx. intros H E. by rewrite E in H. Qed.

Lemma wp_Def {S A} (m : Proc S A) Q s :
  wp m Q s <-> exists a s', m s = Def (a, s') /\ Q a s'.
Proof.
  unfold wpx. destruct (m s) as [[a s']|]; split.
  - eauto.
  - intros (? & ? & [= <- <-] & ?). done.
  - done.
  - intros (? & ? & [=] & _).
Qed.

Lemma pbind_Def {S A B} (m : Proc S A) (k : A -> Proc S B) s b s'' :
  pbind m k s = Def (b, s'') ->
  exists a s', m s = Def (a, s') /\ k a s' = Def (b, s'').
Proof. unfold pbind. destruct (m s) as [[a s']|]; [eauto | done]. Qed.

Lemma pbind_ext {S A B} (m : Proc S A) (k k' : A -> Proc S B) s :
  (forall a s', k a s' = k' a s') -> pbind m k s = pbind m k' s.
Proof. intros H. unfold pbind. destruct (m s) as [[a s']|]; auto. Qed.

(** ** Automation *)

(** Peel one defined result off a chain of binds in a hypothesis. *)
Ltac inv_bind H :=
  let a := fresh "a" in let s := fresh "s" in let E := fresh "E" in
  apply pbind_Def in H as (a & s & E & H).

Ltac inv_bind_as H a s E := apply pbind_Def in H as (a & s & E & H).

(** One step of a weakest-precondition proof. *)
Ltac wp_step :=
  lazymatch goal with
  | |- wpx _ (pbind _ _) _ _ => apply wp_bind
  | |- wpx _ (pret _) _ _ => apply wp_ret
  | |- wpx _ pget _ _ => apply wp_get
  | |- wpx _ (pput _) _ _ => apply wp_put
  | |- wpx _ (pcall _) _ _ => apply wp_call; intros ???
  | |- wpx _ (zoom _) _ _ => apply wp_zoom
  | |- wpx True (plift _) _ _ => apply wlp_lift; intros ??
  | |- wpx _ (if ?b then _ else _) _ _ => destruct b eqn:?
  | |- wpx _ (match ?x with _ => _ end) _ _ => destruct x eqn:?
  end.
Ltac wp_steps := repeat (wp_step; cbn beta iota).

(** Case analysis on the outcome of a library call given by a law about its
    projections. *)
Ltac outcome H := rewrite H in *; cbn [fst snd] in *.

Create HintDb phonekey.
#[export] Hint Resolve wp_ret wp_get wp_put : phonekey.

(** ** Lists *)

Lemma app_inj_length {A} (a a' b b' : list A) :
  length a = length a' -> a ++ b = a' ++ b' -> a = a' /\ b = b'.
Proof. intros L E. by apply app_inj_1. Qed.

Lemma take_app_exact {A} (a b : list A) n : n = length a -> take n (a ++ b) = a.
Proof. intros ->. apply take_app_length. Qed.

Lemma drop_app_exact {A} (a b : list A) n : n = length a -> drop n (a ++ b) = b.
Proof. intros ->. apply drop_app_length. Qed.

Create Rewrite HintDb lens.
#[export] Hint Rewrite @length_app @length_take @length_drop @length_replicate
  @length_insert @length_fmap @length_reverse : lens.

(** Lengths of lists by rewriting and [lia]. *)
Ltac len := autorewrite with lens in *; cbn [length] in *; try lia.

(** Counting the elements that satisfy a boolean test. *)
Fixpoint count_if {A} (p : A -> bool) (l : list A) : nat :=
  match l with
  | [] => 0
  | x :: l => (if p x then 1 else 0) + count_if p l
  end%nat.

Lemma count_if_app {A} (p : A -> bool) l m :
  count_if p (l ++ m) = (count_if p l + count_if p m)%nat.
Proof. induction l as [|x l IH]; cbn; [done | lia]. Qed.

Lemma count_if_ext {A} (p q : A -> bool) l :
  (forall x, x ∈ l -> p x = q x) -> count_if p l = count_if q l.
Proof.
  induction l as [|x l IH]; intros H; cbn; [done|].
  rewrite H, IH by set_solver. done.
Qed.

Lemma count_if_fmap {A B} (p : B -> bool) (f : A -> B) l :
  count_if p (f <$> l) = count_if (fun x => p (f x)) l.
Proof. induction l as [|x l IH]; cbn; [done | by rewrite IH]. Qed.

#[export] Instance count_if_Permutation {A} (p : A -> bool) :
  Proper ((≡ₚ) ==> (=)) (count_if p).
Proof. induction 1; cbn; lia. Qed.

Lemma count_if_filter {A} (p : A -> bool) l :
  count_if p l = length (filter (fun x => p x = true) l).
Proof.
  induction l as [|x l IH]; [done|]. cbn [count_if]. rewrite filter_cons, IH.
  destruct (p x); [rewrite decide_True by done | rewrite decide_False by done]; done.
Qed.

(** Counting the entries of a map. *)
Lemma count_if_map_to_list {A} (p : string * A -> bool) (m : gmap string A) :
  count_if p (map_to_list m) = size (filter (fun kx => p kx = true) m).
Proof.
  rewrite map_filter_alt, map_size_list_to_map.
  - apply count_if_filter.
  - apply NoDup_fmap_fst; [|apply NoDup_filter, NoDup_map_to_list].
    intros k x y [_ Hx]%list_elem_of_filter [_ Hy]%list_elem_of_filter.
    by apply (map_to_list_unique m k).
Qed.
