(* ===== verification/Bytes.v ===== *)
(** * Bytes: machine bytes and words, memory reads and writes, big-endian codecs

    [byte] is C++'s [uint8_t]; a [w]-bit unsigned integer is a [Z] kept in
    [0 .. 2^w) by [wrap].  A pointer into an object is the list of bytes from
    the pointer to the end of the object: reading past that list is [UB]. *)
From Stdlib Require Export Strings.Byte.
From S2P Require Import Prelude.

(** ** Definitions *)

(** [static_cast<uintN_t>] of a byte, and [static_cast<uint8_t>] of a word. *)
Definition u8 (b : byte) : Z := Z.of_N (Byte.to_N b).
Definition to_u8 (z : Z) : byte := default x00 (Byte.of_N (Z.to_N (z mod 256))).

(** Reduction of an unsigned result to its width. *)
Definition wrap (w z : Z) : Z := z mod 2 ^ w.
Abbreviation u16 := (wrap 16).
Abbreviation u32 := (wrap 32).
Abbreviation u64 := (wrap 64).

#[export] Instance byte_eq_dec : EqDecision byte := Byte.byte_eq_dec.
#[export] Instance byte_countable : Countable byte :=
  inj_countable Byte.to_N Byte.of_N Byte.of_to_N.

(** Memory reads: [data[i]], and [n] bytes from [&data[off]]. *)
Definition rd (data : list byte) (i : Z) : Res byte :=
  if (0 <=? i) then match data !! Z.to_nat i with Some b => Def b | None => UB end else UB.
Definition rd_slice (data : list byte) (off n : Z) : Res (list byte) :=
  if (0 <=? off) && (0 <=? n) && (off + n <=? Z.of_nat (length data))
  then Def (take (Z.to_nat n) (drop (Z.to_nat off) data)) else UB.

(** Memory writes: [memcpy(&buf[off], src.data(), src.size())] and [buf[i] = b]. *)
Definition memcpy_to (buf : list byte) (off : Z) (src : list byte) : Res (list byte) :=
  if (0 <=? off) && (off + Z.of_nat (length src) <=? Z.of_nat (length buf))
  then Def (take (Z.to_nat off) buf ++ src ++ drop (Z.to_nat off + length src) buf) else UB.
Definition poke (buf : list byte) (i : Z) (b : byte) : Res (list byte) := memcpy_to buf i [b].

(** Big-endian encoding of the low [n] bytes of a word, and its inverse. *)
Fixpoint be_bytes (n : nat) (z : Z) : list byte :=
  match n with
  | O => []
  | S m => to_u8 (Z.shiftr z (8 * Z.of_nat m)) :: be_bytes m z
  end.
Definition be_value (l : list byte) : Z :=
  fold_left (fun acc b => Z.lor (Z.shiftl acc 8) (u8 b)) l 0.

(** The shift-and-or expressions the sources use to read big-endian words. *)
Definition be16 (b0 b1 : byte) : Z := Z.lor (u16 (Z.shiftl (u8 b0) 8)) (u8 b1).
Definition be32 (b0 b1 b2 b3 : byte) : Z :=
  Z.lor (Z.lor (Z.lor (u32 (Z.shiftl (u8 b0) 24)) (u32 (Z.shiftl (u8 b1) 16)))
               (u32 (Z.shiftl (u8 b2) 8))) (u8 b3).

(** Reading a whole big-endian word at [data[i]]. *)
Definition rd_be16 (data : list byte) (i : Z) : Res Z :=
  let? b0 := rd data i in let? b1 := rd data (i + 1) in Def (be16 b0 b1).
Definition rd_be32 (data : list byte) (i : Z) : Res Z :=
  let? b0 := rd data i in let? b1 := rd data (i + 1) in
  let? b2 := rd data (i + 2) in let? b3 := rd data (i + 3) in Def (be32 b0 b1 b2 b3).

(** [n] bytes of [data] from [off] on. *)
Definition sub (off n : nat) (data : list byte) : list byte := take n (drop off data).

(** ** Bytes and words *)

Lemma u8_range b : 0 <= u8 b < 256.
Proof. unfold u8. pose proof (Byte.to_N_bounded b). lia. Qed.

Lemma u8_to_u8 z : u8 (to_u8 z) = z mod 256.
Proof.
  unfold u8, to_u8. pose proof (Z.mod_pos_bound z 256 eq_refl).
  destruct (Byte.of_N (Z.to_N (z mod 256))) as [b|] eqn:E; simpl.
  - apply Byte.to_of_N in E. rewrite E. lia.
  - apply Byte.of_N_None_iff in E. lia.
Qed.

Lemma u8_inj a b : u8 a = u8 b -> a = b.
Proof.
  unfold u8. intros H%N2Z.inj.
  pose proof (Byte.of_to_N a) as A. rewrite H, Byte.of_to_N in A. congruence.
Qed.
#[export] Instance u8_Inj : Inj (=) (=) u8 := u8_inj.

Lemma to_u8_u8 b : to_u8 (u8 b) = b.
Proof. apply u8_inj. rewrite u8_to_u8. apply Z.mod_small, u8_range. Qed.

Lemma to_u8_small z : 0 <= z < 256 -> u8 (to_u8 z) = z.
Proof. intros H. rewrite u8_to_u8. by apply Z.mod_small. Qed.

Lemma wrap_range w z : 0 <= w -> 0 <= wrap w z < 2 ^ w.
Proof. intros H. apply Z.mod_pos_bound, Z.pow_pos_nonneg; lia. Qed.

Lemma wrap_small w z : 0 <= z < 2 ^ w -> wrap w z = z.
Proof. apply Z.mod_small. Qed.

(** A disjoint or is a sum. *)
Lemma lor_shiftl_add a b n :
  0 <= n -> 0 <= b < 2 ^ n -> Z.lor (Z.shiftl a n) b = a * 2 ^ n + b.
Proof.
  intros Hn Hb. rewrite <- Z.shiftl_mul_pow2 by lia. symmetry.
  rewrite Z.add_nocarry_lxor, Z.lxor_lor; [done|..];
    apply Z.bits_inj'; intros i Hi; rewrite Z.land_spec, Z.bits_0, Z.shiftl_spec by lia.
  all: destruct (Z.ltb_spec i n).
  all: try (rewrite (Z.testbit_neg_r a) by lia; done).
  all: replace b with (b mod 2 ^ n) by (by apply Z.mod_small).
  all: rewrite Z.mod_pow2_bits_high by lia; apply andb_false_r.
Qed.

(** ** Big-endian codecs *)

Lemma be_value_snoc l b : be_value (l ++ [b]) = be_value l * 256 + u8 b.
Proof.
  unfold be_value. rewrite fold_left_app. cbn [fold_left].
  apply (lor_shiftl_add _ _ 8); [lia | apply u8_range].
Qed.

Lemma be_value_nil : be_value [] = 0.
Proof. done. Qed.

Lemma be_value_app l m :
  be_value (l ++ m) = be_value l * 2 ^ (8 * Z.of_nat (length m)) + be_value m.
Proof.
  induction m as [|b m IH] using rev_ind.
  - rewrite app_nil_r, be_value_nil. cbn. lia.
  - rewrite app_assoc, !be_value_snoc, IH, length_app. cbn [length].
    replace (8 * Z.of_nat (length m + 1)) with (8 * Z.of_nat (length m) + 8) by lia.
    rewrite Z.pow_add_r by lia. change (2 ^ 8) with 256. ring.
Qed.

Lemma be_value_single b : be_value [b] = u8 b.
Proof. apply (be_value_snoc [] b). Qed.

Lemma be_value_cons b l :
  be_value (b :: l) = u8 b * 2 ^ (8 * Z.of_nat (length l)) + be_value l.
Proof. change (b :: l) with ([b] ++ l). by rewrite be_value_app, be_value_single. Qed.

Lemma be_value_range l : 0 <= be_value l < 2 ^ (8 * Z.of_nat (length l)).
Proof.
  induction l as [|b l IH]; [done|]. rewrite be_value_cons. cbn [length].
  replace (8 * Z.of_nat (S (length l))) with (8 + 8 * Z.of_nat (length l)) by lia.
  rewrite Z.pow_add_r by lia. pose proof (u8_range b). nia.
Qed.

Lemma length_be_bytes n z : length (be_bytes n z) = n.
Proof. induction n; cbn [be_bytes length]; congruence. Qed.
#[export] Hint Rewrite length_be_bytes : lens.

Lemma be_value_be_bytes n z : be_value (be_bytes n z) = z mod 2 ^ (8 * Z.of_nat n).
Proof.
  induction n as [|n IH]; cbn [be_bytes].
  - rewrite be_value_nil. symmetry. apply Z.mod_1_r.
  - rewrite be_value_cons, length_be_bytes, u8_to_u8, IH, Z.shiftr_div_pow2 by lia.
    replace (8 * Z.of_nat (S n)) with (8 * Z.of_nat n + 8) by lia.
    rewrite Z.pow_add_r, Z.rem_mul_r by lia. change (2 ^ 8) with 256. ring.
Qed.

Lemma be_value_be_bytes_small n z :
  0 <= z < 2 ^ (8 * Z.of_nat n) -> be_value (be_bytes n z) = z.
Proof. intros H. rewrite be_value_be_bytes. by apply Z.mod_small. Qed.

Lemma be_value_be_bytes4 z : 0 <= z < 2 ^ 32 -> be_value (be_bytes 4 z) = z.
Proof. apply (be_value_be_bytes_small 4). Qed.

Lemma be_bytes_mod n z : be_bytes n (z mod 2 ^ (8 * Z.of_nat n)) = be_bytes n z.
Proof.
  cut (forall m, (m <= n)%nat -> be_bytes m (z mod 2 ^ (8 * Z.of_nat n)) = be_bytes m z);
    [by auto|].
  induction m as [|m IH]; intros Hm; cbn [be_bytes]; [done|].
  rewrite IH by lia. f_equal. apply u8_inj. rewrite !u8_to_u8.
  change 256 with (2 ^ 8). rewrite <- !Z.land_ones by lia.
  apply Z.bits_inj'. intros i Hi. rewrite !Z.land_spec, !Z.shiftr_spec by lia.
  destruct (Z.ltb_spec i 8).
  - rewrite Z.land_spec, (Z.ones_spec_low (8 * Z.of_nat n)) by lia.
    by rewrite andb_true_r.
  - rewrite (Z.ones_spec_high 8) by lia. by rewrite !andb_false_r.
Qed.

Lemma be_value_inj l m : length l = length m -> be_value l = be_value m -> l = m.
Proof.
  revert m. induction l as [|b l IH]; intros [|c m]; try done.
  intros [= L]. rewrite !be_value_cons, L. intros E.
  pose proof (be_value_range l) as Hl. pose proof (be_value_range m) as Hm.
  rewrite L in Hl.
  destruct (Z.div_mod_unique (2 ^ (8 * Z.of_nat (length m))) (u8 b) (u8 c)
              (be_value l) (be_value m)) as [E1 E2]; [lia..|].
  f_equal; [by apply u8_inj | by apply IH].
Qed.

Lemma be_bytes_be_value l : be_bytes (length l) (be_value l) = l.
Proof.
  apply be_value_inj; [by rewrite length_be_bytes|].
  apply be_value_be_bytes_small, be_value_range.
Qed.

Lemma be_bytes_inj n x y :
  0 <= x < 2 ^ (8 * Z.of_nat n) -> 0 <= y < 2 ^ (8 * Z.of_nat n) ->
  be_bytes n x = be_bytes n y -> x = y.
Proof.
  intros Hx Hy E. rewrite <- (be_value_be_bytes_small n x), <- (be_value_be_bytes_small n y);
    [congruence | done..].
Qed.

Lemma be16_value b0 b1 : be16 b0 b1 = be_value [b0; b1].
Proof.
  unfold be16. pose proof (u8_range b0). pose proof (u8_range b1).
  rewrite wrap_small by (rewrite !Z.shiftl_mul_pow2; lia).
  rewrite lor_shiftl_add, be_value_cons, be_value_single by lia. done.
Qed.

Lemma be32_value b0 b1 b2 b3 : be32 b0 b1 b2 b3 = be_value [b0; b1; b2; b3].
Proof.
  unfold be32. pose proof (u8_range b0). pose proof (u8_range b1).
  pose proof (u8_range b2). pose proof (u8_range b3).
  rewrite !wrap_small by (rewrite !Z.shiftl_mul_pow2; lia).
  rewrite (lor_shiftl_add (u8 b0) _ 24) by (rewrite ?Z.shiftl_mul_pow2 by lia; lia).
  rewrite !be_value_cons, be_value_nil. cbn [length].
  replace (u8 b0 * 2 ^ 24 + Z.shiftl (u8 b1) 16)
    with (Z.shiftl (u8 b0 * 2 ^ 8 + u8 b1) 16) by (rewrite !Z.shiftl_mul_pow2; lia).
  rewrite (lor_shiftl_add _ _ 16) by (rewrite ?Z.shiftl_mul_pow2 by lia; lia).
  replace ((u8 b0 * 2 ^ 8 + u8 b1) * 2 ^ 16 + Z.shiftl (u8 b2) 8)
    with (Z.shiftl (u8 b0 * 2 ^ 16 + u8 b1 * 2 ^ 8 + u8 b2) 8)
    by (rewrite !Z.shiftl_mul_pow2; lia).
  rewrite (lor_shiftl_add _ _ 8) by lia. lia.
Qed.

(** ** Memory *)

Lemma length_sub off n data :
  (off + n <= length data)%nat -> length (sub off n data) = n.
Proof. intros H. unfold sub. len. Qed.

Lemma sub_app_exact pre mid post off n :
  off = length pre -> n = length mid -> sub off n (pre ++ mid ++ post) = mid.
Proof.
  intros -> ->. unfold sub. by rewrite drop_app_length, take_app_length.
Qed.

Lemma sub_app_head a l n : n = length a -> sub 0 n (a ++ l) = a.
Proof. intros ->. apply (sub_app_exact [] a l); done. Qed.

Lemma sub_app_skip a l off n :
  (length a <= off)%nat -> sub off n (a ++ l) = sub (off - length a) n l.
Proof.
  intros H. unfold sub. rewrite drop_app.
  by rewrite (drop_ge a) by done.
Qed.

Lemma sub_all data n : n = length data -> sub 0 n data = data.
Proof. intros ->. unfold sub. simpl. by rewrite take_ge. Qed.

Lemma sub_split off n m data : sub off (n + m) data = sub off n data ++ sub (off + n) m data.
Proof. unfold sub. by rewrite <- drop_drop, take_take_drop. Qed.

Lemma sub_sub off n i m data :
  (i + m <= n)%nat -> sub i m (sub off n data) = sub (off + i) m data.
Proof.
  intros H. unfold sub. rewrite skipn_firstn_comm, take_take, drop_drop. f_equal. lia.
Qed.

Lemma sub_take k off n data :
  (off + n <= k)%nat -> sub off n (take k data) = sub off n data.
Proof. intros H. apply (sub_sub 0 k off n data H). Qed.

Lemma sub_cons off n data b :
  data !! off = Some b -> sub off (S n) data = b :: sub (S off) n data.
Proof. intros H. unfold sub. by rewrite (drop_S _ _ _ H). Qed.

Lemma rd_ok data i :
  0 <= i < Z.of_nat (length data) ->
  exists b, rd data i = Def b /\ data !! Z.to_nat i = Some b.
Proof.
  intros H. unfold rd. rewrite (proj2 (Z.leb_le 0 i)) by lia.
  destruct (data !! Z.to_nat i) as [b|] eqn:E; [by eauto|].
  apply lookup_ge_None in E. lia.
Qed.

Lemma rd_Def data i b : rd data i = Def b <-> 0 <= i /\ data !! Z.to_nat i = Some b.
Proof.
  unfold rd. destruct (Z.leb_spec 0 i); [|split; [done | lia]].
  destruct (data !! Z.to_nat i); split; intros; by destruct_and?; simplify_eq.
Qed.

Lemma rd_UB data i : Z.of_nat (length data) <= i -> rd data i = UB.
Proof.
  intros H. unfold rd. destruct (0 <=? i); [|done].
  by rewrite lookup_ge_None_2 by lia.
Qed.

Lemma rd_app_exact pre b post i :
  i = Z.of_nat (length pre) -> rd (pre ++ b :: post) i = Def b.
Proof.
  intros ->. apply rd_Def. split; [lia|]. rewrite Nat2Z.id. by rewrite list_lookup_middle.
Qed.

Lemma rd_slice_ok data off n :
  0 <= off -> 0 <= n -> off + n <= Z.of_nat (length data) ->
  rd_slice data off n = Def (sub (Z.to_nat off) (Z.to_nat n) data).
Proof.
  intros H1 H2 H3. unfold rd_slice.
  by rewrite (proj2 (Z.leb_le 0 off) H1), (proj2 (Z.leb_le 0 n) H2), (proj2 (Z.leb_le _ _) H3).
Qed.

Lemma rd_slice_Def data off n l :
  rd_slice data off n = Def l ->
  0 <= off /\ 0 <= n /\ off + n <= Z.of_nat (length data) /\
  l = sub (Z.to_nat off) (Z.to_nat n) data.
Proof.
  unfold rd_slice. destruct (_ && _) eqn:E; [|done].
  intros [= <-]. repeat split; lia.
Qed.

Lemma rd_be16_ok data i :
  0 <= i -> i + 2 <= Z.of_nat (length data) ->
  rd_be16 data i = Def (be_value (sub (Z.to_nat i) 2 data)).
Proof.
  intros H1 H2. unfold rd_be16.
  destruct (rd_ok data i) as (b0 & -> & E0); [lia|].
  destruct (rd_ok data (i + 1)) as (b1 & -> & E1); [lia|].
  replace (Z.to_nat (i + 1)) with (S (Z.to_nat i)) in E1 by lia.
  simpl. rewrite be16_value.
  by rewrite (sub_cons _ _ _ _ E0), (sub_cons _ _ _ _ E1).
Qed.

Lemma rd_be32_ok data i :
  0 <= i -> i + 4 <= Z.of_nat (length data) ->
  rd_be32 data i = Def (be_value (sub (Z.to_nat i) 4 data)).
Proof.
  intros H1 H2. unfold rd_be32.
  destruct (rd_ok data i) as (b0 & -> & E0); [lia|].
  destruct (rd_ok data (i + 1)) as (b1 & -> & E1); [lia|].
  destruct (rd_ok data (i + 2)) as (b2 & -> & E2); [lia|].
  destruct (rd_ok data (i + 3)) as (b3 & -> & E3); [lia|].
  replace (Z.to_nat (i + 1)) with (S (Z.to_nat i)) in E1 by lia.
  replace (Z.to_nat (i + 2)) with (S (S (Z.to_nat i))) in E2 by lia.
  replace (Z.to_nat (i + 3)) with (S (S (S (Z.to_nat i)))) in E3 by lia.
  simpl. rewrite be32_value.
  by rewrite (sub_cons _ _ _ _ E0), (sub_cons _ _ _ _ E1), (sub_cons _ _ _ _ E2),
    (sub_cons _ _ _ _ E3).
Qed.

(** Filling a zeroed buffer from left to right. *)
Lemma memcpy_fill pre src n off :
  off = Z.of_nat (length pre) -> (length src <= n)%nat ->
  memcpy_to (pre ++ replicate n x00) off src =
    Def ((pre ++ src) ++ replicate (n - length src) x00).
Proof.
  intros -> H. unfold memcpy_to.
  replace (_ && _) with true by (symmetry; len).
  rewrite Nat2Z.id, take_app_length, <- drop_drop, drop_app_length, drop_replicate.
  by rewrite <- app_assoc.
Qed.

Lemma poke_fill pre b n off :
  off = Z.of_nat (length pre) -> (1 <= n)%nat ->
  poke (pre ++ replicate n x00) off b = Def ((pre ++ [b]) ++ replicate (n - 1) x00).
Proof. intros H1 H2. by apply memcpy_fill. Qed.

Lemma memcpy_to_length buf off src buf' :
  memcpy_to buf off src = Def buf' -> length buf' = length buf.
Proof.
  unfold memcpy_to. destruct (_ && _) eqn:E; [|done]. intros [= <-].
  apply andb_prop in E as [E1%Z.leb_le E2%Z.leb_le]. len.
Qed.

#[global] Arguments be_bytes : simpl never.
#[global] Arguments be_value : simpl never.
#[global] Arguments sub : simpl never.
#[global] Arguments to_u8 : simpl never.
#[global] Arguments u8 : simpl never.
