(* ===== verification/Protocol.v ===== *)
(** * Protocol: error codes and the canonical 108-byte authentication payload

    Models windows/common/Protocol.h and Protocol.cpp: [ErrorCode],
    [ErrorCodeToString], [AuthPayload] with its constructor, [Serialize]
    (buffer writes at running offsets) and [Deserialize] (the out-parameters
    are threaded as state, so a rejected parse still shows which fields were
    written). *)
From S2P Require Import Prelude Bytes.

(** ** Constants *)
Definition DOMAIN_SIZE : Z := 16.
Definition UUID_SIZE : Z := 16.
Definition CHALLENGE_SIZE : Z := 32.
Definition CANONICAL_PAYLOAD_SIZE : Z := 108.

(** "PhoneKey-Auth-v1" *)
Definition DOMAIN_PREFIX : list byte :=
  [x50; x68; x6f; x6e; x65; x4b; x65; x79; x2d; x41; x75; x74; x68; x2d; x76; x31].

Definition CURRENT_PROTOCOL_VERSION : Z := 0x0100.
Definition ALGORITHM_ECDSA_P256_SHA256 : Z := 0x0001.
Definition DEFAULT_CHALLENGE_TTL_MS : Z := 30000.

(** ** Error codes *)
Inductive ErrorCode : Type :=
| SUCCESS
| INVALID_REQUEST
| INVALID_PROTOCOL_VERSION
| INVALID_ALGORITHM
| UNKNOWN_DEVICE
| INVALID_SIGNATURE
| CHALLENGE_NOT_FOUND
| CHALLENGE_EXPIRED
| CHALLENGE_ALREADY_CONSUMED
| SESSION_MISMATCH
| DEVICE_MISMATCH
| PC_MISMATCH
| MALFORMED_SIGNATURE
| CRYPTO_ERROR
| BIOMETRIC_REQUIRED
| BIOMETRIC_FAILED
| KEY_INVALIDATED.

#[export] Instance ErrorCode_eq_dec : EqDecision ErrorCode.
Proof. solve_decision. Defined.

(** The underlying [uint16_t]. *)
Definition ErrorCode_value (code : ErrorCode) : Z :=
  match code with
  | SUCCESS => 0x0000
  | INVALID_REQUEST => 0x0001
  | INVALID_PROTOCOL_VERSION => 0x0002
  | INVALID_ALGORITHM => 0x0003
  | UNKNOWN_DEVICE => 0x0004
  | INVALID_SIGNATURE => 0x0005
  | CHALLENGE_NOT_FOUND => 0x0006
  | CHALLENGE_EXPIRED => 0x0007
  | CHALLENGE_ALREADY_CONSUMED => 0x0008
  | SESSION_MISMATCH => 0x0009
  | DEVICE_MISMATCH => 0x000A
  | PC_MISMATCH => 0x000B
  | MALFORMED_SIGNATURE => 0x000C
  | CRYPTO_ERROR => 0x000D
  | BIOMETRIC_REQUIRED => 0x000E
  | BIOMETRIC_FAILED => 0x000F
  | KEY_INVALIDATED => 0x0010
  end.

(** The [default] branch of the source serves values outside the enumeration,
    which no constructor denotes. *)
Definition ErrorCodeToString (code : ErrorCode) : string :=
  match code with
  | SUCCESS => "SUCCESS"
  | INVALID_REQUEST => "INVALID_REQUEST"
  | INVALID_PROTOCOL_VERSION => "INVALID_PROTOCOL_VERSION"
  | INVALID_ALGORITHM => "INVALID_ALGORITHM"
  | UNKNOWN_DEVICE => "UNKNOWN_DEVICE"
  | INVALID_SIGNATURE => "INVALID_SIGNATURE"
  | CHALLENGE_NOT_FOUND => "CHALLENGE_NOT_FOUND"
  | CHALLENGE_EXPIRED => "CHALLENGE_EXPIRED"
  | CHALLENGE_ALREADY_CONSUMED => "CHALLENGE_ALREADY_CONSUMED"
  | SESSION_MISMATCH => "SESSION_MISMATCH"
  | DEVICE_MISMATCH => "DEVICE_MISMATCH"
  | PC_MISMATCH => "PC_MISMATCH"
  | MALFORMED_SIGNATURE => "MALFORMED_SIGNATURE"
  | CRYPTO_ERROR => "CRYPTO_ERROR"
  | BIOMETRIC_REQUIRED => "BIOMETRIC_REQUIRED"
  | BIOMETRIC_FAILED => "BIOMETRIC_FAILED"
  | KEY_INVALIDATED => "KEY_INVALIDATED"
  end.

(** ** The payload *)
Record AuthPayload : Type := {
  domain : list byte;
  protocolVersion : Z;
  algorithmId : Z;
  deviceId : list byte;
  sessionId : list byte;
  pcId : list byte;
  challenge : list byte;
  expirationTimestampMs : Z;
}.

(** What the C++ field types guarantee. *)
Record wf_payload (p : AuthPayload) : Prop := {
  wf_domain : length (domain p) = 16%nat;
  wf_version : 0 <= protocolVersion p < 2 ^ 16;
  wf_algorithm : 0 <= algorithmId p < 2 ^ 16;
  wf_device : length (deviceId p) = 16%nat;
  wf_session : length (sessionId p) = 16%nat;
  wf_pc : length (pcId p) = 16%nat;
  wf_challenge : length (challenge p) = 32%nat;
  wf_expiration : 0 <= expirationTimestampMs p < 2 ^ 64;
}.

(** Assignments to the fields of an out-parameter. *)
Definition with_domain v (p : AuthPayload) : AuthPayload :=
  {| domain := v; protocolVersion := protocolVersion p; algorithmId := algorithmId p;
     deviceId := deviceId p; sessionId := sessionId p; pcId := pcId p;
     challenge := challenge p; expirationTimestampMs := expirationTimestampMs p |}.
Definition with_protocolVersion v (p : AuthPayload) : AuthPayload :=
  {| domain := domain p; protocolVersion := v; algorithmId := algorithmId p;
     deviceId := deviceId p; sessionId := sessionId p; pcId := pcId p;
     challenge := challenge p; expirationTimestampMs := expirationTimestampMs p |}.
Definition with_algorithmId v (p : AuthPayload) : AuthPayload :=
  {| domain := domain p; protocolVersion := protocolVersion p; algorithmId := v;
     deviceId := deviceId p; sessionId := sessionId p; pcId := pcId p;
     challenge := challenge p; expirationTimestampMs := expirationTimestampMs p |}.
Definition with_deviceId v (p : AuthPayload) : AuthPayload :=
  {| domain := domain p; protocolVersion := protocolVersion p; algorithmId := algorithmId p;
     deviceId := v; sessionId := sessionId p; pcId := pcId p;
     challenge := challenge p; expirationTimestampMs := expirationTimestampMs p |}.
Definition with_sessionId v (p : AuthPayload) : AuthPayload :=
  {| domain := domain p; protocolVersion := protocolVersion p; algorithmId := algorithmId p;
     deviceId := deviceId p; sessionId := v; pcId := pcId p;
     challenge := challenge p; expirationTimestampMs := expirationTimestampMs p |}.
Definition with_pcId v (p : AuthPayload) : AuthPayload :=
  {| domain := domain p; protocolVersion := protocolVersion p; algorithmId := algorithmId p;
     deviceId := deviceId p; sessionId := sessionId p; pcId := v;
     challenge := challenge p; expirationTimestampMs := expirationTimestampMs p |}.
Definition with_challenge v (p : AuthPayload) : AuthPayload :=
  {| domain := domain p; protocolVersion := protocolVersion p; algorithmId := algorithmId p;
     deviceId := deviceId p; sessionId := sessionId p; pcId := pcId p;
     challenge := v; expirationTimestampMs := expirationTimestampMs p |}.
Definition with_expiration v (p : AuthPayload) : AuthPayload :=
  {| domain := domain p; protocolVersion := protocolVersion p; algorithmId := algorithmId p;
     deviceId := deviceId p; sessionId := sessionId p; pcId := pcId p;
     challenge := challenge p; expirationTimestampMs := v |}.

(** [AuthPayload::AuthPayload()] *)
Definition new_AuthPayload : AuthPayload :=
  {| domain := DOMAIN_PREFIX;
     protocolVersion := CURRENT_PROTOCOL_VERSION;
     algorithmId := ALGORITHM_ECDSA_P256_SHA256;
     deviceId := replicate 16 x00;
     sessionId := replicate 16 x00;
     pcId := replicate 16 x00;
     challenge := replicate 32 x00;
     expirationTimestampMs := 0 |}.

(** The low byte of [v >> s], as [static_cast<uint8_t>((v >> s) & 0xFF)]. *)
Definition byte_at (v s : Z) : byte := to_u8 (Z.land (Z.shiftr v s) 0xFF).

(** [for (int i = 7; i >= 0; --i) buffer[offset + (7 - i)] = (v >> (i * 8)) & 0xFF];
    [n] is [i + 1]. *)
Fixpoint write_be64_loop (n : nat) (v offset : Z) (buffer : list byte) : Res (list byte) :=
  match n with
  | O => Def buffer
  | S i =>
      let? buffer := poke buffer (offset + (7 - Z.of_nat i)) (byte_at v (Z.of_nat i * 8)) in
      write_be64_loop i v offset buffer
  end.

Definition Serialize (p : AuthPayload) : Res (list byte) :=
  let buffer := replicate (Z.to_nat CANONICAL_PAYLOAD_SIZE) x00 in
  let offset := 0 in
  let? buffer := memcpy_to buffer offset (domain p) in
  let offset := offset + DOMAIN_SIZE in
  let? buffer := poke buffer offset (byte_at (protocolVersion p) 8) in
  let? buffer := poke buffer (offset + 1) (byte_at (protocolVersion p) 0) in
  let offset := offset + 2 in
  let? buffer := poke buffer offset (byte_at (algorithmId p) 8) in
  let? buffer := poke buffer (offset + 1) (byte_at (algorithmId p) 0) in
  let offset := offset + 2 in
  let? buffer := memcpy_to buffer offset (deviceId p) in
  let offset := offset + UUID_SIZE in
  let? buffer := memcpy_to buffer offset (sessionId p) in
  let offset := offset + UUID_SIZE in
  let? buffer := memcpy_to buffer offset (pcId p) in
  let offset := offset + UUID_SIZE in
  let? buffer := memcpy_to buffer offset (challenge p) in
  let offset := offset + CHALLENGE_SIZE in
  write_be64_loop 8 (expirationTimestampMs p) offset buffer.

(** [for (i = 0; i < 8; ++i) t = (t << 8) | data[offset + i]]; [n] iterations left. *)
Fixpoint read_be64_loop (n : nat) (data : list byte) (offset i t : Z) : Res Z :=
  match n with
  | O => Def t
  | S n =>
      let? b := rd data (offset + i) in
      read_be64_loop n data offset (i + 1) (Z.lor (u64 (Z.shiftl t 8)) (u8 b))
  end.

(** The result of [Deserialize]: the returned flag and both out-parameters. *)
Record ParseResult : Type := { ok : bool; outPayload : AuthPayload; outError : ErrorCode }.

(** [data = None] is the null pointer; [Some d] is readable for [length d] bytes. *)
Definition Deserialize (data : option (list byte)) (size : Z) (outP : AuthPayload)
    : Res ParseResult :=
  match data with
  | None => Def {| ok := false; outPayload := outP; outError := INVALID_REQUEST |}
  | Some data =>
    if negb (size =? CANONICAL_PAYLOAD_SIZE)
    then Def {| ok := false; outPayload := outP; outError := INVALID_REQUEST |}
    else
    let offset := 0 in
    let? d := rd_slice data offset DOMAIN_SIZE in
    let outP := with_domain d outP in
    if negb (bool_decide (domain outP = DOMAIN_PREFIX))
    then Def {| ok := false; outPayload := outP; outError := INVALID_REQUEST |}
    else
    let offset := offset + DOMAIN_SIZE in
    let? v := rd_be16 data offset in
    let outP := with_protocolVersion v outP in
    if negb (protocolVersion outP =? CURRENT_PROTOCOL_VERSION)
    then Def {| ok := false; outPayload := outP; outError := INVALID_PROTOCOL_VERSION |}
    else
    let offset := offset + 2 in
    let? v := rd_be16 data offset in
    let outP := with_algorithmId v outP in
    if negb (algorithmId outP =? ALGORITHM_ECDSA_P256_SHA256)
    then Def {| ok := false; outPayload := outP; outError := INVALID_ALGORITHM |}
    else
    let offset := offset + 2 in
    let? v := rd_slice data offset UUID_SIZE in
    let outP := with_deviceId v outP in
    let offset := offset + UUID_SIZE in
    let? v := rd_slice data offset UUID_SIZE in
    let outP := with_sessionId v outP in
    let offset := offset + UUID_SIZE in
    let? v := rd_slice data offset UUID_SIZE in
    let outP := with_pcId v outP in
    let offset := offset + UUID_SIZE in
    let? v := rd_slice data offset CHALLENGE_SIZE in
    let outP := with_challenge v outP in
    let offset := offset + CHALLENGE_SIZE in
    let? v := read_be64_loop 8 data offset 0 0 in
    let outP := with_expiration v outP in
    Def {| ok := true; outPayload := outP; outError := SUCCESS |}
  end.

(** ** Reference layout *)
Definition layout (p : AuthPayload) : list byte :=
  domain p ++ be_bytes 2 (protocolVersion p) ++ be_bytes 2 (algorithmId p) ++
  deviceId p ++ sessionId p ++ pcId p ++ challenge p ++
  be_bytes 8 (expirationTimestampMs p).

(** The payload whose fields sit at the documented offsets of [data]. *)
Definition fields_at (data : list byte) : AuthPayload :=
  {| domain := sub 0 16 data;
     protocolVersion := be_value (sub 16 2 data);
     algorithmId := be_value (sub 18 2 data);
     deviceId := sub 20 16 data;
     sessionId := sub 36 16 data;
     pcId := sub 52 16 data;
     challenge := sub 68 32 data;
     expirationTimestampMs := be_value (sub 100 8 data) |}.

(** The header checks of [Deserialize], in order, with the out-parameter each
    failing check leaves behind. *)
Definition header_check (data : list byte) (outP : AuthPayload) : ParseResult :=
  let f := fields_at data in
  let o1 := with_domain (domain f) outP in
  let o2 := with_protocolVersion (protocolVersion f) o1 in
  let o3 := with_algorithmId (algorithmId f) o2 in
  if decide (domain f <> DOMAIN_PREFIX)
  then {| ok := false; outPayload := o1; outError := INVALID_REQUEST |}
  else if decide (protocolVersion f <> CURRENT_PROTOCOL_VERSION)
  then {| ok := false; outPayload := o2; outError := INVALID_PROTOCOL_VERSION |}
  else if decide (algorithmId f <> ALGORITHM_ECDSA_P256_SHA256)
  then {| ok := false; outPayload := o3; outError := INVALID_ALGORITHM |}
  else {| ok := true; outPayload := f; outError := SUCCESS |}.

(** ** Helper lemmas *)

Lemma byte_at_to_u8 v s : byte_at v s = to_u8 (Z.shiftr v s).
Proof.
  unfold byte_at. apply u8_inj. rewrite !u8_to_u8.
  change 0xFF with (Z.ones 8). rewrite Z.land_ones by lia.
  change 256 with (2 ^ 8). by rewrite Zmod_mod.
Qed.

Lemma be_bytes_2 v : be_bytes 2 v = [byte_at v 8; byte_at v 0].
Proof. by rewrite !byte_at_to_u8. Qed.

Lemma write_be64_loop_spec n v offset pre :
  Z.of_nat (length pre) = offset + 8 - Z.of_nat n ->
  write_be64_loop n v offset (pre ++ replicate n x00) = Def (pre ++ be_bytes n v).
Proof.
  revert pre. induction n as [|n IH]; intros pre H; [done|].
  cbn [write_be64_loop]. rewrite poke_fill by lia.
  change (S n - 1)%nat with (n - 0)%nat. rewrite Nat.sub_0_r. cbn.
  rewrite IH by (len). rewrite <- app_assoc, byte_at_to_u8. cbn.
  by rewrite Z.mul_comm.
Qed.

Lemma read_be64_loop_spec n data offset i t :
  0 <= offset -> 0 <= i -> i + Z.of_nat n <= 8 ->
  offset + i + Z.of_nat n <= Z.of_nat (length data) ->
  0 <= t < 2 ^ (8 * i) ->
  read_be64_loop n data offset i t =
    Def (t * 2 ^ (8 * Z.of_nat n) + be_value (sub (Z.to_nat (offset + i)) n data)).
Proof.
  revert i t. induction n as [|n IH]; intros i t Ho Hi Hn Hl Ht; cbn [read_be64_loop].
  - f_equal. cbn. unfold sub. rewrite take_0, be_value_nil. lia.
  - destruct (rd_ok data (offset + i)) as (b & -> & Eb); [lia|]. cbn.
    pose proof (u8_range b) as Rb.
    assert (Hp : 2 ^ (8 * (i + 1)) = 2 ^ (8 * i) * 256).
    { rewrite <- (Z.pow_add_r 2 _ 8) by lia. f_equal. lia. }
    assert (2 ^ (8 * (i + 1)) <= 2 ^ 64) by (apply Z.pow_le_mono_r; lia).
    rewrite wrap_small by (rewrite Z.shiftl_mul_pow2; lia).
    rewrite (lor_shiftl_add _ _ 8), IH by lia.
    rewrite (sub_cons _ _ _ _ Eb), be_value_cons, length_sub by (len).
    replace (Z.to_nat (offset + (i + 1))) with (S (Z.to_nat (offset + i))) by lia.
    replace (8 * Z.of_nat (S n)) with (8 + 8 * Z.of_nat n) by lia.
    rewrite Z.pow_add_r by lia. f_equal. ring.
Qed.

Lemma Serialize_layout p : wf_payload p -> Serialize p = Def (layout p).
Proof.
  intros []. unfold Serialize, DOMAIN_SIZE, UUID_SIZE, CHALLENGE_SIZE. cbn zeta.
  change (replicate (Z.to_nat CANONICAL_PAYLOAD_SIZE) x00)
    with ([] ++ replicate 108 x00).
  repeat (first [rewrite memcpy_fill by (len) | rewrite poke_fill by (len)];
          cbn [mbind Res_bind]).
  rewrite wf_domain0, wf_device0, wf_session0, wf_pc0, wf_challenge0.
  rewrite (write_be64_loop_spec 8) by (len).
  f_equal. unfold layout. rewrite !be_bytes_2, <- !app_assoc. done.
Qed.

Lemma Deserialize_spec data size q :
  size <= Z.of_nat (length data) ->
  Deserialize (Some data) size q =
    Def (if decide (size = CANONICAL_PAYLOAD_SIZE) then header_check data q
         else {| ok := false; outPayload := q; outError := INVALID_REQUEST |}).
Proof.
  intros Hl. unfold Deserialize, header_check.
  destruct (Z.eqb_spec size CANONICAL_PAYLOAD_SIZE) as [E|E]; cbn [negb];
    [rewrite decide_True by done | by rewrite decide_False by done].
  unfold CANONICAL_PAYLOAD_SIZE in E. subst size.
  unfold DOMAIN_SIZE, UUID_SIZE, CHALLENGE_SIZE. cbn zeta.
  rewrite !rd_slice_ok, !rd_be16_ok, read_be64_loop_spec by lia.
  cbn [mbind Res_bind]. cbn [domain protocolVersion algorithmId with_domain
    with_protocolVersion with_algorithmId].
  change (sub (Z.to_nat 0) (Z.to_nat 16) data) with (domain (fields_at data)).
  destruct (decide (domain (fields_at data) = DOMAIN_PREFIX)) as [E1|E1];
    [rewrite bool_decide_true, decide_False by auto
    | by rewrite bool_decide_false, decide_True by auto].
  cbn [negb].
  change (be_value (sub (Z.to_nat (0 + 16)) 2 data)) with (protocolVersion (fields_at data)).
  destruct (Z.eqb_spec (protocolVersion (fields_at data)) CURRENT_PROTOCOL_VERSION) as [E2|E2];
    [rewrite decide_False by auto | by rewrite decide_True by auto].
  cbn [negb].
  change (be_value (sub (Z.to_nat (0 + 16 + 2)) 2 data)) with (algorithmId (fields_at data)).
  destruct (Z.eqb_spec (algorithmId (fields_at data)) ALGORITHM_ECDSA_P256_SHA256) as [E3|E3];
    [rewrite decide_False by auto | by rewrite decide_True by auto].
  done.
Qed.

Lemma length_layout p : wf_payload p -> length (layout p) = 108%nat.
Proof. intros []. unfold layout. len. Qed.

(** Reads a field out of a concatenation of fields of known lengths. *)
Ltac sub_field :=
  repeat (rewrite sub_app_skip by (len));
  rewrite ?length_be_bytes;
  repeat match goal with H : length ?l = _ |- context [length ?l] => rewrite H end;
  cbn [Nat.sub]; rewrite ?sub_app_head by (len).

Lemma fields_at_layout p rest : wf_payload p -> fields_at (layout p ++ rest) = p.
Proof.
  intros W. destruct W. unfold fields_at, layout. rewrite <- !app_assoc.
  destruct p as [d v a dev ses pc ch e].
  cbn [domain protocolVersion algorithmId deviceId sessionId pcId challenge
       expirationTimestampMs] in *.
  f_equal; sub_field; rewrite ?be_value_be_bytes_small by (cbn; lia); done.
Qed.

Lemma wf_fields_at data : (108 <= length data)%nat -> wf_payload (fields_at data).
Proof.
  intros H. constructor; unfold fields_at; simpl; rewrite ?length_sub by lia; try done.
  all: match goal with |- context [be_value ?l] => pose proof (be_value_range l) as R end.
  all: rewrite length_sub in R by lia; done.
Qed.

Lemma be_bytes_sub data off n :
  (off + n <= length data)%nat -> be_bytes n (be_value (sub off n data)) = sub off n data.
Proof.
  intros H. rewrite <- (length_sub off n data) at 1 by done. apply be_bytes_be_value.
Qed.

Lemma layout_fields_at data : (108 <= length data)%nat -> layout (fields_at data) = take 108 data.
Proof.
  intros H. unfold layout, fields_at.
  cbn [domain protocolVersion algorithmId deviceId sessionId pcId challenge
       expirationTimestampMs].
  rewrite !be_bytes_sub by lia. change (take 108 data) with (sub 0 (16+(2+(2+(16+(16+(16+(32+8)))))) ) data).
  by rewrite !sub_split.
Qed.

(** The header [Deserialize] insists on. *)
Definition valid_header (p : AuthPayload) : Prop :=
  domain p = DOMAIN_PREFIX /\ protocolVersion p = CURRENT_PROTOCOL_VERSION /\
  algorithmId p = ALGORITHM_ECDSA_P256_SHA256.

Lemma header_check_valid data q :
  valid_header (fields_at data) ->
  header_check data q = {| ok := true; outPayload := fields_at data; outError := SUCCESS |}.
Proof.
  intros (H1 & H2 & H3). unfold header_check.
  by rewrite !decide_False by (intros ?; done).
Qed.

Lemma header_check_ok data q :
  ok (header_check data q) = true ->
  valid_header (fields_at data) /\ outPayload (header_check data q) = fields_at data /\
  outError (header_check data q) = SUCCESS.
Proof.
  unfold header_check, valid_header. repeat case_decide; naive_solver.
Qed.

(** Successful parses of a readable buffer. *)
Lemma Deserialize_ok data size q r :
  size <= Z.of_nat (length data) ->
  Deserialize (Some data) size q = Def r -> ok r = true ->
  size = 108 /\ valid_header (fields_at data) /\ outPayload r = fields_at data /\
  outError r = SUCCESS.
Proof.
  intros Hl. rewrite Deserialize_spec by done.
  case_decide as E; intros [= <-]; [|done].
  intros (H1 & H2 & H3)%header_check_ok. done.
Qed.

Lemma new_AuthPayload_valid : wf_payload new_AuthPayload /\ valid_header new_AuthPayload.
Proof. repeat split; done. Qed.

(** ** Properties *)

(** Round trip.  Serializing a payload with a valid header gives exactly
    108 bytes, and deserializing those bytes (even with a signature following
    them in the same buffer, and whatever the out-parameter held before) gives
    back the same payload with [SUCCESS]. *)
Theorem Deserialize_Serialize (p q : AuthPayload) (rest : list byte)
    (Hwf : wf_payload p) (Hh : valid_header p) :
  exists buf, Serialize p = Def buf /\ length buf = 108%nat /\
    Deserialize (Some (buf ++ rest)) 108 q =
      Def {| ok := true; outPayload := p; outError := SUCCESS |}.
Proof.
  exists (layout p). split; [by apply Serialize_layout|].
  split; [by apply length_layout|].
  rewrite Deserialize_spec by (rewrite length_app, length_layout by done; lia).
  rewrite decide_True by done. rewrite header_check_valid; by rewrite fields_at_layout.
Qed.

(** C32: the encoding is canonical.  Whenever [Deserialize] accepts a readable
    buffer, the size was 108, the payload it returns is well formed with the
    fixed domain, version and algorithm, and serializing it reproduces the
    108 accepted bytes, so two accepted buffers with the same meaning are the
    same bytes. *)
Theorem Deserialize_canonical (data : list byte) (size : Z) (q : AuthPayload) (r : ParseResult)
    (Hsize : size <= Z.of_nat (length data))
    (Hr : Deserialize (Some data) size q = Def r) (Hok : ok r = true) :
  size = 108 /\ outError r = SUCCESS /\ wf_payload (outPayload r) /\
  valid_header (outPayload r) /\ Serialize (outPayload r) = Def (take 108 data).
Proof.
  destruct (Deserialize_ok data size q r) as (-> & Hv & -> & He); [done..|].
  assert ((108 <= length data)%nat) as L by lia.
  pose proof (wf_fields_at data L) as W.
  rewrite Serialize_layout, layout_fields_at by done. done.
Qed.

(** Every rejection is the documented one.  On any readable buffer
    [Deserialize] terminates without touching memory outside it, and reports
    [INVALID_REQUEST] for a wrong length or domain, [INVALID_PROTOCOL_VERSION]
    for a foreign version, [INVALID_ALGORITHM] for a foreign algorithm, in
    this order of precedence, and [SUCCESS] otherwise; a null pointer is
    [INVALID_REQUEST]. *)
Theorem Deserialize_outcome (data : list byte) (size : Z) (q : AuthPayload)
    (Hsize : size <= Z.of_nat (length data)) :
  Deserialize None size q = Def {| ok := false; outPayload := q; outError := INVALID_REQUEST |} /\
  exists r, Deserialize (Some data) size q = Def r /\
    ok r = bool_decide (outError r = SUCCESS) /\
    outError r =
      if decide (size <> 108 \/ sub 0 16 data <> DOMAIN_PREFIX) then INVALID_REQUEST
      else if decide (be_value (sub 16 2 data) <> 0x0100) then INVALID_PROTOCOL_VERSION
      else if decide (be_value (sub 18 2 data) <> 0x0001) then INVALID_ALGORITHM
      else SUCCESS.
Proof.
  split; [done|]. rewrite Deserialize_spec by done. eexists; split; [done|].
  unfold header_check, CANONICAL_PAYLOAD_SIZE, CURRENT_PROTOCOL_VERSION,
    ALGORITHM_ECDSA_P256_SHA256; cbn [domain protocolVersion algorithmId fields_at].
  destruct (decide (size = 108)) as [->|Hs];
    [|rewrite decide_True by auto; done].
  destruct (decide (sub 0 16 data <> DOMAIN_PREFIX)) as [Hd|Hd];
    [rewrite (decide_True (P := _ \/ _)) by auto; done|].
  rewrite (decide_False (P := _ \/ _)) by naive_solver.
  by repeat case_decide.
Qed.

(** The signed bytes bind every field: two well-formed payloads that
    serialize to the same bytes are equal. *)
Theorem Serialize_injective (p q : AuthPayload) (Hp : wf_payload p) (Hq : wf_payload q)
    (E : Serialize p = Serialize q) : p = q.
Proof.
  rewrite !Serialize_layout in E by done. injection E as E.
  rewrite <- (fields_at_layout p []), <- (fields_at_layout q []) by done. by rewrite E.
Qed.

(** ** Test vector and witnesses *)

(** protocol/test-vectors/vector_valid.json *)
Definition vector_payload : AuthPayload :=
  {| domain := DOMAIN_PREFIX; protocolVersion := 256; algorithmId := 1;
     deviceId := map to_u8 [0x11; 0x11; 0x11; 0x11; 0x22; 0x22; 0x33; 0x33; 0x44; 0x44;
                            0x55; 0x55; 0x55; 0x55; 0x55; 0x55];
     sessionId := map to_u8 [0xaa; 0xaa; 0xaa; 0xaa; 0x00; 0x00; 0x11; 0x11; 0x22; 0x22;
                             0xbb; 0xbb; 0xbb; 0xbb; 0xbb; 0xbb];
     pcId := map to_u8 [0x99; 0x99; 0x99; 0x99; 0x88; 0x88; 0x77; 0x77; 0x66; 0x66;
                        0x55; 0x55; 0x55; 0x55; 0x55; 0x55];
     challenge := map (fun i => to_u8 (Z.of_nat i)) (seq 0 32);
     expirationTimestampMs := 1776182400000 |}.

Example vector_payload_tail :
  exists buf, Serialize vector_payload = Def buf /\
    sub 100 8 buf = map to_u8 [0x00; 0x00; 0x01; 0x9d; 0x8c; 0xb8; 0x94; 0x00].
Proof. eexists. split; [vm_compute; reflexivity | reflexivity]. Qed.

Lemma vector_payload_wf : wf_payload vector_payload.
Proof. split; vm_compute; done. Qed.

Lemma vector_payload_header : valid_header vector_payload.
Proof. repeat split. Qed.

Lemma Deserialize_Serialize_witness :
  exists buf, Serialize vector_payload = Def buf /\ length buf = 108%nat /\
    Deserialize (Some (buf ++ [x30; x45])) 108 new_AuthPayload =
      Def {| ok := true; outPayload := vector_payload; outError := SUCCESS |}.
Proof.
  exact (Deserialize_Serialize vector_payload new_AuthPayload [x30; x45]
           vector_payload_wf vector_payload_header).
Defined.

Lemma Deserialize_canonical_witness :
  exists r, Deserialize (Some (layout vector_payload)) 108 new_AuthPayload = Def r /\
    Serialize (outPayload r) = Def (layout vector_payload).
Proof.
  exists {| ok := true; outPayload := vector_payload; outError := SUCCESS |}.
  assert (E : Deserialize (Some (layout vector_payload)) 108 new_AuthPayload =
    Def {| ok := true; outPayload := vector_payload; outError := SUCCESS |})
    by (vm_compute; reflexivity).
  split; [exact E|].
  exact (proj2 (proj2 (proj2 (proj2
    (Deserialize_canonical (layout vector_payload) 108 new_AuthPayload _
       ltac:(vm_compute; discriminate) E eq_refl))))).
Defined.

Lemma Deserialize_outcome_witness :
  108 <= Z.of_nat (length (replicate 108 x00)) /\
  exists r, Deserialize (Some (replicate 108 x00)) 108 new_AuthPayload = Def r /\
    outError r = INVALID_REQUEST.
Proof.
  split; [vm_compute; discriminate|].
  destruct (Deserialize_outcome (replicate 108 x00) 108 new_AuthPayload
              ltac:(vm_compute; discriminate)) as (_ & r & E & _ & Er).
  exists r. split; [exact E|]. rewrite Er. vm_compute. reflexivity.
Defined.

Lemma Serialize_injective_witness :
  Serialize vector_payload = Serialize vector_payload /\ vector_payload = vector_payload.
Proof.
  split; [reflexivity|].
  exact (Serialize_injective vector_payload vector_payload vector_payload_wf
           vector_payload_wf eq_refl).
Defined.
