(* ===== verification/FrameProtocol.v ===== *)
(** * FrameProtocol: the CRC-protected binary transport frame

    Models windows/common/TransportInterface.h (frame constants, message types,
    [TransportFrame]) and windows/common/FrameProtocol.cpp
    ([CalculateCrc32], [SerializeFrame], [DeserializeFrame]). *)
From S2P Require Import Prelude Bytes Protocol.

(** ** TransportInterface.h *)
Definition FRAME_MAGIC : Z := 0x504B4652.
Definition MAX_PAYLOAD_SIZE : Z := 65536.
(** [std::numeric_limits<size_t>::max()] on the 64-bit target. *)
Definition SIZE_T_MAX : Z := 2 ^ 64 - 1.

Inductive TransportMessageType : Type :=
| PAIR_REQ
| PAIR_RESP
| UNLOCK_REQ
| UNLOCK_RESP
| ERROR_MSG.

#[export] Instance TransportMessageType_eq_dec : EqDecision TransportMessageType.
Proof. solve_decision. Defined.

(** The underlying [uint8_t]. *)
Definition TransportMessageType_value (t : TransportMessageType) : Z :=
  match t with
  | PAIR_REQ => 0x01
  | PAIR_RESP => 0x02
  | UNLOCK_REQ => 0x10
  | UNLOCK_RESP => 0x11
  | ERROR_MSG => 0xFF
  end.

Record TransportFrame : Type := {
  magic : Z;
  payloadLength : Z;
  messageType : TransportMessageType;
  flags : byte;
  sequenceNumber : Z;
  payload : list byte;
  checksum : Z;
}.

(** What the C++ field types guarantee ([size()] of a vector fits [size_t]). *)
Record wf_frame (f : TransportFrame) : Prop := {
  wf_magic : 0 <= magic f < 2 ^ 32;
  wf_payloadLength : 0 <= payloadLength f < 2 ^ 32;
  wf_sequence : 0 <= sequenceNumber f < 2 ^ 32;
  wf_checksum : 0 <= checksum f < 2 ^ 32;
}.

(** [TransportFrame::TransportFrame()] *)
Definition new_TransportFrame : TransportFrame :=
  {| magic := FRAME_MAGIC; payloadLength := 0; messageType := UNLOCK_REQ;
     flags := x00; sequenceNumber := 0; payload := []; checksum := 0 |}.

(** ** CRC-32 *)

(** One iteration of the inner loop. *)
Definition crc_bit (crc : Z) : Z :=
  if negb (Z.land crc 1 =? 0) then Z.lxor (Z.shiftr crc 1) 0xEDB88320 else Z.shiftr crc 1.

(** [for (size_t i = ..; i < length; ++i)]; [n] iterations left. *)
Fixpoint crc_loop (n : nat) (data : list byte) (i crc : Z) : Res Z :=
  match n with
  | O => Def crc
  | S n =>
      let? b := rd data i in
      crc_loop n data (i + 1) (Nat.iter 8 crc_bit (Z.lxor crc (u8 b)))
  end.

Definition CalculateCrc32 (data : option (list byte)) (length : Z) : Res Z :=
  match data with
  | None => Def 0
  | Some data =>
      if length =? 0 then Def 0
      else
        let? crc := crc_loop (Z.to_nat length) data 0 0xFFFFFFFF in
        Def (Z.lxor crc 0xFFFFFFFF)
  end.

(** ** Serialization *)

(** [buf[off .. off + 3]] set to the four bytes of [v], most significant first. *)
Definition poke_be32 (buf : list byte) (off v : Z) : Res (list byte) :=
  let? buf := poke buf off (byte_at v 24) in
  let? buf := poke buf (off + 1) (byte_at v 16) in
  let? buf := poke buf (off + 2) (byte_at v 8) in
  poke buf (off + 3) (byte_at v 0).

Definition SerializeFrame (frame : TransportFrame) : Res (list byte) :=
  if Z.of_nat (length (payload frame)) >? MAX_PAYLOAD_SIZE then Def []
  else
  let payloadLen := u32 (Z.of_nat (length (payload frame))) in
  let totalLen := 14 + payloadLen + 4 in
  let buffer := replicate (Z.to_nat totalLen) x00 in
  let offset := 0 in
  let? buffer := poke_be32 buffer 0 FRAME_MAGIC in
  let offset := offset + 4 in
  let? buffer := poke_be32 buffer 4 payloadLen in
  let offset := offset + 4 in
  let? buffer := poke buffer 8 (to_u8 (TransportMessageType_value (messageType frame))) in
  let offset := offset + 1 in
  let? buffer := poke buffer 9 (flags frame) in
  let offset := offset + 1 in
  let? buffer := poke_be32 buffer 10 (sequenceNumber frame) in
  let offset := offset + 4 in
  let? buffer := (if payloadLen >? 0 then memcpy_to buffer offset (payload frame)
                  else Def buffer) in
  let offset := offset + payloadLen in
  let? checksum := CalculateCrc32 (Some buffer) (14 + payloadLen) in
  poke_be32 buffer offset checksum.

(** ** Deserialization *)

(** The returned flag and the two out-parameters. *)
Record FrameResult : Type := {
  frame_ok : bool;
  outFrame : TransportFrame;
  outError : string;
}.

Definition reject (q : TransportFrame) (msg : string) : Res FrameResult :=
  Def {| frame_ok := false; outFrame := q; outError := msg |}.

(** The [messageType] comparison chain followed by the cast. *)
Definition known_message_type (raw : byte) : option TransportMessageType :=
  if u8 raw =? TransportMessageType_value PAIR_REQ then Some PAIR_REQ
  else if u8 raw =? TransportMessageType_value PAIR_RESP then Some PAIR_RESP
  else if u8 raw =? TransportMessageType_value UNLOCK_REQ then Some UNLOCK_REQ
  else if u8 raw =? TransportMessageType_value UNLOCK_RESP then Some UNLOCK_RESP
  else if u8 raw =? TransportMessageType_value ERROR_MSG then Some ERROR_MSG
  else None.

Definition err_null : string := "Null buffer pointer".
Definition err_short : string := "Frame buffer under 18 bytes minimum length".
Definition err_magic : string := "Invalid magic bytes".
Definition err_oversize : string := "Payload size exceeds 64KB security limit".
Definition err_overflow : string := "Integer overflow in frame size computation".
Definition err_incomplete : string :=
  "Incomplete frame buffer: provided size less than calculated frame length".
Definition err_crc : string := "CRC32 checksum mismatch (Frame corrupted)".
Definition err_type : string := "Unknown message type identifier".

Definition DeserializeFrame (data : option (list byte)) (size : Z) (q : TransportFrame)
    : Res FrameResult :=
  match data with
  | None => reject q err_null
  | Some data =>
    if size <? 18 then reject q err_short
    else
    let? magic := rd_be32 data 0 in
    if negb (magic =? FRAME_MAGIC) then reject q err_magic
    else
    let? payloadLen := rd_be32 data 4 in
    if payloadLen >? MAX_PAYLOAD_SIZE then reject q err_oversize
    else
    let safePayloadLen := payloadLen in
    if safePayloadLen >? SIZE_T_MAX - 18 then reject q err_overflow
    else
    let totalFrameLen := 14 + safePayloadLen + 4 in
    if size <? totalFrameLen then reject q err_incomplete
    else
    let checksumOffset := 14 + safePayloadLen in
    let? expectedChecksum := rd_be32 data checksumOffset in
    let? actualChecksum := CalculateCrc32 (Some data) checksumOffset in
    if negb (actualChecksum =? expectedChecksum) then reject q err_crc
    else
    let? rawMessageType := rd data 8 in
    match known_message_type rawMessageType with
    | None => reject q err_type
    | Some t =>
      let? fl := rd data 9 in
      let? seq := rd_be32 data 10 in
      let? pl := (if safePayloadLen >? 0 then rd_slice data 14 safePayloadLen else Def []) in
      Def {| frame_ok := true;
             outFrame := {| magic := magic; payloadLength := payloadLen; messageType := t;
                            flags := fl; sequenceNumber := seq; payload := pl;
                            checksum := actualChecksum |};
             outError := "" |}
    end
  end.

(** ** CRC algebra

    The register update is linear over exclusive or, and shifting the input
    left by one position cancels one update; both hold for integers of any
    size, which turns the byte loop into iterated updates of one big integer. *)
Definition crc_byte (crc : Z) (b : byte) : Z := Nat.iter 8 crc_bit (Z.lxor crc (u8 b)).
Definition crc_bytes (crc : Z) (l : list byte) : Z := fold_left crc_byte l crc.

(** Little-endian value: bit [8 i + j] is bit [j] of byte [i], the order in
    which the register consumes the message. *)
Fixpoint le_value (l : list byte) : Z :=
  match l with
  | [] => 0
  | b :: l => Z.lxor (u8 b) (Z.shiftl (le_value l) 8)
  end.

Lemma crc_bit_eq x :
  crc_bit x = Z.lxor (Z.shiftr x 1) (if Z.odd x then 0xEDB88320 else 0).
Proof.
  unfold crc_bit. change 1 with (Z.ones 1) at 1. rewrite Z.land_ones by lia.
  change (2 ^ 1) with 2. rewrite Zmod_odd. destruct (Z.odd x); cbn; [done|].
  by rewrite Z.lxor_0_r.
Qed.

Lemma odd_lxor x y : Z.odd (Z.lxor x y) = xorb (Z.odd x) (Z.odd y).
Proof. by rewrite <- !Z.bit0_odd, Z.lxor_spec. Qed.

Lemma crc_bit_lxor x y : crc_bit (Z.lxor x y) = Z.lxor (crc_bit x) (crc_bit y).
Proof.
  rewrite !crc_bit_eq, odd_lxor, Z.shiftr_lxor.
  apply Z.bits_inj'. intros i Hi. rewrite !Z.lxor_spec.
  destruct (Z.odd x), (Z.odd y); cbn [xorb]; rewrite ?Z.bits_0.
  all: destruct (Z.testbit _ i), (Z.testbit _ i), (Z.testbit 0xEDB88320 i); done.
Qed.

Lemma crc_bit_double x : crc_bit (Z.shiftl x 1) = x.
Proof.
  rewrite crc_bit_eq, Z.shiftr_shiftl_l by lia. cbn [Z.sub].
  rewrite Z.shiftl_0_r. replace (Z.odd (Z.shiftl x 1)) with false.
  - apply Z.lxor_0_r.
  - by rewrite <- Z.bit0_odd, Z.shiftl_spec_low.
Qed.

Lemma iter_crc_lxor n x y :
  Nat.iter n crc_bit (Z.lxor x y) = Z.lxor (Nat.iter n crc_bit x) (Nat.iter n crc_bit y).
Proof. induction n as [|n IH]; [done|]. by rewrite !Nat.iter_succ, IH, crc_bit_lxor. Qed.

Lemma iter_crc_shiftl n m x :
  Nat.iter (n + m) crc_bit (Z.shiftl x (Z.of_nat m)) = Nat.iter n crc_bit x.
Proof.
  revert x. induction m as [|m IH]; intros x.
  - by rewrite Nat.add_0_r, Z.shiftl_0_r.
  - rewrite Nat.add_succ_r, Nat.iter_succ_r.
    replace (Z.of_nat (S m)) with (Z.of_nat m + 1) by lia.
    rewrite <- Z.shiftl_shiftl, crc_bit_double by lia. apply IH.
Qed.

Lemma iter_crc_0 n : Nat.iter n crc_bit 0 = 0.
Proof. induction n as [|n IH]; [done|]. by rewrite Nat.iter_succ, IH. Qed.

(** The whole byte loop as one iterated update. *)
Lemma crc_bytes_iter l x :
  crc_bytes x l = Nat.iter (length l * 8) crc_bit (Z.lxor x (le_value l)).
Proof.
  revert x. induction l as [|b l IH]; intros x; cbn [crc_bytes fold_left le_value length].
  - by rewrite Z.lxor_0_r.
  - change (fold_left crc_byte l (crc_byte x b)) with (crc_bytes (crc_byte x b) l).
    rewrite IH. unfold crc_byte. rewrite <- Z.lxor_assoc.
    rewrite (iter_crc_lxor (S (length l) * 8)), (iter_crc_lxor (length l * 8)).
    replace (S (length l) * 8)%nat with (length l * 8 + 8)%nat by lia.
    f_equal.
    + by rewrite Nat.iter_add.
    + symmetry. apply (iter_crc_shiftl _ 8).
Qed.

Lemma lxor_range n a b :
  0 <= a < 2 ^ n -> 0 <= b < 2 ^ n -> 0 <= n -> 0 <= Z.lxor a b < 2 ^ n.
Proof.
  intros Ha Hb Hn.
  assert (Hnn : 0 <= Z.lxor a b) by (apply Z.lxor_nonneg; lia).
  split; [done|]. rewrite <- (Z.mod_small a (2 ^ n)), <- (Z.mod_small b (2 ^ n)) by done.
  rewrite <- !Z.land_ones by done.
  replace (Z.lxor (Z.land a (Z.ones n)) (Z.land b (Z.ones n)))
    with (Z.land (Z.lxor a b) (Z.ones n)).
  - rewrite Z.land_ones by done. apply Z.mod_pos_bound. lia.
  - apply Z.bits_inj'. intros i Hi. rewrite !Z.land_spec, !Z.lxor_spec, !Z.land_spec.
    by destruct (Z.testbit a i), (Z.testbit b i), (Z.testbit (Z.ones n) i).
Qed.

Lemma crc_bit_range x : 0 <= x < 2 ^ 32 -> 0 <= crc_bit x < 2 ^ 32.
Proof.
  intros H. rewrite crc_bit_eq. apply lxor_range; [|destruct (Z.odd x); lia|lia].
  rewrite Z.shiftr_div_pow2 by lia. change (2 ^ 1) with 2.
  Z.to_euclidean_division_equations. lia.
Qed.

Lemma iter_crc_range n x : 0 <= x < 2 ^ 32 -> 0 <= Nat.iter n crc_bit x < 2 ^ 32.
Proof. intros H. induction n as [|n IH]; [done|]. rewrite Nat.iter_succ. by apply crc_bit_range. Qed.

(** No register value other than zero is mapped to zero: the polynomial has its
    top bit set. *)
Lemma crc_bit_nonzero x : 0 < x < 2 ^ 32 -> crc_bit x <> 0.
Proof.
  intros H. rewrite crc_bit_eq.
  assert (Z.shiftr x 1 = x / 2) as -> by (by rewrite Z.shiftr_div_pow2).
  intros E%Z.lxor_eq. destruct (Z.odd x) eqn:O; cbv iota in E.
  - Z.to_euclidean_division_equations. lia.
  - assert (x mod 2 = 0) by (by rewrite Zmod_odd, O).
    Z.to_euclidean_division_equations. lia.
Qed.

Lemma iter_crc_nonzero n x : 0 < x < 2 ^ 32 -> Nat.iter n crc_bit x <> 0.
Proof.
  intros H. induction n as [|n IH]; [cbn; lia|]. rewrite Nat.iter_succ.
  apply crc_bit_nonzero. pose proof (iter_crc_range n x). lia.
Qed.

Lemma u8_range32 b : 0 <= u8 b < 2 ^ 32.
Proof. pose proof (u8_range b). lia. Qed.

Lemma crc_bytes_range l x : 0 <= x < 2 ^ 32 -> 0 <= crc_bytes x l < 2 ^ 32.
Proof.
  revert x. induction l as [|b l IH]; intros x H; [done|].
  apply (IH (crc_byte x b)), (iter_crc_range 8), lxor_range; [done | apply u8_range32 | lia].
Qed.

(** Two messages of the same length whose difference is a nonzero pattern of at
    most 32 consecutive bits reach different registers. *)
Lemma crc_bytes_burst l m x e k :
  length l = length m -> 0 < e < 2 ^ 32 ->
  (k <= length l * 8)%nat ->
  Z.lxor (le_value l) (le_value m) = Z.shiftl e (Z.of_nat k) ->
  crc_bytes x l <> crc_bytes x m.
Proof.
  intros L He Hk E C.
  assert (C' : Z.lxor (crc_bytes x l) (crc_bytes x m) = 0) by (by rewrite C, Z.lxor_nilpotent).
  rewrite !crc_bytes_iter, <- L, <- iter_crc_lxor in C'.
  replace (Z.lxor (Z.lxor x (le_value l)) (Z.lxor x (le_value m)))
    with (Z.shiftl e (Z.of_nat k)) in C'.
  - replace (length l * 8)%nat with ((length l * 8 - k) + k)%nat in C' by lia.
    rewrite iter_crc_shiftl in C'. by apply iter_crc_nonzero in C'.
  - rewrite <- E. apply Z.bits_inj'. intros i Hi. rewrite !Z.lxor_spec.
    by destruct (Z.testbit x i), (Z.testbit (le_value l) i), (Z.testbit (le_value m) i).
Qed.

Lemma le_value_range l : 0 <= le_value l < 2 ^ (8 * Z.of_nat (length l)).
Proof.
  induction l as [|b l IH]; [done|]. cbn [le_value length].
  pose proof (u8_range b).
  replace (8 * Z.of_nat (S (length l))) with (8 * Z.of_nat (length l) + 8) by lia.
  apply lxor_range; [|split|lia].
  - rewrite Z.pow_add_r by lia. change (2 ^ 8) with 256. lia.
  - apply Z.shiftl_nonneg. lia.
  - rewrite Z.shiftl_mul_pow2, Z.pow_add_r by lia. nia.
Qed.

Lemma le_value_app l m :
  le_value (l ++ m) = Z.lxor (le_value l) (Z.shiftl (le_value m) (8 * Z.of_nat (length l))).
Proof.
  induction l as [|b l IH]; cbn [app le_value length].
  - by rewrite Z.lxor_0_l, Z.shiftl_0_r.
  - rewrite IH, Z.shiftl_lxor, Z.shiftl_shiftl, Z.lxor_assoc by lia.
    do 3 f_equal. lia.
Qed.

(** The difference of two messages that agree outside a middle part. *)
Lemma le_value_diff pre l m post :
  length l = length m ->
  Z.lxor (le_value (pre ++ l ++ post)) (le_value (pre ++ m ++ post)) =
  Z.shiftl (Z.lxor (le_value l) (le_value m)) (8 * Z.of_nat (length pre)).
Proof.
  intros L. rewrite !le_value_app, L, !Z.shiftl_lxor.
  apply Z.bits_inj'. intros i Hi. rewrite !Z.lxor_spec.
  repeat match goal with |- context [Z.testbit ?a i] => destruct (Z.testbit a i) end; done.
Qed.

(** ** Reference frame layout and parser *)
Definition crc32 (l : list byte) : Z := Z.lxor (crc_bytes 0xFFFFFFFF l) 0xFFFFFFFF.

Definition frame_body (f : TransportFrame) : list byte :=
  be_bytes 4 FRAME_MAGIC ++ be_bytes 4 (Z.of_nat (length (payload f))) ++
  [to_u8 (TransportMessageType_value (messageType f))] ++ [flags f] ++
  be_bytes 4 (sequenceNumber f) ++ payload f.
Definition frame_layout (f : TransportFrame) : list byte :=
  frame_body f ++ be_bytes 4 (crc32 (frame_body f)).

(** The frame a receiver sees: the header fields the serializer fixes. *)
Definition received (f : TransportFrame) : TransportFrame :=
  {| magic := FRAME_MAGIC; payloadLength := Z.of_nat (length (payload f));
     messageType := messageType f; flags := flags f; sequenceNumber := sequenceNumber f;
     payload := payload f; checksum := crc32 (frame_body f) |}.

Definition rejected (q : TransportFrame) (msg : string) : FrameResult :=
  {| frame_ok := false; outFrame := q; outError := msg |}.

(** [DeserializeFrame] as a decision table over the fields of the buffer. *)
Definition frame_check (data : list byte) (size : Z) (q : TransportFrame) : FrameResult :=
  let len := be_value (sub 4 4 data) in
  let n := Z.to_nat len in
  if size <? 18 then rejected q err_short
  else if negb (be_value (sub 0 4 data) =? FRAME_MAGIC) then rejected q err_magic
  else if len >? MAX_PAYLOAD_SIZE then rejected q err_oversize
  else if size <? 18 + len then rejected q err_incomplete
  else if negb (crc32 (take (14 + n) data) =? be_value (sub (14 + n) 4 data))
  then rejected q err_crc
  else match known_message_type (nth 8 data x00) with
       | None => rejected q err_type
       | Some t =>
           {| frame_ok := true;
              outFrame := {| magic := FRAME_MAGIC; payloadLength := len; messageType := t;
                             flags := nth 9 data x00; sequenceNumber := be_value (sub 10 4 data);
                             payload := sub 14 n data;
                             checksum := crc32 (take (14 + n) data) |};
              outError := "" |}
       end.

Lemma crc_loop_spec n data i crc :
  0 <= i -> i + Z.of_nat n <= Z.of_nat (length data) ->
  crc_loop n data i crc = Def (crc_bytes crc (sub (Z.to_nat i) n data)).
Proof.
  revert i crc. induction n as [|n IH]; intros i crc H1 H2; cbn [crc_loop].
  - unfold sub. by rewrite take_0.
  - destruct (rd_ok data i) as (b & -> & E); [lia|]. cbn [mbind Res_bind].
    rewrite IH, (sub_cons _ _ _ _ E) by lia.
    replace (Z.to_nat (i + 1)) with (S (Z.to_nat i)) by lia. done.
Qed.

Lemma CalculateCrc32_spec data len :
  0 <= len <= Z.of_nat (length data) ->
  CalculateCrc32 (Some data) len = Def (crc32 (take (Z.to_nat len) data)).
Proof.
  intros H. unfold CalculateCrc32. destruct (Z.eqb_spec len 0) as [->|E]; [done|].
  by rewrite crc_loop_spec by lia.
Qed.

Lemma crc32_range l : 0 <= crc32 l < 2 ^ 32.
Proof. apply lxor_range; [by apply crc_bytes_range | lia..]. Qed.

Lemma poke_be32_fill pre n off v :
  off = Z.of_nat (length pre) -> (4 <= n)%nat ->
  poke_be32 (pre ++ replicate n x00) off v = Def ((pre ++ be_bytes 4 v) ++ replicate (n - 4) x00).
Proof.
  intros -> Hn. unfold poke_be32.
  repeat (rewrite poke_fill by (len); cbn [mbind Res_bind]).
  f_equal. rewrite <- !app_assoc, !byte_at_to_u8. cbn [app]. f_equal.
  unfold be_bytes. cbn [app]. do 4 f_equal. f_equal. lia.
Qed.

Lemma length_frame_body f : length (frame_body f) = (14 + length (payload f))%nat.
Proof. unfold frame_body. len. Qed.

Lemma length_frame_layout f : length (frame_layout f) = (18 + length (payload f))%nat.
Proof. unfold frame_layout. rewrite length_app, length_frame_body. len. Qed.

Lemma byte_at_0_u8 z : to_u8 z = byte_at z 0.
Proof. by rewrite byte_at_to_u8, Z.shiftr_0_r. Qed.

Lemma SerializeFrame_layout f :
  Z.of_nat (length (payload f)) <= MAX_PAYLOAD_SIZE -> SerializeFrame f = Def (frame_layout f).
Proof.
  unfold SerializeFrame, MAX_PAYLOAD_SIZE. intros H.
  replace (_ >? 65536) with false by lia. cbn zeta.
  rewrite wrap_small by lia.
  replace (Z.to_nat (14 + Z.of_nat (length (payload f)) + 4))
    with (18 + length (payload f))%nat by lia.
  change (replicate (18 + length (payload f)) x00)
    with ([] ++ replicate (18 + length (payload f)) x00).
  set (N := length (payload f)) in *.
  repeat (first [rewrite poke_be32_fill by (len) | rewrite poke_fill by (len)];
          cbn [mbind Res_bind]).
  match goal with |- (mbind _ ?m = _) => 
    replace m with (Def (frame_body f ++ replicate 4 x00)) end.
  - cbn [mbind Res_bind].
    rewrite CalculateCrc32_spec by (rewrite length_app, length_frame_body; len).
    cbn [mbind Res_bind]. rewrite take_app_exact by (rewrite length_frame_body; lia).
    rewrite poke_be32_fill by (rewrite ?length_frame_body; lia).
    cbn [replicate Nat.sub]. by rewrite app_nil_r.
  - destruct (Z.gtb_spec (Z.of_nat N) 0) as [P|P].
    + rewrite memcpy_fill by (len). f_equal. unfold frame_body.
      rewrite <- !app_assoc. fold N. cbn [app]. repeat f_equal. lia.
    + f_equal. unfold frame_body. fold N.
      destruct (payload f) as [|]; [|unfold N in P; cbn in P; lia].
      rewrite <- !app_assoc. cbn [app]. unfold N. cbn [length]. done.
Qed.

Lemma SerializeFrame_oversize f :
  MAX_PAYLOAD_SIZE < Z.of_nat (length (payload f)) -> SerializeFrame f = Def [].
Proof.
  unfold SerializeFrame, MAX_PAYLOAD_SIZE. intros H. by replace (_ >? 65536) with true by lia.
Qed.

Lemma rd_nth data i :
  0 <= i < Z.of_nat (length data) -> rd data i = Def (nth (Z.to_nat i) data x00).
Proof.
  intros H. destruct (rd_ok data i H) as (b & -> & E).
  by rewrite (nth_lookup_Some _ _ _ _ E).
Qed.

Lemma DeserializeFrame_spec data size q :
  size <= Z.of_nat (length data) -> DeserializeFrame (Some data) size q = Def (frame_check data size q).
Proof.
  intros Hs. unfold DeserializeFrame, frame_check.
  destruct (Z.ltb_spec size 18) as [|H18]; [done|].
  rewrite !rd_be32_ok by lia. cbn [mbind Res_bind]. change (Z.to_nat 0) with 0%nat.
  change (Z.to_nat 4) with 4%nat.
  destruct (Z.eqb_spec (be_value (sub 0 4 data)) FRAME_MAGIC) as [Em|]; [|done].
  cbn [negb]. unfold MAX_PAYLOAD_SIZE, SIZE_T_MAX.
  pose proof (be_value_range (sub 4 4 data)) as R. rewrite length_sub in R by lia.
  set (len := be_value (sub 4 4 data)) in *.
  destruct (Z.gtb_spec len 65536) as [|Hlen]; [done|].
  replace (len >? 2 ^ 64 - 1 - 18) with false by lia. cbn zeta.
  replace (14 + len + 4) with (18 + len) by lia.
  destruct (Z.ltb_spec size (18 + len)) as [|Hsz]; [done|].
  rewrite rd_be32_ok, CalculateCrc32_spec by lia. cbn [mbind Res_bind].
  replace (Z.to_nat (14 + len)) with (14 + Z.to_nat len)%nat by lia.
  destruct (Z.eqb_spec (crc32 (take (14 + Z.to_nat len) data))
              (be_value (sub (14 + Z.to_nat len) 4 data))) as [Ec|]; [|done].
  cbn [negb]. rewrite !rd_nth by lia. cbn [mbind Res_bind].
  change (Z.to_nat 8) with 8%nat. change (Z.to_nat 9) with 9%nat.
  destruct (known_message_type _) as [t|]; [|done].
  change (Z.to_nat 10) with 10%nat.
  rewrite Em. destruct (Z.gtb_spec len 0) as [Hp|Hp].
  - by rewrite rd_slice_ok by lia.
  - replace (Z.to_nat len) with 0%nat by lia. cbn [mbind Res_bind].
    by unfold sub at 3; rewrite take_0.
Qed.

Lemma known_message_type_value t :
  known_message_type (to_u8 (TransportMessageType_value t)) = Some t.
Proof. by destruct t. Qed.

Lemma known_message_type_Some b t :
  known_message_type b = Some t -> b = to_u8 (TransportMessageType_value t).
Proof.
  unfold known_message_type.
  repeat (match goal with |- context [u8 b =? ?v] => destruct (Z.eqb_spec (u8 b) v) as [E|] end;
    [intros [= <-]; rewrite <- E; by rewrite to_u8_u8|]).
  done.
Qed.

Lemma nth_app_skip {A} (a l : list A) i d :
  (length a <= i)%nat -> nth i (a ++ l) d = nth (i - length a) l d.
Proof. apply app_nth2. Qed.

(** The fields of a laid-out frame, read back at their offsets. *)
Lemma frame_layout_fields f rest :
  let data := frame_layout f ++ rest in
  let n := length (payload f) in
  sub 0 4 data = be_bytes 4 FRAME_MAGIC /\
  sub 4 4 data = be_bytes 4 (Z.of_nat n) /\
  nth 8 data x00 = to_u8 (TransportMessageType_value (messageType f)) /\
  nth 9 data x00 = flags f /\
  sub 10 4 data = be_bytes 4 (sequenceNumber f) /\
  sub 14 n data = payload f /\
  take (14 + n) data = frame_body f /\
  sub (14 + n) 4 data = be_bytes 4 (crc32 (frame_body f)).
Proof.
  cbn zeta. split_and!.
  7:{ unfold frame_layout. rewrite <- app_assoc.
      apply take_app_exact. by rewrite length_frame_body. }
  7:{ unfold frame_layout. rewrite <- app_assoc.
      rewrite sub_app_skip by (rewrite length_frame_body; lia).
      by rewrite length_frame_body, Nat.sub_diag, sub_app_head by (len). }
  all: unfold frame_layout, frame_body; rewrite <- !app_assoc; try (by sub_field).
  all: by rewrite !nth_app_skip by (rewrite ?length_be_bytes; cbn; lia).
Qed.

Lemma frame_check_layout f rest size q :
  wf_frame f -> Z.of_nat (length (payload f)) <= MAX_PAYLOAD_SIZE ->
  18 + Z.of_nat (length (payload f)) <= size ->
  frame_check (frame_layout f ++ rest) size q =
    {| frame_ok := true; outFrame := received f; outError := "" |}.
Proof.
  intros [] Hp Hs. unfold MAX_PAYLOAD_SIZE in Hp.
  pose proof (crc32_range (frame_body f)).
  destruct (frame_layout_fields f rest) as (E0 & E4 & E8 & E9 & E10 & E14 & Eb & Ec).
  unfold frame_check. cbn zeta. rewrite E4, be_value_be_bytes4 by lia.
  rewrite Nat2Z.id, E0, E8, E9, E10, E14, Eb, Ec.
  rewrite !be_value_be_bytes4 by (done || lia). rewrite !Z.eqb_refl.
  unfold MAX_PAYLOAD_SIZE. cbn [negb].
  replace (size <? 18) with false by lia. replace (_ >? 65536) with false by lia.
  replace (size <? _) with false by lia. by rewrite known_message_type_value.
Qed.

Lemma sub_1 data i : (i < length data)%nat -> sub i 1 data = [nth i data x00].
Proof.
  intros H. destruct (lookup_lt_is_Some_2 data i H) as [b E].
  by rewrite (sub_cons _ _ _ _ E), (nth_lookup_Some _ _ _ _ E).
Qed.

Lemma frame_check_ok data size q :
  size <= Z.of_nat (length data) -> frame_ok (frame_check data size q) = true ->
  let f := outFrame (frame_check data size q) in
  let n := length (payload f) in
  wf_frame f /\ magic f = FRAME_MAGIC /\ payloadLength f = Z.of_nat n /\
  Z.of_nat n <= MAX_PAYLOAD_SIZE /\ 18 + Z.of_nat n <= size /\
  checksum f = crc32 (frame_body f) /\ frame_layout f = take (18 + n) data /\
  outError (frame_check data size q) = ""%string.
Proof.
  intros Hs. unfold frame_check. cbn zeta.
  destruct (Z.ltb_spec size 18) as [|H18]; [done|].
  destruct (Z.eqb_spec (be_value (sub 0 4 data)) FRAME_MAGIC) as [Em|]; [|done]. cbn [negb].
  pose proof (be_value_range (sub 4 4 data)) as R. rewrite length_sub in R by lia.
  pose proof (be_value_range (sub 10 4 data)) as R'. rewrite length_sub in R' by lia.
  set (len := be_value (sub 4 4 data)) in *.
  destruct (Z.gtb_spec len MAX_PAYLOAD_SIZE) as [|Hl]; [done|].
  destruct (Z.ltb_spec size (18 + len)) as [|Hsz]; [done|].
  set (n := Z.to_nat len). assert (Hn : len = Z.of_nat n) by lia.
  destruct (Z.eqb_spec (crc32 (take (14 + n) data)) (be_value (sub (14 + n) 4 data)))
    as [Ec|]; [|done]. cbn [negb].
  destruct (known_message_type _) as [t|] eqn:Et; [|done]. intros _.
  apply known_message_type_Some in Et.
  cbn [outFrame magic payloadLength payload checksum].
  rewrite length_sub by lia.
  set (f := {| magic := FRAME_MAGIC; payloadLength := len; messageType := t;
               flags := nth 9 data x00; sequenceNumber := be_value (sub 10 4 data);
               payload := sub 14 n data; checksum := crc32 (take (14 + n) data) |}).
  assert (Hb : frame_body f = take (14 + n) data).
  { unfold frame_body, f. cbn [payload messageType flags sequenceNumber].
    rewrite length_sub, <- Hn, <- Em, <- Et by lia. unfold len.
    rewrite !be_bytes_sub, <- !sub_1 by lia.
    change (take (14 + n) data) with (sub 0 (4 + (4 + (1 + (1 + (4 + n))))) data).
    by rewrite !sub_split. }
  split_and!; try done.
  - constructor; cbn [magic payloadLength sequenceNumber checksum f]; try done.
    apply crc32_range.
  - lia.
  - lia.
  - by rewrite Hb.
  - unfold frame_layout. rewrite Hb, Ec, be_bytes_sub by lia.
    change (take (14 + n) data) with (sub 0 (14 + n) data).
    rewrite <- (sub_split 0). unfold sub. cbn [drop]. f_equal. lia.
Qed.

(** ** Properties *)

(** Round trip.  A frame whose payload is at most 64 KiB serializes to
    exactly [18 + n] bytes, and a receiver that has those bytes (with anything
    after them in its buffer) accepts them and recovers the message type, the
    flags, the sequence number and the payload. *)
Theorem DeserializeFrame_SerializeFrame (f q : TransportFrame) (rest : list byte) (size : Z)
    (Hwf : wf_frame f) (Hpay : Z.of_nat (length (payload f)) <= MAX_PAYLOAD_SIZE)
    (Hsize : 18 + Z.of_nat (length (payload f)) <= size
             <= 18 + Z.of_nat (length (payload f) + length rest)) :
  exists buf, SerializeFrame f = Def buf /\ length buf = (18 + length (payload f))%nat /\
    exists g, DeserializeFrame (Some (buf ++ rest)) size q =
      Def {| frame_ok := true; outFrame := g; outError := "" |} /\
    messageType g = messageType f /\ flags g = flags f /\
    sequenceNumber g = sequenceNumber f /\ payload g = payload f /\
    payloadLength g = Z.of_nat (length (payload f)).
Proof.
  exists (frame_layout f). split; [by apply SerializeFrame_layout|].
  split; [apply length_frame_layout|]. exists (received f). split; [|done].
  rewrite DeserializeFrame_spec.
  - f_equal. apply frame_check_layout; [done..|lia].
  - rewrite length_app, length_frame_layout. lia.
Qed.

(** C33: the parser accepts only what the serializer writes.  Whenever
    [DeserializeFrame] accepts a readable buffer, the whole frame lies inside
    [size] bytes, its payload is at most 64 KiB and of the announced length,
    and re-serializing the accepted frame reproduces the bytes it was read
    from. *)
Theorem DeserializeFrame_canonical (data : list byte) (size : Z) (q : TransportFrame)
    (r : FrameResult) (Hsize : size <= Z.of_nat (length data))
    (Hr : DeserializeFrame (Some data) size q = Def r) (Hok : frame_ok r = true) :
  let n := length (payload (outFrame r)) in
  18 + Z.of_nat n <= size /\ Z.of_nat n <= MAX_PAYLOAD_SIZE /\
  payloadLength (outFrame r) = Z.of_nat n /\ wf_frame (outFrame r) /\
  SerializeFrame (outFrame r) = Def (take (18 + n) data).
Proof.
  rewrite DeserializeFrame_spec in Hr by done. injection Hr as <-.
  destruct (frame_check_ok data size q Hsize Hok) as (W & _ & Hl & Hm & Hs & _ & Hlay & _).
  cbn zeta. split_and!; [done..|]. by rewrite SerializeFrame_layout, Hlay.
Qed.

(** Memory safety of the parser.  On every buffer that really has [size]
    readable bytes, whatever they are, [DeserializeFrame] returns (it never
    reads outside them), a rejection leaves the out-frame untouched and says
    why, and the 64-bit overflow guard is never the reason. *)
Theorem DeserializeFrame_safe (data : list byte) (size : Z) (q : TransportFrame)
    (Hsize : size <= Z.of_nat (length data)) :
  exists r, DeserializeFrame (Some data) size q = Def r /\
    (frame_ok r = true /\ outError r = ""%string \/
     frame_ok r = false /\ outFrame r = q /\
     outError r ∈ [err_short; err_magic; err_oversize; err_incomplete; err_crc; err_type]).
Proof.
  exists (frame_check data size q). split; [by apply DeserializeFrame_spec|].
  destruct (frame_ok (frame_check data size q)) eqn:E.
  - left. split; [done|]. by apply frame_check_ok in E as (_ & _ & _ & _ & _ & _ & _ & ?).
  - right. split; [done|]. revert E. unfold frame_check. cbn zeta.
    repeat match goal with |- context [if ?b then _ else _] => destruct b end;
      cbn [frame_ok rejected outFrame outError]; try (intros _; split; [done | set_solver]).
    destruct (known_message_type _); [done|]. cbn. intros _. split; [done | set_solver].
Qed.

(** Two byte strings whose difference, in the order the CRC consumes bits, is a
    nonzero pattern spanning at most 32 bits. *)
Definition burst32 (l m : list byte) : Prop :=
  exists (e : Z) (k : nat), 0 < e < 2 ^ 32 /\
    Z.lxor (le_value l) (le_value m) = Z.shiftl e (Z.of_nat k).

Lemma le_value_inj l m : length l = length m -> le_value l = le_value m -> l = m.
Proof.
  revert m. induction l as [|b l IH]; intros [|c m]; try done.
  intros [= L] E. cbn [le_value] in E.
  pose proof (u8_range b). pose proof (u8_range c).
  assert (E' : forall d x, 0 <= u8 d < 256 -> Z.lxor (u8 d) (Z.shiftl x 8) = x * 2 ^ 8 + u8 d).
  { intros d x Hd. rewrite <- (lor_shiftl_add x (u8 d) 8) by lia.
    rewrite <- Z.lxor_lor; [apply Z.lxor_comm|].
    apply Z.bits_inj'. intros i Hi. rewrite Z.land_spec, Z.bits_0, Z.shiftl_spec by lia.
    destruct (Z.ltb_spec i 8); [by rewrite (Z.testbit_neg_r x) by lia|].
    rewrite <- (Z.mod_small (u8 d) (2 ^ 8)) by lia.
    by rewrite Z.mod_pow2_bits_high, andb_false_r by lia. }
  rewrite !E' in E by done.
  f_equal; [apply u8_inj; lia | apply IH; [done | lia]].
Qed.

(** Any change confined to four consecutive bytes is such a burst. *)
Lemma burst32_bytes l m :
  length l = length m -> (length l <= 4)%nat -> l <> m -> burst32 l m.
Proof.
  intros L H N. exists (Z.lxor (le_value l) (le_value m)), 0%nat.
  rewrite Z.shiftl_0_r. split; [|done].
  assert (Hw : 2 ^ (8 * Z.of_nat (length l)) <= 2 ^ 32) by (apply Z.pow_le_mono_r; lia).
  pose proof (le_value_range l). pose proof (le_value_range m). rewrite <- L in *.
  assert (0 <= Z.lxor (le_value l) (le_value m) < 2 ^ 32) by (apply lxor_range; lia).
  assert (Z.lxor (le_value l) (le_value m) <> 0); [|lia].
  intros E%Z.lxor_eq. by apply N, le_value_inj.
Qed.

Lemma crc32_burst pre l m post :
  length l = length m -> burst32 l m ->
  crc32 (pre ++ l ++ post) <> crc32 (pre ++ m ++ post).
Proof.
  intros L (e & k & He & E) C.
  apply (f_equal (fun z => Z.lxor z 0xFFFFFFFF)) in C. unfold crc32 in C.
  rewrite !Z.lxor_assoc, !Z.lxor_nilpotent, !Z.lxor_0_r in C. revert C.
  assert (Hk : (k <= length l * 8)%nat).
  { pose proof (le_value_range l). pose proof (le_value_range m). rewrite <- L in *.
    assert (R : 0 <= Z.lxor (le_value l) (le_value m) < 2 ^ (8 * Z.of_nat (length l)))
      by (apply lxor_range; lia).
    rewrite E, Z.shiftl_mul_pow2 in R by lia.
    assert (2 ^ Z.of_nat k < 2 ^ (8 * Z.of_nat (length l))) by nia.
    apply Z.pow_lt_mono_r_iff in H1; lia. }
  apply crc_bytes_burst with (e := e) (k := (length pre * 8 + k)%nat).
  - len.
  - done.
  - len.
  - rewrite le_value_diff, E, Z.shiftl_shiftl by (done || lia). f_equal. lia.
Qed.

(** C34: corruption of a frame in transit is detected.  Replace any bytes
    between the length field and the checksum of a serialized frame by bytes
    whose difference spans at most 32 bits (in particular any change to up to
    four consecutive bytes, or a single flipped bit): the receiver reports the
    CRC mismatch and leaves its frame untouched. *)
Theorem DeserializeFrame_burst (f q : TransportFrame) (pre l m post : list byte)
    (Hpay : Z.of_nat (length (payload f)) <= MAX_PAYLOAD_SIZE)
    (Hbuf : SerializeFrame f = Def (pre ++ l ++ post))
    (Hlen : length l = length m) (Hpre : (8 <= length pre)%nat) (Hpost : (4 <= length post)%nat)
    (Hburst : burst32 l m) :
  DeserializeFrame (Some (pre ++ m ++ post)) (Z.of_nat (length (pre ++ m ++ post))) q =
    Def {| frame_ok := false; outFrame := q; outError := err_crc |}.
Proof.
  rewrite SerializeFrame_layout in Hbuf by done. injection Hbuf as Hbuf.
  set (n := length (payload f)) in *.
  assert (Ln : length (pre ++ m ++ post) = (18 + n)%nat).
  { unfold n. rewrite <- length_frame_layout, Hbuf. len. }
  assert (Lp : length (pre ++ l ++ post) = (18 + n)%nat) by (len).
  destruct (frame_layout_fields f []) as (E0 & E4 & _ & _ & _ & _ & Eb & Ec).
  rewrite app_nil_r, Hbuf in *. fold n in E4, Eb, Ec.
  assert (Hhead : forall off k, (off + k <= 8)%nat ->
    sub off k (pre ++ m ++ post) = sub off k (pre ++ l ++ post)).
  { intros off k Hk. rewrite <- (sub_take 8 off k (pre ++ m ++ post)) by done.
    rewrite <- (sub_take 8 off k (pre ++ l ++ post)) by done. by rewrite !take_app_le by done. }
  rewrite length_app in Lp, Ln. rewrite length_app in Lp, Ln.
  assert (Htail : forall x, length x = length m ->
    take (14 + n) (pre ++ x ++ post) = pre ++ x ++ take (length post - 4) post /\
    sub (14 + n) 4 (pre ++ x ++ post) = sub (length post - 4) 4 post).
  { intros x Lx. split.
    - rewrite take_app_ge, take_app_ge by lia. do 3 f_equal. lia.
    - rewrite sub_app_skip, sub_app_skip by lia. f_equal. lia. }
  destruct (Htail m eq_refl) as [Hm1 Hm2]. destruct (Htail l Hlen) as [Hl1 Hl2].
  rewrite DeserializeFrame_spec by lia. f_equal. unfold frame_check. cbn zeta.
  rewrite (Hhead 0%nat 4%nat), (Hhead 4%nat 4%nat), E0, E4 by lia.
  unfold MAX_PAYLOAD_SIZE in Hpay.
  rewrite (be_value_be_bytes4 (Z.of_nat n)), Nat2Z.id, Hm1, Hm2, <- Hl2, Ec by lia.
  rewrite (be_value_be_bytes4 FRAME_MAGIC) by done. rewrite Z.eqb_refl. cbn [negb].
  rewrite be_value_be_bytes4 by apply crc32_range.
  rewrite !length_app. replace (_ <? 18) with false by lia.
  unfold MAX_PAYLOAD_SIZE. replace (_ >? 65536) with false by lia.
  replace (_ <? 18 + _) with false by lia.
  rewrite <- Eb, Hl1. destruct (Z.eqb_spec (crc32 (pre ++ m ++ take (length post - 4) post))
    (crc32 (pre ++ l ++ take (length post - 4) post))) as [E|]; [|done].
  symmetry in E. by apply crc32_burst in E.
Qed.

(** ** Examples and witnesses *)

(** The standard check value of the IEEE 802.3 CRC. *)
Example crc_check_value :
  CalculateCrc32 (Some (map to_u8 [0x31; 0x32; 0x33; 0x34; 0x35; 0x36; 0x37; 0x38; 0x39])) 9
  = Def 0xCBF43926.
Proof. vm_compute. reflexivity. Qed.

Definition sample_frame : TransportFrame :=
  {| magic := FRAME_MAGIC; payloadLength := 0; messageType := UNLOCK_RESP; flags := x00;
     sequenceNumber := 7; payload := [x01; x02; x03]; checksum := 0 |}.
Definition sample_bytes : list byte := frame_layout sample_frame.

Lemma sample_frame_wf : wf_frame sample_frame.
Proof. by constructor. Qed.

Lemma sample_frame_small : Z.of_nat (length (payload sample_frame)) <= MAX_PAYLOAD_SIZE.
Proof. by vm_compute. Qed.

Lemma DeserializeFrame_SerializeFrame_witness :
  exists buf, SerializeFrame sample_frame = Def buf /\ length buf = 21%nat /\
    exists g, DeserializeFrame (Some (buf ++ [xff])) 22 new_TransportFrame =
      Def {| frame_ok := true; outFrame := g; outError := "" |} /\
    messageType g = UNLOCK_RESP /\ flags g = x00 /\ sequenceNumber g = 7 /\
    payload g = [x01; x02; x03] /\ payloadLength g = 3.
Proof.
  exact (DeserializeFrame_SerializeFrame sample_frame new_TransportFrame [xff] 22
           sample_frame_wf sample_frame_small ltac:(vm_compute; split; discriminate)).
Defined.

Lemma DeserializeFrame_canonical_witness :
  exists r, DeserializeFrame (Some sample_bytes) 21 new_TransportFrame = Def r /\
    SerializeFrame (outFrame r) = Def (take 21 sample_bytes).
Proof.
  exists {| frame_ok := true; outFrame := received sample_frame; outError := "" |}.
  assert (E : DeserializeFrame (Some sample_bytes) 21 new_TransportFrame =
    Def {| frame_ok := true; outFrame := received sample_frame; outError := "" |})
    by (vm_compute; reflexivity).
  split; [exact E|].
  exact (proj2 (proj2 (proj2 (proj2
    (DeserializeFrame_canonical sample_bytes 21 new_TransportFrame _
       ltac:(vm_compute; discriminate) E eq_refl))))).
Defined.

Lemma DeserializeFrame_safe_witness :
  exists r, DeserializeFrame (Some (replicate 20 xff)) 20 new_TransportFrame = Def r /\
    frame_ok r = false.
Proof.
  destruct (DeserializeFrame_safe (replicate 20 xff) 20 new_TransportFrame
              ltac:(vm_compute; discriminate)) as (r & E & _).
  exists r. split; [exact E|]. vm_compute in E. injection E as <-. reflexivity.
Defined.

(** Two payload bytes of the sample frame replaced. *)
Lemma DeserializeFrame_burst_witness :
  DeserializeFrame (Some (take 14 sample_bytes ++ [x00; x40] ++ drop 16 sample_bytes)) 21
    new_TransportFrame =
  Def {| frame_ok := false; outFrame := new_TransportFrame; outError := err_crc |}.
Proof.
  refine (DeserializeFrame_burst sample_frame new_TransportFrame (take 14 sample_bytes)
            [x01; x02] [x00; x40] (drop 16 sample_bytes) sample_frame_small
            ltac:(vm_compute; reflexivity) eq_refl ltac:(apply Nat.leb_le; reflexivity) ltac:(apply Nat.leb_le; reflexivity)
            (burst32_bytes [x01; x02] [x00; x40] eq_refl ltac:(apply Nat.leb_le; reflexivity) ltac:(discriminate))).
Defined.
