(* ===== verification/ChallengeStore.v ===== *)
(** * ChallengeStore: single-use challenges with a time to live

    Models windows/agent/ChallengeStore.cpp (and the [ChallengeRecord] of
    ChallengeGenerator.h).  Every public method takes [m_mutex] for its whole
    body, so each is one atomic function on the store; [exec] and the
    interleaving semantics at the end give the concurrent reading. *)
From Stdlib Require Import Strings.Ascii.
From S2P Require Import Prelude Bytes Protocol.

(** ** Data *)
Inductive State : Type := OUTSTANDING | CONSUMED | EXPIRED.

#[export] Instance State_eq_dec : EqDecision State.
Proof. solve_decision. Defined.

Record ChallengeRecord : Type := {
  rec_sessionId : list byte;
  rec_deviceId : list byte;
  rec_pcId : list byte;
  rec_challenge : list byte;
  creationTimestampMs : Z;
  rec_expirationTimestampMs : Z;
  state : State;
}.

Definition with_state (s : State) (r : ChallengeRecord) : ChallengeRecord :=
  {| rec_sessionId := rec_sessionId r; rec_deviceId := rec_deviceId r; rec_pcId := rec_pcId r;
     rec_challenge := rec_challenge r; creationTimestampMs := creationTimestampMs r;
     rec_expirationTimestampMs := rec_expirationTimestampMs r; state := s |}.

(** [std::unordered_map<std::string, ChallengeRecord> m_store] *)
Abbreviation Store := (gmap string ChallengeRecord).

(** ** BytesToKey *)

(** The lower-case digit [std::hex] prints for [0 <= d < 16]. *)
Definition hex_digit (d : Z) : ascii :=
  ascii_of_nat (Z.to_nat (if d <? 10 then 48 + d else 87 + d)).

(** [std::hex << v] for [0 <= v < 256]: no leading zero. *)
Definition hex_int (v : Z) : string :=
  if v <? 16 then String (hex_digit v) ""
  else String (hex_digit (v / 16)) (String (hex_digit (v mod 16)) "").

(** [std::setw(2) << std::setfill('0')] *)
Definition setw2 (s : string) : string :=
  match s with
  | "" => "00"
  | String c "" => String "0" (String c "")
  | _ => s
  end%string.

(** [data] is the whole [std::array] ([len] is its size at every call). *)
Fixpoint BytesToKey (data : list byte) : string :=
  match data with
  | [] => ""
  | b :: rest => setw2 (hex_int (u8 b)) +:+ BytesToKey rest
  end.

(** [std::memcmp(a, b, n) != 0] on arrays of [n] bytes. *)
Definition memcmp_ne (a b : list byte) : bool := negb (bool_decide (a = b)).

(** ** Operations *)

(** The arguments identifying a challenge in the three checking methods. *)
Record Query : Type := {
  q_sessionId : list byte;
  q_deviceId : list byte;
  q_pcId : list byte;
  q_challenge : list byte;
}.

Definition AddChallenge (record : ChallengeRecord) (m_store : Store) : Store :=
  <[BytesToKey (rec_sessionId record) := record]> m_store.

(** Returns the code and the out-parameter; the store is not written. *)
Definition ValidateChallenge (q : Query) (currentTimeMs : Z) (outRecord : ChallengeRecord)
    (m_store : Store) : ErrorCode * ChallengeRecord :=
  match m_store !! BytesToKey (q_sessionId q) with
  | None => (CHALLENGE_NOT_FOUND, outRecord)
  | Some rec =>
    if bool_decide (state rec = CONSUMED) then (CHALLENGE_ALREADY_CONSUMED, outRecord)
    else if bool_decide (state rec = EXPIRED) || (currentTimeMs >? rec_expirationTimestampMs rec)
    then (CHALLENGE_EXPIRED, outRecord)
    else if memcmp_ne (rec_deviceId rec) (q_deviceId q) then (DEVICE_MISMATCH, outRecord)
    else if memcmp_ne (rec_pcId rec) (q_pcId q) then (PC_MISMATCH, outRecord)
    else if memcmp_ne (rec_challenge rec) (q_challenge q) then (CHALLENGE_NOT_FOUND, outRecord)
    else (SUCCESS, rec)
  end.

Definition ConsumeChallenge (q : Query) (currentTimeMs : Z) (m_store : Store)
    : ErrorCode * Store :=
  let key := BytesToKey (q_sessionId q) in
  match m_store !! key with
  | None => (CHALLENGE_NOT_FOUND, m_store)
  | Some rec =>
    if bool_decide (state rec = CONSUMED) then (CHALLENGE_ALREADY_CONSUMED, m_store)
    else if bool_decide (state rec = EXPIRED) || (currentTimeMs >? rec_expirationTimestampMs rec)
    then (CHALLENGE_EXPIRED, <[key := with_state EXPIRED rec]> m_store)
    else if memcmp_ne (rec_deviceId rec) (q_deviceId q) then (DEVICE_MISMATCH, m_store)
    else if memcmp_ne (rec_pcId rec) (q_pcId q) then (PC_MISMATCH, m_store)
    else if memcmp_ne (rec_challenge rec) (q_challenge q) then (CHALLENGE_NOT_FOUND, m_store)
    else (SUCCESS, <[key := with_state CONSUMED rec]> m_store)
  end.

Definition ValidateAndConsumeChallenge (q : Query) (currentTimeMs : Z) (m_store : Store)
    : ErrorCode * Store :=
  let key := BytesToKey (q_sessionId q) in
  match m_store !! key with
  | None => (CHALLENGE_NOT_FOUND, m_store)
  | Some rec =>
    if bool_decide (state rec = CONSUMED) then (CHALLENGE_ALREADY_CONSUMED, m_store)
    else if bool_decide (state rec = EXPIRED) || (currentTimeMs >? rec_expirationTimestampMs rec)
    then (CHALLENGE_EXPIRED, <[key := with_state EXPIRED rec]> m_store)
    else if memcmp_ne (rec_deviceId rec) (q_deviceId q) then (DEVICE_MISMATCH, m_store)
    else if memcmp_ne (rec_pcId rec) (q_pcId q) then (PC_MISMATCH, m_store)
    else if memcmp_ne (rec_challenge rec) (q_challenge q) then (CHALLENGE_NOT_FOUND, m_store)
    else (SUCCESS, <[key := with_state CONSUMED rec]> m_store)
  end.

(** The condition of the purge loop. *)
Definition overdue (currentTimeMs : Z) (r : ChallengeRecord) : bool :=
  bool_decide (state r = OUTSTANDING) && (currentTimeMs >? rec_expirationTimestampMs r).

(** [for (auto& pair : m_store)], visiting the keys in the order the hash table
    happens to enumerate them; [count] is a [size_t] bounded by the map's size. *)
Fixpoint expire_loop (currentTimeMs : Z) (order : list string) (m_store : Store) (count : Z)
    : Z * Store :=
  match order with
  | [] => (count, m_store)
  | k :: rest =>
    match m_store !! k with
    | Some r =>
      if overdue currentTimeMs r
      then expire_loop currentTimeMs rest (<[k := with_state EXPIRED r]> m_store) (count + 1)
      else expire_loop currentTimeMs rest m_store count
    | None => expire_loop currentTimeMs rest m_store count
    end
  end.

Definition ExpireChallenges_in (order : list string) (currentTimeMs : Z) (m_store : Store)
    : Z * Store := expire_loop currentTimeMs order m_store 0.
Definition ExpireChallenges (currentTimeMs : Z) (m_store : Store) : Z * Store :=
  ExpireChallenges_in (map_to_list m_store).*1 currentTimeMs m_store.

Fixpoint active_loop (order : list string) (m_store : Store) (count : Z) : Z :=
  match order with
  | [] => count
  | k :: rest =>
    match m_store !! k with
    | Some r => active_loop rest m_store
                  (if bool_decide (state r = OUTSTANDING) then count + 1 else count)
    | None => active_loop rest m_store count
    end
  end.
Definition GetActiveCount_in (order : list string) (m_store : Store) : Z :=
  active_loop order m_store 0.
Definition GetActiveCount (m_store : Store) : Z :=
  GetActiveCount_in (map_to_list m_store).*1 m_store.

(** ** Keys *)

Lemma hex_digit_inj a b : 0 <= a < 16 -> 0 <= b < 16 -> hex_digit a = hex_digit b -> a = b.
Proof.
  intros Ha Hb E. unfold hex_digit in E. apply (f_equal nat_of_ascii) in E.
  rewrite !nat_ascii_embedding in E;
    repeat match goal with |- context [if ?x <? 10 then _ else _] => destruct (Z.ltb_spec x 10)
           | H : context [if ?x <? 10 then _ else _] |- _ => destruct (Z.ltb_spec x 10) end; lia.
Qed.

Lemma setw2_hex_int v :
  0 <= v < 256 ->
  setw2 (hex_int v) = String (hex_digit (v / 16)) (String (hex_digit (v mod 16)) "").
Proof.
  intros H. unfold hex_int. destruct (Z.ltb_spec v 16); [|done].
  rewrite Z.div_small, Z.mod_small by lia. done.
Qed.

Lemma BytesToKey_inj a b : BytesToKey a = BytesToKey b -> a = b.
Proof.
  revert b. induction a as [|x a IH]; intros [|y b]; cbn [BytesToKey].
  1: done.
  1,2: rewrite setw2_hex_int by apply u8_range; done.
  rewrite !setw2_hex_int by apply u8_range. intros [= E1 E2 E3].
  pose proof (u8_range x). pose proof (u8_range y).
  apply hex_digit_inj in E1, E2; try (Z.to_euclidean_division_equations; lia).
  f_equal; [apply u8_inj | by apply IH].
  rewrite (Z.div_mod (u8 x) 16), (Z.div_mod (u8 y) 16) by lia. congruence.
Qed.
#[export] Instance BytesToKey_Inj : Inj (=) (=) BytesToKey := BytesToKey_inj.

(** ** Abstract specification: one-time tokens

    What the store promises, without keys, states or error codes: a partial map
    from session ids to live tokens.  Presenting a token removes it; a token
    past its expiry is removed and refused. *)
Record Token : Type := {
  t_deviceId : list byte;
  t_pcId : list byte;
  t_challenge : list byte;
  t_expiry : Z;
}.
Abbreviation Tokens := (gmap (list byte) Token).

Definition token_of (r : ChallengeRecord) : option Token :=
  if bool_decide (state r = OUTSTANDING)
  then Some {| t_deviceId := rec_deviceId r; t_pcId := rec_pcId r;
               t_challenge := rec_challenge r; t_expiry := rec_expirationTimestampMs r |}
  else None.

Definition token_matches (t : Token) (q : Query) : bool :=
  bool_decide (t_deviceId t = q_deviceId q) && bool_decide (t_pcId t = q_pcId q) &&
  bool_decide (t_challenge t = q_challenge q).

Definition spec_issue (r : ChallengeRecord) (live : Tokens) : Tokens :=
  match token_of r with
  | Some t => <[rec_sessionId r := t]> live
  | None => delete (rec_sessionId r) live
  end.

Definition spec_redeem (q : Query) (now : Z) (live : Tokens) : bool * Tokens :=
  match live !! q_sessionId q with
  | None => (false, live)
  | Some t =>
      if now >? t_expiry t then (false, delete (q_sessionId q) live)
      else if token_matches t q then (true, delete (q_sessionId q) live)
      else (false, live)
  end.

Definition spec_purge (now : Z) (live : Tokens) : Tokens :=
  filter (fun kt => now <= t_expiry kt.2) live.

(** The abstraction relation: the live tokens are the outstanding records. *)
Definition abstracts (m_store : Store) (live : Tokens) : Prop :=
  forall sid, live !! sid = m_store !! BytesToKey sid ≫= token_of.

(** ** The two consuming methods and the check they share *)

(** The verdict on a record, as all three methods compute it. *)
Definition verdict (q : Query) (now : Z) (rec : ChallengeRecord) : ErrorCode :=
  if bool_decide (state rec = CONSUMED) then CHALLENGE_ALREADY_CONSUMED
  else if bool_decide (state rec = EXPIRED) || (now >? rec_expirationTimestampMs rec)
  then CHALLENGE_EXPIRED
  else if memcmp_ne (rec_deviceId rec) (q_deviceId q) then DEVICE_MISMATCH
  else if memcmp_ne (rec_pcId rec) (q_pcId q) then PC_MISMATCH
  else if memcmp_ne (rec_challenge rec) (q_challenge q) then CHALLENGE_NOT_FOUND
  else SUCCESS.

(** The state a record is left in. *)
Definition settle (e : ErrorCode) (rec : ChallengeRecord) : ChallengeRecord :=
  match e with
  | SUCCESS => with_state CONSUMED rec
  | CHALLENGE_EXPIRED => with_state EXPIRED rec
  | _ => rec
  end.

Lemma Validate_verdict q now out s :
  ValidateChallenge q now out s =
  match s !! BytesToKey (q_sessionId q) with
  | None => (CHALLENGE_NOT_FOUND, out)
  | Some rec => (verdict q now rec, if decide (verdict q now rec = SUCCESS) then rec else out)
  end.
Proof.
  unfold ValidateChallenge, verdict. destruct (s !! _) as [rec|]; [|done].
  repeat match goal with |- context [if ?b then _ else _] =>
    lazymatch b with context [decide] => fail | _ => destruct b end end; done.
Qed.

Lemma VAC_verdict q now s :
  ValidateAndConsumeChallenge q now s =
  match s !! BytesToKey (q_sessionId q) with
  | None => (CHALLENGE_NOT_FOUND, s)
  | Some rec => (verdict q now rec,
                 <[BytesToKey (q_sessionId q) := settle (verdict q now rec) rec]> s)
  end.
Proof.
  unfold ValidateAndConsumeChallenge, verdict. cbn zeta.
  destruct (s !! BytesToKey (q_sessionId q)) as [rec|] eqn:E; [|done].
  repeat match goal with |- context [if ?b then _ else _] => destruct b end;
    cbn [settle]; by rewrite ?(insert_id s) by done.
Qed.

Lemma Consume_VAC q now s : ConsumeChallenge q now s = ValidateAndConsumeChallenge q now s.
Proof. done. Qed.

Lemma verdict_success q now rec :
  verdict q now rec = SUCCESS <->
  state rec = OUTSTANDING /\ now <= rec_expirationTimestampMs rec /\
  rec_deviceId rec = q_deviceId q /\ rec_pcId rec = q_pcId q /\
  rec_challenge rec = q_challenge q.
Proof.
  unfold verdict, memcmp_ne. destruct (state rec) eqn:Es; cbn.
  2,3: by (split; [|intros (? & _)]).
  destruct (Z.gtb_spec now (rec_expirationTimestampMs rec)); [split; [done | lia]|].
  repeat case_bool_decide; cbn; naive_solver.
Qed.

Lemma verdict_expired q now rec :
  verdict q now rec = CHALLENGE_EXPIRED <->
  state rec = EXPIRED \/ state rec = OUTSTANDING /\ rec_expirationTimestampMs rec < now.
Proof.
  unfold verdict, memcmp_ne. destruct (state rec) eqn:Es; cbn.
  2: split; [done | naive_solver].
  2: naive_solver.
  destruct (Z.gtb_spec now (rec_expirationTimestampMs rec)); [naive_solver|].
  repeat case_bool_decide; cbn; split; try done; intros [|[_ ?]]; done || lia.
Qed.

(** ** Concurrent use

    A thread is a list of calls; a step runs one whole call of one thread,
    because each call holds the mutex throughout. *)
Inductive Op : Type :=
| OpAdd (record : ChallengeRecord)
| OpValidate (q : Query) (now : Z)
| OpConsume (q : Query) (now : Z)
| OpValidateAndConsume (q : Query) (now : Z)
| OpExpire (now : Z)
| OpCount.

Inductive Reply : Type :=
| RVoid
| RCode (e : ErrorCode)
| RCount (n : Z).

Definition blank_record : ChallengeRecord :=
  {| rec_sessionId := replicate 16 x00; rec_deviceId := replicate 16 x00;
     rec_pcId := replicate 16 x00; rec_challenge := replicate 32 x00;
     creationTimestampMs := 0; rec_expirationTimestampMs := 0; state := OUTSTANDING |}.

Definition exec (op : Op) (s : Store) : Reply * Store :=
  match op with
  | OpAdd r => (RVoid, AddChallenge r s)
  | OpValidate q now => (RCode (ValidateChallenge q now blank_record s).1, s)
  | OpConsume q now => let '(e, s') := ConsumeChallenge q now s in (RCode e, s')
  | OpValidateAndConsume q now =>
      let '(e, s') := ValidateAndConsumeChallenge q now s in (RCode e, s')
  | OpExpire now => let '(n, s') := ExpireChallenges now s in (RCount n, s')
  | OpCount => (RCount (GetActiveCount s), s)
  end.

Record Config : Type := {
  shared : Store;
  threads : list (list Op);
  history : list (Op * Reply);
}.

Inductive cstep : Config -> Config -> Prop :=
| cstep_run c i op rest :
    threads c !! i = Some (op :: rest) ->
    cstep c {| shared := (exec op (shared c)).2;
               threads := <[i := rest]> (threads c);
               history := history c ++ [(op, (exec op (shared c)).1)] |}.

(** Successful redemptions of session [sid], and issues of it, in a history. *)
Definition redeems (sid : list byte) (e : Op * Reply) : bool :=
  match e with
  | (OpConsume q _, RCode SUCCESS) | (OpValidateAndConsume q _, RCode SUCCESS) =>
      bool_decide (q_sessionId q = sid)
  | _ => false
  end.
Definition issues (sid : list byte) (e : Op * Reply) : bool :=
  match e with
  | (OpAdd r, _) => bool_decide (rec_sessionId r = sid)
  | _ => false
  end.
(** 1 when the record of [sid] is outstanding. *)
Definition live_count (s : Store) (sid : list byte) : nat :=
  match s !! BytesToKey sid ≫= token_of with Some _ => 1 | None => 0 end.

(** ** Purging, in any enumeration order *)

Definition expire1 (now : Z) (r : ChallengeRecord) : ChallengeRecord :=
  if overdue now r then with_state EXPIRED r else r.

Definition overdue_at (now : Z) (s : Store) (k : string) : bool :=
  match s !! k with Some r => overdue now r | None => false end.

Lemma expire_loop_spec now order s c :
  NoDup order ->
  (expire_loop now order s c).1 = c + Z.of_nat (count_if (overdue_at now s) order) /\
  forall k, (expire_loop now order s c).2 !! k =
    if decide (k ∈ order) then expire1 now <$> s !! k else s !! k.
Proof.
  revert s c. induction order as [|k order IH]; intros s c ND; cbn [expire_loop count_if].
  - cbn. split; [lia | done].
  - apply NoDup_cons in ND as [Hk ND]. unfold overdue_at at 1.
    destruct (s !! k) as [r|] eqn:E; [destruct (overdue now r) eqn:O|].
    + destruct (IH (<[k:=with_state EXPIRED r]> s) (c + 1) ND) as [-> H2]. split.
      * rewrite (count_if_ext _ (overdue_at now s)); [lia|].
        intros j Hj. unfold overdue_at. by rewrite lookup_insert_ne by set_solver.
      * intros j. rewrite H2. destruct (decide (j = k)) as [->|N].
        -- rewrite decide_False, decide_True by set_solver.
           rewrite lookup_insert_eq, E. cbn. unfold expire1. by rewrite O.
        -- rewrite lookup_insert_ne by done. repeat case_decide; set_solver.
    + destruct (IH s c ND) as [-> H2]. split; [lia|]. intros j. rewrite H2.
      destruct (decide (j = k)) as [->|N]; [|repeat case_decide; set_solver].
      rewrite decide_False, decide_True by set_solver. rewrite E. cbn.
      unfold expire1. by rewrite O.
    + destruct (IH s c ND) as [-> H2]. split; [lia|]. intros j. rewrite H2.
      destruct (decide (j = k)) as [->|N]; [|repeat case_decide; set_solver].
      rewrite decide_False, decide_True by set_solver. by rewrite E.
Qed.

Lemma active_loop_spec order s c :
  active_loop order s c = c + Z.of_nat (count_if (fun k =>
    match s !! k with Some r => bool_decide (state r = OUTSTANDING) | None => false end) order).
Proof.
  revert c. induction order as [|k order IH]; intros c; cbn [active_loop count_if]; [lia|].
  destruct (s !! k) as [r|]; rewrite IH; [|lia]. case_bool_decide; lia.
Qed.

(** Counting keys is counting entries. *)
Lemma count_if_keys (p : ChallengeRecord -> bool) (s : Store) :
  count_if (fun k => match s !! k with Some r => p r | None => false end) (map_to_list s).*1 =
  size (filter (fun kr => p kr.2 = true) s).
Proof.
  rewrite count_if_fmap, <- (count_if_map_to_list (fun kr => p kr.2)).
  apply count_if_ext. intros [k r] H%elem_of_map_to_list. cbn. by rewrite H.
Qed.

Lemma Expire_spec order now s :
  order ≡ₚ (map_to_list s).*1 ->
  ExpireChallenges_in order now s =
    (Z.of_nat (size (filter (fun kr => overdue now kr.2 = true) s)), expire1 now <$> s).
Proof.
  intros P. unfold ExpireChallenges_in.
  assert (ND : NoDup order) by (rewrite P; apply NoDup_fst_map_to_list).
  destruct (expire_loop_spec now order s 0 ND) as [H1 H2].
  destruct (expire_loop now order s 0) as [n s']. cbn in H1, H2. f_equal.
  - rewrite H1, P. f_equal. rewrite <- (count_if_keys (overdue now)). f_equal.
  - apply map_eq. intros k. rewrite H2, lookup_fmap.
    destruct (decide (k ∈ order)) as [|N]; [done|].
    destruct (s !! k) as [r|] eqn:E; [|done]. destruct N. rewrite P.
    apply list_elem_of_fmap. exists (k, r). by rewrite elem_of_map_to_list.
Qed.

Definition is_outstanding (r : ChallengeRecord) : bool := bool_decide (state r = OUTSTANDING).

Lemma GetActive_spec order s :
  order ≡ₚ (map_to_list s).*1 ->
  GetActiveCount_in order s =
    Z.of_nat (size (filter (fun kr => is_outstanding kr.2 = true) s)).
Proof.
  intros P. unfold GetActiveCount_in. rewrite active_loop_spec, P.
  by rewrite (count_if_keys is_outstanding).
Qed.

(** ** Refinement of the one-time-token specification *)

Definition spec_exec (op : Op) (live : Tokens) : bool * Tokens :=
  match op with
  | OpAdd r => (false, spec_issue r live)
  | OpConsume q now | OpValidateAndConsume q now => spec_redeem q now live
  | OpExpire now => (false, spec_purge now live)
  | OpValidate _ _ | OpCount => (false, live)
  end.

(** Whether a call presented a token and was told [SUCCESS]. *)
Definition redeemed (op : Op) (r : Reply) : bool :=
  match op, r with
  | (OpConsume _ _ | OpValidateAndConsume _ _), RCode SUCCESS => true
  | _, _ => false
  end.

Lemma token_of_outstanding r :
  state r = OUTSTANDING ->
  token_of r = Some {| t_deviceId := rec_deviceId r; t_pcId := rec_pcId r;
                       t_challenge := rec_challenge r; t_expiry := rec_expirationTimestampMs r |}.
Proof. intros H. unfold token_of. by rewrite H. Qed.

Lemma token_of_settled r : state r <> OUTSTANDING -> token_of r = None.
Proof. intros H. unfold token_of. by rewrite bool_decide_false. Qed.

Lemma abstracts_insert s live sid r :
  abstracts s live ->
  abstracts (<[BytesToKey sid := r]> s)
    (match token_of r with Some t => <[sid := t]> live | None => delete sid live end).
Proof.
  intros A sid'. destruct (decide (sid' = sid)) as [->|N].
  - rewrite lookup_insert_eq. cbn.
    destruct (token_of r); by rewrite ?lookup_insert_eq, ?lookup_delete_eq.
  - rewrite (lookup_insert_ne s) by (intros E; by apply N, BytesToKey_inj).
    rewrite <- A. destruct (token_of r); by rewrite ?lookup_insert_ne, ?lookup_delete_ne by done.
Qed.

Lemma token_matches_true t q :
  token_matches t q = true <->
  t_deviceId t = q_deviceId q /\ t_pcId t = q_pcId q /\ t_challenge t = q_challenge q.
Proof.
  unfold token_matches. rewrite !andb_true_iff, !bool_decide_eq_true. tauto.
Qed.

Lemma verdict_token q now rec t :
  token_of rec = Some t ->
  (t_expiry t < now -> verdict q now rec = CHALLENGE_EXPIRED) /\
  (now <= t_expiry t -> token_matches t q = true -> verdict q now rec = SUCCESS) /\
  (now <= t_expiry t -> token_matches t q = false ->
   verdict q now rec <> SUCCESS /\ verdict q now rec <> CHALLENGE_EXPIRED).
Proof.
  unfold token_of. case_bool_decide as E; [|done]. intros [= <-].
  rewrite <- not_true_iff_false, token_matches_true, verdict_success, verdict_expired, E.
  cbn. naive_solver lia.
Qed.

Lemma redeem_refines q now s live :
  abstracts s live ->
  (if decide ((ValidateAndConsumeChallenge q now s).1 = SUCCESS) then true else false) =
    (spec_redeem q now live).1 /\
  abstracts (ValidateAndConsumeChallenge q now s).2 (spec_redeem q now live).2.
Proof.
  intros A. rewrite VAC_verdict. unfold spec_redeem. rewrite (A (q_sessionId q)).
  destruct (s !! BytesToKey (q_sessionId q)) as [rec|] eqn:E; cbn [mbind option_bind];
    [|by split]. cbn [fst snd].
  pose proof (abstracts_insert s live (q_sessionId q) (settle (verdict q now rec) rec) A) as I.
  destruct (token_of rec) as [t|] eqn:T.
  - destruct (verdict_token q now rec t T) as (V1 & V2 & V3).
    destruct (Z.gtb_spec now (t_expiry t)) as [G|G].
    + rewrite V1 in * by lia. by split.
    + destruct (token_matches t q) eqn:M.
      * rewrite V2 in * by done. by split.
      * destruct V3 as [V3 V4]; [done..|]. split; [by rewrite decide_False|].
        replace (settle (verdict q now rec) rec) with rec by (by destruct (verdict q now rec)).
        by rewrite insert_id.
  - assert (state rec <> OUTSTANDING) by (intros O; by rewrite token_of_outstanding in T).
    rewrite decide_False by (rewrite verdict_success; tauto). split; [done|].
    rewrite token_of_settled in I.
    + rewrite delete_id in I; [done|]. by rewrite (A (q_sessionId q)), E.
    + by destruct (verdict q now rec).
Qed.

Lemma purge_refines now s live :
  abstracts s live -> abstracts (ExpireChallenges now s).2 (spec_purge now live).
Proof.
  intros A sid. unfold ExpireChallenges. rewrite Expire_spec by done. cbn [snd].
  rewrite lookup_fmap. unfold spec_purge. rewrite map_lookup_filter, A.
  destruct (s !! BytesToKey sid) as [r|]; cbn [mbind option_bind fmap option_fmap option_map]; [|done].
  unfold expire1, overdue. destruct (decide (state r = OUTSTANDING)) as [O|O].
  - rewrite bool_decide_true by done. rewrite (token_of_outstanding r) by done. cbn.
    destruct (Z.gtb_spec now (rec_expirationTimestampMs r)).
    + rewrite option_guard_False by (cbn; lia). by rewrite token_of_settled.
    + rewrite option_guard_True by (cbn; lia). by rewrite token_of_outstanding.
  - rewrite bool_decide_false by done. cbn. by rewrite token_of_settled.
Qed.

(** ** Safety of interleavings *)

Lemma live_count_token s sid :
  live_count s sid = match s !! BytesToKey sid ≫= token_of with Some _ => 1%nat | None => 0%nat end.
Proof. done. Qed.

Lemma live_count_insert s sid r sid' :
  live_count (<[BytesToKey sid := r]> s) sid' =
  if decide (sid' = sid) then (match token_of r with Some _ => 1 | None => 0 end)%nat
  else live_count s sid'.
Proof.
  unfold live_count. destruct (decide (sid' = sid)) as [->|N].
  - by rewrite lookup_insert_eq.
  - by rewrite lookup_insert_ne by (intros E; by apply N, BytesToKey_inj).
Qed.

Lemma settle_token e rec :
  token_of (settle e rec) = match e with SUCCESS | CHALLENGE_EXPIRED => None | _ => token_of rec end.
Proof. by destruct e. Qed.

(** One call: a redemption uses up a live record, and only an issue makes one. *)
Lemma exec_live op s sid :
  ((if redeems sid (op, (exec op s).1) then 1 else 0) + live_count (exec op s).2 sid
   <= live_count s sid + (if issues sid (op, (exec op s).1) then 1 else 0))%nat.
Proof.
  assert (HV : forall q now, 
    ((if redeems sid (OpValidateAndConsume q now, RCode (ValidateAndConsumeChallenge q now s).1)
      then 1 else 0) + live_count (ValidateAndConsumeChallenge q now s).2 sid
     <= live_count s sid)%nat).
  { intros q now. rewrite VAC_verdict.
    destruct (s !! BytesToKey (q_sessionId q)) as [rec|] eqn:E; cbn [fst snd redeems]; [|done].
    rewrite live_count_insert, settle_token.
    destruct (decide (sid = q_sessionId q)) as [->|N].
    - rewrite bool_decide_true by done. unfold live_count. rewrite E. cbn [mbind option_bind].
      destruct (verdict q now rec) eqn:V; try lia.
      apply verdict_success in V as (O & _). by rewrite token_of_outstanding.
    - rewrite bool_decide_false by done. by destruct (verdict q now rec). }
  destruct op as [r|q now|q now|q now|now|]; cbn [exec fst snd].
  - cbn [redeems issues]. unfold AddChallenge. rewrite live_count_insert.
    destruct (decide (sid = rec_sessionId r)) as [->|N].
    + rewrite bool_decide_true by done. destruct (token_of r); lia.
    + rewrite bool_decide_false by done. lia.
  - cbn [redeems issues]. lia.
  - specialize (HV q now). rewrite Consume_VAC.
    destruct (ValidateAndConsumeChallenge q now s) as [e s']. cbn in *. lia.
  - specialize (HV q now).
    destruct (ValidateAndConsumeChallenge q now s) as [e s']. cbn in *. lia.
  - unfold ExpireChallenges. rewrite Expire_spec by done. cbn [redeems issues fst snd].
    unfold live_count. rewrite lookup_fmap.
    destruct (s !! BytesToKey sid) as [r|]; cbn; [|lia].
    unfold expire1. destruct (overdue now r); [rewrite token_of_settled by done|]; lia.
  - cbn [redeems issues]. lia.
Qed.

Lemma interleaving_live c c' sid :
  rtc cstep c c' ->
  (count_if (redeems sid) (history c') + live_count (shared c') sid + count_if (issues sid) (history c)
   <= count_if (redeems sid) (history c) + live_count (shared c) sid
      + count_if (issues sid) (history c'))%nat.
Proof.
  induction 1 as [c|c c1 c' Hs _ IH]; [lia|]. destruct Hs as [c i op rest Hop].
  cbn [shared history] in IH. rewrite !count_if_app in IH. cbn [count_if] in IH.
  pose proof (exec_live op (shared c) sid). lia.
Qed.

(** ** Life cycle of a record *)

(** The transitions the calls other than [AddChallenge] may make. *)
Inductive record_step : ChallengeRecord -> ChallengeRecord -> Prop :=
| record_same r : record_step r r
| record_consume r : state r = OUTSTANDING -> record_step r (with_state CONSUMED r)
| record_expire r : state r = OUTSTANDING -> record_step r (with_state EXPIRED r).

Lemma with_state_id s r : state r = s -> with_state s r = r.
Proof. intros <-. by destruct r. Qed.

Lemma settle_step q now rec : record_step rec (settle (verdict q now rec) rec).
Proof.
  destruct (verdict q now rec) eqn:V; cbn [settle]; try apply record_same.
  - apply record_consume. by apply verdict_success in V as (? & _).
  - apply verdict_expired in V as [V|[V _]].
    + rewrite (with_state_id EXPIRED) by done. apply record_same.
    + by apply record_expire.
Qed.

Lemma exec_record_step op s k r :
  s !! k = Some r ->
  (forall r', op = OpAdd r' -> BytesToKey (rec_sessionId r') <> k) ->
  exists r', (exec op s).2 !! k = Some r' /\ record_step r r'.
Proof.
  intros Hk Hadd.
  assert (HV : forall q now, exists r', (ValidateAndConsumeChallenge q now s).2 !! k = Some r'
                                    /\ record_step r r').
  { intros q now. rewrite VAC_verdict.
    destruct (s !! BytesToKey (q_sessionId q)) as [rec|] eqn:E; cbn [snd];
      [|exists r; split; [done | constructor]].
    destruct (decide (BytesToKey (q_sessionId q) = k)) as [<-|N].
    - rewrite lookup_insert_eq. eexists; split; [done|].
      rewrite E in Hk. injection Hk as ->. apply settle_step.
    - rewrite lookup_insert_ne by done. exists r; split; [done | constructor]. }
  destruct op as [r'|q now|q now|q now|now|]; cbn [exec].
  - exists r. split; [|constructor]. cbn [snd]. unfold AddChallenge.
    rewrite lookup_insert_ne; [done | by apply Hadd].
  - exists r. split; [done | constructor].
  - destruct (HV q now) as (r' & H). rewrite Consume_VAC.
    destruct (ValidateAndConsumeChallenge q now s). eauto.
  - destruct (HV q now) as (r' & H).
    destruct (ValidateAndConsumeChallenge q now s). eauto.
  - unfold ExpireChallenges. rewrite Expire_spec by done. cbn [snd].
    rewrite lookup_fmap, Hk. eexists; split; [done|]. unfold expire1, overdue.
    case_bool_decide; cbn; [destruct (now >? _)|]; by constructor.
  - exists r. split; [done | constructor].
Qed.

(** ** Racing redemptions of one challenge *)

(** A call that presents [q] no later than [deadline]. *)
Definition presents (q : Query) (deadline : Z) (op : Op) : Prop :=
  exists now, now <= deadline /\ (op = OpConsume q now \/ op = OpValidateAndConsume q now).

Definition pending (c : Config) : nat := length (concat (threads c)).

Lemma pending_update (ths : list (list Op)) i op rest :
  ths !! i = Some (op :: rest) -> length (concat ths) = S (length (concat (<[i := rest]> ths))).
Proof.
  revert i. induction ths as [|t ths IH]; intros [|i]; cbn; try done.
  - intros [= ->]. done.
  - intros H. rewrite !length_app, (IH _ H), Nat.add_succ_r. done.
Qed.

Lemma cstep_pending c c' : cstep c c' ->
  pending c = S (pending c') /\ length (history c') = S (length (history c)).
Proof.
  intros [c0 i op rest H]. unfold pending. cbn [threads history]. split.
  - by apply pending_update with (op := op).
  - len.
Qed.

Lemma rtc_pending c c' : rtc cstep c c' ->
  (pending c + length (history c) = pending c' + length (history c'))%nat.
Proof.
  induction 1 as [c|c c1 c' H _ IH]; [done|]. apply cstep_pending in H as [H1 H2]. lia.
Qed.

(** Every configuration runs to completion. *)
Lemma run_to_end c : exists c', rtc cstep c c' /\ pending c' = 0%nat.
Proof.
  remember (pending c) as n eqn:E. revert c E. induction n as [|n IH]; intros c E.
  - by exists c.
  - destruct (list_find (fun t => t <> []) (threads c)) as [[i [|op rest]]|] eqn:F.
    + apply list_find_Some in F as (_ & ? & _). done.
    + apply list_find_Some in F as (F & _ & _).
      pose proof (cstep_run c i op rest F) as St. pose proof (cstep_pending _ _ St) as [P _].
      edestruct IH as (c' & R & D); [|exists c'; split; [by eapply rtc_l | done]].
      lia.
    + exfalso. apply list_find_None in F. unfold pending in E.
      assert (concat (threads c) = []) as M; [|by rewrite M in E].
      clear E. induction F as [|t l Ht _ IHl]; [done|]. cbn.
      destruct t; [done | by destruct Ht].
Qed.

(** What a race looks like: untouched, or one winner first. *)
Definition race_inv (q : Query) (deadline : Z) (rec : ChallengeRecord) (c : Config) : Prop :=
  Forall (Forall (presents q deadline)) (threads c) /\
  (history c = [] /\ shared c !! BytesToKey (q_sessionId q) = Some rec \/
   (exists n, (history c).*2 = RCode SUCCESS :: replicate n (RCode CHALLENGE_ALREADY_CONSUMED)) /\
   exists r, shared c !! BytesToKey (q_sessionId q) = Some r /\ state r = CONSUMED).

Lemma exec_presents q deadline op s :
  presents q deadline op ->
  exists now, now <= deadline /\
    exec op s = let '(e, s') := ValidateAndConsumeChallenge q now s in (RCode e, s').
Proof. intros (now & Hn & [->| ->]); exists now; done. Qed.

Lemma race_inv_step q deadline rec c c' :
  verdict q deadline rec = SUCCESS -> race_inv q deadline rec c -> cstep c c' ->
  race_inv q deadline rec c'.
Proof.
  intros V H St. destruct St as [c0 i op rest Hop]. destruct H as [HT HI].
  pose proof (Forall_lookup_1 _ _ _ _ HT Hop) as Hp. apply Forall_cons in Hp as [Hp Hr].
  split; cbn [threads history shared]; [by apply Forall_insert|].
  destruct (exec_presents _ _ _ (shared c0) Hp) as (now & Hn & ->). right.
  rewrite VAC_verdict. destruct HI as [[Hh Hs]|[[n Hh] (r & Hs & Hc)]]; rewrite Hs.
  - assert (V' : verdict q now rec = SUCCESS).
    { rewrite verdict_success in *. naive_solver lia. }
    rewrite V', Hh. split; [by exists 0%nat|].
    eexists. split; [cbn; apply lookup_insert_eq | done].
  - assert (V' : verdict q now r = CHALLENGE_ALREADY_CONSUMED).
    { unfold verdict. by rewrite Hc. }
    rewrite V'. split.
    + exists (S n). by rewrite fmap_app, Hh, replicate_S_end.
    + cbn [settle snd]. rewrite insert_id by done. eauto.
Qed.

Lemma race_inv_run q deadline rec c c' :
  verdict q deadline rec = SUCCESS -> race_inv q deadline rec c -> rtc cstep c c' ->
  race_inv q deadline rec c'.
Proof. intros V H R. induction R; [done|]. eauto using race_inv_step. Qed.

Lemma exec_refines op s live :
  abstracts s live ->
  redeemed op (exec op s).1 = (spec_exec op live).1 /\
  abstracts (exec op s).2 (spec_exec op live).2.
Proof.
  intros A. destruct op as [r|q now|q now|q now|now|]; cbn [exec spec_exec].
  - split; [done|]. by apply abstracts_insert.
  - by split.
  - destruct (redeem_refines q now s live A) as [H1 H2]. rewrite Consume_VAC.
    destruct (ValidateAndConsumeChallenge q now s) as [e s']. cbn in *.
    split; [|done]. rewrite <- H1. by destruct e.
  - destruct (redeem_refines q now s live A) as [H1 H2].
    destruct (ValidateAndConsumeChallenge q now s) as [e s']. cbn in *.
    split; [|done]. rewrite <- H1. by destruct e.
  - pose proof (purge_refines now s live A).
    by destruct (ExpireChallenges now s).
  - by split.
Qed.

(** The specification run on a sequence of calls. *)
Fixpoint spec_run (ops : list Op) (live : Tokens) : list bool * Tokens :=
  match ops with
  | [] => ([], live)
  | op :: rest =>
      let '(b, live') := spec_exec op live in
      let '(bs, live'') := spec_run rest live' in (b :: bs, live'')
  end.

Lemma spec_run_snoc ops op live :
  spec_run (ops ++ [op]) live =
  ((spec_run ops live).1 ++ [(spec_exec op (spec_run ops live).2).1],
   (spec_exec op (spec_run ops live).2).2).
Proof.
  revert live. induction ops as [|o ops IH]; intros live; cbn [spec_run app fst snd].
  - by destruct (spec_exec op live).
  - destruct (spec_exec o live) as [b l']. rewrite IH. by destruct (spec_run ops l').
Qed.

Definition start (ths : list (list Op)) : Config :=
  {| shared := ∅; threads := ths; history := [] |}.

(** The history so far is one the specification allows. *)
Definition explained (c : Config) : Prop :=
  (spec_run (history c).*1 ∅).1 = (fun e => redeemed e.1 e.2) <$> history c /\
  abstracts (shared c) (spec_run (history c).*1 ∅).2.

Lemma explained_step c c' : explained c -> cstep c c' -> explained c'.
Proof.
  intros [H1 H2] St. destruct St as [c i op rest _]. unfold explained. cbn [shared history].
  rewrite !fmap_app, !list_fmap_singleton, spec_run_snoc, H1. cbn [fst snd].
  destruct (exec_refines op _ _ H2) as [-> ?]. by split.
Qed.

Lemma explained_run c c' : explained c -> rtc cstep c c' -> explained c'.
Proof. intros H R. induction R; eauto using explained_step. Qed.

Lemma explained_start ths : explained (start ths).
Proof. split; [done|]. intros sid. cbn. by rewrite !lookup_empty. Qed.

(** * Properties *)

(** C6: the store is a linearizable table of one-time tokens.  For any number of
    threads calling it, at every point of every interleaving the calls made so
    far, taken in the order they held the mutex, were answered exactly as the
    abstract token table answers them: a call returned [SUCCESS] from a
    consuming method iff the abstract table redeemed the token, and the
    outstanding, keyed records are exactly the abstract live tokens. *)
Theorem store_linearizable ths c :
  rtc cstep (start ths) c ->
  (fun e => redeemed e.1 e.2) <$> history c = (spec_run (history c).*1 ∅).1 /\
  abstracts (shared c) (spec_run (history c).*1 ∅).2.
Proof.
  intros R. destruct (explained_run _ _ (explained_start ths) R) as [H1 H2].
  by rewrite H1.
Qed.

(** C11: single use.  In every interleaving of any threads on an initially empty
    store, a session id is redeemed at most as many times as a challenge was
    issued under it; a challenge issued once is accepted at most once. *)
Theorem single_use ths c sid :
  rtc cstep (start ths) c ->
  (count_if (redeems sid) (history c) <= count_if (issues sid) (history c))%nat.
Proof.
  intros R. pose proof (interleaving_live _ _ sid R) as H. cbn in H. 
  change (live_count ∅ sid) with 0%nat in H. lia.
Qed.

(** One winner.  When any number of threads race to redeem an outstanding,
    unexpired challenge with the right ids, every schedule ends (a completing
    run exists from every configuration and each step consumes one call), and
    in every completed schedule exactly the first call gets [SUCCESS] while all
    the others get [CHALLENGE_ALREADY_CONSUMED]. *)
Theorem race_single_winner q deadline rec s ths c' :
  s !! BytesToKey (q_sessionId q) = Some rec ->
  verdict q deadline rec = SUCCESS ->
  Forall (Forall (presents q deadline)) ths ->
  (0 < length (concat ths))%nat ->
  let c := {| shared := s; threads := ths; history := [] |} in
  (exists c1, rtc cstep c c1 /\ pending c1 = 0%nat) /\
  (rtc cstep c c' -> pending c' = 0%nat ->
   (history c').*2 =
     RCode SUCCESS :: replicate (length (concat ths) - 1) (RCode CHALLENGE_ALREADY_CONSUMED)).
Proof.
  intros Hs V F L c. split; [apply run_to_end|]. intros R P.
  pose proof (rtc_pending _ _ R) as N. rewrite P in N. cbn in N.
  assert (I : race_inv q deadline rec c) by (split; cbn; auto).
  destruct (race_inv_run _ _ _ _ _ V I R) as [_ [[E _]|[[n E] _]]].
  - rewrite E in N. unfold pending in N. cbn in N. lia.
  - rewrite E. do 2 f_equal. apply (f_equal length) in E. revert E.
    rewrite length_fmap. cbn [length]. rewrite length_replicate. unfold pending in N.
    cbn in N. lia.
Qed.

(** Acceptance criterion.  [ValidateAndConsumeChallenge] returns [SUCCESS]
    exactly when a record is stored under the session id, is outstanding, not
    past its expiry and has the presented device, PC and challenge; it then
    marks that record consumed and touches nothing else.  [ConsumeChallenge]
    and [ValidateChallenge] give the same code on the same store, and a refusal
    changes the store only by marking the presented record expired. *)
Theorem VAC_success_iff q now out s :
  let r := ValidateAndConsumeChallenge q now s in
  ConsumeChallenge q now s = r /\
  (ValidateChallenge q now out s).1 = r.1 /\
  (r.1 = SUCCESS <->
   exists rec, s !! BytesToKey (q_sessionId q) = Some rec /\ state rec = OUTSTANDING /\
     now <= rec_expirationTimestampMs rec /\ rec_deviceId rec = q_deviceId q /\
     rec_pcId rec = q_pcId q /\ rec_challenge rec = q_challenge q /\
     (ValidateChallenge q now out s).2 = rec /\
     r.2 = <[BytesToKey (q_sessionId q) := with_state CONSUMED rec]> s) /\
  (r.1 <> SUCCESS ->
   (ValidateChallenge q now out s).2 = out /\
   (r.1 <> CHALLENGE_EXPIRED -> r.2 = s) /\
   (r.1 = CHALLENGE_EXPIRED -> exists rec, s !! BytesToKey (q_sessionId q) = Some rec /\
      state rec <> CONSUMED /\
      r.2 = <[BytesToKey (q_sessionId q) := with_state EXPIRED rec]> s)).
Proof.
  cbn zeta. rewrite Consume_VAC, Validate_verdict, VAC_verdict.
  destruct (s !! BytesToKey (q_sessionId q)) as [rec|] eqn:E; cbn [fst snd].
  2: { repeat split; try done. by intros (? & ? & _). }
  split; [done|]. split; [done|]. split.
  - split.
    + intros V. rewrite V. pose proof (proj1 (verdict_success _ _ _) V) as (? & ? & ? & ? & ?).
      exists rec. by rewrite decide_True.
    + intros (rec' & [= <-] & O & Le & D & P & C & _). by apply verdict_success.
  - intros N. rewrite decide_False by done. split; [done|]. split.
    + intros N'. destruct (verdict q now rec) eqn:V; try done; cbn [settle]; by apply insert_id.
    + intros V. rewrite V. exists rec. split; [done|]. split; [|done].
      apply verdict_expired in V as [V|[V _]]; by rewrite V.
Qed.

Lemma settled_step k r c c' :
  shared c !! k = Some r -> state r <> OUTSTANDING ->
  Forall (Forall (fun op => forall r', op = OpAdd r' -> BytesToKey (rec_sessionId r') <> k))
    (threads c) ->
  cstep c c' ->
  shared c' !! k = Some r /\
  Forall (Forall (fun op => forall r', op = OpAdd r' -> BytesToKey (rec_sessionId r') <> k))
    (threads c').
Proof.
  intros Hr Hs F St. destruct St as [c i op rest Hop]. cbn [shared threads].
  pose proof (Forall_lookup_1 _ _ _ _ F Hop) as Hp. apply Forall_cons in Hp as [Hp Hrest].
  split; [|by apply Forall_insert].
  destruct (exec_record_step op (shared c) k r Hr Hp) as (r' & -> & Hstep).
  by inversion Hstep.
Qed.

(** A challenge settles for good.  Once a record is consumed or expired, no
    interleaving of any calls by any threads, short of issuing a new challenge
    under the same session id, changes or removes it: it cannot be revived. *)
Theorem settled_forever k r c c' :
  shared c !! k = Some r -> state r <> OUTSTANDING ->
  Forall (Forall (fun op => forall r', op = OpAdd r' -> BytesToKey (rec_sessionId r') <> k))
    (threads c) ->
  rtc cstep c c' -> shared c' !! k = Some r.
Proof.
  intros Hr Hs F R. revert Hr F. induction R as [|c c1 c' St R IH]; [done|]. intros Hr F.
  destruct (settled_step k r c c1 Hr Hs F St) as [H1 H2]. by apply IH.
Qed.

Lemma active_size s :
  GetActiveCount s = Z.of_nat (size (filter (fun kr => is_outstanding kr.2 = true) s)).
Proof. by apply GetActive_spec. Qed.

Lemma outstanding_split now r :
  ((if is_outstanding r then 1 else 0) =
   (if overdue now r then 1 else 0) + (if is_outstanding (expire1 now r) then 1 else 0))%nat.
Proof.
  unfold expire1, overdue, is_outstanding.
  case_bool_decide; cbn; [destruct (now >? _)|]; cbn; by repeat case_bool_decide.
Qed.

Lemma expire1_outstanding now r :
  state (expire1 now r) = OUTSTANDING -> now <= rec_expirationTimestampMs (expire1 now r).
Proof.
  unfold expire1, overdue. case_bool_decide; cbn; [|done].
  destruct (Z.gtb_spec now (rec_expirationTimestampMs r)); done || (cbn; lia).
Qed.

(** Outstanding before a purge: those it expires and those it keeps. *)
Lemma purge_count now (s : Store) :
  (size (filter (fun kr => is_outstanding kr.2 = true) s) =
   size (filter (fun kr => overdue now kr.2 = true) s) +
   size (filter (fun kr => is_outstanding kr.2 = true) (expire1 now <$> s)))%nat.
Proof.
  rewrite <- !(count_if_keys is_outstanding).
  rewrite <- (count_if_keys (overdue now)), map_to_list_fmap.
  rewrite <- list_fmap_compose, !count_if_fmap.
  assert (M : forall l : list (string * ChallengeRecord),
    (forall kr, kr ∈ l -> s !! kr.1 = Some kr.2) ->
    count_if (fun kr => match s !! kr.1 with
                        | Some r => is_outstanding r | None => false end) l =
    (count_if (fun kr => match s !! kr.1 with Some r => overdue now r | None => false end) l +
     count_if (fun kr => match (expire1 now <$> s) !! (fst ∘ prod_map id (expire1 now)) kr with
                         | Some r => is_outstanding r | None => false end) l)%nat).
  { induction l as [|[k r] l IH]; intros H; [done|]. cbn [count_if].
    assert (Hk : s !! k = Some r) by (apply (H (k, r)); set_solver).
    rewrite IH by set_solver. cbn. rewrite lookup_fmap, Hk. cbn.
    rewrite (outstanding_split now r). lia. }
  apply M. intros [k r] H. by apply elem_of_map_to_list in H.
Qed.

(** Purging and counting do not depend on the order in which the hash table
    enumerates its entries; a purge marks expired exactly the overdue records,
    returns how many it marked, lowers the active count by that number, and
    leaves no outstanding record past its expiry. *)
Theorem purge_exact now s order :
  order ≡ₚ (map_to_list s).*1 ->
  let '(n, s') := ExpireChallenges_in order now s in
  s' = expire1 now <$> s /\
  GetActiveCount_in order s = n + GetActiveCount_in order s' /\
  GetActiveCount_in order s' = GetActiveCount s' /\
  (forall k r, s' !! k = Some r -> state r = OUTSTANDING -> now <= rec_expirationTimestampMs r).
Proof.
  intros P. rewrite (Expire_spec order) by done. split; [done|].
  assert (P' : order ≡ₚ (map_to_list (expire1 now <$> s)).*1).
  { rewrite P, map_to_list_fmap, <- list_fmap_compose. done. }
  split; [|split].
  - rewrite (GetActive_spec order s), (GetActive_spec order _ P') by done.
    rewrite (purge_count now s). lia.
  - by rewrite (GetActive_spec order _ P'), active_size.
  - intros k r. rewrite lookup_fmap. intros (r0 & _ & ->)%fmap_Some O.
    by apply expire1_outstanding.
Qed.

(** * Witnesses *)

Definition demo_record : ChallengeRecord :=
  {| rec_sessionId := replicate 16 "001"%byte; rec_deviceId := replicate 16 "002"%byte;
     rec_pcId := replicate 16 "003"%byte; rec_challenge := replicate 32 "004"%byte;
     creationTimestampMs := 1000; rec_expirationTimestampMs := 31000; state := OUTSTANDING |}.
Definition demo_query : Query :=
  {| q_sessionId := replicate 16 "001"%byte; q_deviceId := replicate 16 "002"%byte;
     q_pcId := replicate 16 "003"%byte; q_challenge := replicate 32 "004"%byte |}.
Definition demo_store : Store := AddChallenge demo_record ∅.

Definition demo_threads : list (list Op) :=
  [[OpAdd demo_record; OpValidateAndConsume demo_query 2000];
   [OpValidateAndConsume demo_query 3000; OpExpire 40000]].
Definition demo_end : Config :=
  {| shared := (ExpireChallenges 40000 (ConsumeChallenge demo_query 2000 demo_store).2).2;
     threads := [[]; []];
     history := [(OpAdd demo_record, RVoid); (OpValidateAndConsume demo_query 2000, RCode SUCCESS);
                 (OpValidateAndConsume demo_query 3000, RCode CHALLENGE_ALREADY_CONSUMED);
                 (OpExpire 40000, RCount 0)] |}.

Lemma cstep_eq c c' i op rest :
  threads c !! i = Some (op :: rest) ->
  c' = {| shared := (exec op (shared c)).2; threads := <[i := rest]> (threads c);
          history := history c ++ [(op, (exec op (shared c)).1)] |} ->
  cstep c c'.
Proof. intros H ->. by apply cstep_run. Qed.

Lemma demo_run : rtc cstep (start demo_threads) demo_end.
Proof.
  eapply rtc_l; [eapply (cstep_run _ 0); reflexivity|].
  eapply rtc_l; [eapply (cstep_run _ 0); reflexivity|].
  eapply rtc_l; [eapply (cstep_run _ 1); reflexivity|].
  eapply rtc_l; [eapply (cstep_eq _ _ 1); [reflexivity | vm_compute; reflexivity]|].
  apply rtc_refl.
Defined.

Lemma store_linearizable_witness :
  (fun e => redeemed e.1 e.2) <$> history demo_end = [false; true; false; false] /\
  (spec_run (history demo_end).*1 ∅).1 = [false; true; false; false].
Proof.
  split; [reflexivity|].
  by rewrite <- (proj1 (store_linearizable demo_threads demo_end demo_run)).
Defined.

Lemma single_use_witness :
  (count_if (redeems (q_sessionId demo_query)) (history demo_end) <=
   count_if (issues (q_sessionId demo_query)) (history demo_end))%nat.
Proof. apply (single_use demo_threads), demo_run. Defined.

Lemma race_single_winner_witness :
  exists c1, rtc cstep {| shared := demo_store;
                          threads := replicate 3 [OpConsume demo_query 5000]; history := [] |} c1
    /\ (history c1).*2 = [RCode SUCCESS; RCode CHALLENGE_ALREADY_CONSUMED;
                          RCode CHALLENGE_ALREADY_CONSUMED].
Proof.
  assert (F : Forall (Forall (presents demo_query 31000)) (replicate 3 [OpConsume demo_query 5000])).
  { repeat constructor; exists 5000; (split; [lia | by left]). }
  assert (V : verdict demo_query 31000 demo_record = SUCCESS) by (vm_compute; reflexivity).
  assert (L : demo_store !! BytesToKey (q_sessionId demo_query) = Some demo_record)
    by (vm_compute; reflexivity).
  destruct (race_single_winner demo_query 31000 demo_record demo_store
              (replicate 3 [OpConsume demo_query 5000])
              {| shared := demo_store; threads := []; history := [] |} L V F ltac:(cbn; lia))
    as [(c1 & R & P) _].
  exists c1. split; [done|].
  apply (race_single_winner demo_query 31000 demo_record demo_store _ c1 L V F ltac:(cbn; lia)); done.
Defined.

Lemma settled_forever_witness :
  shared demo_end !! BytesToKey (q_sessionId demo_query) = Some (with_state CONSUMED demo_record).
Proof.
  apply (settled_forever (BytesToKey (q_sessionId demo_query)) (with_state CONSUMED demo_record)
           {| shared := (ConsumeChallenge demo_query 2000 demo_store).2;
              threads := [[]; [OpValidateAndConsume demo_query 3000; OpExpire 40000]];
              history := [(OpAdd demo_record, RVoid);
                          (OpValidateAndConsume demo_query 2000, RCode SUCCESS)] |}).
  - vm_compute. reflexivity.
  - done.
  - repeat constructor; done.
  - eapply rtc_l; [eapply (cstep_run _ 1); reflexivity|].
    eapply rtc_l; [eapply (cstep_eq _ _ 1); [reflexivity | vm_compute; reflexivity]|].
    apply rtc_refl.
Defined.

Lemma purge_exact_witness :
  ExpireChallenges_in [BytesToKey (rec_sessionId demo_record)] 40000 demo_store =
    (1, expire1 40000 <$> demo_store) /\
  GetActiveCount_in [BytesToKey (rec_sessionId demo_record)] demo_store = 1.
Proof.
  assert (P : [BytesToKey (rec_sessionId demo_record)] ≡ₚ (map_to_list demo_store).*1).
  { vm_compute. reflexivity. }
  pose proof (purge_exact 40000 demo_store _ P) as H.
  destruct (ExpireChallenges_in _ 40000 demo_store) as [n s'] eqn:E.
  destruct H as [-> _]. assert (1 = n) as <- by exact (f_equal fst E).
  split; [done | vm_compute; reflexivity].
Defined.
