(* ===== verification/Platform.v ===== *)
(** * Platform: the Windows services the program calls

    The program reaches the operating system through CNG (bcrypt.dll), the
    system clock, Winsock, DPAPI and named pipes, none of which is part of the
    repository.  Each is a type class over an abstract world [W]: an operation
    takes the world to its result and the next world.  A second class states
    the documented behaviour that proofs rely on, through a ghost view of the
    world (the table of live CNG objects, the bytes written to a socket).
    Nothing is assumed about when a call fails, except by the separate
    [CngLive] class, used for the theorems that say a good request succeeds. *)
From S2P Require Import Prelude Bytes.

(** ** Handles and status codes *)
Abbreviation handle := Z (only parsing).
Definition NULL : handle := 0.
(** [NT_SUCCESS(Status)]: a signed 32-bit status that is not negative. *)
Definition NT_SUCCESS (status : Z) : bool := 0 <=? status.

(** ** CNG *)

(** The identifiers passed to [BCryptOpenAlgorithmProvider]. *)
Inductive AlgId : Type := ECDSA_P256 | RNG | SHA256 | ECDH_P256.
#[export] Instance AlgId_eq_dec : EqDecision AlgId.
Proof. solve_decision. Defined.

(** Little-endian store of a ULONG field of a structure (x86/x64/ARM64 Windows). *)
Definition le_bytes (n : nat) (z : Z) : list byte := reverse (be_bytes n z).
(** [sizeof(BCRYPT_ECCKEY_BLOB)]: two ULONG fields, dwMagic and cbKey. *)
Definition SIZEOF_ECCKEY_BLOB : Z := 8.
(** A public key blob: the header, then the point's coordinates. *)
Definition ecc_blob (magic : Z) (xy : list byte) : list byte :=
  le_bytes 4 magic ++ le_bytes 4 32 ++ xy.

Lemma length_le_bytes n z : length (le_bytes n z) = n.
Proof. unfold le_bytes. len. Qed.
#[export] Hint Rewrite length_le_bytes : lens.

Lemma ecc_blob_inj magic magic' xy xy' : ecc_blob magic xy = ecc_blob magic' xy' -> xy = xy'.
Proof.
  unfold ecc_blob. intros E. apply app_inj_length in E as [_ E]; [|len].
  by apply app_inj_length in E as [_ E]; [|len].
Qed.

(** What a live handle stands for. *)
Inductive CngObj : Type :=
| AlgObj (alg : AlgId) (hmac : bool)
| HashObj (secret : option (list byte)) (data : list byte)
| KeyObj (alg : AlgId) (blob : list byte)
| KeyPairObj (private : list byte)
| SecretObj (secret : list byte).

(** Out-parameters are passed by their old value and returned by their new one.
    [hmac] is [BCRYPT_ALG_HANDLE_HMAC_FLAG]; the secret of [BCryptCreateHash] is
    [None] for [NULL, 0].  The two-call protocol of [BCryptExportKey] and
    [BCryptDeriveKey] passes [None] for a NULL output buffer. *)
Class Cng (W : Type) := {
  BCryptOpenAlgorithmProvider : AlgId -> bool -> handle -> W -> (Z * handle) * W;
  BCryptCloseAlgorithmProvider : handle -> W -> Z * W;
  BCryptGenRandom : handle -> list byte -> W -> (Z * list byte) * W;
  BCryptCreateHash : handle -> option (list byte) -> handle -> W -> (Z * handle) * W;
  BCryptHashData : handle -> list byte -> W -> Z * W;
  BCryptFinishHash : handle -> list byte -> W -> (Z * list byte) * W;
  BCryptDestroyHash : handle -> W -> Z * W;
  BCryptImportKeyPair : handle -> list byte -> handle -> W -> (Z * handle) * W;
  BCryptVerifySignature : handle -> list byte -> list byte -> W -> Z * W;
  BCryptDestroyKey : handle -> W -> Z * W;
  BCryptGenerateKeyPair : handle -> Z -> handle -> W -> (Z * handle) * W;
  BCryptFinalizeKeyPair : handle -> W -> Z * W;
  BCryptExportKey : handle -> option (list byte) -> Z -> W -> (Z * list byte * Z) * W;
  BCryptSecretAgreement : handle -> handle -> handle -> W -> (Z * handle) * W;
  BCryptDeriveKey : handle -> option (list byte) -> Z -> W -> (Z * list byte * Z) * W;
  BCryptDestroySecret : handle -> W -> Z * W;
  (** constants of bcrypt.h *)
  BCRYPT_ECDSA_PUBLIC_P256_MAGIC : Z;
  BCRYPT_ECDH_PUBLIC_P256_MAGIC : Z;
}.

(** The mathematics CNG implements, as uninterpreted functions, and the ghost
    table of live objects. *)
Class CngModel (W : Type) := {
  obj : W -> gmap handle CngObj;
  sha256 : list byte -> list byte;
  hmac_sha256 : list byte -> list byte -> list byte;
  ecdsa_verify : list byte -> list byte -> list byte -> bool;
  healthy : W -> Prop;
}.

(** The digest a hash object yields. *)
Definition digest {W} `{CngModel W} (secret : option (list byte)) (data : list byte) : list byte :=
  match secret with Some k => hmac_sha256 k data | None => sha256 data end.

(** A call that makes an object: a fresh, non-null handle on success, nothing
    on failure. *)
Definition makes {W} `{CngModel W} (o : CngObj) (old : handle) (w : W) (r : (Z * handle) * W) : Prop :=
  let '((status, h), w') := r in
  if NT_SUCCESS status
  then h <> NULL /\ obj w !! h = None /\ obj w' = <[h := o]> (obj w)
  else h = old /\ obj w' = obj w.

(** A call that changes at most the object [h]. *)
Definition only_touches {W} `{CngModel W} (h : handle) (w w' : W) : Prop :=
  delete h (obj w') = delete h (obj w).

Class CngLaws (W : Type) `{Cng W, CngModel W} : Prop := {
  open_law : forall alg hmac old w,
    makes (AlgObj alg hmac) old w (BCryptOpenAlgorithmProvider alg hmac old w);
  close_law : forall h w, obj (BCryptCloseAlgorithmProvider h w).2 = delete h (obj w);
  random_law : forall h buf w,
    obj (BCryptGenRandom h buf w).2 = obj w /\
    length (BCryptGenRandom h buf w).1.2 = length buf /\
    (NT_SUCCESS (BCryptGenRandom h buf w).1.1 = true ->
     exists hmac, obj w !! h = Some (AlgObj RNG hmac));
  create_hash_law : forall h secret old w,
    makes (HashObj secret []) old w (BCryptCreateHash h secret old w) /\
    (NT_SUCCESS (BCryptCreateHash h secret old w).1.1 = true ->
     obj w !! h = Some (AlgObj SHA256 (bool_decide (is_Some secret))));
  hash_data_law : forall h data w,
    only_touches h w (BCryptHashData h data w).2 /\
    (NT_SUCCESS (BCryptHashData h data w).1 = true -> forall secret d,
     obj w !! h = Some (HashObj secret d) ->
     obj (BCryptHashData h data w).2 = <[h := HashObj secret (d ++ data)]> (obj w));
  finish_hash_law : forall h buf w,
    only_touches h w (BCryptFinishHash h buf w).2 /\
    length (BCryptFinishHash h buf w).1.2 = length buf /\
    (NT_SUCCESS (BCryptFinishHash h buf w).1.1 = true -> forall secret d,
     obj w !! h = Some (HashObj secret d) ->
     (BCryptFinishHash h buf w).1.2 = digest secret d);
  destroy_hash_law : forall h w, obj (BCryptDestroyHash h w).2 = delete h (obj w);
  import_law : forall h blob old w,
    exists alg hmac,
    makes (KeyObj alg blob) old w (BCryptImportKeyPair h blob old w) /\
    (NT_SUCCESS (BCryptImportKeyPair h blob old w).1.1 = true -> obj w !! h = Some (AlgObj alg hmac));
  verify_law : forall h hash sig w,
    obj (BCryptVerifySignature h hash sig w).2 = obj w /\
    (NT_SUCCESS (BCryptVerifySignature h hash sig w).1 = true ->
     exists alg blob, obj w !! h = Some (KeyObj alg blob) /\ ecdsa_verify blob hash sig = true);
  destroy_key_law : forall h w, obj (BCryptDestroyKey h w).2 = delete h (obj w);
  sha256_length : forall d, length (sha256 d) = 32%nat;
  hmac_sha256_length : forall k d, length (hmac_sha256 k d) = 32%nat;
}.

(** When the system has the resources, valid calls succeed. *)
Class CngLive (W : Type) `{Cng W, CngModel W} : Prop := {
  live_create_hash : forall h secret old w, healthy w ->
    obj w !! h = Some (AlgObj SHA256 (bool_decide (is_Some secret))) ->
    NT_SUCCESS (BCryptCreateHash h secret old w).1.1 = true /\ healthy (BCryptCreateHash h secret old w).2;
  live_hash_data : forall h secret d data w, healthy w -> obj w !! h = Some (HashObj secret d) ->
    NT_SUCCESS (BCryptHashData h data w).1 = true /\ healthy (BCryptHashData h data w).2;
  live_finish_hash : forall h secret d buf w, healthy w -> obj w !! h = Some (HashObj secret d) ->
    length buf = 32%nat ->
    NT_SUCCESS (BCryptFinishHash h buf w).1.1 = true /\ healthy (BCryptFinishHash h buf w).2;
  live_destroy_hash : forall h w, healthy w -> healthy (BCryptDestroyHash h w).2;
  live_open : forall alg hmac old w, healthy w ->
    NT_SUCCESS (BCryptOpenAlgorithmProvider alg hmac old w).1.1 = true /\
    healthy (BCryptOpenAlgorithmProvider alg hmac old w).2;
  live_close : forall h w, healthy w -> healthy (BCryptCloseAlgorithmProvider h w).2;
  live_verify : forall h alg blob hash sig w, healthy w -> obj w !! h = Some (KeyObj alg blob) ->
    ecdsa_verify blob hash sig = true ->
    NT_SUCCESS (BCryptVerifySignature h hash sig w).1 = true /\
    healthy (BCryptVerifySignature h hash sig w).2;
}.

(** A hash object lives until it is destroyed, whatever the calls on it return. *)
Class CngHashes (W : Type) `{Cng W, CngModel W} : Prop := {
  hash_data_keeps : forall h data w, is_Some (obj w !! h) -> is_Some (obj (BCryptHashData h data w).2 !! h);
  finish_hash_keeps : forall h buf w, is_Some (obj w !! h) -> is_Some (obj (BCryptFinishHash h buf w).2 !! h);
}.

(** *** ECDH *)

(** The group operation, uninterpreted: the public point of a private key, 64
    bytes, and the shared secret as [BCRYPT_KDF_RAW_SECRET] yields it. *)
Class EcdhModel (W : Type) := {
  ecdh_public : list byte -> list byte;
  ecdh_shared : list byte -> list byte -> list byte;
}.

Class EcdhLaws (W : Type) `{Cng W, CngModel W, EcdhModel W} : Prop := {
  generate_law : forall h bits old w,
    exists private, makes (KeyPairObj private) old w (BCryptGenerateKeyPair h bits old w);
  finalize_law : forall h w, obj (BCryptFinalizeKeyPair h w).2 = obj w;
  export_law : forall h buf cb w, let '((status, out, cb'), w') := BCryptExportKey h buf cb w in
    obj w' = obj w /\ length out = length (default [] buf) /\
    (NT_SUCCESS status = true -> forall private, obj w !! h = Some (KeyPairObj private) ->
     cb' = 72 /\ (length out = 72%nat -> out = ecc_blob BCRYPT_ECDH_PUBLIC_P256_MAGIC (ecdh_public private)));
  agreement_law : forall h hp old w,
    exists private alg magic xy,
    makes (SecretObj (ecdh_shared private xy)) old w (BCryptSecretAgreement h hp old w) /\
    (NT_SUCCESS (BCryptSecretAgreement h hp old w).1.1 = true ->
     obj w !! h = Some (KeyPairObj private) /\ obj w !! hp = Some (KeyObj alg (ecc_blob magic xy)));
  derive_law : forall h buf cb w, let '((status, out, cb'), w') := BCryptDeriveKey h buf cb w in
    obj w' = obj w /\ length out = length (default [] buf) /\
    (NT_SUCCESS status = true -> forall secret, obj w !! h = Some (SecretObj secret) ->
     cb' = Z.of_nat (length secret) /\ (length out = length secret -> out = secret));
  destroy_secret_law : forall h w, obj (BCryptDestroySecret h w).2 = delete h (obj w);
  ecdh_public_length : forall a, length (ecdh_public a) = 64%nat;
  ecdh_shared_length : forall a P, length (ecdh_shared a P) = 32%nat;
  (** the Diffie-Hellman property *)
  ecdh_commutes : forall a b, ecdh_shared a (ecdh_public b) = ecdh_shared b (ecdh_public a);
}.

Class EcdhLive (W : Type) `{Cng W, CngModel W, EcdhModel W} : Prop := {
  live_generate : forall h hmac old w, healthy w -> obj w !! h = Some (AlgObj ECDH_P256 hmac) ->
    NT_SUCCESS (BCryptGenerateKeyPair h 256 old w).1.1 = true /\
    healthy (BCryptGenerateKeyPair h 256 old w).2;
  live_finalize : forall h private w, healthy w -> obj w !! h = Some (KeyPairObj private) ->
    NT_SUCCESS (BCryptFinalizeKeyPair h w).1 = true /\ healthy (BCryptFinalizeKeyPair h w).2;
  live_export : forall h private buf cb w, healthy w -> obj w !! h = Some (KeyPairObj private) ->
    (forall b, buf = Some b -> length b = 72%nat) ->
    NT_SUCCESS (BCryptExportKey h buf cb w).1.1.1 = true /\ healthy (BCryptExportKey h buf cb w).2;
  live_import : forall h hmac private old w, healthy w -> obj w !! h = Some (AlgObj ECDH_P256 hmac) ->
    let blob := ecc_blob BCRYPT_ECDH_PUBLIC_P256_MAGIC (ecdh_public private) in
    NT_SUCCESS (BCryptImportKeyPair h blob old w).1.1 = true /\
    healthy (BCryptImportKeyPair h blob old w).2;
  live_agreement : forall h hp private alg xy old w, healthy w ->
    obj w !! h = Some (KeyPairObj private) ->
    obj w !! hp = Some (KeyObj alg (ecc_blob BCRYPT_ECDH_PUBLIC_P256_MAGIC xy)) ->
    NT_SUCCESS (BCryptSecretAgreement h hp old w).1.1 = true /\
    healthy (BCryptSecretAgreement h hp old w).2;
  live_derive : forall h secret buf cb w, healthy w -> obj w !! h = Some (SecretObj secret) ->
    (forall b, buf = Some b -> length b = length secret) ->
    NT_SUCCESS (BCryptDeriveKey h buf cb w).1.1.1 = true /\ healthy (BCryptDeriveKey h buf cb w).2;
  live_destroy_key : forall h w, healthy w -> healthy (BCryptDestroyKey h w).2;
  live_destroy_secret : forall h w, healthy w -> healthy (BCryptDestroySecret h w).2;
}.

(** ** The system clock *)

(** [system_clock::now()] in milliseconds, as converted to [uint64_t]. *)
Class Clock (W : Type) := {
  system_clock_ms : W -> Z * W;
}.
Class ClockLaws (W : Type) `{Clock W, CngModel W} : Prop := {
  clock_range : forall w, 0 <= (system_clock_ms w).1 < 2 ^ 64;
  clock_obj : forall w, obj (system_clock_ms w).2 = obj w;
}.

(** ** Winsock *)
Definition INVALID_SOCKET : handle := 2 ^ 64 - 1.
Definition SOCKET_ERROR : Z := -1.

Class Winsock (W : Type) := {
  socket : W -> handle * W;
  setsockopt_reuseaddr : handle -> W -> Z * W;
  bind : handle -> Z -> W -> Z * W;
  listen : handle -> W -> Z * W;
  (** the accepted socket and the peer's address as text *)
  accept : handle -> W -> (handle * string) * W;
  connect : handle -> string -> Z -> W -> Z * W;
  (** [recv(s, buf, n, 0)]: the return value and the bytes stored *)
  recv : handle -> Z -> W -> (Z * list byte) * W;
  send : handle -> list byte -> W -> Z * W;
  closesocket : handle -> W -> Z * W;
}.

(** [sent w s] is all that was ever written to [s], [socks w] the open sockets. *)
Class WinsockModel (W : Type) := {
  sent : W -> handle -> list byte;
  socks : W -> gset handle;
}.

Class WinsockLaws (W : Type) `{Winsock W, WinsockModel W} : Prop := {
  socket_law : forall w, let '(s, w') := socket w in
    if bool_decide (s = INVALID_SOCKET) then socks w' = socks w
    else (s ∉ socks w) /\ socks w' = {[s]} ∪ socks w;
  setsockopt_law : forall s w, socks (setsockopt_reuseaddr s w).2 = socks w;
  bind_law : forall s p w, socks (bind s p w).2 = socks w;
  listen_law : forall s w, socks (listen s w).2 = socks w;
  accept_law : forall s w, let '((c, _), w') := accept s w in
    if bool_decide (c = INVALID_SOCKET) then socks w' = socks w
    else (c ∉ socks w) /\ socks w' = {[c]} ∪ socks w;
  connect_law : forall s a p w, socks (connect s a p w).2 = socks w;
  recv_law : forall s n w, let '((r, buf), w') := recv s n w in
    socks w' = socks w /\ sent w' = sent w /\ (0 < r -> r <= n /\ length buf = Z.to_nat r);
  send_law : forall s data w, let '(r, w') := send s data w in
    socks w' = socks w /\
    (forall s', s' <> s -> sent w' s' = sent w s') /\
    (0 < r -> r <= Z.of_nat (length data) /\ sent w' s = sent w s ++ take (Z.to_nat r) data) /\
    (r <= 0 -> sent w' s = sent w s);
  close_socket_law : forall s w, socks (closesocket s w).2 = socks w ∖ {[s]};
}.

(** Socket calls do not touch CNG objects. *)
Class WinsockCng (W : Type) `{Winsock W, CngModel W} : Prop := {
  send_obj : forall s data w, obj (send s data w).2 = obj w;
  recv_obj : forall s n w, obj (recv s n w).2 = obj w;
  close_socket_obj : forall s w, obj (closesocket s w).2 = obj w;
  socket_obj : forall w, obj (socket w).2 = obj w;
  setsockopt_obj : forall s w, obj (setsockopt_reuseaddr s w).2 = obj w;
  bind_obj : forall s p w, obj (bind s p w).2 = obj w;
  listen_obj : forall s w, obj (listen s w).2 = obj w;
  accept_obj : forall s w, obj (accept s w).2 = obj w;
  connect_obj : forall s a p w, obj (connect s a p w).2 = obj w;
}.

(** Nor do providers and the clock touch sockets. *)
Class SocketsApart (W : Type) `{Cng W, Clock W, WinsockModel W} : Prop := {
  open_socks : forall a b h w, socks (BCryptOpenAlgorithmProvider a b h w).2 = socks w;
  close_socks : forall h w, socks (BCryptCloseAlgorithmProvider h w).2 = socks w;
  clock_socks : forall w, socks (system_clock_ms w).2 = socks w;
}.

(** ** DPAPI and files *)

(** A successful call allocates the output blob: its address and its bytes. *)
Class Dpapi (W : Type) := {
  CryptProtectData : list byte -> W -> option (handle * list byte) * W;
  CryptUnprotectData : list byte -> W -> option (handle * list byte) * W;
  LocalFree : handle -> W -> unit * W;
}.

(** [unseal] is decryption under the machine's key, [blobs] the live output
    blobs. *)
Class DpapiModel (W : Type) := {
  unseal : list byte -> option (list byte);
  blobs : W -> gset handle;
}.

Definition allocates {W} `{DpapiModel W} (w : W) (r : option (handle * list byte) * W) : Prop :=
  match r with
  | (None, w') => blobs w' = blobs w
  | (Some (p, _), w') => (p ∉ blobs w) /\ blobs w' = {[p]} ∪ blobs w
  end.

Class DpapiLaws (W : Type) `{Dpapi W, DpapiModel W} : Prop := {
  protect_law : forall d w, allocates w (CryptProtectData d w) /\
    (forall p c, (CryptProtectData d w).1 = Some (p, c) -> unseal c = Some d /\ c <> []);
  unprotect_law : forall c w, allocates w (CryptUnprotectData c w) /\
    (forall p d, (CryptUnprotectData c w).1 = Some (p, d) -> unseal c = Some d);
  local_free_law : forall p w, blobs (LocalFree p w).2 = blobs w ∖ {[p]};
}.

(** The stream operations, by path: [ofstream_open] and [ifstream_read] say
    whether the stream is open, [ofstream_write] whether it is good after the
    write, [ofstream_close] is the destructor and says whether what was
    buffered reached the file. *)
Class Files (W : Type) := {
  ofstream_open : string -> W -> bool * W;
  ofstream_write : string -> list byte -> W -> bool * W;
  ofstream_close : string -> W -> bool * W;
  ifstream_read : string -> W -> option (list byte) * W;
}.

(** [file] is the contents on disk, [buffered] what an open stream holds. *)
Class FilesModel (W : Type) := {
  file : W -> string -> option (list byte);
  buffered : W -> string -> list byte;
}.

Class FilesLaws (W : Type) `{Files W, FilesModel W, DpapiModel W} : Prop := {
  file_open_law : forall p w, blobs (ofstream_open p w).2 = blobs w /\
    ((ofstream_open p w).1 = true -> buffered (ofstream_open p w).2 p = []);
  file_write_law : forall p d w, blobs (ofstream_write p d w).2 = blobs w /\
    ((ofstream_write p d w).1 = true -> buffered (ofstream_write p d w).2 p = buffered w p ++ d);
  file_close_law : forall p w, blobs (ofstream_close p w).2 = blobs w /\
    ((ofstream_close p w).1 = true -> file (ofstream_close p w).2 p = Some (buffered w p));
  file_read_law : forall p w, blobs (ifstream_read p w).2 = blobs w /\
    (forall d, (ifstream_read p w).1 = Some d -> file w p = Some d);
}.

(** When the machine is in order ([working]), DPAPI protects data and gives back
    what it has sealed, files can be written, and an existing one read. *)
Class Working (W : Type) := working : W -> Prop.
Class StorageLive (W : Type) `{Dpapi W, Files W, DpapiModel W, FilesModel W, Working W} : Prop := {
  protect_live : forall d w, working w -> is_Some (CryptProtectData d w).1 /\ working (CryptProtectData d w).2;
  unprotect_live : forall c d w, working w -> unseal c = Some d ->
    is_Some (CryptUnprotectData c w).1 /\ working (CryptUnprotectData c w).2;
  free_live : forall p w, working w -> working (LocalFree p w).2;
  open_live : forall p w, working w -> (ofstream_open p w).1 = true /\ working (ofstream_open p w).2;
  write_live : forall p d w, working w -> (ofstream_write p d w).1 = true /\ working (ofstream_write p d w).2;
  close_live : forall p w, working w -> (ofstream_close p w).1 = true /\ working (ofstream_close p w).2;
  read_live : forall p c w, working w -> file w p = Some c ->
    (ifstream_read p w).1 = Some c /\ working (ifstream_read p w).2;
}.
