(* ===== verification/Simulator.v ===== *)
(** * Simulator: a concrete world satisfying the platform's laws

    A small executable model of the operating system: a table of CNG objects, a
    toy hash, MAC and signature scheme, a settable clock, a script of received
    chunks and of partial sends, and a schedule of faults.  It shows that the
    laws of Platform can hold together, and it is where the witnesses run. *)
From S2P Require Import Prelude Bytes Platform.

Record Sim : Type := {
  s_objs : gmap handle CngObj;
  s_faults : list bool;            (** [true]: the next fallible call fails *)
  s_seed : Z;
  s_clock : list Z;                (** readings of the clock *)
  s_inbox : list (list byte);      (** what successive [recv]s return *)
  s_quota : list Z;                (** how much successive [send]s accept *)
  s_peers : list string;           (** clients waiting to be accepted *)
  s_socks : gset handle;
  s_sent : gmap handle (list byte);
  s_files : gmap string (list byte);
  s_buffers : gmap string (list byte);
  s_blobs : gset handle;
}.

Definition sim0 : Sim :=
  {| s_objs := ∅; s_faults := []; s_seed := 1; s_clock := []; s_inbox := []; s_quota := [];
     s_peers := []; s_socks := ∅; s_sent := ∅; s_files := ∅; s_buffers := ∅; s_blobs := ∅ |}.

Definition set_objs m (w : Sim) : Sim :=
  {| s_objs := m; s_faults := s_faults w; s_seed := s_seed w; s_clock := s_clock w;
     s_inbox := s_inbox w; s_quota := s_quota w; s_peers := s_peers w; s_socks := s_socks w;
     s_sent := s_sent w; s_files := s_files w; s_buffers := s_buffers w; s_blobs := s_blobs w |}.
Definition set_faults l (w : Sim) : Sim :=
  {| s_objs := s_objs w; s_faults := l; s_seed := s_seed w; s_clock := s_clock w;
     s_inbox := s_inbox w; s_quota := s_quota w; s_peers := s_peers w; s_socks := s_socks w;
     s_sent := s_sent w; s_files := s_files w; s_buffers := s_buffers w; s_blobs := s_blobs w |}.
Definition set_seed z (w : Sim) : Sim :=
  {| s_objs := s_objs w; s_faults := s_faults w; s_seed := z; s_clock := s_clock w;
     s_inbox := s_inbox w; s_quota := s_quota w; s_peers := s_peers w; s_socks := s_socks w;
     s_sent := s_sent w; s_files := s_files w; s_buffers := s_buffers w; s_blobs := s_blobs w |}.
Definition set_clock l (w : Sim) : Sim :=
  {| s_objs := s_objs w; s_faults := s_faults w; s_seed := s_seed w; s_clock := l;
     s_inbox := s_inbox w; s_quota := s_quota w; s_peers := s_peers w; s_socks := s_socks w;
     s_sent := s_sent w; s_files := s_files w; s_buffers := s_buffers w; s_blobs := s_blobs w |}.
Definition set_inbox l (w : Sim) : Sim :=
  {| s_objs := s_objs w; s_faults := s_faults w; s_seed := s_seed w; s_clock := s_clock w;
     s_inbox := l; s_quota := s_quota w; s_peers := s_peers w; s_socks := s_socks w;
     s_sent := s_sent w; s_files := s_files w; s_buffers := s_buffers w; s_blobs := s_blobs w |}.
Definition set_quota l (w : Sim) : Sim :=
  {| s_objs := s_objs w; s_faults := s_faults w; s_seed := s_seed w; s_clock := s_clock w;
     s_inbox := s_inbox w; s_quota := l; s_peers := s_peers w; s_socks := s_socks w;
     s_sent := s_sent w; s_files := s_files w; s_buffers := s_buffers w; s_blobs := s_blobs w |}.
Definition set_peers l (w : Sim) : Sim :=
  {| s_objs := s_objs w; s_faults := s_faults w; s_seed := s_seed w; s_clock := s_clock w;
     s_inbox := s_inbox w; s_quota := s_quota w; s_peers := l; s_socks := s_socks w;
     s_sent := s_sent w; s_files := s_files w; s_buffers := s_buffers w; s_blobs := s_blobs w |}.
Definition set_socks X (w : Sim) : Sim :=
  {| s_objs := s_objs w; s_faults := s_faults w; s_seed := s_seed w; s_clock := s_clock w;
     s_inbox := s_inbox w; s_quota := s_quota w; s_peers := s_peers w; s_socks := X;
     s_sent := s_sent w; s_files := s_files w; s_buffers := s_buffers w; s_blobs := s_blobs w |}.
Definition set_sent m (w : Sim) : Sim :=
  {| s_objs := s_objs w; s_faults := s_faults w; s_seed := s_seed w; s_clock := s_clock w;
     s_inbox := s_inbox w; s_quota := s_quota w; s_peers := s_peers w; s_socks := s_socks w;
     s_sent := m; s_files := s_files w; s_buffers := s_buffers w; s_blobs := s_blobs w |}.
Definition set_files m (w : Sim) : Sim :=
  {| s_objs := s_objs w; s_faults := s_faults w; s_seed := s_seed w; s_clock := s_clock w;
     s_inbox := s_inbox w; s_quota := s_quota w; s_peers := s_peers w; s_socks := s_socks w;
     s_sent := s_sent w; s_files := m; s_buffers := s_buffers w; s_blobs := s_blobs w |}.
Definition set_buffers m (w : Sim) : Sim :=
  {| s_objs := s_objs w; s_faults := s_faults w; s_seed := s_seed w; s_clock := s_clock w;
     s_inbox := s_inbox w; s_quota := s_quota w; s_peers := s_peers w; s_socks := s_socks w;
     s_sent := s_sent w; s_files := s_files w; s_buffers := m; s_blobs := s_blobs w |}.
Definition set_blobs X (w : Sim) : Sim :=
  {| s_objs := s_objs w; s_faults := s_faults w; s_seed := s_seed w; s_clock := s_clock w;
     s_inbox := s_inbox w; s_quota := s_quota w; s_peers := s_peers w; s_socks := s_socks w;
     s_sent := s_sent w; s_files := s_files w; s_buffers := s_buffers w; s_blobs := X |}.

(** ** Toy cryptography *)
Definition toy (seed : Z) (l : list byte) : list byte :=
  be_bytes 32 (fold_left (fun acc b => (acc * 257 + u8 b + 1) mod 2 ^ 256) l seed).
Definition toy_sign (blob hash : list byte) : list byte := take 32 hash ++ toy 17 blob.

#[export] Instance sim_model : CngModel Sim := {
  obj := s_objs;
  sha256 := toy 7;
  hmac_sha256 := fun k d => toy (be_value (toy 13 k)) d;
  ecdsa_verify := fun blob hash sig => bool_decide (sig = toy_sign blob hash);
  healthy := fun w => s_faults w = [];
}.

(** ** CNG *)

(** Whether this call fails, and the rest of the schedule. *)
Definition fault (w : Sim) : bool * Sim :=
  match s_faults w with
  | [] => (false, w)
  | b :: rest => (b, set_faults rest w)
  end.

Definition next_handle {A} (m : gmap handle A) : handle :=
  1 + map_fold (fun k _ acc => Z.max k acc) 0 m.

Definition sim_make (ok : bool) (o : CngObj) (old : handle) (w : Sim) : (Z * handle) * Sim :=
  let '(b, w) := fault w in
  if b || negb ok then ((-1, old), w)
  else ((0, next_handle (s_objs w)), set_objs (<[next_handle (s_objs w) := o]> (s_objs w)) w).

Definition sim_delete (h : handle) (w : Sim) : Z * Sim := (0, set_objs (delete h (s_objs w)) w).

Definition is_alg (a : AlgId) (w : Sim) (h : handle) : bool :=
  match s_objs w !! h with Some (AlgObj a' _) => bool_decide (a = a') | _ => false end.

(** The toy group: multiples of 5 modulo 2^256. *)
Definition toy_ecdh_magic : Z := 0x314B4345.
Definition toy_public (a : list byte) : list byte := be_bytes 64 (be_value a * 5 mod 2 ^ 256).
Definition toy_shared (a P : list byte) : list byte := be_bytes 32 (be_value a * be_value P).

Definition sim_private (w : Sim) (h : handle) : option (list byte) :=
  match s_objs w !! h with Some (KeyPairObj a) => Some a | _ => None end.
Definition sim_point (w : Sim) (h : handle) : option (list byte) :=
  match s_objs w !! h with
  | Some (KeyObj _ blob) =>
      if bool_decide (blob = ecc_blob toy_ecdh_magic (drop 8 blob)) then Some (drop 8 blob) else None
  | _ => None
  end.

#[export] Instance sim_cng : Cng Sim := {
  BCryptOpenAlgorithmProvider := fun alg hmac old w => sim_make true (AlgObj alg hmac) old w;
  BCryptCloseAlgorithmProvider := sim_delete;
  BCryptGenRandom := fun h buf w =>
    let '(b, w) := fault w in
    if b || negb (is_alg RNG w h) then ((-1, buf), w)
    else ((0, be_bytes (length buf) (s_seed w)), set_seed (s_seed w * 1103515245 + 12345) w);
  BCryptCreateHash := fun h secret old w =>
    sim_make (match s_objs w !! h with
              | Some (AlgObj SHA256 hmac) => Bool.eqb hmac (bool_decide (is_Some secret))
              | _ => false end) (HashObj secret []) old w;
  BCryptHashData := fun h data w =>
    let '(b, w) := fault w in
    match b, s_objs w !! h with
    | false, Some (HashObj secret d) => (0, set_objs (<[h := HashObj secret (d ++ data)]> (s_objs w)) w)
    | _, _ => (-1, w)
    end;
  BCryptFinishHash := fun h buf w =>
    let '(b, w) := fault w in
    match b, s_objs w !! h with
    | false, Some (HashObj secret d) =>
        if bool_decide (length buf = 32%nat) then ((0, digest secret d), w) else ((-1, buf), w)
    | _, _ => ((-1, buf), w)
    end;
  BCryptDestroyHash := sim_delete;
  BCryptImportKeyPair := fun h blob old w =>
    sim_make (match s_objs w !! h with Some (AlgObj _ _) => true | _ => false end)
      (KeyObj (match s_objs w !! h with Some (AlgObj a _) => a | _ => RNG end) blob) old w;
  BCryptVerifySignature := fun h hash sig w =>
    let '(b, w) := fault w in
    match b, s_objs w !! h with
    | false, Some (KeyObj _ blob) => (if ecdsa_verify blob hash sig then 0 else -1, w)
    | _, _ => (-1, w)
    end;
  BCryptDestroyKey := sim_delete;
  BCryptGenerateKeyPair := fun h bits old w =>
    let '(r, w) := sim_make (is_alg ECDH_P256 w h) (KeyPairObj (be_bytes 32 (s_seed w))) old w in
    (r, set_seed (s_seed w * 1103515245 + 12345) w);
  BCryptFinalizeKeyPair := fun h w => let '(b, w) := fault w in (if b : bool then -1 else 0, w);
  BCryptExportKey := fun h buf cb w =>
    let '(b, w) := fault w in
    match b, sim_private w h, buf with
    | false, Some a, None => ((0, [], 72), w)
    | false, Some a, Some buf =>
        if bool_decide (length buf = 72%nat) then ((0, ecc_blob toy_ecdh_magic (toy_public a), 72), w)
        else ((-1, buf, cb), w)
    | _, _, _ => ((-1, default [] buf, cb), w)
    end;
  BCryptSecretAgreement := fun h hp old w =>
    match sim_private w h, sim_point w hp with
    | Some a, Some P => sim_make true (SecretObj (toy_shared a P)) old w
    | _, _ => sim_make false (SecretObj (toy_shared [] [])) old w
    end;
  BCryptDeriveKey := fun h buf cb w =>
    let '(b, w) := fault w in
    match b, s_objs w !! h, buf with
    | false, Some (SecretObj s), None => ((0, [], Z.of_nat (length s)), w)
    | false, Some (SecretObj s), Some buf =>
        if bool_decide (length buf = length s) then ((0, s, Z.of_nat (length s)), w)
        else ((-1, buf, cb), w)
    | _, _, _ => ((-1, default [] buf, cb), w)
    end;
  BCryptDestroySecret := sim_delete;
  BCRYPT_ECDSA_PUBLIC_P256_MAGIC := 0x31534345;
  BCRYPT_ECDH_PUBLIC_P256_MAGIC := toy_ecdh_magic;
}.

Lemma map_fold_max {A} (m : gmap handle A) k : is_Some (m !! k) -> k <= map_fold (fun k _ acc => Z.max k acc) 0 m.
Proof.
  revert k. induction m as [|i x m Hi Hf IH] using map_first_key_ind; intros k [y Hy].
  - by rewrite lookup_empty in Hy.
  - rewrite map_fold_insert_first_key by done.
    destruct (decide (k = i)) as [->|N]; [lia|].
    rewrite lookup_insert_ne in Hy by done. specialize (IH k). rewrite Hy in IH.
    specialize (IH ltac:(done)). lia.
Qed.

Lemma map_fold_max_nonneg {A} (m : gmap handle A) : 0 <= map_fold (fun k _ acc => Z.max k acc) 0 m.
Proof.
  induction m as [|i x m Hi Hf IH] using map_first_key_ind; [by rewrite map_fold_empty|].
  rewrite map_fold_insert_first_key by done. lia.
Qed.

Lemma next_handle_fresh {A} (m : gmap handle A) : m !! next_handle m = None.
Proof.
  destruct (m !! next_handle m) eqn:E; [|done]. pose proof (map_fold_max m (next_handle m)) as H.
  rewrite E in H. specialize (H ltac:(done)). unfold next_handle in H. lia.
Qed.

Lemma next_handle_pos {A} (m : gmap handle A) : next_handle m <> NULL.
Proof. unfold next_handle, NULL. pose proof (map_fold_max_nonneg m). lia. Qed.

Lemma fault_objs w : s_objs (fault w).2 = s_objs w.
Proof. unfold fault. by destruct (s_faults w). Qed.

Lemma sim_make_makes ok o old w : makes o old w (sim_make ok o old w).
Proof.
  unfold sim_make. pose proof (fault_objs w) as F. destruct (fault w) as [b w1]. cbn [snd] in F.
  unfold makes. destruct (b || negb ok); cbn -[next_handle].
  - split; [done | exact F].
  - rewrite <- F. split; [apply next_handle_pos|]. split; [apply next_handle_fresh | done].
Qed.

Lemma sim_make_ok ok o old w : NT_SUCCESS (sim_make ok o old w).1.1 = true -> ok = true.
Proof. unfold sim_make. destruct (fault w) as [b w1]. destruct b, ok; done. Qed.

Ltac sim_fault w :=
  let F := fresh "F" in pose proof (fault_objs w) as F; destruct (fault w) as [[] ?w]; cbn [snd] in F.

Lemma toy_length seed l : length (toy seed l) = 32%nat.
Proof. unfold toy. apply length_be_bytes. Qed.

Lemma is_alg_spec a w h : is_alg a w h = true -> exists hmac, s_objs w !! h = Some (AlgObj a hmac).
Proof.
  unfold is_alg. destruct (s_objs w !! h) as [[]|]; try done. case_bool_decide; [subst; eauto | done].
Qed.

#[export] Instance sim_laws : CngLaws Sim.
Proof.
  constructor; cbn [BCryptOpenAlgorithmProvider BCryptCloseAlgorithmProvider BCryptGenRandom
    BCryptCreateHash BCryptHashData BCryptFinishHash BCryptDestroyHash BCryptImportKeyPair
    BCryptVerifySignature BCryptDestroyKey sim_cng];
    unfold only_touches; cbn [obj sim_model].
  - intros. apply sim_make_makes.
  - done.
  - intros h buf w. sim_fault w; cbn [orb].
    + cbn. rewrite F. repeat split; done.
    + destruct (is_alg RNG w0 h) eqn:E; cbn; rewrite F.
      * apply is_alg_spec in E. rewrite F in E. repeat split; [len | done].
      * repeat split; done.
  - intros h secret old w. split; [apply sim_make_makes|]. intros H%sim_make_ok.
    destruct (s_objs w !! h) as [[[] hmac| | | |]|]; try done.
    apply eqb_prop in H. by subst.
  - intros h data w. sim_fault w.
    + cbn. rewrite F. done.
    + rewrite F. destruct (s_objs w !! h) as [[| secret d| | |]|] eqn:E; cbn; rewrite ?F; try done.
      rewrite delete_insert_eq. split; [done|]. by intros _ ? ? [= <- <-].
  - intros h buf w. sim_fault w.
    + cbn. rewrite F. done.
    + rewrite F. destruct (s_objs w !! h) as [[| secret d| | |]|] eqn:E; cbn; rewrite ?F; try done.
      case_bool_decide as L; cbn; [|by rewrite F].
      rewrite F, L. split; [done|]. split.
      * destruct secret; apply toy_length.
      * by intros _ ? ? [= <- <-].
  - done.
  - intros h blob old w. 
    exists (match s_objs w !! h with Some (AlgObj a _) => a | _ => RNG end),
           (match s_objs w !! h with Some (AlgObj _ b) => b | _ => false end).
    split; [apply sim_make_makes|]. intros H%sim_make_ok.
    by destruct (s_objs w !! h) as [[]|].
  - intros h hash sig w. sim_fault w.
    + cbn. by rewrite F.
    + rewrite F. destruct (s_objs w !! h) as [[| | alg blob | |]|] eqn:E; cbn; rewrite ?F; try done.
      split; [done|]. case_bool_decide; [|done]. intros _. exists alg, blob.
      by rewrite bool_decide_true.
  - done.
  - intros. apply toy_length.
  - intros. apply toy_length.
Qed.

Lemma fault_healthy w : s_faults w = [] -> fault w = (false, w).
Proof. unfold fault. by intros ->. Qed.

#[export] Instance sim_live : CngLive Sim.
Proof.
  constructor; cbn [BCryptOpenAlgorithmProvider BCryptCloseAlgorithmProvider
    BCryptCreateHash BCryptHashData BCryptFinishHash BCryptDestroyHash
    BCryptVerifySignature sim_cng obj healthy sim_model].
  - intros h secret old w Hw E. unfold sim_make. rewrite fault_healthy, E by done. cbn.
    by destruct (bool_decide (is_Some secret)).
  - intros h secret d data w Hw E. by rewrite fault_healthy, E.
  - intros h secret d buf w Hw E L. rewrite fault_healthy, E by done. by rewrite bool_decide_true.
  - done.
  - intros alg hmac old w Hw. unfold sim_make. by rewrite fault_healthy.
  - done.
  - intros h alg blob hash sig w Hw E V. rewrite fault_healthy, E by done.
    change (ecdsa_verify blob hash sig = true) in V. by rewrite V.
Qed.

(** ** ECDH *)
#[export] Instance sim_ecdh : EcdhModel Sim := { ecdh_public := toy_public; ecdh_shared := toy_shared }.

Lemma set_seed_makes o old w r w' z : makes o old w (r, w') -> makes o old w (r, set_seed z w').
Proof. done. Qed.

Lemma sim_private_spec w h a : sim_private w h = Some a <-> s_objs w !! h = Some (KeyPairObj a).
Proof. unfold sim_private. destruct (s_objs w !! h) as [[]|]; naive_solver. Qed.

Lemma sim_point_spec w h P : sim_point w h = Some P ->
  exists alg, s_objs w !! h = Some (KeyObj alg (ecc_blob toy_ecdh_magic P)).
Proof.
  unfold sim_point. destruct (s_objs w !! h) as [[| |alg blob| |]|]; try done.
  case_bool_decide as E; [|done]. intros [= <-]. exists alg. by rewrite <- E.
Qed.

Lemma toy_commutes a b : toy_shared a (toy_public b) = toy_shared b (toy_public a).
Proof.
  unfold toy_shared, toy_public.
  assert (R : forall z, 0 <= z mod 2 ^ 256 < 2 ^ (8 * Z.of_nat 64)).
  { intros z. pose proof (Z.mod_pos_bound z (2 ^ 256) eq_refl).
    assert (2 ^ 256 < 2 ^ (8 * Z.of_nat 64)) by reflexivity. lia. }
  rewrite !be_value_be_bytes_small by apply R.
  rewrite <- (be_bytes_mod 32 (be_value a * _)), <- (be_bytes_mod 32 (be_value b * _)). f_equal.
  change (8 * Z.of_nat 32) with 256. rewrite !Z.mul_mod_idemp_r by done. f_equal. lia.
Qed.

#[export] Instance sim_hashes : CngHashes Sim.
Proof.
  constructor; cbn [BCryptHashData BCryptFinishHash sim_cng]; cbn [obj sim_model].
  - intros h data w L. rewrite <- (fault_objs w) in L.
    destruct (fault w) as [[] w0]; cbn [snd] in L; [done|].
    destruct (s_objs w0 !! h) as [[| | | |]|] eqn:E; cbn; rewrite ?E; try done.
    rewrite lookup_insert_eq. by eexists.
  - intros h buf w L. rewrite <- (fault_objs w) in L.
    destruct (fault w) as [[] w0]; cbn [snd] in L; [done|].
    destruct (s_objs w0 !! h) as [[| | | |]|] eqn:E; cbn; rewrite ?E; try done.
    case_bool_decide; cbn; by rewrite E.
Qed.

#[export] Instance sim_ecdh_laws : EcdhLaws Sim.
Proof.
  constructor; cbn [BCryptGenerateKeyPair BCryptFinalizeKeyPair BCryptExportKey
    BCryptSecretAgreement BCryptDeriveKey BCryptDestroySecret sim_cng]; cbn [obj sim_model].
  - intros h bits old w. eexists.
    pose proof (sim_make_makes (is_alg ECDH_P256 w h) (KeyPairObj (be_bytes 32 (s_seed w))) old w) as M.
    destruct (sim_make _ _ old w) as [r w1]. by apply set_seed_makes.
  - intros h w. sim_fault w; by rewrite <- F.
  - intros h buf cb w. sim_fault w; [done|].
    destruct (sim_private w0 h) as [a|] eqn:E.
    + apply sim_private_spec in E. rewrite F in E. destruct buf as [buf|]; cbn.
      * case_bool_decide as L; cbn; [|done]. split; [done|]. split; [done|].
        intros _ p Hp. simplify_eq. done.
      * done.
    + destruct buf; done.
  - intros h hp old w. destruct (sim_private w h) as [a|] eqn:Ea, (sim_point w hp) as [P|] eqn:EP.
    2-4: exists [], RNG, 0, []; split; [apply sim_make_makes | by intros ?%sim_make_ok].
    apply sim_private_spec in Ea. apply sim_point_spec in EP as [alg EP].
    exists a, alg, toy_ecdh_magic, P. split; [apply sim_make_makes | done].
  - intros h buf cb w. sim_fault w; [done|]. rewrite F.
    destruct (s_objs w !! h) as [[| | | |s]|] eqn:E; try (by destruct buf).
    destruct buf as [buf|]; cbn.
    + case_bool_decide as L; cbn; [|done]. split; [done|]. split; [done|].
      intros _ p [= <-]. done.
    + split; [done|]. split; [done|]. intros _ p [= <-]. split; [done|]. by destruct s.
  - done.
  - intros. apply length_be_bytes.
  - intros. apply length_be_bytes.
  - apply toy_commutes.
Qed.

#[export] Instance sim_ecdh_live : EcdhLive Sim.
Proof.
  constructor; cbn [BCryptGenerateKeyPair BCryptFinalizeKeyPair BCryptExportKey BCryptImportKeyPair
    BCryptSecretAgreement BCryptDeriveKey BCryptDestroySecret BCryptDestroyKey sim_cng];
    cbn [obj healthy sim_model].
  - intros h hmac old w Hw E. unfold is_alg, sim_make. by rewrite fault_healthy, E.
  - intros h p w Hw _. by rewrite fault_healthy.
  - intros h p buf cb w Hw E%sim_private_spec Hb. rewrite fault_healthy, E by done.
    destruct buf as [buf|]; [|done]. by rewrite bool_decide_true by (by apply Hb).
  - intros h hmac p old w Hw E. unfold sim_make. by rewrite fault_healthy, E.
  - intros h hp p alg xy old w Hw E%sim_private_spec Eh. rewrite E. unfold sim_point.
    cbn [BCRYPT_ECDH_PUBLIC_P256_MAGIC sim_cng] in Eh. rewrite Eh.
    assert (D : drop 8 (ecc_blob toy_ecdh_magic xy) = xy).
    { unfold ecc_blob. rewrite app_assoc. apply drop_app_exact. len. }
    rewrite bool_decide_true by (by rewrite D). unfold sim_make. by rewrite fault_healthy.
  - intros h s buf cb w Hw E Hb. rewrite fault_healthy, E by done.
    destruct buf as [buf|]; [|done]. by rewrite bool_decide_true by (by apply Hb).
  - done.
  - done.
Qed.

(** ** The clock *)
#[export] Instance sim_clock : Clock Sim := {
  system_clock_ms := fun w =>
    match s_clock w with
    | [] => (0, w)
    | t :: rest => (u64 t, set_clock rest w)
    end;
}.

#[export] Instance sim_clock_laws : ClockLaws Sim.
Proof.
  constructor; intros w; cbn; destruct (s_clock w); cbn; try done.
  apply wrap_range. lia.
Qed.

(** ** Winsock *)
Definition next_socket (X : gset handle) : handle := 1 + foldr Z.max 0 (elements X).

Definition sim_open (w : Sim) : handle * Sim :=
  let '(b, w) := fault w in
  let s := next_socket (s_socks w) in
  if b || bool_decide (s = INVALID_SOCKET) then (INVALID_SOCKET, w)
  else (s, set_socks ({[s]} ∪ s_socks w) w).

Definition sim_status (w : Sim) : Z * Sim :=
  let '(b, w) := fault w in (if b : bool then SOCKET_ERROR else 0, w).

#[export] Instance sim_winsock : Winsock Sim := {
  socket := sim_open;
  setsockopt_reuseaddr := fun _ => sim_status;
  bind := fun _ _ => sim_status;
  listen := fun _ => sim_status;
  accept := fun _ w =>
    match s_peers w with
    | [] => ((INVALID_SOCKET, ""%string), w)
    | p :: rest => let '(s, w) := sim_open (set_peers rest w) in ((s, p), w)
    end;
  connect := fun _ _ _ => sim_status;
  recv := fun _ n w =>
    match s_inbox w with
    | [] => ((0, []), w)
    | c :: rest => if Z.of_nat (length c) <=? n
                   then ((Z.of_nat (length c), c), set_inbox rest w)
                   else ((n, take (Z.to_nat n) c), set_inbox (drop (Z.to_nat n) c :: rest) w)
    end;
  send := fun s data w =>
    let '(q, w) := match s_quota w with
                   | [] => (Z.of_nat (length data), w)
                   | q :: rest => (Z.min q (Z.of_nat (length data)), set_quota rest w)
                   end in
    if 0 <? q
    then (q, set_sent (<[s := default [] (s_sent w !! s) ++ take (Z.to_nat q) data]> (s_sent w)) w)
    else (q, w);
  closesocket := fun s w => (0, set_socks (s_socks w ∖ {[s]}) w);
}.

#[export] Instance sim_winsock_model : WinsockModel Sim := {
  sent := fun w s => default [] (s_sent w !! s);
  socks := s_socks;
}.

Lemma foldr_max_le l k : k ∈ l -> k <= foldr Z.max 0 l.
Proof.
  induction l as [|x l IH]; intros Hk; [by apply not_elem_of_nil in Hk|]. cbn.
  apply elem_of_cons in Hk as [->|Hk]; [lia|]. specialize (IH Hk). lia.
Qed.

Lemma next_socket_fresh X : next_socket X ∉ X.
Proof.
  intros H. apply elem_of_elements in H. apply foldr_max_le in H. unfold next_socket in H. lia.
Qed.

Lemma fault_socks w : s_socks (fault w).2 = s_socks w /\ s_sent (fault w).2 = s_sent w.
Proof. unfold fault. by destruct (s_faults w). Qed.

Lemma sim_open_law w :
  let '(s, w') := sim_open w in
  (if bool_decide (s = INVALID_SOCKET) then s_socks w' = s_socks w
   else (s ∉ s_socks w) /\ s_socks w' = {[s]} ∪ s_socks w).
Proof.
  unfold sim_open. destruct (fault_socks w) as [F _]. destruct (fault w) as [b w1]. cbn [snd] in F.
  rewrite <- F. pose proof (next_socket_fresh (s_socks w1)).
  case_bool_decide as E.
  - rewrite orb_true_r. by rewrite bool_decide_true.
  - rewrite orb_false_r. destruct b; [by rewrite bool_decide_true | by rewrite bool_decide_false].
Qed.

Lemma sim_status_socks w : s_socks (sim_status w).2 = s_socks w.
Proof. unfold sim_status. destruct (fault_socks w) as [F _]. by destruct (fault w). Qed.

#[export] Instance sim_winsock_laws : WinsockLaws Sim.
Proof.
  constructor; cbn [socket setsockopt_reuseaddr bind listen accept connect recv send closesocket
    sim_winsock socks sent sim_winsock_model]; intros.
  - apply sim_open_law.
  - apply sim_status_socks.
  - apply sim_status_socks.
  - apply sim_status_socks.
  - destruct (s_peers w) as [|p rest]; [by rewrite bool_decide_true|].
    pose proof (sim_open_law (set_peers rest w)) as H. by destruct (sim_open (set_peers rest w)).
  - apply sim_status_socks.
  - destruct (s_inbox w) as [|c rest]; [done|].
    destruct (Z.leb_spec (Z.of_nat (length c)) n); (split; [done|]; split; [done|]); intros ?; len.
  - set (r := match s_quota w with [] => _ | _ => _ end).
    assert (R : exists q w1, r = (q, w1) /\ s_sent w1 = s_sent w /\ s_socks w1 = s_socks w /\
                q <= Z.of_nat (length data)).
    { unfold r. destruct (s_quota w); eexists _, _; (split; [done|]); cbn; lia || (repeat split; lia). }
    destruct R as (q & w1 & -> & Es & Ek & Lq).
    destruct (Z.ltb_spec 0 q); cbn; rewrite ?Es, ?Ek.
    + split; [done|]. split; [|split; [|lia]].
      * intros s' N. by rewrite lookup_insert_ne.
      * intros _. by rewrite lookup_insert_eq.
    + split; [done|]. split; [done|]. split; [lia | done].
  - done.
Qed.

Lemma sim_open_inbox w : s_inbox (sim_open w).2 = s_inbox w.
Proof.
  unfold sim_open, fault. destruct (s_faults w) as [|[] faults]; cbn -[next_socket]; try done;
    by destruct (bool_decide _).
Qed.

Lemma sim_open_objs w : s_objs (sim_open w).2 = s_objs w.
Proof.
  unfold sim_open. pose proof (fault_objs w) as F. destruct (fault w) as [b w1]. cbn [snd] in F.
  by destruct (b || _).
Qed.

Lemma sim_status_objs w : s_objs (sim_status w).2 = s_objs w.
Proof. unfold sim_status. pose proof (fault_objs w) as F. by destruct (fault w). Qed.

#[export] Instance sim_winsock_cng : WinsockCng Sim.
Proof.
  constructor; cbn [socket setsockopt_reuseaddr bind listen accept connect send recv closesocket
    sim_winsock obj sim_model]; intros; try apply sim_status_objs.
  - destruct (s_quota w); cbn; by destruct (0 <? _).
  - destruct (s_inbox w) as [|c rest]; [done|]. by destruct (_ <=? n).
  - done.
  - apply sim_open_objs.
  - destruct (s_peers w) as [|p rest]; [done|].
    pose proof (sim_open_objs (set_peers rest w)) as H. by destruct (sim_open (set_peers rest w)).
Qed.

#[export] Instance sim_sockets_apart : SocketsApart Sim.
Proof.
  constructor; cbn [BCryptOpenAlgorithmProvider BCryptCloseAlgorithmProvider sim_cng system_clock_ms sim_clock
    socks sim_winsock_model]; intros.
  - unfold sim_make. destruct (fault_socks w) as [F _]. destruct (fault w) as [b' w1]. cbn [snd] in F.
    by destruct (b' || _).
  - done.
  - by destruct (s_clock w).
Qed.

(** ** DPAPI and files *)

(** The toy seal puts a byte in front. *)
Definition toy_seal (d : list byte) : list byte := to_u8 0x5A :: d.
Definition toy_unseal (c : list byte) : option (list byte) :=
  match c with b :: d => if bool_decide (b = to_u8 0x5A) then Some d else None | [] => None end.

Definition sim_alloc (r : option (list byte)) (w : Sim) : option (handle * list byte) * Sim :=
  let '(b, w) := fault w in
  match b, r with
  | false, Some d => let p := next_socket (s_blobs w) in (Some (p, d), set_blobs ({[p]} ∪ s_blobs w) w)
  | _, _ => (None, w)
  end.

#[export] Instance sim_dpapi : Dpapi Sim := {
  CryptProtectData := fun d => sim_alloc (Some (toy_seal d));
  CryptUnprotectData := fun c => sim_alloc (toy_unseal c);
  LocalFree := fun p w => (tt, set_blobs (s_blobs w ∖ {[p]}) w);
}.
#[export] Instance sim_dpapi_model : DpapiModel Sim := { unseal := toy_unseal; blobs := s_blobs }.

Lemma fault_blobs w : s_blobs (fault w).2 = s_blobs w.
Proof. unfold fault. by destruct (s_faults w). Qed.

Lemma sim_alloc_allocates r w : allocates w (sim_alloc r w).
Proof.
  unfold sim_alloc. pose proof (fault_blobs w) as F. destruct (fault w) as [[] w1]; [done|].
  cbn [snd] in F. destruct r as [d|]; cbn -[next_socket]; [|done].
  rewrite <- F. split; [apply next_socket_fresh | done].
Qed.

Lemma sim_alloc_bytes r w p d : (sim_alloc r w).1 = Some (p, d) -> r = Some d.
Proof. unfold sim_alloc. destruct (fault w) as [[] w1], r; cbn; congruence. Qed.

#[export] Instance sim_dpapi_laws : DpapiLaws Sim.
Proof.
  constructor; cbn [CryptProtectData CryptUnprotectData LocalFree sim_dpapi unseal sim_dpapi_model].
  - intros d w. split; [apply sim_alloc_allocates|]. intros p c H%sim_alloc_bytes.
    by injection H as <-.
  - intros c w. split; [apply sim_alloc_allocates|]. intros p d. apply sim_alloc_bytes.
  - done.
Qed.

#[export] Instance sim_files : Files Sim := {
  ofstream_open := fun p w => let '(b, w) := fault w in
    if b : bool then (false, w) else (true, set_buffers (<[p := []]> (s_buffers w)) w);
  ofstream_write := fun p d w => let '(b, w) := fault w in
    if b : bool then (false, w)
    else (true, set_buffers (<[p := default [] (s_buffers w !! p) ++ d]> (s_buffers w)) w);
  ofstream_close := fun p w => let '(b, w) := fault w in
    if b : bool then (false, w)
    else (true, set_files (<[p := default [] (s_buffers w !! p)]> (s_files w)) w);
  ifstream_read := fun p w => (s_files w !! p, w);
}.
#[export] Instance sim_files_model : FilesModel Sim := {
  file := fun w p => s_files w !! p;
  buffered := fun w p => default [] (s_buffers w !! p);
}.

Lemma fault_buffers w : s_buffers (fault w).2 = s_buffers w.
Proof. unfold fault. by destruct (s_faults w). Qed.

#[export] Instance sim_files_laws : FilesLaws Sim.
Proof.
  constructor; intros; cbn [ofstream_open ofstream_write ofstream_close ifstream_read sim_files];
    [..|done]; pose proof (fault_blobs w) as F; pose proof (fault_buffers w) as B;
    destruct (fault w) as [[] w1]; cbn in *; rewrite ?lookup_insert_eq, <- ?B; done.
Qed.

#[export] Instance sim_working : Working Sim := fun w => s_faults w = [].
Lemma sim_alloc_live d w : s_faults w = [] -> is_Some (sim_alloc (Some d) w).1 /\ s_faults (sim_alloc (Some d) w).2 = [].
Proof. intros E. unfold sim_alloc. by rewrite fault_healthy. Qed.
#[export] Instance sim_storage_live : StorageLive Sim.
Proof.
  constructor; unfold working, sim_working; intros;
    cbn [CryptProtectData CryptUnprotectData LocalFree sim_dpapi ofstream_open ofstream_write ofstream_close
         ifstream_read sim_files unseal sim_dpapi_model file sim_files_model] in *;
    rewrite ?fault_healthy by done; try done.
  - by apply sim_alloc_live.
  - destruct (toy_unseal c); [by apply sim_alloc_live | done].
Qed.
