(* ===== verification/DerSignature.v ===== *)
(** * DerSignature: from an ASN.1 signature to the raw [r || s] CNG expects

    Models CryptoEngine::ConvertDerToRawRSignature of
    windows/common/CryptoEngine.cpp with its pointer arithmetic, and states it
    against a reference parser, a DER encoder and the integers it carries. *)
From S2P Require Import Prelude Bytes.

(** ** The code *)

(** [idx >= derSize || derData[idx] != 0x02] *)
Definition not_integer_tag (data : list byte) (derSize idx : Z) : Res bool :=
  if idx >=? derSize then Def true
  else let? b := rd data idx in Def (negb (u8 b =? 0x02)).

(** [while (len > 32 && p[0] == 0x00) { p++; len--; }]; the loop runs at most
    [len] times. *)
Fixpoint strip_zeros (fuel : nat) (p : list byte) (len : Z) : Res (list byte * Z) :=
  match fuel with
  | O => Def (p, len)
  | S fuel =>
    if len >? 32 then
      let? b := rd p 0 in
      if u8 b =? 0 then strip_zeros fuel (drop 1 p) (len - 1) else Def (p, len)
    else Def (p, len)
  end.

(** The pointer [derData] may be null; the list is the memory readable from it. *)
Definition ConvertDerToRawRSignature (derData : option (list byte)) (derSize : Z)
    (rawRsOut : list byte) : Res (bool * list byte) :=
  match derData with
  | None => Def (false, rawRsOut)
  | Some data =>
    if (derSize <? 8) || (derSize >? 139) then Def (false, rawRsOut) else
    let? b0 := rd data 0 in
    if negb (u8 b0 =? 0x30) then Def (false, rawRsOut) else
    let idx := 2 in
    let? bad := not_integer_tag data derSize idx in
    if bad : bool then Def (false, rawRsOut) else
    let idx := idx + 1 in
    let? lenByte := rd data idx in
    let rLen := u8 lenByte in
    let idx := idx + 1 in
    if idx + rLen >? derSize then Def (false, rawRsOut) else
    let rBytes := drop (Z.to_nat idx) data in
    let idx := idx + rLen in
    let? bad := not_integer_tag data derSize idx in
    if bad : bool then Def (false, rawRsOut) else
    let idx := idx + 1 in
    let? lenByte := rd data idx in
    let sLen := u8 lenByte in
    let idx := idx + 1 in
    if idx + sLen >? derSize then Def (false, rawRsOut) else
    let sBytes := drop (Z.to_nat idx) data in
    let? '(rBytes, rLen) := strip_zeros (Z.to_nat rLen) rBytes rLen in
    let? '(sBytes, sLen) := strip_zeros (Z.to_nat sLen) sBytes sLen in
    if (rLen >? 32) || (sLen >? 32) then Def (false, rawRsOut) else
    let rawRsOut := replicate 64 x00 in
    let? r := rd_slice rBytes 0 rLen in
    let? rawRsOut := memcpy_to rawRsOut (32 - rLen) r in
    let? s := rd_slice sBytes 0 sLen in
    let? rawRsOut := memcpy_to rawRsOut (32 + (32 - sLen)) s in
    Def (true, rawRsOut)
  end.

(** ** Specification *)

(** Two 256-bit integers, big-endian. *)
Definition raw_rs (r s : Z) : list byte := be_bytes 32 r ++ be_bytes 32 s.

(** The grammar of an accepted signature: sequence tag, a length byte nobody
    looks at, two INTEGERs with one-byte lengths, and anything after them. *)
Definition der_shape (l : byte) (r s trail : list byte) : list byte :=
  [to_u8 0x30; l; to_u8 0x02; to_u8 (Z.of_nat (length r))] ++ r ++
  [to_u8 0x02; to_u8 (Z.of_nat (length s))] ++ s ++ trail.

(** A parser for that grammar over a list, by structural recursion; [UB] marks
    the place where the code reads the byte after the last one. *)
Definition der_ref (der raw : list byte) : Res (bool * list byte) :=
  match der with
  | b0 :: _ :: t1 :: rl :: rest =>
    if negb (u8 b0 =? 0x30) || negb (u8 t1 =? 0x02) then Def (false, raw)
    else if (length rest <? Z.to_nat (u8 rl))%nat then Def (false, raw)
    else match drop (Z.to_nat (u8 rl)) rest with
         | [] => Def (false, raw)
         | t2 :: rest2 =>
           if negb (u8 t2 =? 0x02) then Def (false, raw)
           else match rest2 with
                | [] => UB
                | sl :: rest3 =>
                  let r := be_value (take (Z.to_nat (u8 rl)) rest) in
                  let s := be_value (take (Z.to_nat (u8 sl)) rest3) in
                  if (length rest3 <? Z.to_nat (u8 sl))%nat then Def (false, raw)
                  else if (r <? 2 ^ 256) && (s <? 2 ^ 256) then Def (true, raw_rs r s)
                  else Def (false, raw)
                end
         end
  | _ => Def (false, raw)
  end.

(** The DER encoder: minimal two's-complement big-endian INTEGERs. *)
Fixpoint drop_zeros (l : list byte) : list byte :=
  match l with
  | [] => []
  | [b] => [b]
  | b :: l' => if u8 b =? 0 then drop_zeros l' else l
  end.
Definition der_integer (x : list byte) : list byte :=
  let m := drop_zeros x in
  match m with
  | b :: _ => if 128 <=? u8 b then x00 :: m else m
  | [] => [x00]
  end.
Definition der_encode (r s : Z) : list byte :=
  let a := der_integer (be_bytes 32 r) in
  let b := der_integer (be_bytes 32 s) in
  der_shape (to_u8 (Z.of_nat (4 + length a + length b))) a b [].

(** ** Stripping and aligning *)

Lemma be_value_ge_head b l :
  u8 b <> 0 -> 2 ^ (8 * Z.of_nat (length l)) <= be_value (b :: l).
Proof.
  intros H. rewrite be_value_cons. pose proof (u8_range b). pose proof (be_value_range l). nia.
Qed.

Lemma be_value_zero_cons l : be_value (x00 :: l) = be_value l.
Proof. rewrite be_value_cons. change (u8 x00) with 0. lia. Qed.

Lemma be_value_zeros n l : be_value (replicate n x00 ++ l) = be_value l.
Proof.
  induction n as [|n IH]; [done|]. cbn [replicate app]. by rewrite be_value_zero_cons.
Qed.

Lemma u8_zero b : u8 b = 0 -> b = x00.
Proof. intros H. by apply u8_inj. Qed.

Lemma rd_0 b l : rd (b :: l) 0 = Def b.
Proof. done. Qed.

Lemma strip_zeros_spec fuel r rest :
  (length r <= fuel)%nat ->
  exists r', strip_zeros fuel (r ++ rest) (Z.of_nat (length r)) = Def (r' ++ rest, Z.of_nat (length r')) /\
    be_value r' = be_value r /\ ((length r' <= 32)%nat <-> be_value r < 2 ^ 256).
Proof.
  revert r. induction fuel as [|fuel IH]; intros r L; cbn [strip_zeros].
  - destruct r; [|cbn in L; lia]. exists []. split; [done|]. split; [done|].
    rewrite be_value_nil. cbn. lia.
  - assert (Hs : (length r <= 32)%nat -> be_value r < 2 ^ 256).
    { intros H. pose proof (be_value_range r).
      enough (2 ^ (8 * Z.of_nat (length r)) <= 2 ^ 256) by lia.
      apply Z.pow_le_mono_r; lia. }
    destruct (Z.gtb_spec (Z.of_nat (length r)) 32) as [G|G].
    2: { exists r. split; [done|]. split; [done|]. split; [done|lia]. }
    destruct r as [|b r]; [cbn in G; lia|]. cbn [app]. rewrite rd_0. cbn [mbind Res_bind].
    destruct (Z.eqb_spec (u8 b) 0) as [->%u8_zero|N].
    + rewrite be_value_zero_cons. cbn [drop length] in *.
      replace (Z.of_nat (S (length r)) - 1) with (Z.of_nat (length r)) by lia.
      apply IH. lia.
    + exists (b :: r). split; [done|]. split; [done|]. split; [lia|]. intros V. exfalso.
      pose proof (be_value_ge_head b r N).
      assert (2 ^ 256 <= 2 ^ (8 * Z.of_nat (length r))).
      { apply Z.pow_le_mono_r; cbn in G; lia. }
      lia.
Qed.

(** Right-aligning in 32 zero bytes is the 32-byte encoding. *)
Lemma right_align r :
  (length r <= 32)%nat -> replicate (32 - length r) x00 ++ r = be_bytes 32 (be_value r).
Proof.
  intros L. apply be_value_inj; [len|].
  rewrite be_value_zeros, be_value_be_bytes, Z.mod_small; [done|].
  pose proof (be_value_range r). split; [lia|].
  assert (2 ^ (8 * Z.of_nat (length r)) <= 2 ^ (8 * Z.of_nat 32)) by (apply Z.pow_le_mono_r; lia).
  lia.
Qed.

Lemma copy_both r s rest rest' :
  (length r <= 32)%nat -> (length s <= 32)%nat ->
  (let? a := rd_slice (r ++ rest) 0 (Z.of_nat (length r)) in
   let? out := memcpy_to (replicate 64 x00) (32 - Z.of_nat (length r)) a in
   let? b := rd_slice (s ++ rest') 0 (Z.of_nat (length s)) in
   let? out := memcpy_to out (32 + (32 - Z.of_nat (length s))) b in
   Def (true, out)) = Def (true, raw_rs (be_value r) (be_value s)).
Proof.
  intros Lr Ls. rewrite !rd_slice_ok by len. cbn [mbind Res_bind].
  rewrite !Nat2Z.id. change (Z.to_nat 0) with 0%nat. rewrite !sub_app_head by done.
  replace (replicate 64 x00) with (replicate (32 - length r) x00 ++ replicate (32 + length r) x00)
    by (rewrite <- replicate_add; f_equal; lia).
  rewrite memcpy_fill by len. cbn [mbind Res_bind].
  replace (32 + length r - length r)%nat with 32%nat by lia.
  replace (replicate 32 x00) with (replicate (32 - length s) x00 ++ replicate (length s) x00)
    by (rewrite <- replicate_add; f_equal; lia).
  rewrite app_assoc, memcpy_fill by len. cbn [mbind Res_bind].
  rewrite Nat.sub_diag, app_nil_r. unfold raw_rs.
  by rewrite <- !right_align, <- !app_assoc by done.
Qed.

(** ** The code is the reference parser *)

Lemma rd_skip pre l i j :
  0 <= j -> i = Z.of_nat (length pre) + j -> rd (pre ++ l) i = rd l j.
Proof.
  intros Hj ->. unfold rd. rewrite !(proj2 (Z.leb_le _ _)) by lia.
  rewrite lookup_app_r by lia. by replace (_ - _)%nat with (Z.to_nat j) by lia.
Qed.

Lemma strip_both p q rest rest' raw :
  (let? '(rBytes, rLen) := strip_zeros (Z.to_nat (Z.of_nat (length p))) (p ++ rest) (Z.of_nat (length p)) in
   let? '(sBytes, sLen) := strip_zeros (Z.to_nat (Z.of_nat (length q))) (q ++ rest') (Z.of_nat (length q)) in
   if (rLen >? 32) || (sLen >? 32) then Def (false, raw) else
   let? r := rd_slice rBytes 0 rLen in
   let? out := memcpy_to (replicate 64 x00) (32 - rLen) r in
   let? s := rd_slice sBytes 0 sLen in
   let? out := memcpy_to out (32 + (32 - sLen)) s in
   Def (true, out)) =
  if (be_value p <? 2 ^ 256) && (be_value q <? 2 ^ 256)
  then Def (true, raw_rs (be_value p) (be_value q)) else Def (false, raw).
Proof.
  rewrite !Nat2Z.id.
  destruct (strip_zeros_spec (length p) p rest) as (r & -> & Vr & Br); [done|].
  destruct (strip_zeros_spec (length q) q rest') as (s & Es & Vs & Bs); [done|].
  cbn [mbind Res_bind]. rewrite Es. cbn [mbind Res_bind].
  destruct ((be_value p <? 2 ^ 256) && (be_value q <? 2 ^ 256)) eqn:E.
  - apply andb_true_iff in E as [Ep%Z.ltb_lt Eq%Z.ltb_lt]. apply Br in Ep. apply Bs in Eq.
    replace (_ || _) with false by lia.
    rewrite <- Vr, <- Vs. by apply copy_both.
  - apply andb_false_iff in E as [E|E]; apply Z.ltb_ge in E.
    + assert (~ (length r <= 32)%nat) by (rewrite Br; lia).
      by replace (_ || _) with true by lia.
    + assert (~ (length s <= 32)%nat) by (rewrite Bs; lia).
      by replace (_ || _) with true by lia.
Qed.

Lemma Convert_ref der raw :
  (8 <= length der <= 139)%nat ->
  ConvertDerToRawRSignature (Some der) (Z.of_nat (length der)) raw = der_ref der raw.
Proof.
  intros L. unfold ConvertDerToRawRSignature.
  replace (_ || _) with false by lia.
  destruct der as [|b0 [|l [|t1 [|rl rest]]]]; [cbn in L; lia..|].
  cbn [length] in L. set (n := length rest) in *.
  replace (Z.of_nat (length (b0 :: l :: t1 :: rl :: rest))) with (4 + Z.of_nat n)
    by (cbn [length]; lia).
  unfold der_ref, not_integer_tag. rewrite rd_0. cbn [mbind Res_bind].
  destruct (Z.eqb_spec (u8 b0) 0x30) as [E0|]; cbn [negb orb]; [|done].
  replace (2 >=? 4 + Z.of_nat n) with false by lia.
  replace (rd (b0 :: l :: t1 :: rl :: rest) 2) with (Def t1) by done. cbn [mbind Res_bind].
  destruct (Z.eqb_spec (u8 t1) 2) as [E1|]; cbn [negb]; [|done].
  replace (rd (b0 :: l :: t1 :: rl :: rest) (2 + 1)) with (Def rl) by done. cbn [mbind Res_bind].
  pose proof (u8_range rl) as Rr. fold n.
  destruct (Z.gtb_spec (2 + 1 + 1 + u8 rl) (4 + Z.of_nat n)) as [G|G].
  { by replace (n <? _)%nat with true by lia. }
  replace (n <? _)%nat with false by lia.
  change (b0 :: l :: t1 :: rl :: rest) with ([b0; l; t1; rl] ++ rest).
  set (p := take (Z.to_nat (u8 rl)) rest). set (q := drop (Z.to_nat (u8 rl)) rest).
  assert (Hp : Z.of_nat (length p) = u8 rl) by (unfold p; len).
  assert (Hrest : rest = p ++ q) by (unfold p, q; by rewrite take_drop).
  assert (Hn : n = (length p + length q)%nat) by (unfold n; rewrite Hrest; len).
  rewrite <- Hp. clearbody p q n. subst rest. clear L.
  destruct q as [|t2 rest2].
  { replace (_ >=? _) with true by (cbn [length] in *; lia). done. }
  replace (_ >=? _) with false by (cbn [length] in *; lia).
  rewrite app_assoc.
  rewrite (rd_skip ([b0; l; t1; rl] ++ p) (t2 :: rest2) (2 + 1 + 1 + Z.of_nat (length p)) 0), rd_0 by len.
  cbn [mbind Res_bind].
  destruct (Z.eqb_spec (u8 t2) 2) as [E2|]; cbn [negb]; [|done].
  destruct rest2 as [|sl rest3].
  { rewrite rd_UB by len. done. }
  rewrite (rd_skip ([b0; l; t1; rl] ++ p) (t2 :: sl :: rest3) (2 + 1 + 1 + Z.of_nat (length p) + 1) 1) by len.
  change (rd (t2 :: sl :: rest3) 1) with (Def sl). cbn [mbind Res_bind].
  pose proof (u8_range sl) as Rs. cbn [length] in *.
  destruct (Z.gtb_spec (2 + 1 + 1 + Z.of_nat (length p) + 1 + 1 + u8 sl) (4 + Z.of_nat n)) as [G2|G2].
  { by replace (length rest3 <? _)%nat with true by lia. }
  replace (length rest3 <? _)%nat with false by lia.
  set (s := take (Z.to_nat (u8 sl)) rest3). set (tr := drop (Z.to_nat (u8 sl)) rest3).
  assert (Hs : Z.of_nat (length s) = u8 sl) by (unfold s; len).
  assert (Hr3 : rest3 = s ++ tr) by (unfold s, tr; by rewrite take_drop).
  rewrite <- Hs. clearbody s tr. subst rest3.
  replace (drop (Z.to_nat (2 + 1 + 1)) _) with (p ++ t2 :: sl :: s ++ tr)
    by (rewrite <- app_assoc; done).
  replace (drop _ (([b0; l; t1; rl] ++ p) ++ t2 :: sl :: s ++ tr)) with (s ++ tr).
  2: { change (t2 :: sl :: s ++ tr) with ([t2; sl] ++ (s ++ tr)).
       rewrite app_assoc. symmetry. apply drop_app_exact. len. }
  apply strip_both.
Qed.

Lemma u8_eq_to_u8 b n : u8 b = n -> b = to_u8 n.
Proof. intros <-. by rewrite to_u8_u8. Qed.

Lemma len_byte n : (n < 256)%nat -> Z.to_nat (u8 (to_u8 (Z.of_nat n))) = n.
Proof. intros H. rewrite to_u8_small by lia. lia. Qed.

Lemma der_ref_shape l r s trail raw :
  (length r < 256)%nat -> (length s < 256)%nat ->
  der_ref (der_shape l r s trail) raw =
  if (be_value r <? 2 ^ 256) && (be_value s <? 2 ^ 256)
  then Def (true, raw_rs (be_value r) (be_value s)) else Def (false, raw).
Proof.
  intros Hr Hs. unfold der_shape, der_ref. cbn [app].
  change (u8 (to_u8 0x30) =? 0x30) with true. change (u8 (to_u8 0x02) =? 0x02) with true.
  cbn [negb orb]. rewrite len_byte by done.
  replace (_ <? _)%nat with false by (symmetry; apply Nat.ltb_ge; len).
  rewrite drop_app_exact, take_app_exact by done. cbn [app].
  change (u8 (to_u8 0x02) =? 0x02) with true. cbn [negb]. rewrite len_byte by done.
  replace (_ <? _)%nat with false by (symmetry; apply Nat.ltb_ge; len).
  by rewrite take_app_exact.
Qed.

(** The lists [der_ref] does not reject outright. *)
Lemma der_ref_inv der raw :
  der_ref der raw <> Def (false, raw) ->
  (exists l r s trail, der = der_shape l r s trail /\ (length r < 256)%nat /\ (length s < 256)%nat) \/
  (exists l r, der = [to_u8 0x30; l; to_u8 0x02; to_u8 (Z.of_nat (length r))] ++ r ++ [to_u8 0x02]
               /\ (length r < 256)%nat /\ der_ref der raw = UB).
Proof.
  unfold der_ref. destruct der as [|b0 [|l [|t1 [|rl rest]]]]; try done.
  destruct (Z.eqb_spec (u8 b0) 0x30) as [->%u8_eq_to_u8|]; [|done].
  destruct (Z.eqb_spec (u8 t1) 0x02) as [->%u8_eq_to_u8|]; [|done]. cbn [negb orb].
  pose proof (u8_range rl). pose proof (take_drop (Z.to_nat (u8 rl)) rest) as E.
  destruct (Nat.ltb_spec (length rest) (Z.to_nat (u8 rl))) as [|Lr]; [done|].
  assert (Er : rl = to_u8 (Z.of_nat (length (take (Z.to_nat (u8 rl)) rest)))).
  { apply u8_eq_to_u8. len. }
  assert (Lr' : (length (take (Z.to_nat (u8 rl)) rest) < 256)%nat) by len.
  destruct (drop (Z.to_nat (u8 rl)) rest) as [|t2 rest2]; [done|].
  destruct (Z.eqb_spec (u8 t2) 0x02) as [->%u8_eq_to_u8|]; [|done]. cbn [negb].
  destruct rest2 as [|sl rest3].
  - intros _. right. exists l, (take (Z.to_nat (u8 rl)) rest). rewrite <- Er, E. done.
  - pose proof (u8_range sl). pose proof (take_drop (Z.to_nat (u8 sl)) rest3) as E3.
    destruct (Nat.ltb_spec (length rest3) (Z.to_nat (u8 sl))) as [|Ls]; [done|].
    intros _. left. exists l, (take (Z.to_nat (u8 rl)) rest), (take (Z.to_nat (u8 sl)) rest3),
      (drop (Z.to_nat (u8 sl)) rest3).
    assert (Es : sl = to_u8 (Z.of_nat (length (take (Z.to_nat (u8 sl)) rest3)))).
    { apply u8_eq_to_u8. len. }
    split; [|split; [done | len]]. unfold der_shape. rewrite <- Er, <- Es, E3. cbn [app].
    by rewrite E.
Qed.

Lemma Convert_outside der raw :
  ~ (8 <= length der <= 139)%nat ->
  ConvertDerToRawRSignature (Some der) (Z.of_nat (length der)) raw = Def (false, raw).
Proof. intros H. unfold ConvertDerToRawRSignature. by replace (_ || _) with true by lia. Qed.

Lemma Convert_cases der raw :
  ConvertDerToRawRSignature (Some der) (Z.of_nat (length der)) raw =
  if bool_decide (8 <= length der <= 139)%nat then der_ref der raw else Def (false, raw).
Proof.
  case_bool_decide; [by apply Convert_ref | by apply Convert_outside].
Qed.

(** ** The encoder *)

Lemma drop_zeros_spec l :
  l <> [] -> be_value (drop_zeros l) = be_value l /\ (0 < length (drop_zeros l) <= length l)%nat.
Proof.
  induction l as [|b [|b' l] IH]; intros N; [done|by split; [|cbn; lia]|].
  change (drop_zeros (b :: b' :: l)) with (if u8 b =? 0 then drop_zeros (b' :: l) else b :: b' :: l).
  destruct (Z.eqb_spec (u8 b) 0) as [->%u8_zero|].
  - destruct IH as [E L]; [done|]. rewrite be_value_zero_cons. split; [done|]. cbn [length] in *. lia.
  - split; [done|]. cbn. lia.
Qed.

Lemma der_integer_spec x :
  length x = 32%nat ->
  be_value (der_integer x) = be_value x /\ (0 < length (der_integer x) <= 33)%nat.
Proof.
  intros L. destruct (drop_zeros_spec x) as [E Lz]; [by intros ->|]. unfold der_integer.
  destruct (drop_zeros x) as [|b l]; [cbn in Lz; lia|].
  destruct (128 <=? u8 b); [rewrite be_value_zero_cons|]; (split; [done | cbn [length] in *; lia]).
Qed.

Lemma Convert_der_encode_value r s raw :
  0 <= r < 2 ^ 256 -> 0 <= s < 2 ^ 256 ->
  ConvertDerToRawRSignature (Some (der_encode r s)) (Z.of_nat (length (der_encode r s))) raw =
    Def (true, raw_rs r s).
Proof.
  intros Hr Hs. unfold der_encode.
  destruct (der_integer_spec (be_bytes 32 r)) as [Vr Lr]; [len|].
  destruct (der_integer_spec (be_bytes 32 s)) as [Vs Ls]; [len|].
  rewrite be_value_be_bytes, Z.mod_small in Vr, Vs by done.
  rewrite Convert_cases, bool_decide_true by (unfold der_shape; len).
  rewrite der_ref_shape, Vr, Vs by lia.
  by replace (_ && _) with true by lia.
Qed.

Lemma length_der_encode r s : (8 <= length (der_encode r s) <= 72)%nat.
Proof.
  unfold der_encode, der_shape.
  destruct (der_integer_spec (be_bytes 32 r)) as [_ Lr]; [len|].
  destruct (der_integer_spec (be_bytes 32 s)) as [_ Ls]; [len|]. len.
Qed.

(** * Properties *)

(** C13: round trip.  For every pair of 256-bit integers the minimal DER encoding
    of the signature (r, s), which is 8 to 72 bytes long, is converted, without
    reading outside it, to the 64-byte string holding r and s big-endian. *)
Theorem Convert_der_encode r s raw :
  0 <= r < 2 ^ 256 -> 0 <= s < 2 ^ 256 ->
  (8 <= length (der_encode r s) <= 72)%nat /\
  ConvertDerToRawRSignature (Some (der_encode r s)) (Z.of_nat (length (der_encode r s))) raw =
    Def (true, raw_rs r s).
Proof. intros Hr Hs. split; [apply length_der_encode | by apply Convert_der_encode_value]. Qed.

(** C35: what is accepted.  On a buffer of exactly the stated size the conversion
    succeeds iff the size is in 8..139 and the bytes are a sequence tag, any
    byte, two INTEGERs of at most 255 bytes whose values fit 256 bits, and
    anything after them; the output is then exactly the two values.  In
    particular neither the sequence length nor trailing bytes are checked. *)
Theorem Convert_accepts_iff der raw out :
  ConvertDerToRawRSignature (Some der) (Z.of_nat (length der)) raw = Def (true, out) <->
  (8 <= length der <= 139)%nat /\
  exists l r s trail, der = der_shape l r s trail /\
    (length r < 256)%nat /\ (length s < 256)%nat /\
    be_value r < 2 ^ 256 /\ be_value s < 2 ^ 256 /\
    out = raw_rs (be_value r) (be_value s).
Proof.
  rewrite Convert_cases. split.
  - case_bool_decide as L; [|done]. intros E. split; [done|].
    destruct (der_ref_inv der raw) as [(l & r & s & t & -> & Hr & Hs)|(l & r & _ & _ & U)];
      [by rewrite E| |by rewrite U in E].
    exists l, r, s, t. rewrite der_ref_shape in E by done.
    destruct (_ && _) eqn:B; [|done]. apply andb_true_iff in B as [?%Z.ltb_lt ?%Z.ltb_lt].
    injection E as <-. done.
  - intros (L & l & r & s & t & -> & Hr & Hs & Vr & Vs & ->).
    rewrite bool_decide_true by done. rewrite der_ref_shape by done.
    by replace (_ && _) with true by lia.
Qed.

(** C36: the one out-of-bounds read.  On a buffer of exactly the stated size the
    conversion reads past the end iff the last byte is the tag of the second
    INTEGER, after a first INTEGER that fills the rest; on every other buffer
    the result is defined. *)
Theorem Convert_reads_past_end der raw :
  ConvertDerToRawRSignature (Some der) (Z.of_nat (length der)) raw = UB <->
  (8 <= length der <= 139)%nat /\
  exists l r, der = [to_u8 0x30; l; to_u8 0x02; to_u8 (Z.of_nat (length r))] ++ r ++ [to_u8 0x02].
Proof.
  rewrite Convert_cases. split.
  - case_bool_decide as L; [|done]. intros E. split; [done|].
    destruct (der_ref_inv der raw) as [(l & r & s & t & -> & Hr & Hs)|(l & r & -> & Hr & U)];
      [by rewrite E| |by exists l, r].
    rewrite der_ref_shape in E by done. by destruct (_ && _).
  - intros (L & l & r & ->). rewrite bool_decide_true by done.
    assert (Hr : (length r < 256)%nat) by len.
    unfold der_ref. cbn [app].
    change (u8 (to_u8 0x30) =? 0x30) with true. change (u8 (to_u8 0x02) =? 0x02) with true.
    cbn [negb orb]. rewrite len_byte by done.
    replace (_ <? _)%nat with false by (symmetry; apply Nat.ltb_ge; len).
    by rewrite drop_app_exact.
Qed.

(** * Witnesses *)

(** A DER signature with small integers. *)
Example der_encode_sample :
  der_encode 0x80 1 = (to_u8 <$> [0x30; 7; 2; 2; 0; 0x80; 2; 1; 1]).
Proof. vm_compute. reflexivity. Qed.

Lemma Convert_der_encode_witness :
  ConvertDerToRawRSignature (Some (der_encode 0x80 1)) 9 [] = Def (true, raw_rs 0x80 1).
Proof. apply (Convert_der_encode 0x80 1 []); lia. Defined.

(** The attacker's eight bytes: 30 06 02 03 .. .. .. 02. *)
Example Convert_overread :
  ConvertDerToRawRSignature (Some (to_u8 <$> [0x30; 6; 2; 3; 1; 1; 1; 2])) 8 [] = UB.
Proof. vm_compute. reflexivity. Qed.

(** A well-formed signature of 64 bytes exists, so its length does not tell it
    from a raw one. *)
Example der_of_64_bytes :
  length (der_encode (2 ^ 230) (2 ^ 230)) = 64%nat.
Proof. vm_compute. reflexivity. Qed.
