(* ===== verification/CryptoEngine.v ===== *)
(** * CryptoEngine: the CNG wrapper that checks signatures and imports keys

    Models windows/common/CryptoEngine.cpp and PublicKeyImporter.cpp over the
    CNG interface of Platform.  A method is a state transformer on the world;
    the engine's three handles are passed explicitly (only [Initialize] changes
    them). *)
From S2P Require Import Prelude Bytes Platform DerSignature.

(** ** State *)
Record CryptoEngine : Type := {
  m_hEcdsaAlg : handle;
  m_hRngAlg : handle;
  m_hSha256Alg : handle;
}.

Definition new_CryptoEngine : CryptoEngine :=
  {| m_hEcdsaAlg := NULL; m_hRngAlg := NULL; m_hSha256Alg := NULL |}.

Definition with_hEcdsaAlg h (e : CryptoEngine) : CryptoEngine :=
  {| m_hEcdsaAlg := h; m_hRngAlg := m_hRngAlg e; m_hSha256Alg := m_hSha256Alg e |}.
Definition with_hRngAlg h (e : CryptoEngine) : CryptoEngine :=
  {| m_hEcdsaAlg := m_hEcdsaAlg e; m_hRngAlg := h; m_hSha256Alg := m_hSha256Alg e |}.
Definition with_hSha256Alg h (e : CryptoEngine) : CryptoEngine :=
  {| m_hEcdsaAlg := m_hEcdsaAlg e; m_hRngAlg := m_hRngAlg e; m_hSha256Alg := h |}.

Section Engine.
Context {W : Type} `{Cng W}.

Definition destroy_CryptoEngine (e : CryptoEngine) : Proc W unit :=
  (if negb (m_hEcdsaAlg e =? NULL) then pcall (BCryptCloseAlgorithmProvider (m_hEcdsaAlg e)) else pret 0) ;;
  (if negb (m_hRngAlg e =? NULL) then pcall (BCryptCloseAlgorithmProvider (m_hRngAlg e)) else pret 0) ;;
  (if negb (m_hSha256Alg e =? NULL) then pcall (BCryptCloseAlgorithmProvider (m_hSha256Alg e)) else pret 0) ;;
  pret tt.

Definition Initialize (e : CryptoEngine) : Proc W (bool * CryptoEngine) :=
  let* '(status, h) := pcall (BCryptOpenAlgorithmProvider ECDSA_P256 false (m_hEcdsaAlg e)) in
  let e := with_hEcdsaAlg h e in
  if negb (NT_SUCCESS status) then pret (false, e) else
  let* '(status, h) := pcall (BCryptOpenAlgorithmProvider RNG false (m_hRngAlg e)) in
  let e := with_hRngAlg h e in
  if negb (NT_SUCCESS status) then pret (false, e) else
  let* '(status, h) := pcall (BCryptOpenAlgorithmProvider SHA256 false (m_hSha256Alg e)) in
  let e := with_hSha256Alg h e in
  if negb (NT_SUCCESS status) then pret (false, e) else
  pret (true, e).

(** [buffer] is a pointer to at least [length] writable bytes; its new contents
    are returned. *)
Definition GenerateRandomBytes (e : CryptoEngine) (buffer : option (list byte)) (length : Z)
    : Proc W (bool * option (list byte)) :=
  match buffer with
  | None => pret (false, None)
  | Some buf =>
    if length =? 0 then pret (false, Some buf) else
    let* target := plift (rd_slice buf 0 (u32 length)) in
    let* '(status, filled) := pcall (BCryptGenRandom (m_hRngAlg e) target) in
    let* buf := plift (memcpy_to buf 0 filled) in
    pret (NT_SUCCESS status, Some buf)
  end.

(** [PublicKeyImporter::ImportRawPublicKey] *)
Definition PublicKeyImporter_ImportRawPublicKey (hEcdsaAlg : handle) (rawXyBytes : option (list byte))
    (length : Z) : Proc W handle :=
  match rawXyBytes with
  | None => pret NULL
  | Some raw =>
    if (hEcdsaAlg =? NULL) || (negb (length =? 64) && negb (length =? 65)) then pret NULL else
    let* xy := (if length =? 65
                then let* b := plift (rd raw 0) in
                     pret (if u8 b =? 0x04 then drop 1 raw else raw)
                else pret raw) in
    let blobSize := SIZEOF_ECCKEY_BLOB + 64 in
    let blob := replicate (Z.to_nat blobSize) x00 in
    let* blob := plift (memcpy_to blob 0 (le_bytes 4 BCRYPT_ECDSA_PUBLIC_P256_MAGIC)) in
    let* blob := plift (memcpy_to blob 4 (le_bytes 4 32)) in
    let* xy := plift (rd_slice xy 0 64) in
    let* blob := plift (memcpy_to blob SIZEOF_ECCKEY_BLOB xy) in
    let* '(status, hKey) := pcall (BCryptImportKeyPair hEcdsaAlg blob NULL) in
    if negb (NT_SUCCESS status) then pret NULL else
    pret hKey
  end.

(** [for (size_t i = 0; i <= length - 64; ++i)]: [fuel] iterations are left. *)
Fixpoint import_loop (fuel : nat) (hEcdsaAlg : handle) (der : list byte) (length i : Z)
    : Proc W handle :=
  match fuel with
  | O => pret NULL
  | S fuel =>
    if negb (i <=? length - 64) then pret NULL else
    let* hKey := (if length - i >=? 65
                  then let* b := plift (rd der i) in
                       if u8 b =? 0x04
                       then PublicKeyImporter_ImportRawPublicKey hEcdsaAlg
                              (Some (drop (Z.to_nat (i + 1)) der)) 64
                       else pret NULL
                  else pret NULL) in
    if negb (hKey =? NULL) then pret hKey else
    let* hKey := PublicKeyImporter_ImportRawPublicKey hEcdsaAlg (Some (drop (Z.to_nat i) der)) 64 in
    if negb (hKey =? NULL) then pret hKey else
    import_loop fuel hEcdsaAlg der length (i + 1)
  end.

(** [PublicKeyImporter::ImportDerPublicKey] *)
Definition PublicKeyImporter_ImportDerPublicKey (hEcdsaAlg : handle) (derBytes : option (list byte))
    (length : Z) : Proc W handle :=
  match derBytes with
  | None => pret NULL
  | Some der =>
    if (hEcdsaAlg =? NULL) || (length <? 64) then pret NULL else
    import_loop (Z.to_nat (length - 63)) hEcdsaAlg der length 0
  end.

Definition ImportRawPublicKey (e : CryptoEngine) (rawXyBytes : option (list byte)) (length : Z)
    : Proc W handle := PublicKeyImporter_ImportRawPublicKey (m_hEcdsaAlg e) rawXyBytes length.
Definition ImportDerPublicKey (e : CryptoEngine) (derBytes : option (list byte)) (length : Z)
    : Proc W handle := PublicKeyImporter_ImportDerPublicKey (m_hEcdsaAlg e) derBytes length.

Definition VerifySignature (e : CryptoEngine) (hKey : handle)
    (payloadData : option (list byte)) (payloadSize : Z)
    (signatureData : option (list byte)) (signatureSize : Z) : Proc W bool :=
  match payloadData, signatureData with
  | Some payload, Some signature =>
    if (hKey =? NULL) || (payloadSize =? 0) || (signatureSize =? 0) then pret false else
    let* '(status, hHash) := pcall (BCryptCreateHash (m_hSha256Alg e) None NULL) in
    if negb (NT_SUCCESS status) then pret false else
    let* bytes := plift (rd_slice payload 0 (u32 payloadSize)) in
    let* status := pcall (BCryptHashData hHash bytes) in
    if negb (NT_SUCCESS status) then
      pcall (BCryptDestroyHash hHash) ;;
      pret false
    else
    let* '(status, hashBuf) := pcall (BCryptFinishHash hHash (replicate 32 x00)) in
    pcall (BCryptDestroyHash hHash) ;;
    if negb (NT_SUCCESS status) then pret false else
    let* '(converted, rawRs) :=
      (if signatureSize =? 64
       then let* rs := plift (rd_slice signature 0 64) in pret (true, rs)
       else plift (ConvertDerToRawRSignature (Some signature) signatureSize [])) in
    if negb converted then pret false else
    let* status := pcall (BCryptVerifySignature hKey hashBuf rawRs) in
    pret (NT_SUCCESS status)
  | _, _ => pret false
  end.

End Engine.

(** ** What the calls do to the object table *)

Section Laws.
Context {W : Type} `{HC : Cng W} `{HM : CngModel W} `{HL : !CngLaws W}.
Implicit Types (w : W) (e : CryptoEngine).

Lemma makes_delete o old w st h w' :
  makes o old w ((st, h), w') -> NT_SUCCESS st = true -> delete h (obj w') = obj w.
Proof. unfold makes. intros M E. rewrite E in M. destruct M as (_ & F & ->). by rewrite delete_insert_id. Qed.

Lemma makes_failed o old w st h w' :
  makes o old w ((st, h), w') -> NT_SUCCESS st = false -> h = old /\ obj w' = obj w.
Proof. unfold makes. intros M E. by rewrite E in M. Qed.

(** The 64 bytes handed to CNG for a signature. *)
Definition signature_value (signature : list byte) (size : Z) : option (list byte) :=
  if size =? 64 then Some (take 64 signature)
  else match ConvertDerToRawRSignature (Some signature) size [] with
       | Def (true, rs) => Some rs
       | _ => None
       end.

Lemma signature_value_der r s :
  0 <= r < 2 ^ 256 -> 0 <= s < 2 ^ 256 -> length (der_encode r s) <> 64%nat ->
  signature_value (der_encode r s) (Z.of_nat (length (der_encode r s))) = Some (raw_rs r s).
Proof.
  intros Hr Hs L. unfold signature_value. rewrite (proj2 (Z.eqb_neq _ _)) by lia.
  by rewrite Convert_der_encode_value.
Qed.

(** The statement a verified signature makes. *)
Definition genuine w (hKey : handle) (message signature : list byte) (size : Z) : Prop :=
  exists alg blob rs, obj w !! hKey = Some (KeyObj alg blob) /\
    signature_value signature size = Some rs /\ ecdsa_verify blob (sha256 message) rs = true.

Lemma Verify_spec e hKey payload n signature k w :
  wlp (VerifySignature e hKey payload n signature k)
    (fun b w' => obj w' = obj w /\
       (b = true -> exists p s, payload = Some p /\ signature = Some s /\ hKey <> NULL /\
          genuine w hKey (take (Z.to_nat (u32 n)) p) s k)) w.
Proof.
  unfold VerifySignature. destruct payload as [p|], signature as [s|]; try by apply wp_ret.
  destruct ((hKey =? NULL) || (n =? 0) || (k =? 0)) eqn:G; [by apply wp_ret|].
  apply wp_bind, wp_call. intros [st h] w1 E1.
  destruct (create_hash_law (m_hSha256Alg e) None NULL w) as [M _]. rewrite E1 in M.
  destruct (NT_SUCCESS st) eqn:S1; cbn [negb].
  2: { apply wp_ret. split; [by apply (makes_failed _ _ _ _ _ _ M) | done]. }
  pose proof (makes_delete _ _ _ _ _ _ M S1) as D1.
  unfold makes in M. rewrite S1 in M. destruct M as (_ & Fr & O1).
  apply wp_bind, wlp_lift. intros bytes Hb.
  apply rd_slice_Def in Hb as (_ & _ & _ & ->). change (Z.to_nat 0) with 0%nat.
  unfold sub. rewrite drop_0. set (msg := take _ p).
  apply wp_bind, wp_call. intros st2 w2 E2.
  destruct (hash_data_law h msg w1) as [T2 L2]. rewrite E2 in T2, L2. cbn [fst snd] in *.
  destruct (NT_SUCCESS st2) eqn:S2; cbn [negb].
  2: { apply wp_bind, wp_call. intros ? w3 E3. apply wp_ret. split; [|done].
       replace w3 with (BCryptDestroyHash h w2).2 by (by rewrite E3).
       by rewrite destroy_hash_law, T2. }
  assert (O2 : obj w2 !! h = Some (HashObj None msg)).
  { rewrite (L2 eq_refl None []); [by rewrite lookup_insert_eq|].
    by rewrite O1, lookup_insert_eq. }
  apply wp_bind, wp_call. intros [st3 digest3] w3 E3.
  destruct (finish_hash_law h (replicate 32 x00) w2) as (T3 & _ & L3). rewrite E3 in T3, L3.
  cbn [fst snd] in *.
  apply wp_bind, wp_call. intros ? w4 E4.
  assert (O4 : obj w4 = obj w).
  { replace w4 with (BCryptDestroyHash h w3).2 by (by rewrite E4).
    by rewrite destroy_hash_law, T3, T2. }
  destruct (NT_SUCCESS st3) eqn:S3; cbn [negb]; [|by apply wp_ret].
  rewrite (L3 eq_refl None msg O2). cbn [digest].
  apply wp_bind. apply wp_mono with (Q := fun r w' => w' = w4 /\
    (r.1 = true -> signature_value s k = Some r.2)).
  { unfold signature_value. destruct (k =? 64).
    - apply wp_bind, wlp_lift. intros rs Hrs. apply rd_slice_Def in Hrs as (_ & _ & _ & ->).
      by apply wp_ret.
    - apply wlp_lift. intros [c rs] ->. split; [done|]. cbn. by intros ->. }
  intros [c rs] w5 [-> V]. cbn [fst snd] in V. destruct c; cbn [negb]; [|by apply wp_ret].
  apply wp_bind, wp_call. intros st5 w6 E5. apply wp_ret.
  destruct (verify_law hKey (sha256 msg) rs w4) as [O5 L5]. rewrite E5 in O5, L5. cbn [fst snd] in *.
  split; [congruence|]. intros T. destruct (L5 T) as (alg & blob & Ok & Ev).
  exists p, s. repeat split; [lia|]. exists alg, blob, rs. rewrite <- O4. auto.
Qed.

(** A whole verification when nothing fails. *)
Lemma Verify_good `{HV : !CngLive W} e hKey alg blob p n s rs w :
  healthy w -> obj w !! m_hSha256Alg e = Some (AlgObj SHA256 false) ->
  hKey <> NULL -> obj w !! hKey = Some (KeyObj alg blob) ->
  0 < n < 2 ^ 32 -> n <= Z.of_nat (length p) -> s <> [] ->
  signature_value s (Z.of_nat (length s)) = Some rs ->
  ecdsa_verify blob (sha256 (take (Z.to_nat n) p)) rs = true ->
  wp (VerifySignature e hKey (Some p) n (Some s) (Z.of_nat (length s)))
    (fun b w' => b = true /\ obj w' = obj w /\ healthy w') w.
Proof.
  intros Hw Halg Hk Hkey Hn Lp Hs V Ev. unfold VerifySignature.
  destruct s as [|s0 s]; [done|]. set (sg := s0 :: s) in *.
  replace ((hKey =? NULL) || _ || _) with false by (unfold NULL, sg in *; cbn [length]; lia).
  apply wp_bind, wp_call. intros [st h] w1 E1.
  destruct (create_hash_law (m_hSha256Alg e) None NULL w) as [M _].
  destruct (live_create_hash (m_hSha256Alg e) None NULL w Hw) as [S1 Hw1]; [done|].
  rewrite E1 in M, S1, Hw1. cbn [fst snd] in *. rewrite S1. cbn [negb].
  pose proof (makes_delete _ _ _ _ _ _ M S1) as D1.
  unfold makes in M. rewrite S1 in M. destruct M as (_ & Fr & O1).
  apply wp_bind. eapply wp_lift.
  { rewrite wrap_small by lia. apply rd_slice_ok; lia. }
  change (Z.to_nat 0) with 0%nat. unfold sub. rewrite drop_0.
  set (pl := take (Z.to_nat n) p) in *.
  apply wp_bind, wp_call. intros st2 w2 E2.
  destruct (hash_data_law h pl w1) as [T2 L2].
  destruct (live_hash_data h None [] pl w1 Hw1) as [S2 Hw2]; [by rewrite O1, lookup_insert_eq|].
  rewrite E2 in T2, L2, S2, Hw2. cbn [fst snd] in *. rewrite S2. cbn [negb].
  assert (O2 : obj w2 !! h = Some (HashObj None pl)).
  { rewrite (L2 S2 None []); [by rewrite lookup_insert_eq|]. by rewrite O1, lookup_insert_eq. }
  apply wp_bind, wp_call. intros [st3 digest3] w3 E3.
  destruct (finish_hash_law h (replicate 32 x00) w2) as (T3 & _ & L3).
  destruct (live_finish_hash h None pl (replicate 32 x00) w2 Hw2 O2) as [S3 Hw3]; [done|].
  rewrite E3 in T3, L3, S3, Hw3. cbn [fst snd] in *.
  apply wp_bind, wp_call. intros ? w4 E4.
  pose proof (live_destroy_hash h w3 Hw3) as Hw4. pose proof (destroy_hash_law h w3) as O4.
  rewrite E4 in Hw4, O4. cbn [snd] in *. rewrite T3, T2, D1 in O4.
  rewrite S3. cbn [negb]. rewrite (L3 S3 None pl O2). cbn [digest].
  apply wp_bind. apply wp_mono with (Q := fun r w' => w' = w4 /\ r = (true, rs)).
  { unfold signature_value in V. destruct (Z.eqb_spec (Z.of_nat (length sg)) 64) as [E64|].
    - apply wp_bind. eapply wp_lift; [apply rd_slice_ok; lia|]. apply wp_ret.
      injection V as <-. change (Z.to_nat 0) with 0%nat. done.
    - destruct (ConvertDerToRawRSignature _ _ _) as [[[] r]|] eqn:EC; try done.
      injection V as ->. by eapply wp_lift. }
  intros [c r] w5 [-> [= -> ->]]. cbn [negb].
  apply wp_bind, wp_call. intros st5 w6 E5. apply wp_ret.
  rewrite <- O4 in Hkey.
  destruct (live_verify hKey alg blob (sha256 pl) rs w4 Hw4 Hkey Ev) as [S5 Hw6].
  destruct (verify_law hKey (sha256 pl) rs w4) as [O5 _].
  rewrite E5 in S5, Hw6, O5. cbn [fst snd] in *. by rewrite O5.
Qed.

(** ** Key import *)

(** The point a raw key buffer holds: after an optional 0x04 marker. *)
Definition key_point (raw : list byte) (length : Z) : list byte :=
  match raw with
  | b :: rest => if (length =? 65) && (u8 b =? 0x04) then take 64 rest else take 64 raw
  | [] => []
  end.

(** What an import leaves: a fresh handle to the key, or nothing. *)
Definition imported w (h : handle) w' (blob : list byte) : Prop :=
  if h =? NULL then obj w' = obj w
  else obj w !! h = None /\ exists alg, obj w' = <[h := KeyObj alg blob]> (obj w).

(** The choice of the 64 point bytes in a raw key buffer. *)
Lemma pick_point raw n w :
  (n = 64 \/ n = 65) -> n <= Z.of_nat (length raw) ->
  wp (if n =? 65
      then let* b := plift (rd raw 0) in pret (if u8 b =? 0x04 then drop 1 raw else raw)
      else pret raw)
    (fun xy w' => w' = w /\ take 64 xy = key_point raw n /\ (64 <= length xy)%nat) w.
Proof.
  intros Hn L. destruct raw as [|b raw]; [cbn in L; lia|]. unfold key_point.
  destruct (Z.eqb_spec n 65) as [->|].
  - apply wp_bind. eapply wp_lift; [apply rd_0|]. apply wp_ret. cbn [andb drop].
    destruct (u8 b =? 4); (split; [done|split; [done|len]]).
  - apply wp_ret. split; [done|]. split; [done|]. len.
Qed.

(** Filling a zeroed buffer with a public key blob. *)
Lemma fill_blob {A} magic xy (k : list byte -> Proc W A) Q w :
  (64 <= length xy)%nat ->
  wp (k (ecc_blob magic (take 64 xy))) Q w ->
  wp (let* blob := plift (memcpy_to (replicate (Z.to_nat (SIZEOF_ECCKEY_BLOB + 64)) x00) 0
                            (le_bytes 4 magic)) in
      let* blob := plift (memcpy_to blob 4 (le_bytes 4 32)) in
      let* xy := plift (rd_slice xy 0 64) in
      let* blob := plift (memcpy_to blob SIZEOF_ECCKEY_BLOB xy) in
      k blob) Q w.
Proof.
  intros Lx K. apply wp_bind. eapply wp_lift.
  { apply (memcpy_fill [] _ 72 0); [done | len]. }
  apply wp_bind. eapply wp_lift.
  { apply memcpy_fill; len. }
  apply wp_bind. eapply wp_lift; [apply rd_slice_ok; lia|].
  change (Z.to_nat 0) with 0%nat. change (Z.to_nat 64) with 64%nat. unfold sub. rewrite drop_0.
  assert (Lk : length (take 64 xy) = 64%nat) by len.
  apply wp_bind. eapply wp_lift.
  { apply memcpy_fill; [unfold SIZEOF_ECCKEY_BLOB|]; len. }
  replace (72 - _ - _ - _)%nat with 0%nat by len. cbn [replicate].
  by rewrite app_nil_r, <- !app_assoc, app_nil_l.
Qed.

Lemma import_raw_spec hAlg raw n w :
  n <= Z.of_nat (length raw) ->
  wp (PublicKeyImporter_ImportRawPublicKey hAlg (Some raw) n)
    (fun h w' => imported w h w' (ecc_blob BCRYPT_ECDSA_PUBLIC_P256_MAGIC (key_point raw n))) w.
Proof.
  intros L. unfold PublicKeyImporter_ImportRawPublicKey, imported.
  destruct ((hAlg =? NULL) || _) eqn:G; [by apply wp_ret|].
  eapply wp_seq; [apply pick_point; lia|]. intros xy ? (-> & Ek & Lx).
  apply fill_blob; [done|]. rewrite Ek.
  apply wp_bind, wp_call. intros [st h] w' E.
  destruct (import_law hAlg (ecc_blob BCRYPT_ECDSA_PUBLIC_P256_MAGIC (key_point raw n)) NULL w)
    as (alg & hm & M & _).
  rewrite E in M. unfold makes in M.
  destruct (NT_SUCCESS st); cbn [negb]; apply wp_ret.
  - destruct M as (N & F & O). rewrite (proj2 (Z.eqb_neq _ _) N). eauto.
  - by destruct M as [_ O].
Qed.

(** The search through a DER structure: whatever key it returns was imported
    from a 64-byte window of it, and failed attempts leave nothing behind. *)
Definition der_window (der : list byte) (n : Z) (xy : list byte) : Prop :=
  exists i, 0 <= i /\ i + 64 <= n /\ xy = take 64 (drop (Z.to_nat i) der).

Lemma imported_NULL w w' blob : imported w NULL w' blob -> obj w' = obj w.
Proof. done. Qed.

Lemma imported_shift w w1 h w' blob : obj w1 = obj w -> imported w1 h w' blob -> imported w h w' blob.
Proof. unfold imported. by intros ->. Qed.

Lemma import_window hAlg der i n w :
  0 <= i -> i + 64 <= n -> n <= Z.of_nat (length der) ->
  wp (PublicKeyImporter_ImportRawPublicKey hAlg (Some (drop (Z.to_nat i) der)) 64)
    (fun h w' => exists xy, der_window der n xy /\
       imported w h w' (ecc_blob BCRYPT_ECDSA_PUBLIC_P256_MAGIC xy)) w.
Proof.
  intros Hi H1 H2. eapply wp_mono; [apply import_raw_spec; len|]. intros h w' I.
  exists (take 64 (drop (Z.to_nat i) der)). split; [by exists i|].
  by destruct (drop (Z.to_nat i) der).
Qed.

Lemma import_loop_spec fuel hAlg der n i w :
  0 <= i -> n <= Z.of_nat (length der) ->
  wp (import_loop fuel hAlg der n i)
    (fun h w' => (h = NULL /\ obj w' = obj w) \/
       exists xy, der_window der n xy /\
         imported w h w' (ecc_blob BCRYPT_ECDSA_PUBLIC_P256_MAGIC xy)) w.
Proof.
  revert i w. induction fuel as [|fuel IH]; intros i w Hi L; cbn [import_loop].
  { apply wp_ret. by left. }
  destruct (Z.leb_spec i (n - 64)); cbn [negb]; [|apply wp_ret; by left].
  apply wp_seq with (R := fun h w' => (h = NULL /\ obj w' = obj w) \/
       exists xy, der_window der n xy /\
         imported w h w' (ecc_blob BCRYPT_ECDSA_PUBLIC_P256_MAGIC xy)).
  { destruct (Z.geb_spec (n - i) 65); [|apply wp_ret; by left].
    destruct (rd_ok der i) as (b & Eb & _); [lia|].
    apply wp_bind. eapply wp_lift; [done|]. destruct (u8 b =? 4); [|apply wp_ret; by left].
    eapply wp_mono; [apply (import_window hAlg der (i + 1) n); lia|]. by right. }
  intros h w1 R1. destruct (Z.eqb_spec h NULL) as [->|N]; cbn [negb]; [|by apply wp_ret].
  assert (O1 : obj w1 = obj w) by (by destruct R1 as [[_ ?]|(? & _ & ?%imported_NULL)]).
  eapply wp_seq; [apply (import_window hAlg der i n); lia|].
  intros h2 w2 (xy & Wd & I). destruct (Z.eqb_spec h2 NULL) as [->|N]; cbn [negb].
  - eapply wp_mono; [apply IH; lia|]. intros h3 w3.
    apply imported_NULL in I. assert (O2 : obj w2 = obj w) by congruence. rewrite O2.
    intros [?|(xy3 & ? & I3)]; [by left|]. right. exists xy3. split; [done|].
    by apply (imported_shift w w2).
  - apply wp_ret. right. exists xy. split; [done|]. by apply (imported_shift w w1).
Qed.

Lemma import_der_spec hAlg der n w :
  n <= Z.of_nat (length der) ->
  wp (PublicKeyImporter_ImportDerPublicKey hAlg (Some der) n)
    (fun h w' => (h = NULL /\ obj w' = obj w) \/
       exists xy, der_window der n xy /\
         imported w h w' (ecc_blob BCRYPT_ECDSA_PUBLIC_P256_MAGIC xy)) w.
Proof.
  intros L. unfold PublicKeyImporter_ImportDerPublicKey.
  destruct (_ || _); [apply wp_ret; by left|]. apply import_loop_spec; lia.
Qed.

(** The loop's bound is never what stops it. *)
Lemma import_loop_fuel fuel hAlg der n i :
  (Z.to_nat (n - 63 - i) <= fuel)%nat ->
  forall w, import_loop fuel hAlg der n i w = import_loop (Z.to_nat (n - 63 - i)) hAlg der n i w.
Proof.
  revert i. induction fuel as [|fuel IH]; intros i L w.
  { by replace (Z.to_nat _) with 0%nat by lia. }
  destruct (Z.to_nat (n - 63 - i)) as [|k] eqn:K; cbn [import_loop].
  { by replace (i <=? n - 64) with false by lia. }
  destruct (i <=? n - 64); cbn [negb]; [|done].
  apply pbind_ext. intros h w1. destruct (h =? NULL); cbn [negb]; [|done].
  apply pbind_ext. intros h2 w2. destruct (h2 =? NULL); cbn [negb]; [|done].
  replace k with (Z.to_nat (n - 63 - (i + 1))) by lia. apply IH. lia.
Qed.

(** ** Life cycle of the engine's handles *)

Definition engine_handles e : list handle := [m_hEcdsaAlg e; m_hRngAlg e; m_hSha256Alg e].

(** The table [o] extended by the algorithm providers the engine holds. *)
Fixpoint without (hs : list handle) (o : gmap handle CngObj) : gmap handle CngObj :=
  match hs with [] => o | h :: hs => without hs (delete h o) end.

Lemma close_unless_NULL h w :
  obj w !! NULL = None ->
  wp (if negb (h =? NULL) then pcall (BCryptCloseAlgorithmProvider h) else pret 0)
    (fun _ w' => obj w' = delete h (obj w)) w.
Proof.
  intros N. destruct (Z.eqb_spec h NULL) as [->|]; cbn [negb].
  - apply wp_ret. by rewrite delete_id.
  - apply wp_call. intros a w' E. pose proof (close_law h w) as C. by rewrite E in C.
Qed.

Lemma destroy_spec e w :
  obj w !! NULL = None ->
  wp (destroy_CryptoEngine e) (fun _ w' => obj w' = without (engine_handles e) (obj w)) w.
Proof.
  intros N. unfold destroy_CryptoEngine.
  eapply wp_seq; [by apply close_unless_NULL|]. intros ? w1 O1. cbn beta in O1.
  eapply wp_seq; [apply close_unless_NULL; rewrite O1; by apply lookup_delete_None; right|].
  intros ? w2 O2. cbn beta in O2.
  eapply wp_seq; [apply close_unless_NULL; rewrite O2, O1; apply lookup_delete_None; right;
                  by apply lookup_delete_None; right|].
  intros ? w3 O3. cbn beta in O3. apply wp_ret. cbn. by rewrite O3, O2, O1.
Qed.

Lemma open_step alg old w :
  old = NULL -> obj w !! NULL = None ->
  wp (pcall (BCryptOpenAlgorithmProvider alg false old))
    (fun r w' => obj w' !! NULL = None /\ delete r.2 (obj w') = obj w /\
       (NT_SUCCESS r.1 = true -> obj w' = <[r.2 := AlgObj alg false]> (obj w) /\ obj w !! r.2 = None)) w.
Proof.
  intros -> N. apply wp_call. intros [st h] w' E. pose proof (open_law alg false NULL w) as M.
  rewrite E in M. unfold makes in M. cbn [fst snd]. destruct (NT_SUCCESS st).
  - destruct M as (Nh & F & ->). rewrite lookup_insert_ne by done.
    split; [done|]. split; [by rewrite delete_insert_id | done].
  - destruct M as [-> ->]. split; [done|]. split; [by rewrite delete_id | done].
Qed.

Lemma Initialize_spec w :
  obj w !! NULL = None ->
  wp (Initialize new_CryptoEngine)
    (fun r w' => obj w' !! NULL = None /\ without (engine_handles r.2) (obj w') = obj w /\
       (r.1 = true -> obj w' !! m_hSha256Alg r.2 = Some (AlgObj SHA256 false) /\
                      obj w' !! m_hRngAlg r.2 = Some (AlgObj RNG false) /\
                      obj w' !! m_hEcdsaAlg r.2 = Some (AlgObj ECDSA_P256 false))) w.
Proof.
  intros N. unfold Initialize.
  eapply wp_seq; [by apply open_step|]. intros [st1 h1] w1 (N1 & D1 & S1). cbn [fst snd] in *.
  destruct (NT_SUCCESS st1); cbn [negb].
  2: { apply wp_ret. cbn. split; [done|]. split; [|done].
       by rewrite D1, !delete_id by (rewrite ?delete_id; done). }
  destruct (S1 eq_refl) as [O1 F1].
  eapply wp_seq; [by apply open_step|]. intros [st2 h2] w2 (N2 & D2 & S2). cbn [fst snd] in *.
  destruct (NT_SUCCESS st2); cbn [negb].
  2: { apply wp_ret. cbn. split; [done|]. split; [|done].
       rewrite (delete_delete (obj w2)), D2, D1. by apply delete_id. }
  destruct (S2 eq_refl) as [O2 F2].
  eapply wp_seq; [by apply open_step|]. intros [st3 h3] w3 (N3 & D3 & S3). cbn [fst snd] in *.
  assert (R : without (engine_handles (with_hSha256Alg h3 (with_hRngAlg h2 (with_hEcdsaAlg h1 new_CryptoEngine))))
                (obj w3) = obj w).
  { cbn. rewrite (delete_delete _ h3 h2), (delete_delete _ h3 h1), D3.
    by rewrite (delete_delete _ h2 h1), D2. }
  destruct (NT_SUCCESS st3); cbn [negb]; apply wp_ret; (split; [done|]; split; [done|]); [|done].
  destruct (S3 eq_refl) as [O3 F3]. intros _. cbn.
  assert (h2 <> h1) by (intros ->; by rewrite O1, lookup_insert_eq in F2).
  assert (h3 <> h1).
  { intros E. rewrite E, O2, lookup_insert_ne, O1, lookup_insert_eq in F3 by done. done. }
  assert (h3 <> h2) by (intros E; rewrite E, O2, lookup_insert_eq in F3; done).
  rewrite O3, O2, O1. split; [|split].
  - by rewrite lookup_insert_eq.
  - by rewrite lookup_insert_ne, lookup_insert_eq by done.
  - by rewrite !lookup_insert_ne, lookup_insert_eq by done.
Qed.

End Laws.

(** * Properties *)

Section Properties.
Context {W : Type} `{HC : Cng W} `{HM : CngModel W} `{HL : !CngLaws W}.

(** C12: soundness of signature checking.  Whatever CNG does, if
    [VerifySignature] says yes then both pointers and the handle were non-null,
    the handle is a live key, and ECDSA accepts, for that key and the SHA-256 of
    the payload bytes, the 64-byte value carried by the signature buffer (itself
    when it is 64 bytes long, its DER conversion otherwise).  On every path, the
    failing ones included, no CNG object is leaked or destroyed. *)
Theorem VerifySignature_sound e hKey payload n signature k (w : W) b w' :
  VerifySignature e hKey payload n signature k w = Def (b, w') ->
  obj w' = obj w /\
  (b = true -> exists p s, payload = Some p /\ signature = Some s /\ hKey <> NULL /\
     genuine w hKey (take (Z.to_nat (u32 n)) p) s k).
Proof.
  apply (wlp_elim (VerifySignature e hKey payload n signature k)
    (fun b w' => obj w' = obj w /\ (b = true -> exists p s, payload = Some p /\ signature = Some s /\
       hKey <> NULL /\ genuine w hKey (take (Z.to_nat (u32 n)) p) s k))).
  apply Verify_spec.
Qed.

(** Completeness of signature checking.  When CNG is healthy and the engine
    initialised, a DER signature that encodes a pair (r, s) ECDSA accepts for a
    live key, and whose encoding is not 64 bytes long, is accepted, with no
    undefined behaviour and no object left behind. *)
Theorem VerifySignature_complete `{HV : !CngLive W} e hKey alg blob p r s (w : W) :
  healthy w -> obj w !! m_hSha256Alg e = Some (AlgObj SHA256 false) ->
  hKey <> NULL -> obj w !! hKey = Some (KeyObj alg blob) ->
  p <> [] -> Z.of_nat (length p) < 2 ^ 32 ->
  0 <= r < 2 ^ 256 -> 0 <= s < 2 ^ 256 -> length (der_encode r s) <> 64%nat ->
  ecdsa_verify blob (sha256 p) (raw_rs r s) = true ->
  wp (VerifySignature e hKey (Some p) (Z.of_nat (length p))
        (Some (der_encode r s)) (Z.of_nat (length (der_encode r s))))
    (fun b w' => b = true /\ obj w' = obj w /\ healthy w') w.
Proof.
  intros Hw Ha Hk Ho Hp Lp Hr Hs L64 Ev.
  apply (Verify_good e hKey alg blob p _ (der_encode r s) (raw_rs r s)); auto.
  - destruct p; [done | cbn [length] in *; lia].
  - lia.
  - by apply signature_value_der.
  - by rewrite Nat2Z.id, take_ge by lia.
Qed.

(** Key import.  Importing from a buffer of at least the stated length never
    reads outside it; it returns NULL and changes no CNG object, or a fresh
    handle to the key whose blob holds the P-256 magic, the length 32 and the 64
    point bytes: those after an 0x04 marker for a 65-byte raw key, those of some
    64-byte window for a DER key.  Refused windows leave no handle behind. *)
Theorem Import_keys e buf n (w : W) :
  n <= Z.of_nat (length buf) ->
  wp (ImportRawPublicKey e (Some buf) n)
    (fun h w' => imported w h w' (ecc_blob BCRYPT_ECDSA_PUBLIC_P256_MAGIC (key_point buf n))) w /\
  wp (ImportDerPublicKey e (Some buf) n)
    (fun h w' => (h = NULL /\ obj w' = obj w) \/
       exists xy, der_window buf n xy /\
         imported w h w' (ecc_blob BCRYPT_ECDSA_PUBLIC_P256_MAGIC xy)) w.
Proof.
  intros L. split; [by apply import_raw_spec | by apply import_der_spec].
Qed.

(** The engine's handles.  [Initialize] on a new engine, whichever provider
    fails to open, followed by the destructor restores the table of CNG objects;
    when it returns true the three handles are live providers of the right
    algorithms. *)
Theorem Initialize_destroy (w : W) :
  obj w !! NULL = None ->
  wp (Initialize new_CryptoEngine) (fun r w1 =>
    (r.1 = true -> obj w1 !! m_hEcdsaAlg r.2 = Some (AlgObj ECDSA_P256 false) /\
                   obj w1 !! m_hRngAlg r.2 = Some (AlgObj RNG false) /\
                   obj w1 !! m_hSha256Alg r.2 = Some (AlgObj SHA256 false)) /\
    wp (destroy_CryptoEngine r.2) (fun _ w2 => obj w2 = obj w) w1) w.
Proof.
  intros N. eapply wp_mono; [by apply Initialize_spec|]. intros [b e] w1 (N1 & R & S).
  cbn [fst snd] in *. split; [tauto|].
  eapply wp_mono; [by apply destroy_spec|]. intros _ w2 ->. done.
Qed.

End Properties.

(** * Witnesses *)
From S2P Require Import Simulator.

Definition demo_engine : CryptoEngine := {| m_hEcdsaAlg := 1; m_hRngAlg := 2; m_hSha256Alg := 3 |}.
Definition demo_point : list byte := be_bytes 64 0xABCDEF.
Definition demo_blob : list byte := ecc_blob 0x31534345 demo_point.
Definition demo_world : Sim :=
  set_objs {[1 := AlgObj ECDSA_P256 false; 2 := AlgObj RNG false; 3 := AlgObj SHA256 false;
             4 := KeyObj ECDSA_P256 demo_blob]} sim0.
Definition demo_message : list byte := be_bytes 5 0x68656C6C6F.
Definition demo_raw : list byte := toy_sign demo_blob (toy 7 demo_message).
Definition demo_der : list byte := der_encode (be_value (take 32 demo_raw)) (be_value (drop 32 demo_raw)).

Lemma VerifySignature_sound_witness :
  VerifySignature demo_engine 4 (Some demo_message) 5 (Some demo_der) (Z.of_nat (length demo_der)) demo_world
    = Def (true, demo_world) /\
  genuine demo_world 4 demo_message demo_der (Z.of_nat (length demo_der)).
Proof.
  assert (E : VerifySignature demo_engine 4 (Some demo_message) 5 (Some demo_der)
                (Z.of_nat (length demo_der)) demo_world = Def (true, demo_world))
    by (vm_compute; reflexivity).
  split; [exact E|].
  destruct (VerifySignature_sound _ _ _ _ _ _ _ _ _ E) as [_ G].
  destruct (G eq_refl) as (p & s & [= <-] & [= <-] & _ & V). exact V.
Defined.

Lemma VerifySignature_complete_witness :
  wp (VerifySignature demo_engine 4 (Some demo_message) 5 (Some demo_der) (Z.of_nat (length demo_der)))
    (fun b w' => b = true /\ obj w' = obj demo_world /\ healthy w') demo_world.
Proof.
  assert (R : 0 <= be_value (take 32 demo_raw) < 2 ^ 256) by (vm_compute; split; done).
  assert (S : 0 <= be_value (drop 32 demo_raw) < 2 ^ 256) by (vm_compute; split; done).
  assert (L : length demo_der <> 64%nat) by (vm_compute; done).
  assert (E : ecdsa_verify demo_blob (sha256 demo_message)
     (raw_rs (be_value (take 32 demo_raw)) (be_value (drop 32 demo_raw))) = true)
    by (vm_compute; reflexivity).
  assert (K : obj demo_world !! 4 = Some (KeyObj ECDSA_P256 demo_blob)) by (vm_compute; reflexivity).
  assert (A : obj demo_world !! m_hSha256Alg demo_engine = Some (AlgObj SHA256 false))
    by (vm_compute; reflexivity).
  assert (H : healthy demo_world) by reflexivity.
  assert (N : 4 <> NULL) by done. assert (P : demo_message <> []) by done.
  assert (M : Z.of_nat (length demo_message) < 2 ^ 32) by reflexivity.
  apply (VerifySignature_complete demo_engine 4 ECDSA_P256 demo_blob demo_message _ _ demo_world
           H A N K P M R S L E).
Defined.

Lemma Import_keys_witness :
  ecc_blob BCRYPT_ECDSA_PUBLIC_P256_MAGIC (key_point (to_u8 4 :: demo_point) 65) = demo_blob /\
  wp (ImportRawPublicKey demo_engine (Some (to_u8 4 :: demo_point)) 65)
    (fun h w' => imported demo_world h w'
       (ecc_blob BCRYPT_ECDSA_PUBLIC_P256_MAGIC (key_point (to_u8 4 :: demo_point) 65))) demo_world.
Proof.
  split; [vm_compute; reflexivity|].
  assert (L : 65 <= Z.of_nat (length (to_u8 4 :: demo_point))) by (vm_compute; done).
  exact (proj1 (Import_keys demo_engine (to_u8 4 :: demo_point) 65 demo_world L)).
Defined.

Lemma Initialize_destroy_witness :
  wp (Initialize new_CryptoEngine) (fun r w1 =>
    (r.1 = true -> obj w1 !! m_hEcdsaAlg r.2 = Some (AlgObj ECDSA_P256 false) /\
                   obj w1 !! m_hRngAlg r.2 = Some (AlgObj RNG false) /\
                   obj w1 !! m_hSha256Alg r.2 = Some (AlgObj SHA256 false)) /\
    wp (destroy_CryptoEngine r.2) (fun _ w2 => obj w2 = obj (set_faults [false; true] sim0)) w1)
    (set_faults [false; true] sim0).
Proof. exact (Initialize_destroy (set_faults [false; true] sim0) eq_refl). Defined.
