(* ===== verification/DeviceRegistry.v ===== *)
(** * DeviceRegistry: the phones whose keys may unlock the PC

    Models windows/agent/DeviceRegistry.cpp.  The registry owns one CNG key
    handle per device; the theorems relate its map and the table of CNG objects
    to an abstract table of public keys, and show that handles are neither
    leaked nor destroyed twice. *)
From S2P Require Import Prelude Bytes Protocol Platform ChallengeStore CryptoEngine.

(** ** Data *)
Record RegisteredDevice : Type := {
  dev_deviceId : list byte;
  deviceName : string;
  hPublicKey : handle;
  isEnabled : bool;
}.

Abbreviation Devices := (gmap string RegisteredDevice).

(** [DeviceRegistry::BytesToKey], the same text as the store's. *)
Definition registry_key (deviceId : list byte) : string := BytesToKey deviceId.

Section Registry.
Context {W : Type} `{Cng W}.

(** [if (h) BCryptDestroyKey(h);] *)
Definition destroy_if_set (h : handle) : Proc W Z :=
  if negb (h =? NULL) then pcall (BCryptDestroyKey h) else pret 0.

(** The body shared by the two registration methods, after the import. *)
Definition install (deviceId : list byte) (name : string) (hKey : handle) (m_devices : Devices)
    : Proc W (bool * Devices) :=
  if hKey =? NULL then pret (false, m_devices) else
  let keyStr := registry_key deviceId in
  (match m_devices !! keyStr with
   | Some d => destroy_if_set (hPublicKey d)
   | None => pret 0
   end) ;;
  pret (true, <[keyStr := {| dev_deviceId := deviceId; deviceName := name;
                             hPublicKey := hKey; isEnabled := true |}]> m_devices).

Definition RegisterDevice (e : CryptoEngine) (deviceId : list byte) (name : string)
    (rawPublicKeyXy : option (list byte)) (keyLen : Z) (m_devices : Devices)
    : Proc W (bool * Devices) :=
  let* hKey := ImportRawPublicKey e rawPublicKeyXy keyLen in
  install deviceId name hKey m_devices.

Definition RegisterDeviceDer (e : CryptoEngine) (deviceId : list byte) (name : string)
    (derPublicKey : option (list byte)) (keyLen : Z) (m_devices : Devices)
    : Proc W (bool * Devices) :=
  let* hKey := ImportDerPublicKey e derPublicKey keyLen in
  install deviceId name hKey m_devices.

Definition GetDevicePublicKey (deviceId : list byte) (m_devices : Devices) : handle :=
  match m_devices !! registry_key deviceId with
  | Some d => if isEnabled d then hPublicKey d else NULL
  | None => NULL
  end.

Definition IsDeviceRegistered (deviceId : list byte) (m_devices : Devices) : bool :=
  match m_devices !! registry_key deviceId with
  | Some d => isEnabled d
  | None => false
  end.

Definition UnregisterDevice (deviceId : list byte) (m_devices : Devices)
    : Proc W (bool * Devices) :=
  let keyStr := registry_key deviceId in
  match m_devices !! keyStr with
  | Some d =>
    destroy_if_set (hPublicKey d) ;;
    pret (true, delete keyStr m_devices)
  | None => pret (false, m_devices)
  end.

(** The destructor's loop over the map, in the order of enumeration. *)
Fixpoint destroy_loop (devs : list (string * RegisteredDevice)) : Proc W unit :=
  match devs with
  | [] => pret tt
  | (_, d) :: rest => destroy_if_set (hPublicKey d) ;; destroy_loop rest
  end.
Definition destroy_DeviceRegistry (m_devices : Devices) : Proc W unit :=
  destroy_loop (map_to_list m_devices).

End Registry.

(** ** Invariant and abstraction *)

Section Laws.
Context {W : Type} `{HC : Cng W} `{HM : CngModel W} `{HL : !CngLaws W}.
Implicit Types (w : W) (m : Devices) (o : gmap handle CngObj).

(** The registry [m] owns its handles: each is a live key, no two devices share
    one, and without them the table of objects is [base]. *)
Record registry_ok (base : gmap handle CngObj) m o : Prop := {
  rok_live : forall k d, m !! k = Some d ->
    hPublicKey d <> NULL /\ exists alg blob, o !! hPublicKey d = Some (KeyObj alg blob);
  rok_inj : forall k1 k2 d1 d2, m !! k1 = Some d1 -> m !! k2 = Some d2 ->
    hPublicKey d1 = hPublicKey d2 -> k1 = k2;
  rok_id : forall k d, m !! k = Some d -> k = registry_key (dev_deviceId d) /\ isEnabled d = true;
  rok_base : forall h, (forall k d, m !! k = Some d -> hPublicKey d <> h) -> o !! h = base !! h;
  rok_own : forall k d, m !! k = Some d -> base !! hPublicKey d = None;
}.

(** The abstract registry: the key blob trusted for each device id. *)
Definition trusted m o (deviceId : list byte) : option (list byte) :=
  d ← m !! registry_key deviceId;
  match o !! hPublicKey d with Some (KeyObj _ blob) => Some blob | _ => None end.

Lemma registry_ok_empty o : registry_ok o ∅ o.
Proof. split; intros; rewrite ?lookup_empty in *; done. Qed.

Lemma destroy_if_set_spec h w :
  h <> NULL -> wp (destroy_if_set h) (fun _ w' => obj w' = delete h (obj w)) w.
Proof.
  intros N. unfold destroy_if_set. rewrite (proj2 (Z.eqb_neq _ _) N). cbn [negb].
  apply wp_call. intros a w' E. pose proof (destroy_key_law h w) as D. by rewrite E in D.
Qed.

Lemma registry_key_inj a b : registry_key a = registry_key b -> a = b.
Proof. apply BytesToKey_inj. Qed.

(** Removing a device and its key. *)
Lemma remove_ok base m k d o o' :
  registry_ok base m o -> m !! k = Some d -> o' = delete (hPublicKey d) (o) ->
  registry_ok base (delete k m) o' /\
  (forall did, trusted (delete k m) o' did =
     if decide (registry_key did = k) then None else trusted m o did).
Proof.
  intros [L I D B O] Hk Ow.
  assert (Ne : forall j d', delete k m !! j = Some d' -> m !! j = Some d' /\ hPublicKey d <> hPublicKey d').
  { intros j d' [N Hj]%lookup_delete_Some. split; [done|]. intros E. by apply N, (I k j d d'). }
  split; [split|].
  - intros j d' [Hj N]%Ne. rewrite Ow, lookup_delete_ne by done. by eapply L.
  - intros j1 j2 d1 d2 [H1 _]%Ne [H2 _]%Ne. by apply I.
  - intros j d' [Hj _]%Ne. by apply D.
  - intros h Hh. rewrite Ow. destruct (decide (h = hPublicKey d)) as [->|N].
    + rewrite lookup_delete_eq. symmetry. by eapply O.
    + rewrite lookup_delete_ne by done. apply B. intros j d' Hj E.
      destruct (decide (j = k)) as [->|Nj]; [by simplify_eq|].
      apply (Hh j d'); [by rewrite lookup_delete_ne | done].
  - intros j d' [Hj _]%Ne. by eapply O.
  - intros did. unfold trusted. destruct (decide (registry_key did = k)) as [<-|N].
    + by rewrite lookup_delete_eq.
    + rewrite lookup_delete_ne by done. destruct (m !! registry_key did) as [d'|] eqn:E; [|done].
      cbn. rewrite Ow, lookup_delete_ne; [done|]. intros E'. by apply N, (I _ _ d' d).
Qed.

(** Adding a freshly imported key for a device that has none. *)
Lemma add_ok base m did name h alg blob o o' :
  registry_ok base m o -> m !! registry_key did = None ->
  h <> NULL -> o !! h = None -> base !! h = None -> o' = <[h := KeyObj alg blob]> (o) ->
  let m' := <[registry_key did := {| dev_deviceId := did; deviceName := name;
                                     hPublicKey := h; isEnabled := true |}]> m in
  registry_ok base m' o' /\
  (forall did', trusted m' o' did' = if decide (did' = did) then Some blob else trusted m o did').
Proof.
  intros [L I D B O] Hk Nh Fr Fb Ow m'. unfold m'. clear m'.
  assert (Ne : forall j d, m !! j = Some d -> h <> hPublicKey d).
  { intros j d Hj E. destruct (L j d Hj) as (_ & a & b & E2). by rewrite <- E, Fr in E2. }
  split; [split|].
  - intros k d. rewrite Ow. intros [[<- <-]|[N Hd]]%lookup_insert_Some.
    + cbn. rewrite lookup_insert_eq. eauto.
    + rewrite lookup_insert_ne by eauto. by eapply L.
  - intros k1 k2 d1 d2 [[<- <-]|[N1 H1]]%lookup_insert_Some [[<- <-]|[N2 H2]]%lookup_insert_Some; cbn.
    + done.
    + intros E. by destruct (Ne k2 d2 H2).
    + intros E. by destruct (Ne k1 d1 H1).
    + by apply I.
  - intros k d [[<- <-]|[N Hd]]%lookup_insert_Some; [done | by apply D].
  - intros h' Hh. rewrite Ow. destruct (decide (h = h')) as [<-|N].
    + exfalso. by eapply Hh; [apply lookup_insert_eq|].
    + rewrite lookup_insert_ne by done. apply B. intros k d Hd. apply (Hh k).
      rewrite lookup_insert_ne; [done|]. intros <-. by rewrite Hd in Hk.
  - intros k d [[<- <-]|[N Hd]]%lookup_insert_Some; [done | by eapply O].
  - intros did'. unfold trusted. destruct (decide (did' = did)) as [->|N].
    + rewrite lookup_insert_eq. cbn. by rewrite Ow, lookup_insert_eq.
    + rewrite lookup_insert_ne by (intros E; by apply N, registry_key_inj).
      destruct (m !! registry_key did') as [d|] eqn:E; [|done]. cbn.
      by rewrite Ow, lookup_insert_ne by eauto.
Qed.

(** What a registration call does to the registry, its keys and the world. *)
Definition register_post base m o (did : list byte) (ok_blob : list byte -> Prop)
    (r : bool * Devices) w' : Prop :=
  if r.1
  then registry_ok base r.2 (obj w') /\
       exists blob, ok_blob blob /\
         forall did', trusted r.2 (obj w') did' = if decide (did' = did) then Some blob else trusted m o did'
  else r.2 = m /\ obj w' = o.

Lemma install_spec base did name h blob m w w1 (ok_blob : list byte -> Prop) :
  registry_ok base m (obj w) -> imported w h w1 blob -> ok_blob blob ->
  wp (install did name h m) (register_post base m (obj w) did ok_blob) w1.
Proof.
  intros R I K. unfold install, imported in *. destruct (Z.eqb_spec h NULL) as [->|N].
  { by apply wp_ret. }
  destruct I as (Fr & alg & O1).
  assert (Fb : base !! h = None).
  { rewrite <- (rok_base _ _ _ R); [done|]. intros k d Hd <-.
    destruct (rok_live _ _ _ R k d Hd) as (_ & a & b & E). by rewrite E in Fr. }
  destruct (m !! registry_key did) as [d|] eqn:Em.
  - destruct (rok_live _ _ _ R _ _ Em) as (Nd & a & b & Ed).
    assert (Nhd : h <> hPublicKey d) by (intros E; by rewrite E, Ed in Fr).
    eapply wp_seq; [by apply destroy_if_set_spec|]. intros x w2 O2. cbn beta in O2. apply wp_ret.
    destruct (remove_ok base m _ d _ _ R Em eq_refl) as [R1 T1].
    destruct (add_ok base _ did name h alg blob _ (obj w2) R1) as [R2 T2]; try done.
    { apply lookup_delete_eq. }
    { by rewrite lookup_delete_ne. }
    { by rewrite O2, O1, delete_insert_ne by done. }
    rewrite insert_delete_eq in R2, T2. unfold register_post. cbn [fst snd]. split; [done|].
    exists blob. split; [done|]. intros did'. rewrite T2. destruct (decide (did' = did)) as [|N']; [done|].
    rewrite T1, decide_False; [done|]. intros E. by apply N', registry_key_inj.
  - apply wp_bind, wp_ret, wp_ret.
    destruct (add_ok base m did name h alg blob _ (obj w1) R) as [R2 T2]; try done.
    unfold register_post. cbn [fst snd]. split; [done|]. by exists blob.
Qed.

Lemma unregister_spec base did m w :
  registry_ok base m (obj w) ->
  wp (UnregisterDevice did m) (fun r w' =>
    r.1 = bool_decide (is_Some (m !! registry_key did)) /\
    registry_ok base r.2 (obj w') /\
    forall did', trusted r.2 (obj w') did' =
                 if decide (did' = did) then None else trusted m (obj w) did') w.
Proof.
  intros R. unfold UnregisterDevice. destruct (m !! registry_key did) as [d|] eqn:Em.
  - destruct (rok_live _ _ _ R _ _ Em) as (Nd & _).
    eapply wp_seq; [by apply destroy_if_set_spec|]. intros x w2 O2. cbn beta in O2. apply wp_ret.
    destruct (remove_ok base m _ d _ _ R Em O2) as [R1 T1]. cbn [fst snd].
    rewrite bool_decide_true by done. split; [done|]. split; [done|]. intros did'. rewrite T1.
    destruct (decide (did' = did)) as [->|N']; [by rewrite decide_True|].
    rewrite decide_False; [done|]. intros E. by apply N', registry_key_inj.
  - apply wp_ret. cbn [fst snd]. rewrite bool_decide_false by (by intros []).
    split; [done|]. split; [done|]. intros did'.
    destruct (decide (did' = did)) as [->|]; [|done]. unfold trusted. by rewrite Em.
Qed.

(** The destructor deletes the handles listed, and no others. *)
Lemma destroy_loop_spec devs w :
  (forall k d, (k, d) ∈ devs -> hPublicKey d <> NULL) ->
  wp (destroy_loop devs) (fun _ w' => forall h,
    obj w' !! h = if decide (h ∈ (fun kd => hPublicKey kd.2) <$> devs) then None else obj w !! h) w.
Proof.
  revert w. induction devs as [|[k d] devs IH]; intros w N; cbn [destroy_loop].
  - apply wp_ret. intros h. by rewrite decide_False by (apply not_elem_of_nil).
  - eapply wp_seq; [apply destroy_if_set_spec, (N k d); set_solver|].
    intros x w1 O1. cbn beta in O1. eapply wp_mono; [apply IH; set_solver|].
    intros ? w2 H h. cbn beta in H. rewrite H, O1. rewrite fmap_cons. cbn [snd].
    destruct (decide (h = hPublicKey d)) as [->|Nh].
    + rewrite lookup_delete_eq. repeat case_decide; set_solver.
    + rewrite lookup_delete_ne by done. repeat case_decide; set_solver.
Qed.

Lemma destroy_registry_spec base m w :
  registry_ok base m (obj w) ->
  wp (destroy_DeviceRegistry m) (fun _ w' => obj w' = base) w.
Proof.
  intros R. unfold destroy_DeviceRegistry. eapply wp_mono.
  - apply destroy_loop_spec. intros k d Hd%elem_of_map_to_list. by eapply (rok_live _ _ _ R).
  - intros ? w' H. cbn beta in H. apply map_eq. intros h. rewrite H. case_decide as Hd.
    + apply list_elem_of_fmap in Hd as ([k d] & -> & Hd%elem_of_map_to_list).
      symmetry. by eapply (rok_own _ _ _ R).
    + apply (rok_base _ _ _ R). intros k d Hk <-. apply Hd, list_elem_of_fmap.
      exists (k, d). by rewrite elem_of_map_to_list.
Qed.

Lemma get_key_spec base m did w :
  registry_ok base m (obj w) ->
  match trusted m (obj w) did with
  | Some blob => GetDevicePublicKey did m <> NULL /\ IsDeviceRegistered did m = true /\
                 exists alg, obj w !! GetDevicePublicKey did m = Some (KeyObj alg blob)
  | None => GetDevicePublicKey did m = NULL /\ IsDeviceRegistered did m = false
  end.
Proof.
  intros R. unfold trusted, GetDevicePublicKey, IsDeviceRegistered.
  destruct (m !! registry_key did) as [d|] eqn:E; cbn [mbind option_bind]; [|done].
  destruct (rok_live _ _ _ R _ _ E) as (N & alg & blob & Eo). rewrite Eo.
  destruct (rok_id _ _ _ R _ _ E) as [_ ->]. eauto.
Qed.

(** ** Sequences of calls *)
Inductive RegOp : Type :=
| OpRegister (did : list byte) (name : string) (raw : option (list byte)) (n : Z)
| OpRegisterDer (did : list byte) (name : string) (der : option (list byte)) (n : Z)
| OpUnregister (did : list byte).

(** The buffer is at least as long as the call says. *)
Definition op_safe (op : RegOp) : Prop :=
  match op with
  | OpRegister _ _ (Some l) n | OpRegisterDer _ _ (Some l) n => n <= Z.of_nat (length l)
  | _ => True
  end.

Definition reg_exec (e : CryptoEngine) (op : RegOp) (m : Devices) : Proc W (bool * Devices) :=
  match op with
  | OpRegister did name raw n => RegisterDevice e did name raw n m
  | OpRegisterDer did name der n => RegisterDeviceDer e did name der n m
  | OpUnregister did => UnregisterDevice did m
  end.

Fixpoint reg_run (e : CryptoEngine) (ops : list RegOp) (m : Devices) : Proc W Devices :=
  match ops with
  | [] => pret m
  | op :: rest => let* '(_, m') := reg_exec e op m in reg_run e rest m'
  end.

Lemma register_ok e base did name raw n m w :
  registry_ok base m (obj w) -> op_safe (OpRegister did name raw n) ->
  wp (RegisterDevice e did name raw n m)
    (register_post base m (obj w) did (fun blob => exists l, raw = Some l /\
       blob = ecc_blob BCRYPT_ECDSA_PUBLIC_P256_MAGIC (key_point l n))) w.
Proof.
  intros R Sf. unfold RegisterDevice. destruct raw as [l|].
  - eapply wp_seq; [by apply import_raw_spec|]. intros h w1 I. cbn beta in I.
    apply (install_spec base did name h _ m w w1 _ R I). eauto.
  - apply wp_bind, wp_ret, wp_ret. by split.
Qed.

Lemma register_der_ok e base did name der n m w :
  registry_ok base m (obj w) -> op_safe (OpRegisterDer did name der n) ->
  wp (RegisterDeviceDer e did name der n m)
    (register_post base m (obj w) did (fun blob => exists l xy, der = Some l /\ der_window l n xy /\
       blob = ecc_blob BCRYPT_ECDSA_PUBLIC_P256_MAGIC xy)) w.
Proof.
  intros R Sf. unfold RegisterDeviceDer. destruct der as [l|].
  - eapply wp_seq; [by apply import_der_spec|]. intros h w1 [[-> O]|(xy & Wd & I)].
    + apply wp_ret. by split.
    + apply (install_spec base did name h _ m w w1 _ R I). eauto.
  - apply wp_bind, wp_ret, wp_ret. by split.
Qed.

Lemma reg_exec_ok e base op m w :
  registry_ok base m (obj w) -> op_safe op ->
  wp (reg_exec e op m) (fun r w' => registry_ok base r.2 (obj w')) w.
Proof.
  intros R Sf. destruct op as [did name raw n|did name der n|did]; cbn [reg_exec].
  - eapply wp_mono; [by apply register_ok|]. intros [[] m'] w' P; [by apply P|].
    destruct P as [-> O]. cbn [snd]. by rewrite O.
  - eapply wp_mono; [by apply register_der_ok|]. intros [[] m'] w' P; [by apply P|].
    destruct P as [-> O]. cbn [snd]. by rewrite O.
  - eapply wp_mono; [by apply unregister_spec|]. intros r w' (_ & P & _). done.
Qed.

Lemma reg_run_ok e base ops m w :
  registry_ok base m (obj w) -> Forall op_safe ops ->
  wp (reg_run e ops m) (fun m' w' => registry_ok base m' (obj w')) w.
Proof.
  revert m w. induction ops as [|op ops IH]; intros m w R F; cbn [reg_run].
  - by apply wp_ret.
  - apply Forall_cons in F as [F1 F2]. eapply wp_seq; [by apply reg_exec_ok|].
    intros [b m'] w' R'. by apply IH.
Qed.

End Laws.

(** * Properties *)

Section Properties.
Context {W : Type} `{HC : Cng W} `{HM : CngModel W} `{HL : !CngLaws W}.

(** C37: the registry implements a table of trusted keys.  While it owns its
    handles, a registration that returns true makes exactly the imported point
    the key of that device, replacing and destroying its previous key, and one
    that returns false changes nothing; unregistering removes exactly that
    device and says whether it was there; a lookup returns a live handle to the
    trusted key, or NULL when there is none; and ownership is preserved. *)
Theorem registry_refines e base m (w : W) did name :
  registry_ok base m (obj w) ->
  (forall raw n, op_safe (OpRegister did name raw n) ->
   wp (RegisterDevice e did name raw n m)
     (register_post base m (obj w) did (fun blob => exists l, raw = Some l /\
        blob = ecc_blob BCRYPT_ECDSA_PUBLIC_P256_MAGIC (key_point l n))) w) /\
  (forall der n, op_safe (OpRegisterDer did name der n) ->
   wp (RegisterDeviceDer e did name der n m)
     (register_post base m (obj w) did (fun blob => exists l xy, der = Some l /\ der_window l n xy /\
        blob = ecc_blob BCRYPT_ECDSA_PUBLIC_P256_MAGIC xy)) w) /\
  wp (UnregisterDevice did m) (fun r w' =>
    r.1 = bool_decide (is_Some (m !! registry_key did)) /\ registry_ok base r.2 (obj w') /\
    forall did', trusted r.2 (obj w') did' =
                 if decide (did' = did) then None else trusted m (obj w) did') w /\
  match trusted m (obj w) did with
  | Some blob => GetDevicePublicKey did m <> NULL /\ IsDeviceRegistered did m = true /\
                 exists alg, obj w !! GetDevicePublicKey did m = Some (KeyObj alg blob)
  | None => GetDevicePublicKey did m = NULL /\ IsDeviceRegistered did m = false
  end.
Proof.
  intros R. split; [|split; [|split]].
  - intros raw n. by apply register_ok.
  - intros der n. by apply register_der_ok.
  - by apply unregister_spec.
  - by apply (get_key_spec base).
Qed.

(** C38: no handle is leaked.  Any sequence of registrations, re-registrations
    and removals on an empty registry, failing or not, followed by the
    destructor gives back exactly the CNG objects that were live before. *)
Theorem registry_lifecycle e ops (w : W) :
  Forall op_safe ops ->
  wp (let* m := reg_run e ops ∅ in destroy_DeviceRegistry m) (fun _ w' => obj w' = obj w) w.
Proof.
  intros F. eapply wp_seq; [apply (reg_run_ok e (obj w)); [apply registry_ok_empty | done]|].
  intros m w1 R. by apply destroy_registry_spec.
Qed.

End Properties.

(** * Witnesses *)
From S2P Require Import Simulator.

Definition demo_device : list byte := replicate 16 (to_u8 0x22).
Definition demo_ops : list RegOp :=
  [OpRegister demo_device "phone" (Some demo_point) 64;
   OpRegister demo_device "phone" (Some (to_u8 4 :: demo_point)) 65;
   OpRegisterDer demo_device "phone" (Some (to_u8 0x30 :: demo_point)) 65;
   OpUnregister demo_device; OpRegister demo_device "phone" (Some demo_point) 64].

Lemma demo_ops_safe : Forall op_safe demo_ops.
Proof. repeat constructor; vm_compute; done. Defined.

Lemma registry_refines_witness :
  registry_ok (obj demo_world) ∅ (obj demo_world) /\
  wp (RegisterDevice demo_engine demo_device "phone" (Some demo_point) 64 ∅)
    (register_post (obj demo_world) ∅ (obj demo_world) demo_device (fun blob => exists l, Some demo_point = Some l /\
        blob = ecc_blob BCRYPT_ECDSA_PUBLIC_P256_MAGIC (key_point l 64))) demo_world.
Proof.
  assert (R : registry_ok (obj demo_world) ∅ (obj demo_world)) by apply registry_ok_empty.
  split; [exact R|].
  assert (S : op_safe (OpRegister demo_device "phone" (Some demo_point) 64)) by (vm_compute; done).
  exact (proj1 (registry_refines demo_engine (obj demo_world) ∅ demo_world demo_device "phone" R) _ _ S).
Defined.

Lemma registry_lifecycle_witness :
  wp (let* m := reg_run demo_engine demo_ops ∅ in destroy_DeviceRegistry m)
    (fun _ w' => obj w' = obj demo_world) demo_world.
Proof. exact (registry_lifecycle demo_engine demo_ops demo_world demo_ops_safe). Defined.

(** [GetDevicePublicKey] hands out the handle itself, and only its own lookup is
    under the mutex.  Here the handle got for [demo_device] is, after that device
    is unregistered and
    another registered, the other device's key: a reader that still holds it
    would verify signatures against the wrong phone. *)
Definition other_point : list byte := be_bytes 64 0x123456.
Example stale_handle :
  match RegisterDevice demo_engine demo_device "phone" (Some demo_point) 64 ∅ demo_world with
  | Def (_, m, w) =>
    let hKey := GetDevicePublicKey demo_device m in
    match (let* '(_, m) := UnregisterDevice demo_device m in
           RegisterDevice demo_engine (replicate 16 (to_u8 0x33)) "other" (Some other_point) 64 m) w with
    | Def (_, _, w') =>
      (obj w !! hKey, obj w' !! hKey) =
      (Some (KeyObj ECDSA_P256 (ecc_blob BCRYPT_ECDSA_PUBLIC_P256_MAGIC demo_point)),
       Some (KeyObj ECDSA_P256 (ecc_blob BCRYPT_ECDSA_PUBLIC_P256_MAGIC other_point)))
    | UB => False
    end
  | UB => False
  end.
Proof. vm_compute. reflexivity. Qed.
