(* ===== verification/ChallengeGenerator.v ===== *)
(** * ChallengeGenerator: fresh 256-bit challenges with a 30 s life

    Models windows/agent/ChallengeGenerator.cpp.  The record is a local variable
    whose arrays start indeterminate: they are an argument, because the code
    ignores the result of [GenerateRandomBytes] and returns them as they are
    when the generator fails. *)
From S2P Require Import Prelude Bytes Protocol Platform ChallengeStore CryptoEngine.

Definition with_rec_sessionId v (r : ChallengeRecord) : ChallengeRecord :=
  {| rec_sessionId := v; rec_deviceId := rec_deviceId r; rec_pcId := rec_pcId r;
     rec_challenge := rec_challenge r; creationTimestampMs := creationTimestampMs r;
     rec_expirationTimestampMs := rec_expirationTimestampMs r; state := state r |}.
Definition with_rec_challenge v (r : ChallengeRecord) : ChallengeRecord :=
  {| rec_sessionId := rec_sessionId r; rec_deviceId := rec_deviceId r; rec_pcId := rec_pcId r;
     rec_challenge := v; creationTimestampMs := creationTimestampMs r;
     rec_expirationTimestampMs := rec_expirationTimestampMs r; state := state r |}.
Definition with_ids dev pc (r : ChallengeRecord) : ChallengeRecord :=
  {| rec_sessionId := rec_sessionId r; rec_deviceId := dev; rec_pcId := pc;
     rec_challenge := rec_challenge r; creationTimestampMs := creationTimestampMs r;
     rec_expirationTimestampMs := rec_expirationTimestampMs r; state := state r |}.
Definition with_times created expires (r : ChallengeRecord) : ChallengeRecord :=
  {| rec_sessionId := rec_sessionId r; rec_deviceId := rec_deviceId r; rec_pcId := rec_pcId r;
     rec_challenge := rec_challenge r; creationTimestampMs := created;
     rec_expirationTimestampMs := expires; state := state r |}.

(** The arrays of the record have their declared sizes. *)
Record wf_record (r : ChallengeRecord) : Prop := {
  wfr_session : length (rec_sessionId r) = 16%nat;
  wfr_device : length (rec_deviceId r) = 16%nat;
  wfr_pc : length (rec_pcId r) = 16%nat;
  wfr_challenge : length (rec_challenge r) = 32%nat;
}.

Section Generator.
Context {W : Type} `{Cng W, Clock W}.

Definition GenerateChallenge (e : CryptoEngine) (deviceId pcId : list byte)
    (record : ChallengeRecord) : Proc W ChallengeRecord :=
  let record := with_ids deviceId pcId record in
  let* '(_, buf) := GenerateRandomBytes e (Some (rec_sessionId record)) UUID_SIZE in
  let record := with_rec_sessionId (default [] buf) record in
  let* '(_, buf) := GenerateRandomBytes e (Some (rec_challenge record)) CHALLENGE_SIZE in
  let record := with_rec_challenge (default [] buf) record in
  let* nowMs := pcall system_clock_ms in
  let record := with_times nowMs (u64 (nowMs + DEFAULT_CHALLENGE_TTL_MS)) record in
  pret (with_state OUTSTANDING record).

End Generator.

Section Laws.
Context {W : Type} `{HC : Cng W} `{HT : Clock W} `{HM : CngModel W} `{HL : !CngLaws W} `{HTL : !ClockLaws W}.
Implicit Types (w : W).

Lemma memcpy_whole buf src : length src = length buf -> memcpy_to buf 0 src = Def src.
Proof.
  intros L. unfold memcpy_to. replace (_ && _) with true by lia.
  change (Z.to_nat 0) with 0%nat. cbn [take app Nat.add].
  by rewrite drop_ge, app_nil_r by lia.
Qed.

Lemma random_spec e buf n w :
  n = Z.of_nat (length buf) -> 0 < n < 2 ^ 32 ->
  wp (GenerateRandomBytes e (Some buf) n) (fun r w' =>
    obj w' = obj w /\ exists out, r.2 = Some out /\ length out = length buf /\
    (r.1 = true -> exists hmac, obj w !! m_hRngAlg e = Some (AlgObj RNG hmac))) w.
Proof.
  intros -> Ln. unfold GenerateRandomBytes.
  replace (Z.of_nat (length buf) =? 0) with false by lia.
  apply wp_bind. eapply wp_lift.
  { rewrite wrap_small by lia. apply rd_slice_ok; lia. }
  rewrite Nat2Z.id, sub_all by done.
  apply wp_bind, wp_call. intros [st out] w' E.
  destruct (random_law (m_hRngAlg e) buf w) as (O & L & S). rewrite E in O, L, S.
  cbn [fst snd] in *. apply wp_bind. eapply wp_lift; [by apply memcpy_whole|].
  apply wp_ret. eauto.
Qed.

Lemma generate_spec e did pc r0 w :
  wf_record r0 -> length did = 16%nat -> length pc = 16%nat ->
  wp (GenerateChallenge e did pc r0) (fun r w' =>
    obj w' = obj w /\ wf_record r /\ rec_deviceId r = did /\ rec_pcId r = pc /\
    state r = OUTSTANDING /\ 0 <= creationTimestampMs r < 2 ^ 64 /\
    rec_expirationTimestampMs r = u64 (creationTimestampMs r + 30000)) w.
Proof.
  intros [S0 _ _ C0] Ld Lp. unfold GenerateChallenge. cbn zeta.
  eapply wp_seq; [apply random_spec; cbn; rewrite ?S0; done|].
  intros [b1 b] w1 (O1 & sid & Eb & L1 & _). cbn [snd] in Eb. subst b. cbn [default].
  eapply wp_seq; [apply random_spec; cbn; rewrite ?C0; done|].
  intros [b2 b] w2 (O2 & ch & Eb & L2 & _). cbn [snd] in Eb. subst b. cbn [default].
  apply wp_bind, wp_call. intros t w3 E3. pose proof (clock_range w2) as Rt.
  pose proof (clock_obj w2) as Ot. rewrite E3 in Rt, Ot. cbn [fst snd] in *.
  apply wp_ret. cbn. split; [congruence|]. split; [|done].
  cbn in L1, L2. split; cbn; congruence.
Qed.

End Laws.

(** The query that redeems a record. *)
Definition query_of (r : ChallengeRecord) : Query :=
  {| q_sessionId := rec_sessionId r; q_deviceId := rec_deviceId r;
     q_pcId := rec_pcId r; q_challenge := rec_challenge r |}.

(** * Properties *)

(** C39: the life of a challenge.  A generated challenge is outstanding, has the
    declared sizes and ids, and, once added to any store, is redeemed by its own
    ids at time [t] iff [t] is at most 30 000 ms after its creation (for clocks
    whose readings stay below 2^64 - 30000), and otherwise refused as expired
    (at [t] equal to the expiry it is accepted, where docs/protocol.md asks for an
    earlier time); the generator leaks no CNG object even when the random source fails. *)
Theorem challenge_lifetime {W} `{HC : Cng W} `{HT : Clock W} `{HM : CngModel W}
    `{HL : !CngLaws W} `{HTL : !ClockLaws W} e did pc r0 s (w : W) :
  wf_record r0 -> length did = 16%nat -> length pc = 16%nat ->
  wp (GenerateChallenge e did pc r0) (fun r w' =>
    obj w' = obj w /\ wf_record r /\ rec_deviceId r = did /\ rec_pcId r = pc /\
    (creationTimestampMs r + 30000 < 2 ^ 64 -> forall t,
     (ValidateAndConsumeChallenge (query_of r) t (AddChallenge r s)).1 =
       if t <=? creationTimestampMs r + 30000 then SUCCESS else CHALLENGE_EXPIRED)) w.
Proof.
  intros Wf Ld Lp. eapply wp_mono; [by apply generate_spec|].
  intros r w' (O & Wr & D & P & S & Rc & Ex). do 4 (split; [done|]). intros Lt t.
  rewrite VAC_verdict. unfold AddChallenge. cbn [q_sessionId query_of].
  rewrite lookup_insert_eq. cbn [fst]. rewrite wrap_small in Ex by lia.
  destruct (Z.leb_spec t (creationTimestampMs r + 30000)).
  - apply verdict_success. cbn. rewrite Ex. done.
  - apply verdict_expired. right. rewrite Ex. split; [done | lia].
Qed.

(** * Witness *)
From S2P Require Import Simulator.

Lemma challenge_lifetime_witness :
  wp (GenerateChallenge demo_engine (replicate 16 x01) (replicate 16 x02) demo_record) (fun r w' =>
    obj w' = obj demo_world /\ wf_record r /\ rec_deviceId r = replicate 16 x01 /\
    rec_pcId r = replicate 16 x02 /\
    (creationTimestampMs r + 30000 < 2 ^ 64 -> forall t,
     (ValidateAndConsumeChallenge (query_of r) t (AddChallenge r ∅)).1 =
       if t <=? creationTimestampMs r + 30000 then SUCCESS else CHALLENGE_EXPIRED)) demo_world.
Proof.
  assert (Wr : wf_record demo_record) by (split; reflexivity).
  exact (challenge_lifetime demo_engine (replicate 16 x01) (replicate 16 x02) demo_record ∅ demo_world
           Wr eq_refl eq_refl).
Defined.
