(* ===== verification/TransportInterface.v ===== *)
(** * TransportInterface: what a transport and its listener promise each other

    Models the two abstract classes of windows/common/TransportInterface.h as
    type classes over the state [S] of the whole program: a transport calls the
    listener's three callbacks, and the listener (the agent) calls the
    transport's methods, both on the same state.  The sending half is a class
    of its own, because it is all that a callback uses. *)
From S2P Require Import Prelude Bytes FrameProtocol.

Class ITransportListener (S : Type) := {
  OnFrameReceived : TransportFrame -> Proc S unit;
  OnConnectionStateChanged : bool -> string -> Proc S unit;
  OnError : string -> Proc S unit;
}.

Class FrameSender (S : Type) := {
  SendFrame : TransportMessageType -> list byte -> Proc S bool;
  IsConnected : Proc S bool;
}.

(** [SetListener] is given whether the pointer is non-null: there is one
    listener object in the program. *)
Class ITransport (S : Type) := {
  transport_sender : FrameSender S;
  StartListener : Z -> Proc S bool;
  Connect : string -> Z -> Proc S bool;
  SetListener : bool -> Proc S unit;
  Close : Proc S unit;
}.

(** What the listener relies on: sending is defined and leaves alone the part
    [core] of the state that belongs to the listener. *)
Class SenderLaws (S K : Type) (core : S -> K) `{FrameSender S} : Prop := {
  send_core : forall t p s, wp (SendFrame t p) (fun _ s' => core s' = core s) s;
  connected_core : forall s, wp IsConnected (fun _ s' => s' = s) s;
}.

(** ** Lenses that do not overlap *)
Class LensDisjoint (S A B : Type) `{Lens S A, Lens S B} : Prop := {
  view_put_l : forall (b : B) (s : S), view (V:=A) (put b s) = view s;
  view_put_r : forall (a : A) (s : S), view (V:=B) (put a s) = view s;
  put_comm : forall (a : A) (b : B) (s : S), put a (put b s) = put b (put a s);
}.
