(* ===== verification/TcpTransport.v ===== *)
(** * TcpTransport: framed messages over one TCP connection

    Models windows/common/TcpTransport.cpp.  The transport's members are a
    record inside the program state [S], reached through a lens, and so is the
    operating system [W]; callbacks run on the whole state.  The worker threads
    are the procedures [tcp_ListenerWorker] and [tcp_ReceiverWorker]; the
    receive loop takes fuel, one unit per [recv], because the peer decides how
    long it runs.  What the receiver does with a byte stream is specified by
    the function [rx_events], for which the framing theorems are proved. *)
From stdpp Require Import pretty.
From S2P Require Import Prelude Bytes FrameProtocol Platform TransportInterface.

(** ** State *)

(** The thread a joinable [m_workerThread] runs. *)
Inductive Worker : Type := ListenerThread | ReceiverThread.

Record TcpTransport : Type := {
  m_listenSocket : handle;
  m_clientSocket : handle;
  m_listener : bool;               (** the pointer is non-null *)
  m_isConnected : bool;
  m_isRunning : bool;
  m_sequenceCounter : Z;
  m_workerThread : option Worker;
}.

Definition new_TcpTransport : TcpTransport :=
  {| m_listenSocket := INVALID_SOCKET; m_clientSocket := INVALID_SOCKET; m_listener := false;
     m_isConnected := false; m_isRunning := false; m_sequenceCounter := 1; m_workerThread := None |}.

Definition with_listenSocket v (t : TcpTransport) : TcpTransport :=
  {| m_listenSocket := v; m_clientSocket := m_clientSocket t; m_listener := m_listener t;
     m_isConnected := m_isConnected t; m_isRunning := m_isRunning t;
     m_sequenceCounter := m_sequenceCounter t; m_workerThread := m_workerThread t |}.
Definition with_clientSocket v (t : TcpTransport) : TcpTransport :=
  {| m_listenSocket := m_listenSocket t; m_clientSocket := v; m_listener := m_listener t;
     m_isConnected := m_isConnected t; m_isRunning := m_isRunning t;
     m_sequenceCounter := m_sequenceCounter t; m_workerThread := m_workerThread t |}.
Definition with_listener v (t : TcpTransport) : TcpTransport :=
  {| m_listenSocket := m_listenSocket t; m_clientSocket := m_clientSocket t; m_listener := v;
     m_isConnected := m_isConnected t; m_isRunning := m_isRunning t;
     m_sequenceCounter := m_sequenceCounter t; m_workerThread := m_workerThread t |}.
Definition with_isConnected v (t : TcpTransport) : TcpTransport :=
  {| m_listenSocket := m_listenSocket t; m_clientSocket := m_clientSocket t; m_listener := m_listener t;
     m_isConnected := v; m_isRunning := m_isRunning t;
     m_sequenceCounter := m_sequenceCounter t; m_workerThread := m_workerThread t |}.
Definition with_isRunning v (t : TcpTransport) : TcpTransport :=
  {| m_listenSocket := m_listenSocket t; m_clientSocket := m_clientSocket t; m_listener := m_listener t;
     m_isConnected := m_isConnected t; m_isRunning := v;
     m_sequenceCounter := m_sequenceCounter t; m_workerThread := m_workerThread t |}.
Definition with_sequenceCounter v (t : TcpTransport) : TcpTransport :=
  {| m_listenSocket := m_listenSocket t; m_clientSocket := m_clientSocket t; m_listener := m_listener t;
     m_isConnected := m_isConnected t; m_isRunning := m_isRunning t;
     m_sequenceCounter := v; m_workerThread := m_workerThread t |}.
Definition with_workerThread v (t : TcpTransport) : TcpTransport :=
  {| m_listenSocket := m_listenSocket t; m_clientSocket := m_clientSocket t; m_listener := m_listener t;
     m_isConnected := m_isConnected t; m_isRunning := m_isRunning t;
     m_sequenceCounter := m_sequenceCounter t; m_workerThread := v |}.

(** The messages handed to [OnError]. *)
Definition err_bad_magic : string :=
  "Stream corruption: invalid magic bytes. Discarding invalid stream byte.".
Definition err_ceiling : string :=
  "Stream security alert: frame payload size exceeds 64KB ceiling. Dropping connection.".
Definition err_frame (err : string) : string := "Frame deserialization error: " +:+ err.

(** The frame [SendFrame] builds. *)
Definition outgoing_frame (messageType : TransportMessageType) (seq : Z) (payload : list byte)
    : TransportFrame :=
  {| magic := magic new_TransportFrame; payloadLength := payloadLength new_TransportFrame;
     messageType := messageType; flags := flags new_TransportFrame; sequenceNumber := seq;
     payload := payload; checksum := checksum new_TransportFrame |}.

Section Tcp.
Context {S W : Type} `{LT : Lens S TcpTransport} `{LW : Lens S W} `{HS : Winsock W}
        `{HLi : ITransportListener S}.

(** Reading and writing the members, and calling the system. *)
Definition members : Proc S TcpTransport := zoom (V:=TcpTransport) pget.
Definition modify (f : TcpTransport -> TcpTransport) : Proc S unit :=
  zoom (V:=TcpTransport) (fun t => Def (tt, f t)).
Definition sys {A} (f : W -> A * W) : Proc S A := zoom (V:=W) (pcall f).

(** [if (m_listener) m_listener->...] *)
Definition notify (callback : Proc S unit) : Proc S unit :=
  let* t := members in if m_listener t then callback else pret tt.

Definition tcp_SetListener (listener : bool) : Proc S unit := modify (with_listener listener).
Definition tcp_IsConnected : Proc S bool := let* t := members in pret (m_isConnected t).

(** [join] returns when the worker has: the receive and accept calls it was
    blocked in fail on the closed sockets. *)
Definition tcp_Close : Proc S unit :=
  modify (with_isRunning false) ;;
  modify (with_isConnected false) ;;
  let* t := members in
  (if negb (m_listenSocket t =? INVALID_SOCKET) then
     sys (closesocket (m_listenSocket t)) ;;
     modify (with_listenSocket INVALID_SOCKET)
   else pret tt) ;;
  let* t := members in
  (if negb (m_clientSocket t =? INVALID_SOCKET) then
     sys (closesocket (m_clientSocket t)) ;;
     modify (with_clientSocket INVALID_SOCKET)
   else pret tt) ;;
  let* t := members in
  match m_workerThread t with
  | Some _ => modify (with_workerThread None)
  | None => pret tt
  end.

Definition tcp_StartListener (port : Z) : Proc S bool :=
  tcp_Close ;;
  let* s := sys socket in
  modify (with_listenSocket s) ;;
  if s =? INVALID_SOCKET then
    notify (OnError "Failed to create listen socket") ;;
    pret false
  else
  sys (setsockopt_reuseaddr s) ;;
  let* r := sys (bind s port) in
  if r =? SOCKET_ERROR then
    sys (closesocket s) ;;
    modify (with_listenSocket INVALID_SOCKET) ;;
    notify (OnError "Failed to bind listen socket") ;;
    pret false
  else
  let* r := sys (listen s) in
  if r =? SOCKET_ERROR then
    sys (closesocket s) ;;
    modify (with_listenSocket INVALID_SOCKET) ;;
    notify (OnError "Failed to listen on socket") ;;
    pret false
  else
  modify (with_isRunning true) ;;
  modify (with_workerThread (Some ListenerThread)) ;;
  pret true.

Definition tcp_Connect (address : string) (port : Z) : Proc S bool :=
  tcp_Close ;;
  let* s := sys socket in
  modify (with_clientSocket s) ;;
  if s =? INVALID_SOCKET then
    notify (OnError "Failed to create client socket") ;;
    pret false
  else
  let* r := sys (connect s address port) in
  if r =? SOCKET_ERROR then
    sys (closesocket s) ;;
    modify (with_clientSocket INVALID_SOCKET) ;;
    notify (OnError "Failed to connect to target host") ;;
    pret false
  else
  modify (with_isConnected true) ;;
  modify (with_isRunning true) ;;
  notify (OnConnectionStateChanged true (address +:+ ":" +:+ pretty (Z.to_N port))) ;;
  modify (with_workerThread (Some ReceiverThread)) ;;
  pret true.

(** The inner loop of the receiver: every iteration that continues drops at
    least one byte, so [fuel] is the size of the buffer. *)
Fixpoint drain_loop (fuel : nat) (rxBuffer : list byte) : Proc S (list byte) :=
  match fuel with
  | O => pret rxBuffer
  | Datatypes.S fuel =>
    if Z.of_nat (length rxBuffer) <? 18 then pret rxBuffer else
    let* magic := plift (rd_be32 rxBuffer 0) in
    if negb (magic =? FRAME_MAGIC) then
      notify (OnError err_bad_magic) ;;
      drain_loop fuel (drop 1 rxBuffer)
    else
    let* payloadLen := plift (rd_be32 rxBuffer 4) in
    if payloadLen >? MAX_PAYLOAD_SIZE then
      notify (OnError err_ceiling) ;;
      modify (with_isConnected false) ;;
      pret rxBuffer
    else
    let totalFrameLen := 14 + payloadLen + 4 in
    if Z.of_nat (length rxBuffer) <? totalFrameLen then pret rxBuffer else
    let* r := plift (DeserializeFrame (Some rxBuffer) totalFrameLen new_TransportFrame) in
    (if frame_ok r then notify (OnFrameReceived (outFrame r))
     else notify (OnError (err_frame (outError r)))) ;;
    drain_loop fuel (drop (Z.to_nat totalFrameLen) rxBuffer)
  end.

(** The outer loop; [false] means it was still running after [fuel] reads. *)
Fixpoint receive_loop (fuel : nat) (rxBuffer : list byte) : Proc S bool :=
  match fuel with
  | O => pret false
  | Datatypes.S fuel =>
    let* t := members in
    if negb (m_isRunning t && m_isConnected t) then pret true else
    let* '(bytesRead, tempBuf) := sys (recv (m_clientSocket t) 4096) in
    if bytesRead <=? 0 then
      modify (with_isConnected false) ;;
      notify (OnConnectionStateChanged false "Disconnected") ;;
      pret true
    else
    let rxBuffer := rxBuffer ++ take (Z.to_nat bytesRead) tempBuf in
    let* rxBuffer := drain_loop (length rxBuffer) rxBuffer in
    receive_loop fuel rxBuffer
  end.

Definition tcp_ReceiverWorker (fuel : nat) : Proc S bool := receive_loop fuel [].

Definition tcp_ListenerWorker (fuel : nat) : Proc S bool :=
  let* t := members in
  let* '(acceptedSocket, peerAddr) := sys (accept (m_listenSocket t)) in
  let* t := members in
  if (acceptedSocket =? INVALID_SOCKET) || negb (m_isRunning t) then pret true else
  modify (with_clientSocket acceptedSocket) ;;
  modify (with_isConnected true) ;;
  notify (OnConnectionStateChanged true peerAddr) ;;
  tcp_ReceiverWorker fuel.

(** [while (totalSent < toSend)]: every iteration that continues sends at
    least one byte. *)
Fixpoint send_loop (fuel : nat) (serialized : list byte) (totalSent : Z) : Proc S bool :=
  match fuel with
  | O => pret true
  | Datatypes.S fuel =>
    if negb (totalSent <? Z.of_nat (length serialized)) then pret true else
    let* t := members in
    let* sent := sys (send (m_clientSocket t) (drop (Z.to_nat totalSent) serialized)) in
    if sent <=? 0 then
      modify (with_isConnected false) ;;
      pret false
    else send_loop fuel serialized (totalSent + sent)
  end.

Definition tcp_SendFrame (messageType : TransportMessageType) (payload : list byte) : Proc S bool :=
  let* t := members in
  if negb (m_isConnected t) || (m_clientSocket t =? INVALID_SOCKET) then pret false else
  let frame := outgoing_frame messageType (m_sequenceCounter t) payload in
  modify (with_sequenceCounter (u32 (m_sequenceCounter t + 1))) ;;
  let* serialized := plift (SerializeFrame frame) in
  match serialized with
  | [] => pret false
  | _ => send_loop (length serialized) serialized 0
  end.

(** [TcpTransport] is an [ITransport]. *)
#[export] Instance tcp_sender : FrameSender S := {
  SendFrame := tcp_SendFrame;
  IsConnected := tcp_IsConnected;
}.
#[export] Instance tcp_transport : ITransport S := {
  transport_sender := tcp_sender;
  StartListener := tcp_StartListener;
  Connect := tcp_Connect;
  SetListener := tcp_SetListener;
  Close := tcp_Close;
}.

End Tcp.

(** ** The receiver as a function on byte streams *)

Inductive RxEvent : Type :=
| EvNoise                          (** one byte dropped to resynchronise *)
| EvOversize                       (** the connection is given up *)
| EvFrame (f : TransportFrame)     (** delivered to [OnFrameReceived] *)
| EvBad (err : string).            (** a whole frame that does not parse *)

Inductive RxStep : Type :=
| RxWait
| RxStop
| RxGo (ev : RxEvent) (rest : list byte).

(** What the head of the buffer calls for. *)
Definition rx_step (buf : list byte) : RxStep :=
  if (length buf <? 18)%nat then RxWait
  else if negb (be_value (sub 0 4 buf) =? FRAME_MAGIC) then RxGo EvNoise (drop 1 buf)
  else if be_value (sub 4 4 buf) >? MAX_PAYLOAD_SIZE then RxStop
  else
    let total := (18 + Z.to_nat (be_value (sub 4 4 buf)))%nat in
    if (length buf <? total)%nat then RxWait
    else
      let r := frame_check (take total buf) (Z.of_nat total) new_TransportFrame in
      RxGo (if frame_ok r then EvFrame (outFrame r) else EvBad (outError r)) (drop total buf).

(** All the events a buffer gives rise to, and what is left of it. *)
Fixpoint rx_events (fuel : nat) (buf : list byte) : list RxEvent * list byte :=
  match fuel with
  | O => ([], buf)
  | Datatypes.S fuel =>
    match rx_step buf with
    | RxWait => ([], buf)
    | RxStop => ([EvOversize], buf)
    | RxGo ev rest => let '(evs, kept) := rx_events fuel rest in (ev :: evs, kept)
    end
  end.
Definition rx (buf : list byte) : list RxEvent * list byte := rx_events (length buf) buf.

Section Deliver.
Context {S : Type} `{LT : Lens S TcpTransport} `{HLi : ITransportListener S}.

(** The callbacks an event stands for. *)
Definition deliver (ev : RxEvent) : Proc S unit :=
  match ev with
  | EvNoise => notify (OnError err_bad_magic)
  | EvOversize => notify (OnError err_ceiling) ;; modify (with_isConnected false)
  | EvFrame f => notify (OnFrameReceived f)
  | EvBad err => notify (OnError (err_frame err))
  end.
Fixpoint deliver_all (evs : list RxEvent) : Proc S unit :=
  match evs with
  | [] => pret tt
  | ev :: evs => deliver ev ;; deliver_all evs
  end.
End Deliver.

(** *** The head of the buffer *)

Lemma sub_prefix off n a b : (off + n <= length a)%nat -> sub off n (a ++ b) = sub off n a.
Proof.
  intros L. unfold sub. rewrite drop_app_le by lia. by rewrite take_app_le by len.
Qed.

Lemma rx_step_app a b :
  match rx_step a with
  | RxWait => True
  | RxStop => rx_step (a ++ b) = RxStop
  | RxGo ev rest => rx_step (a ++ b) = RxGo ev (rest ++ b)
  end.
Proof.
  unfold rx_step. rewrite length_app.
  destruct (Nat.ltb_spec (length a) 18) as [|L]; [done|].
  rewrite (proj2 (Nat.ltb_ge (length a + length b) 18)) by lia. rewrite !sub_prefix by lia.
  destruct (negb _). { by rewrite drop_app_le by lia. }
  destruct (_ >? _); [done|]. cbn zeta.
  destruct (Nat.ltb_spec (length a) (18 + Z.to_nat (be_value (sub 4 4 a)))) as [|L2]; [done|].
  rewrite (proj2 (Nat.ltb_ge (length a + length b) _)) by lia.
  by rewrite take_app_le, drop_app_le by lia.
Qed.

Lemma RxGo_inj ev rest ev' rest' : RxGo ev rest = RxGo ev' rest' -> ev = ev' /\ rest = rest'.
Proof. intros E. split; congruence. Qed.

Lemma rx_step_shrinks buf ev rest : rx_step buf = RxGo ev rest -> (length rest < length buf)%nat.
Proof.
  unfold rx_step. destruct (Nat.ltb_spec (length buf) 18) as [|L]; [done|].
  destruct (negb _). { intros [_ <-]%RxGo_inj. len. }
  destruct (_ >? _); [done|]. cbn zeta.
  destruct (Nat.ltb_spec (length buf) (18 + Z.to_nat (be_value (sub 4 4 buf)))) as [|L2]; [done|].
  intros [_ <-]%RxGo_inj. len.
Qed.

Lemma rx_events_fuel n m buf :
  (length buf <= n)%nat -> (length buf <= m)%nat -> rx_events n buf = rx_events m buf.
Proof.
  revert m buf. induction n as [|n IH]; intros [|m] buf Ln Lm; cbn [rx_events]; [done| | |].
  1,2: by destruct buf; [|cbn in *; lia].
  destruct (rx_step buf) as [| |ev rest] eqn:E; [done..|].
  apply rx_step_shrinks in E. by rewrite (IH m) by lia.
Qed.

Lemma rx_unfold buf :
  rx buf = match rx_step buf with
           | RxWait => ([], buf)
           | RxStop => ([EvOversize], buf)
           | RxGo ev rest => (ev :: (rx rest).1, (rx rest).2)
           end.
Proof.
  unfold rx. destruct buf as [|b buf]; [done|]. cbn [length rx_events].
  destruct (rx_step (b :: buf)) as [| |ev rest] eqn:E; [done..|].
  apply rx_step_shrinks in E. cbn [length] in E.
  rewrite (rx_events_fuel (length buf) (length rest)) by lia.
  by destruct (rx_events (length rest) rest).
Qed.

(** Induction along the receiver's run. *)
Lemma rx_ind (P : list byte -> Prop) :
  (forall buf, (forall ev rest, rx_step buf = RxGo ev rest -> P rest) -> P buf) ->
  forall buf, P buf.
Proof.
  intros H buf. remember (length buf) as n eqn:E. revert buf E.
  induction n as [n IH] using (well_founded_induction lt_wf). intros buf ->.
  apply H. intros ev rest Hs%rx_step_shrinks. by eapply IH.
Qed.

(** Whether the receiver gave the connection up. *)
Definition is_oversize (ev : RxEvent) : bool := match ev with EvOversize => true | _ => false end.
Definition gave_up (evs : list RxEvent) : bool := existsb is_oversize evs.

Lemma rx_step_go buf ev rest : rx_step buf = RxGo ev rest -> is_oversize ev = false.
Proof.
  unfold rx_step. destruct (_ <? 18)%nat; [done|]. destruct (negb _); [by intros [<- _]%RxGo_inj|].
  destruct (_ >? _); [done|]. cbn zeta. destruct (_ <? _)%nat; [done|].
  intros [<- _]%RxGo_inj. by destruct (frame_ok _).
Qed.

Lemma rx_app a b :
  rx (a ++ b) =
  if gave_up (rx a).1 then ((rx a).1, (rx a).2 ++ b)
  else ((rx a).1 ++ (rx ((rx a).2 ++ b)).1, (rx ((rx a).2 ++ b)).2).
Proof.
  induction a as [a IH] using rx_ind. pose proof (rx_step_app a b) as Hs.
  rewrite (rx_unfold a). destruct (rx_step a) as [| |ev rest] eqn:E; cbn [fst snd gave_up existsb is_oversize orb].
  - cbn [app]. by destruct (rx (a ++ b)).
  - by rewrite rx_unfold, Hs.
  - rewrite rx_unfold, Hs, (IH ev rest eq_refl), (rx_step_go _ _ _ E). cbn [orb].
    fold (gave_up (rx rest).1). by destruct (gave_up (rx rest).1).
Qed.

(** What is left waits for more bytes, unless the receiver gave up. *)
Lemma rx_left buf :
  gave_up (rx buf).1 = false -> rx_step (rx buf).2 = RxWait.
Proof.
  induction buf as [buf IH] using rx_ind. rewrite rx_unfold.
  destruct (rx_step buf) as [| |ev rest] eqn:E; cbn [fst snd gave_up existsb is_oversize orb]; [done..|].
  rewrite (rx_step_go _ _ _ E). cbn [orb]. by eapply IH.
Qed.

Lemma rx_wait_bound buf :
  rx_step buf = RxWait -> Z.of_nat (length buf) < 18 + MAX_PAYLOAD_SIZE.
Proof.
  unfold rx_step. destruct (Nat.ltb_spec (length buf) 18) as [|L]; [unfold MAX_PAYLOAD_SIZE; lia|].
  destruct (negb _); [done|].
  destruct (Z.gtb_spec (be_value (sub 4 4 buf)) MAX_PAYLOAD_SIZE) as [|M]; [done|]. cbn zeta.
  unfold MAX_PAYLOAD_SIZE in *.
  destruct (Nat.ltb_spec (length buf) (18 + Z.to_nat (be_value (sub 4 4 buf)))); [lia | done].
Qed.

(** *** A whole frame at the head *)

Lemma frame_step f rest :
  wf_frame f -> Z.of_nat (length (payload f)) <= MAX_PAYLOAD_SIZE ->
  rx_step (frame_layout f ++ rest) = RxGo (EvFrame (received f)) rest.
Proof.
  intros Wf L. pose proof (length_frame_layout f) as LL. unfold MAX_PAYLOAD_SIZE in L.
  destruct (frame_layout_fields f rest) as (E0 & E4 & _).
  unfold rx_step. rewrite length_app, E0, E4.
  rewrite (proj2 (Nat.ltb_ge _ 18)) by lia. 
  rewrite !be_value_be_bytes4 by (done || lia). rewrite Z.eqb_refl. cbn [negb].
  unfold MAX_PAYLOAD_SIZE. replace (_ >? 65536) with false by lia. cbn zeta. rewrite Nat2Z.id.
  rewrite (proj2 (Nat.ltb_ge _ (18 + _))) by lia.
  rewrite take_app_exact, drop_app_exact by lia.
  rewrite <- (app_nil_r (frame_layout f)), frame_check_layout by (done || (unfold MAX_PAYLOAD_SIZE; lia)).
  done.
Qed.

Lemma rx_frame f rest :
  wf_frame f -> Z.of_nat (length (payload f)) <= MAX_PAYLOAD_SIZE ->
  rx (frame_layout f ++ rest) = (EvFrame (received f) :: (rx rest).1, (rx rest).2).
Proof. intros Wf L. by rewrite rx_unfold, frame_step. Qed.

(** Noise before [tail]: the magic number starts at no byte of [g]. *)
Definition no_magic (g tail : list byte) : Prop :=
  forall i, (i < length g)%nat -> sub i 4 (g ++ tail) <> be_bytes 4 FRAME_MAGIC.

Lemma rx_noise g tail :
  no_magic g tail -> (18 <= length tail)%nat ->
  rx (g ++ tail) = (replicate (length g) EvNoise ++ (rx tail).1, (rx tail).2).
Proof.
  induction g as [|b g IH]; intros N L.
  { cbn [app length replicate]. by destruct (rx tail). }
  assert (N' : no_magic g tail).
  { intros i Hi. specialize (N (Datatypes.S i) ltac:(cbn; lia)). exact N. }
  rewrite rx_unfold. unfold rx_step. 
  rewrite (proj2 (Nat.ltb_ge _ 18)) by len.
  assert (M : be_value (sub 0 4 ((b :: g) ++ tail)) <> FRAME_MAGIC).
  { intros E. apply (N 0%nat); [cbn; lia|]. apply be_value_inj.
    - rewrite length_sub, length_be_bytes by len. done.
    - rewrite E, be_value_be_bytes4; done. }
  rewrite (proj2 (Z.eqb_neq _ _) M). cbn [negb].
  change (drop 1 ((b :: g) ++ tail)) with (g ++ tail). by rewrite (IH N' L).
Qed.

(** *** The code delivers those events *)

Lemma nth_take (l : list byte) i k d :
  (i < k)%nat -> (i < length l)%nat -> nth i (take k l) d = nth i l d.
Proof.
  intros H1 H2. rewrite <- (take_drop k l) at 2. rewrite app_nth1; [done|]. len.
Qed.

Lemma frame_check_take data q :
  let n := be_value (sub 4 4 data) in
  (18 + Z.to_nat n <= length data)%nat ->
  frame_check (take (18 + Z.to_nat n) data) (18 + n) q = frame_check data (18 + n) q.
Proof.
  cbn zeta. intros L. unfold frame_check. cbn zeta. 
  rewrite !(sub_take (18 + _) 4 4), !(sub_take (18 + _) 0 4), !(sub_take (18 + _) 10 4) by lia.
  rewrite (sub_take (18 + _) (14 + _) 4), (sub_take (18 + _) 14 (Z.to_nat _)) by lia.
  rewrite !take_take, !Nat.min_l by lia. by rewrite !nth_take by lia.
Qed.

Lemma pbind_assoc {S A B C} (m : Proc S A) (k : A -> Proc S B) (k' : B -> Proc S C) s :
  pbind (pbind m k) k' s = pbind m (fun a => pbind (k a) k') s.
Proof. unfold pbind. by destruct (m s) as [[a s']|]. Qed.

Lemma pbind_pret {S A B} (a : A) (k : A -> Proc S B) s : pbind (pret a) k s = k a s.
Proof. done. Qed.

Lemma plift_Def {S A B} (r : Res A) (a : A) (k : A -> Proc S B) s :
  r = Def a -> pbind (plift r) k s = k a s.
Proof. by intros ->. Qed.

Section Refine.
Context {S : Type} `{LT : Lens S TcpTransport} `{HLi : ITransportListener S}.

Lemma drain_refines fuel buf s :
  drain_loop fuel buf s = (deliver_all (rx_events fuel buf).1 ;; pret (rx_events fuel buf).2) s.
Proof.
  revert buf s. induction fuel as [|fuel IH]; intros buf s; cbn [drain_loop rx_events]; [done|].
  unfold rx_step.
  replace (Z.of_nat (length buf) <? 18) with (length buf <? 18)%nat by lia.
  destruct (Nat.ltb_spec (length buf) 18) as [|L]; [done|].
  rewrite (plift_Def (rd_be32 buf 0) (be_value (sub 0 4 buf))) by (apply rd_be32_ok; lia).
  destruct (negb (be_value (sub 0 4 buf) =? FRAME_MAGIC)) eqn:M.
  { destruct (rx_events fuel (drop 1 buf)) as [evs kept] eqn:E. cbn [fst snd deliver_all deliver].
    rewrite pbind_assoc. apply pbind_ext. intros _ s'. by rewrite IH, E. }
  rewrite (plift_Def (rd_be32 buf 4) (be_value (sub 4 4 buf))) by (apply rd_be32_ok; lia).
  set (n := be_value (sub 4 4 buf)).
  assert (Hn : 0 <= n) by apply be_value_range.
  destruct (n >? MAX_PAYLOAD_SIZE) eqn:O.
  { cbn [fst snd deliver_all deliver]. rewrite !pbind_assoc. apply pbind_ext. intros _ s'.
    done. }
  cbn zeta.
  replace (Z.of_nat (length buf) <? 14 + n + 4) with (length buf <? 18 + Z.to_nat n)%nat by lia.
  destruct (Nat.ltb_spec (length buf) (18 + Z.to_nat n)) as [|L2]; [done|].
  replace (14 + n + 4) with (18 + n) by lia.
  rewrite (plift_Def (DeserializeFrame _ _ _) (frame_check buf (18 + n) new_TransportFrame))
    by (apply DeserializeFrame_spec; lia).
  replace (Z.of_nat (18 + Z.to_nat n)) with (18 + n) by lia.
  pose proof (frame_check_take buf new_TransportFrame) as FT. cbn zeta in FT. fold n in FT.
  rewrite <- FT by done. clear FT.
  replace (Z.to_nat (18 + n)) with (18 + Z.to_nat n)%nat by lia.
  destruct (rx_events fuel (drop (18 + Z.to_nat n) buf)) as [evs kept] eqn:E.
  cbn [fst snd deliver_all]. rewrite pbind_assoc.
  set (r := frame_check _ _ _).
  replace (deliver (if frame_ok r then EvFrame (outFrame r) else EvBad (outError r)))
    with (if frame_ok r then notify (OnFrameReceived (outFrame r))
          else notify (OnError (err_frame (outError r)))) by (by destruct (frame_ok r)).
  apply pbind_ext. intros _ s'. by rewrite IH, E.
Qed.

End Refine.

(** Feeding the stream in chunks, as successive reads do. *)
Fixpoint rx_chunks (buf : list byte) (chunks : list (list byte)) : list RxEvent :=
  match chunks with
  | [] => []
  | c :: rest =>
    let '(evs, kept) := rx (buf ++ c) in
    if gave_up evs then evs else evs ++ rx_chunks kept rest
  end.

Lemma rx_chunks_concat buf chunks :
  rx_step buf = RxWait -> rx_chunks buf chunks = (rx (buf ++ concat chunks)).1.
Proof.
  revert buf. induction chunks as [|c chunks IH]; intros buf Hw; cbn [rx_chunks concat].
  - rewrite app_nil_r, rx_unfold. by rewrite Hw.
  - pose proof (rx_left (buf ++ c)) as Lf. rewrite app_assoc, (rx_app (buf ++ c)).
    destruct (rx (buf ++ c)) as [evs kept]. cbn [fst snd] in *.
    destruct (gave_up evs); [done|]. cbn [fst]. by rewrite IH by auto.
Qed.

(** ** Sending *)

Section Members.
Context {S W : Type} `{LT : Lens S TcpTransport} `{LW : Lens S W}
        `{LTL : !LensLaws S TcpTransport} `{LWL : !LensLaws S W}.
Context (ub : Prop).

Lemma wp_members (Q : TcpTransport -> S -> Prop) s : Q (view s) s -> wpx ub members Q s.
Proof. unfold wpx, members, zoom, pget. by rewrite put_view. Qed.

Lemma wp_modify f (Q : unit -> S -> Prop) s : Q tt (put (f (view s)) s) -> wpx ub (modify f) Q s.
Proof. done. Qed.

Lemma wp_sys {A} (f : W -> A * W) (Q : A -> S -> Prop) s :
  (forall a w, f (view s) = (a, w) -> Q a (put w s)) -> wpx ub (sys f) Q s.
Proof. unfold wpx, sys, zoom, pcall. destruct (f (view s)) as [a w]. auto. Qed.
End Members.

Section Send.
Context {S W : Type} `{LT : Lens S TcpTransport} `{LW : Lens S W}
        `{LTL : !LensLaws S TcpTransport} `{LWL : !LensLaws S W}
        `{LD : !LensDisjoint S TcpTransport W}
        `{HS : Winsock W} `{HWM : WinsockModel W} `{HWL : !WinsockLaws W}
        `{HM : CngModel W} `{HWC : !WinsockCng W}.

(** The world after writing [out] to socket [c]. *)
Record wrote (c : handle) (out : list byte) (w w' : W) : Prop := {
  wrote_out : sent w' c = sent w c ++ out;
  wrote_other : forall c', c' <> c -> sent w' c' = sent w c';
  wrote_socks : socks w' = socks w;
  wrote_obj : obj w' = obj w;
}.

Lemma wrote_nil c w : wrote c [] w w.
Proof. split; [by rewrite app_nil_r | done..]. Qed.

Lemma wrote_trans c a b w1 w2 w3 : wrote c a w1 w2 -> wrote c b w2 w3 -> wrote c (a ++ b) w1 w3.
Proof.
  intros [A1 A2 A3 A4] [B1 B2 B3 B4]. split; [by rewrite B1, A1, app_assoc | | congruence..].
  intros c' N. by rewrite B2, A2.
Qed.

Lemma send_wrote c data w r w' :
  send c data w = (r, w') -> wrote c (if 0 <? r then take (Z.to_nat r) data else []) w w' /\
    r <= Z.of_nat (length data).
Proof.
  intros E. pose proof (send_law c data w) as L. pose proof (send_obj c data w) as O.
  rewrite E in L, O. destruct L as (K & Ot & P & N). cbn [snd] in O.
  destruct (Z.ltb_spec 0 r) as [R|R].
  - destruct (P R) as [Le Eq]. by split.
  - split; [|lia]. split; [by rewrite app_nil_r, N | done..].
Qed.

(** [ok]: all of the rest went out; otherwise a proper prefix did. *)
Definition sent_part (ok : bool) (rest out : list byte) : Prop :=
  if ok then out = rest else exists more, more <> [] /\ rest = out ++ more.

Lemma send_loop_spec fuel data tot (s : S) :
  0 <= tot <= Z.of_nat (length data) -> Z.of_nat (length data) - tot <= Z.of_nat fuel ->
  wp (send_loop fuel data tot) (fun ok s' => exists w' out,
    s' = put (if ok then view s else with_isConnected false (view s)) (put w' s) /\
    wrote (m_clientSocket (view s)) out (view s) w' /\
    sent_part ok (drop (Z.to_nat tot) data) out) s.
Proof.
  revert tot s. induction fuel as [|fuel IH]; intros tot s Ht Hf; cbn [send_loop].
  { apply wp_ret. exists (view s), []. split; [by rewrite !put_view|]. split; [apply wrote_nil|].
    cbn. by rewrite drop_ge by lia. }
  destruct (Z.ltb_spec tot (Z.of_nat (length data))) as [L|L]; cbn [negb].
  2: { apply wp_ret. exists (view s), []. split; [by rewrite !put_view|]. split; [apply wrote_nil|].
       cbn. by rewrite drop_ge by lia. }
  apply wp_bind, wp_members. apply wp_bind, wp_sys. intros r w1 E.
  apply send_wrote in E as [Wr Lr]. rewrite length_drop in Lr.
  set (c := m_clientSocket (view s)) in *.
  destruct (Z.leb_spec r 0) as [R|R].
  - apply wp_bind, wp_modify, wp_ret. rewrite view_put_l.
    replace (0 <? r) with false in Wr by lia.
    exists w1, []. split; [done|]. split; [done|].
    exists (drop (Z.to_nat tot) data). split; [|done]. intros Em. apply (f_equal length) in Em.
    revert Em. len.
  - replace (0 <? r) with true in Wr by lia.
    eapply wp_mono; [apply IH; lia|]. intros ok s2 (w2 & out & -> & Wr2 & P). cbn beta in P.
    rewrite view_put_l in *. rewrite view_put in Wr2. fold c in Wr2.
    exists w2, (take (Z.to_nat r) (drop (Z.to_nat tot) data) ++ out).
    split; [by rewrite put_put|]. split; [by eapply wrote_trans|].
    replace (Z.to_nat (tot + r)) with (Z.to_nat tot + Z.to_nat r)%nat in P by lia.
    rewrite <- drop_drop in P. destruct ok; cbn [sent_part] in *.
    + subst out. apply take_drop.
    + destruct P as (more & Nm & Em). exists more. split; [done|].
      by rewrite <- app_assoc, <- Em, take_drop.
Qed.

(** The frame that goes on the wire. *)
Definition wire_frame (t : TransportMessageType) (payload : list byte) (tcp : TcpTransport) : list byte :=
  frame_layout (outgoing_frame t (m_sequenceCounter tcp) payload).

Lemma send_frame_spec t payload (s : S) :
  wp (tcp_SendFrame t payload) (fun ok s' =>
    let tcp := view (V:=TcpTransport) s in
    if negb (m_isConnected tcp) || (m_clientSocket tcp =? INVALID_SOCKET)
    then ok = false /\ s' = s
    else let tcp' := with_sequenceCounter (u32 (m_sequenceCounter tcp + 1)) tcp in
      if Z.of_nat (length payload) >? MAX_PAYLOAD_SIZE
      then ok = false /\ s' = put tcp' s
      else exists w' out,
        s' = put (if ok then tcp' else with_isConnected false tcp') (put w' s) /\
        wrote (m_clientSocket tcp) out (view s) w' /\
        sent_part ok (wire_frame t payload tcp) out) s.
Proof.
  unfold tcp_SendFrame. apply wp_bind, wp_members.
  destruct (negb _ || _); [by apply wp_ret|].
  set (tcp := view (V:=TcpTransport) s). cbn zeta.
  apply wp_bind, wp_modify.
  set (f := outgoing_frame t (m_sequenceCounter tcp) payload).
  destruct (Z.gtb_spec (Z.of_nat (length payload)) MAX_PAYLOAD_SIZE) as [O|O].
  - apply wp_bind. eapply wp_lift; [apply SerializeFrame_oversize; cbn; lia|]. by apply wp_ret.
  - apply wp_bind. eapply wp_lift; [apply SerializeFrame_layout; cbn; lia|].
    fold (wire_frame t payload tcp).
    assert (L : (18 <= length (wire_frame t payload tcp))%nat).
    { unfold wire_frame. rewrite length_frame_layout. lia. }
    destruct (wire_frame t payload tcp) as [|b l] eqn:E; [cbn in L; lia|]. rewrite <- E.
    eapply wp_mono; [apply send_loop_spec; lia|].
    intros ok s' (w' & out & -> & Wr & P). exists w', out.
    rewrite view_put, view_put_r in *. split.
    + by rewrite <- (put_comm (A:=TcpTransport) (B:=W)), put_put.
    + by split.
Qed.

End Send.

(** ** Streams of frames *)

Definition small_frame (f : TransportFrame) : Prop :=
  wf_frame f /\ Z.of_nat (length (payload f)) <= MAX_PAYLOAD_SIZE.

(** A stream: frames, each after some bytes of noise. *)
Definition stream (l : list (list byte * TransportFrame)) : list byte :=
  concat ((fun gf => gf.1 ++ frame_layout gf.2) <$> l).
Definition stream_events (l : list (list byte * TransportFrame)) : list RxEvent :=
  concat ((fun gf => replicate (length gf.1) EvNoise ++ [EvFrame (received gf.2)]) <$> l).

Lemma no_magic_app g tail rest :
  no_magic g tail -> (4 <= length tail)%nat -> no_magic g (tail ++ rest).
Proof.
  intros N L i Hi. rewrite app_assoc, sub_prefix by len. by apply N.
Qed.

Lemma rx_stream l :
  Forall (fun gf => small_frame gf.2 /\ no_magic gf.1 (frame_layout gf.2)) l ->
  rx (stream l) = (stream_events l, []).
Proof.
  induction 1 as [|[g f] l [[Wf Sf] N] _ IH]; [done|]. cbn [fst snd] in *.
  unfold stream, stream_events in *. rewrite !fmap_cons. cbn [concat fst snd].
  rewrite <- !app_assoc. pose proof (length_frame_layout f).
  rewrite rx_noise; [|apply no_magic_app; [done | lia] | len].
  rewrite rx_frame, IH by done. done.
Qed.

(** ** A receiver that is listened to *)

(** A transport whose listener only takes notes. *)
Inductive Note : Type :=
| NoteFrame (f : TransportFrame) | NoteState (isConnected : bool) (peer : string) | NoteError (msg : string).
Record Tapped (W : Type) : Type := { tapped : TcpTransport; wire : W; notes : list Note }.
Arguments Build_Tapped {W}. Arguments tapped {W}. Arguments wire {W}. Arguments notes {W}.
#[export] Instance tapped_tcp W : Lens (Tapped W) TcpTransport :=
  { view := tapped; put := fun t s => Build_Tapped t (wire s) (notes s) }.
#[export] Instance tapped_world W : Lens (Tapped W) W :=
  { view := wire; put := fun w s => Build_Tapped (tapped s) w (notes s) }.
Definition take_note {W} (n : Note) : Proc (Tapped W) unit :=
  fun s => Def (tt, Build_Tapped (tapped s) (wire s) (notes s ++ [n])).
#[export] Instance tapped_listener W : ITransportListener (Tapped W) := {
  OnFrameReceived := fun f => take_note (NoteFrame f);
  OnConnectionStateChanged := fun b peer => take_note (NoteState b peer);
  OnError := fun msg => take_note (NoteError msg);
}.
Definition note_of (ev : RxEvent) : Note :=
  match ev with
  | EvNoise => NoteError err_bad_magic
  | EvOversize => NoteError err_ceiling
  | EvFrame f => NoteFrame f
  | EvBad err => NoteError (err_frame err)
  end.

Section Tapped.
Context {W : Type} `{HS : Winsock W}.

(** The reads on socket [c] return [chunks], one after the other, and then the
    end of the stream or an error. *)
Inductive supplies (c : handle) : W -> list (list byte) -> Prop :=
| supplies_end w r buf w' : recv c 4096 w = ((r, buf), w') -> r <= 0 -> supplies c w []
| supplies_chunk w r buf w' chunks :
    recv c 4096 w = ((r, buf), w') -> 0 < r -> supplies c w' chunks -> supplies c w (take (Z.to_nat r) buf :: chunks).

Lemma notify_tapped (cb : Proc (Tapped W) unit) s : m_listener (tapped s) = true -> notify cb s = cb s.
Proof. intros L. unfold notify, pbind, members, zoom, pget. cbn. rewrite L. by destruct s. Qed.

Lemma deliver_tapped evs t (w : W) log :
  m_listener t = true -> gave_up evs = false ->
  deliver_all evs (Build_Tapped t w log) = Def (tt, Build_Tapped t w (log ++ (note_of <$> evs))).
Proof.
  intros L. revert log. induction evs as [|ev evs IH]; intros log G; cbn [deliver_all].
  { by rewrite app_nil_r. }
  assert (E : deliver ev (Build_Tapped t w log) = Def (tt, Build_Tapped t w (log ++ [note_of ev]))).
  { destruct ev; [|done|..]; cbn [deliver note_of]; by rewrite notify_tapped. }
  unfold pbind at 1. rewrite E. rewrite IH by (by destruct ev). by rewrite <- app_assoc.
Qed.

Lemma gave_up_app evs evs' : gave_up (evs ++ evs') = gave_up evs || gave_up evs'.
Proof. apply existsb_app. Qed.

Lemma receive_tapped chunks t (w : W) log buf fuel :
  supplies (m_clientSocket t) w chunks -> m_isRunning t = true -> m_isConnected t = true -> m_listener t = true ->
  rx_step buf = RxWait -> gave_up (rx_chunks buf chunks) = false -> (length chunks < fuel)%nat ->
  exists w', receive_loop fuel buf (Build_Tapped t w log) =
    Def (true, Build_Tapped (with_isConnected false t) w'
           (log ++ (note_of <$> rx_chunks buf chunks) ++ [NoteState false "Disconnected"])).
Proof.
  intros Su Ru Co Li. revert log buf fuel. induction Su as [w r bs w' E Hr|w r bs w' chunks E Hr Su IH];
    intros log buf [|fuel] Hw G Lf; try (cbn in Lf; lia); cbn [receive_loop];
    unfold pbind at 1, members, zoom at 1; cbn [view tapped tapped_tcp pget put wire notes];
    rewrite Ru, Co; cbn [negb andb]; unfold pbind at 1, sys, zoom, pcall; cbn [view tapped_world wire]; rewrite E.
  - rewrite (proj2 (Z.leb_le r 0)) by done. exists w'.
    unfold pbind at 1. cbn [modify zoom view put tapped tapped_tcp wire notes].
    unfold pbind at 1. by rewrite notify_tapped by done.
  - rewrite (proj2 (Z.leb_gt r 0)) by done. cbv zeta. cbn [rx_chunks] in *. unfold pbind at 1.
    rewrite drain_refines. change (rx_events (length ?b) ?b) with (rx b).
    pose proof (rx_left (buf ++ take (Z.to_nat r) bs)) as Lft.
    fold (rx (buf ++ take (Z.to_nat r) bs)). destruct (rx _) as [evs kept]. cbn [fst snd] in *.
    destruct (gave_up evs) eqn:Ge; [congruence|]. rewrite gave_up_app, Ge in G. cbn in G.
    unfold pbind at 1. cbn [put tapped_world tapped wire notes]. rewrite deliver_tapped by done. cbn [pret].
    destruct (IH (log ++ (note_of <$> evs)) kept fuel) as [w2 E2]; [by apply Lft|done|cbn in Lf; lia|].
    exists w2. unfold pret. rewrite E2. by rewrite fmap_app, <- !app_assoc.
Qed.

Lemma stream_quiet l : gave_up (stream_events l) = false.
Proof.
  unfold stream_events. induction l as [|[g f] l IH]; [done|]. rewrite fmap_cons. cbn [concat].
  rewrite !gave_up_app, IH. cbn [fst snd]. induction (length g) as [|n IHn]; [done | exact IHn].
Qed.

Lemma stream_notes l :
  concat ((fun gf => replicate (length gf.1) (NoteError err_bad_magic) ++ [NoteFrame (received gf.2)]) <$> l) =
  note_of <$> stream_events l.
Proof.
  unfold stream_events. induction l as [|[g f] l IH]; [done|]. rewrite !fmap_cons. cbn [concat].
  rewrite !fmap_app, IH. cbn [fst snd]. by rewrite fmap_replicate.
Qed.
End Tapped.

(** * Properties *)

(** C15: what the receiver does with a buffer.  From every state and whatever the
    callbacks do, the inner loop of [ReceiverWorker] has exactly the effect of
    delivering, in order, the events the specification [rx] finds in the buffer
    (frames, bad frames, noise bytes, oversize), never reads outside the buffer,
    and keeps what [rx] leaves; unless it gave the connection up, that is the
    beginning of a frame and shorter than one maximal frame. *)
Theorem drain_delivers {S : Type} `{LT : Lens S TcpTransport} `{HLi : ITransportListener S} buf (s : S) :
  drain_loop (length buf) buf s = (deliver_all (rx buf).1 ;; pret (rx buf).2) s /\
  (gave_up (rx buf).1 = true \/
   rx_step (rx buf).2 = RxWait /\ Z.of_nat (length (rx buf).2) < 18 + MAX_PAYLOAD_SIZE).
Proof.
  split; [apply drain_refines|]. destruct (gave_up (rx buf).1) eqn:E; [by left|]. right.
  apply rx_left in E. split; [done | by apply rx_wait_bound].
Qed.

(** TCP segmentation does not matter.  However the bytes are split into
    reads, the receiver produces the same events as on the whole stream. *)
Theorem chunking_irrelevant chunks :
  rx_chunks [] chunks = (rx (concat chunks)).1.
Proof. by apply rx_chunks_concat. Qed.

(** C14: framing round trip and resynchronisation.  The peer sends frames of at
    most 64 KiB, each serialized by [SerializeFrame] and preceded by any bytes in
    which the magic number does not occur, and then ends the stream; the network
    splits it into reads in any way.  Then [ReceiverWorker], given more rounds
    than there are reads, ends, and what it tells the listener is: an error for
    each byte of noise, each frame sent, in order and with its type, flags,
    sequence number and payload, and at the end that the connection is gone.
    (transport_spec.md asks for the connection to be dropped at a wrong magic
    number; the code goes on.) *)
Theorem stream_roundtrip {W : Type} `{HS : Winsock W} l outs chunks t (w : W) log fuel :
  Forall (fun gf => small_frame gf.2 /\ no_magic gf.1 (frame_layout gf.2)) l ->
  Forall2 (fun gf out => SerializeFrame gf.2 = Def out) l outs ->
  concat chunks = concat (zip_with (fun gf out => gf.1 ++ out) l outs) ->
  supplies (m_clientSocket t) w chunks ->
  m_isRunning t = true -> m_isConnected t = true -> m_listener t = true -> (length chunks < fuel)%nat ->
  exists w', tcp_ReceiverWorker fuel (Build_Tapped t w log) =
    Def (true, Build_Tapped (with_isConnected false t) w' (log ++
      concat ((fun gf => replicate (length gf.1) (NoteError err_bad_magic) ++ [NoteFrame (received gf.2)]) <$> l) ++
      [NoteState false "Disconnected"])).
Proof.
  intros F S2 Ec Su Ru Co Li Lf.
  assert (Es : concat chunks = stream l).
  { rewrite Ec. unfold stream. clear - F S2. induction S2 as [|[g f] out l outs E _ IH]; [done|].
    apply Forall_cons in F as [[[Wf Sf] _] F]. cbn in *. rewrite SerializeFrame_layout in E by done.
    injection E as <-. by rewrite IH. }
  assert (Ev : rx_chunks [] chunks = stream_events l).
  { rewrite rx_chunks_concat by done. cbn [app]. by rewrite Es, rx_stream. }
  destruct (receive_tapped chunks t w log [] fuel) as [w' E]; [done..|by rewrite Ev, stream_quiet|done|].
  exists w'. unfold tcp_ReceiverWorker. rewrite E, Ev, <- stream_notes. done.
Qed.

(** Sending.  [SendFrame] refuses when not connected, or (having used up a
    sequence number) when the payload is over 64 KiB; otherwise it writes to the
    client socket, over however many partial sends, the layout of the frame with
    the current sequence number, returns true iff all of it went out, and on
    failure has written a proper prefix and marked the transport disconnected.
    It always terminates, and touches no other socket or state. *)
Theorem SendFrame_wire {S W : Type} `{LT : Lens S TcpTransport} `{LW : Lens S W}
    `{LTL : !LensLaws S TcpTransport} `{LWL : !LensLaws S W} `{LD : !LensDisjoint S TcpTransport W}
    `{HS : Winsock W} `{HWM : WinsockModel W} `{HWL : !WinsockLaws W}
    `{HM : CngModel W} `{HWC : !WinsockCng W} t payload (s : S) :
  wp (tcp_SendFrame t payload) (fun ok s' =>
    let tcp := view (V:=TcpTransport) s in
    if negb (m_isConnected tcp) || (m_clientSocket tcp =? INVALID_SOCKET)
    then ok = false /\ s' = s
    else let tcp' := with_sequenceCounter (u32 (m_sequenceCounter tcp + 1)) tcp in
      if Z.of_nat (length payload) >? MAX_PAYLOAD_SIZE
      then ok = false /\ s' = put tcp' s
      else exists w' out,
        s' = put (if ok then tcp' else with_isConnected false tcp') (put w' s) /\
        wrote (m_clientSocket tcp) out (view s) w' /\
        sent_part ok (wire_frame t payload tcp) out) s.
Proof. apply send_frame_spec. Qed.

(** * Witnesses *)
From S2P Require Import Simulator.

(** The smallest program state: a transport and the system. *)
#[export] Instance pair_tcp : Lens (TcpTransport * Sim) TcpTransport :=
  { view := fst; put := fun t s => (t, s.2) }.
#[export] Instance pair_world : Lens (TcpTransport * Sim) Sim :=
  { view := snd; put := fun w s => (s.1, w) }.
#[export] Instance pair_tcp_laws : LensLaws (TcpTransport * Sim) TcpTransport.
Proof. by split; [|intros []|]. Qed.
#[export] Instance pair_world_laws : LensLaws (TcpTransport * Sim) Sim.
Proof. by split; [|intros []|]. Qed.
#[export] Instance pair_disjoint : LensDisjoint (TcpTransport * Sim) TcpTransport Sim.
Proof. by split. Qed.

Definition demo_tcp : TcpTransport :=
  with_isConnected true (with_clientSocket 9 new_TcpTransport).
Definition demo_frame : TransportFrame := outgoing_frame UNLOCK_RESP 1 [x01; x02; x03].

Lemma demo_frame_small : small_frame demo_frame.
Proof. split; [split; vm_compute; done | vm_compute; done]. Qed.

(** Two bytes of noise and two frames, read three bytes at a time at first. *)
Definition demo_stream : list (list byte * TransportFrame) :=
  [([to_u8 0x50; to_u8 0x4B], demo_frame); ([], demo_frame)].

Lemma demo_stream_ok :
  Forall (fun gf => small_frame gf.2 /\ no_magic gf.1 (frame_layout gf.2)) demo_stream.
Proof.
  repeat constructor; try apply demo_frame_small; cbn [fst snd].
  - intros i Hi. destruct i as [|[|i]]; [vm_compute; congruence..|]. cbn in Hi. lia.
  - intros i Hi. cbn in Hi. lia.
Qed.

Definition demo_chunks : list (list byte) := [take 3 (stream demo_stream); drop 3 (stream demo_stream)].
Definition demo_running : TcpTransport := with_listener true (with_isRunning true demo_tcp).

Lemma demo_supplies : supplies 9 (set_inbox demo_chunks sim0) demo_chunks.
Proof.
  eapply (supplies_chunk 9 _ 3 (take 3 (stream demo_stream))); [reflexivity|done|].
  eapply (supplies_chunk 9 _ 41 (drop 3 (stream demo_stream))); [reflexivity|done|].
  eapply supplies_end; [reflexivity | done].
Qed.

Lemma stream_roundtrip_witness :
  exists w', tcp_ReceiverWorker 3 (Build_Tapped demo_running (set_inbox demo_chunks sim0) []) =
    Def (true, Build_Tapped (with_isConnected false demo_running) w'
      [NoteError err_bad_magic; NoteError err_bad_magic; NoteFrame (received demo_frame);
       NoteFrame (received demo_frame); NoteState false "Disconnected"]).
Proof.
  assert (E : concat demo_chunks =
    concat (zip_with (fun gf out => gf.1 ++ out) demo_stream (frame_layout <$> demo_stream.*2))).
  { unfold demo_chunks. cbn [concat]. rewrite app_nil_r, take_drop. reflexivity. }
  assert (S2 : Forall2 (fun gf out => SerializeFrame gf.2 = Def out) demo_stream (frame_layout <$> demo_stream.*2))
    by (repeat constructor; apply SerializeFrame_layout; vm_compute; discriminate).
  exact (stream_roundtrip demo_stream _ demo_chunks demo_running _ [] 3 demo_stream_ok S2 E demo_supplies
    eq_refl eq_refl eq_refl ltac:(cbn; lia)).
Defined.

(** The socket accepts five bytes, then the rest. *)
Definition demo_state : TcpTransport * Sim := (demo_tcp, set_quota [5] sim0).

Lemma SendFrame_wire_witness :
  (exists w', tcp_SendFrame UNLOCK_RESP [x01; x02; x03] demo_state =
     Def (true, (with_sequenceCounter 2 demo_tcp, w')) /\ sent w' 9 = frame_layout demo_frame) /\
  wp (tcp_SendFrame UNLOCK_RESP [x01; x02; x03]) (fun ok s' =>
    let tcp := view (V:=TcpTransport) demo_state in
    if negb (m_isConnected tcp) || (m_clientSocket tcp =? INVALID_SOCKET)
    then ok = false /\ s' = demo_state
    else let tcp' := with_sequenceCounter (u32 (m_sequenceCounter tcp + 1)) tcp in
      if Z.of_nat (length [x01; x02; x03]) >? MAX_PAYLOAD_SIZE
      then ok = false /\ s' = put tcp' demo_state
      else exists w' out,
        s' = put (if ok then tcp' else with_isConnected false tcp') (put w' demo_state) /\
        wrote (m_clientSocket tcp) out (view demo_state) w' /\
        sent_part ok (wire_frame UNLOCK_RESP [x01; x02; x03] tcp) out) demo_state.
Proof.
  split.
  - eexists. split; [vm_compute; reflexivity | vm_compute; reflexivity].
  - exact (SendFrame_wire UNLOCK_RESP [x01; x02; x03] demo_state).
Defined.
