(* ===== verification/AgentService.v ===== *)
(** * AgentService: the unlock protocol on the PC

    Models windows/agent/AgentService.cpp: the agent's members are a record over
    a transport state [T] and a world [W]; its methods are procedures on that
    record, and the three listener callbacks make it an [ITransportListener].
    Theorems are proved against the [FrameSender] interface; the last section
    plugs in the TCP transport and follows bytes from the socket to the
    challenge store.  Console output is not modelled. *)
From S2P Require Import Prelude Bytes Protocol FrameProtocol ChallengeStore Platform DerSignature.
From S2P Require Import CryptoEngine DeviceRegistry ChallengeGenerator TransportInterface TcpTransport.

(** ** State *)
Record Agent (T W : Type) : Type := {
  m_port : Z;
  m_pcId : list byte;
  m_cryptoEngine : CryptoEngine;
  m_challengeStore : Store;
  m_deviceRegistry : Devices;
  m_transport : T;
  world : W;
}.
Arguments m_port {T W}. Arguments m_pcId {T W}. Arguments m_cryptoEngine {T W}.
Arguments m_challengeStore {T W}. Arguments m_deviceRegistry {T W}.
Arguments m_transport {T W}. Arguments world {T W}.

Section Setters.
Context {T W : Type}.
Implicit Types (a : Agent T W).

Definition with_engine v a : Agent T W :=
  {| m_port := m_port a; m_pcId := m_pcId a; m_cryptoEngine := v;
     m_challengeStore := m_challengeStore a; m_deviceRegistry := m_deviceRegistry a;
     m_transport := m_transport a; world := world a |}.
Definition with_store v a : Agent T W :=
  {| m_port := m_port a; m_pcId := m_pcId a; m_cryptoEngine := m_cryptoEngine a;
     m_challengeStore := v; m_deviceRegistry := m_deviceRegistry a;
     m_transport := m_transport a; world := world a |}.
Definition with_devices v a : Agent T W :=
  {| m_port := m_port a; m_pcId := m_pcId a; m_cryptoEngine := m_cryptoEngine a;
     m_challengeStore := m_challengeStore a; m_deviceRegistry := v;
     m_transport := m_transport a; world := world a |}.
Definition with_transport v a : Agent T W :=
  {| m_port := m_port a; m_pcId := m_pcId a; m_cryptoEngine := m_cryptoEngine a;
     m_challengeStore := m_challengeStore a; m_deviceRegistry := m_deviceRegistry a;
     m_transport := v; world := world a |}.
Definition with_world v a : Agent T W :=
  {| m_port := m_port a; m_pcId := m_pcId a; m_cryptoEngine := m_cryptoEngine a;
     m_challengeStore := m_challengeStore a; m_deviceRegistry := m_deviceRegistry a;
     m_transport := m_transport a; world := v |}.
End Setters.

#[export] Instance agent_transport T W : Lens (Agent T W) T :=
  { view := m_transport; put := with_transport }.
#[export] Instance agent_world T W : Lens (Agent T W) W := { view := world; put := with_world }.
#[export] Instance agent_transport_laws T W : LensLaws (Agent T W) T.
Proof. by split; [|intros []|]. Qed.
#[export] Instance agent_world_laws T W : LensLaws (Agent T W) W.
Proof. by split; [|intros []|]. Qed.

(** ** Methods *)

(** The loop that writes both timestamps; [n] is [i + 1]. *)
Fixpoint write_times_loop (n : nat) (created expires offset : Z) (payload : list byte)
    : Res (list byte) :=
  match n with
  | O => Def payload
  | S i =>
    let? payload := poke payload (offset + (7 - Z.of_nat i)) (byte_at created (Z.of_nat i * 8)) in
    let? payload := poke payload (offset + 8 + (7 - Z.of_nat i)) (byte_at expires (Z.of_nat i * 8)) in
    write_times_loop i created expires offset payload
  end.

(** The 80-byte UNLOCK_REQ payload. *)
Definition unlock_request (record : ChallengeRecord) : Res (list byte) :=
  let payload := replicate 80 x00 in
  let? payload := memcpy_to payload 0 (rec_sessionId record) in
  let? payload := memcpy_to payload 16 (rec_pcId record) in
  let? payload := memcpy_to payload 32 (rec_challenge record) in
  write_times_loop 8 (creationTimestampMs record) (rec_expirationTimestampMs record) 64 payload.

(** [{static_cast<uint8_t>((err >> 8) & 0xFF), static_cast<uint8_t>(err & 0xFF)}] *)
Definition error_payload (err : ErrorCode) : list byte :=
  [byte_at (ErrorCode_value err) 8; byte_at (ErrorCode_value err) 0].

Section Agent.
Context {T W : Type} `{HC : Cng W} `{HT : Clock W}.
Abbreviation S := (Agent T W).

Definition agent_RegisterDevice (deviceId : list byte) (name : string)
    (rawPublicKeyXy : option (list byte)) (keyLen : Z) : Proc S bool :=
  let* a := pget in
  let* '(b, devices) := zoom (V:=W)
    (RegisterDevice (m_cryptoEngine a) deviceId name rawPublicKeyXy keyLen (m_deviceRegistry a)) in
  let* a := pget in
  pput (with_devices devices a) ;;
  pret b.

Definition ProcessUnlockResponse (frame : TransportFrame) : Proc S ErrorCode :=
  let data := payload frame in
  let size := Z.of_nat (length data) in
  if size <? 108 + 8 then pret INVALID_REQUEST else
  let* r := plift (Deserialize (Some data) 108 new_AuthPayload) in
  if negb (Protocol.ok r) then pret (Protocol.outError r) else
  let payloadP := outPayload r in
  let sigBytes := drop 108 data in
  let sigLen := size - 108 in
  let* nowMs := zoom (V:=W) (pcall system_clock_ms) in
  let* a := pget in
  let q := {| q_sessionId := sessionId payloadP; q_deviceId := deviceId payloadP;
              q_pcId := m_pcId a; q_challenge := challenge payloadP |} in
  let '(valErr, _) := ValidateChallenge q nowMs blank_record (m_challengeStore a) in
  if negb (bool_decide (valErr = SUCCESS)) then pret valErr else
  let hPubKey := GetDevicePublicKey (deviceId payloadP) (m_deviceRegistry a) in
  if hPubKey =? NULL then pret UNKNOWN_DEVICE else
  let* sigValid := zoom (V:=W)
    (VerifySignature (m_cryptoEngine a) hPubKey (Some data) 108 (Some sigBytes) sigLen) in
  if negb sigValid then pret INVALID_SIGNATURE else
  let* a := pget in
  let '(consumeErr, store) := ValidateAndConsumeChallenge q nowMs (m_challengeStore a) in
  pput (with_store store a) ;;
  pret consumeErr.

Context `{HF : FrameSender S}.

Definition InitiateUnlockRequest (deviceId : list byte) (record : ChallengeRecord)
    : Proc S ChallengeRecord :=
  let* a := pget in
  let* record := zoom (V:=W) (GenerateChallenge (m_cryptoEngine a) deviceId (m_pcId a) record) in
  let* a := pget in
  pput (with_store (AddChallenge record (m_challengeStore a)) a) ;;
  let* payload := plift (unlock_request record) in
  let* connected := IsConnected in
  (if connected : bool then SendFrame UNLOCK_REQ payload else pret false) ;;
  pret record.

Definition agent_OnFrameReceived (frame : TransportFrame) : Proc S unit :=
  match messageType frame with
  | UNLOCK_RESP =>
    let* err := ProcessUnlockResponse frame in
    let respPayload := error_payload err in
    SendFrame (if bool_decide (err = SUCCESS) then UNLOCK_RESP else ERROR_MSG) respPayload ;;
    pret tt
  | _ => pret tt
  end.

(** The other two callbacks only print. *)
#[export] Instance agent_listener : ITransportListener S := {
  OnFrameReceived := agent_OnFrameReceived;
  OnConnectionStateChanged := fun _ _ => pret tt;
  OnError := fun _ => pret tt;
}.

End Agent.

Section Lifecycle.
Context {T W : Type} `{HC : Cng W} `{HI : ITransport (Agent T W)}.
Abbreviation S := (Agent T W).

Definition Start : Proc S bool :=
  let* a := pget in
  let* '(b, e) := zoom (V:=W) (Initialize (m_cryptoEngine a)) in
  let* a := pget in
  pput (with_engine e a) ;;
  if negb b then pret false else
  StartListener (m_port a).

Definition Stop : Proc S unit := Close.

(** The constructor, given the fresh transport of [std::make_unique]. *)
Definition new_AgentService (listenPort : Z) (pcId : list byte) (t : T) (w : W)
    : Res (unit * S) :=
  SetListener true
    {| m_port := listenPort; m_pcId := pcId; m_cryptoEngine := new_CryptoEngine;
       m_challengeStore := ∅; m_deviceRegistry := ∅; m_transport := t; world := w |}.

(** The destructor: its body, then the members from the last to the first (the
    transport's own destructor closes it again). *)
Definition destroy_AgentService : Proc S unit :=
  Stop ;;
  Close ;;
  let* a := pget in
  zoom (V:=W) (destroy_DeviceRegistry (m_deviceRegistry a)) ;;
  zoom (V:=W) (destroy_CryptoEngine (m_cryptoEngine a)).

End Lifecycle.

(** ** What an unlock response must prove *)

Section Laws.
Context {T W : Type} `{HC : Cng W} `{HT : Clock W} `{HM : CngModel W} `{HL : !CngLaws W}
        `{HTL : !ClockLaws W}.
Implicit Types (a : Agent T W) (w : W).

(** The part of the agent that belongs to it rather than to the transport. *)
Definition agent_core a : Z * list byte * CryptoEngine * Store * Devices * gmap handle CngObj :=
  (m_port a, m_pcId a, m_cryptoEngine a, m_challengeStore a, m_deviceRegistry a, obj (world a)).

(** Everything but the store, the clock and the random source is untouched. *)
Definition same_but_store a a' : Prop :=
  m_port a' = m_port a /\ m_pcId a' = m_pcId a /\ m_cryptoEngine a' = m_cryptoEngine a /\
  m_deviceRegistry a' = m_deviceRegistry a /\ obj (world a') = obj (world a).

Lemma same_refl a : same_but_store a a.
Proof. done. Qed.

Lemma same_trans a b c : same_but_store a b -> same_but_store b c -> same_but_store a c.
Proof. unfold same_but_store. intuition congruence. Qed.

(** The response carries a payload [P], signed with the key trusted for the
    device it names, for the challenge in record [rec] of the store, which is
    outstanding, was issued for that device and this PC, and has not expired at
    [now]. *)
Record authorised_by a (data : list byte) (now : Z) (rec : ChallengeRecord)
    (P : AuthPayload) (signature blob raw : list byte) : Prop := {
  au_data : data = layout P ++ signature;
  au_wf : wf_payload P;
  au_header : valid_header P;
  au_record : m_challengeStore a !! BytesToKey (sessionId P) = Some rec;
  au_outstanding : state rec = OUTSTANDING;
  au_in_time : now <= rec_expirationTimestampMs rec;
  au_device : rec_deviceId rec = deviceId P;
  au_pc : rec_pcId rec = m_pcId a;
  au_challenge : rec_challenge rec = challenge P;
  au_trusted : trusted (m_deviceRegistry a) (obj (world a)) (deviceId P) = Some blob;
  au_raw_value : signature_value signature (Z.of_nat (length signature)) = Some raw;
  au_signed : ecdsa_verify blob (sha256 (layout P)) raw = true;
}.
Definition authorises a (data : list byte) (now : Z) (rec : ChallengeRecord) : Prop :=
  exists P signature blob raw, authorised_by a data now rec P signature blob raw.

(** The session a response is about: bytes 36 to 51. *)
Definition session_of (data : list byte) : list byte := sub 36 16 data.

Lemma authorises_session a data now rec :
  authorises a data now rec -> m_challengeStore a !! BytesToKey (session_of data) = Some rec.
Proof.
  intros (P & sg & blob & raw & [-> Wf _ Hr _ _ _ _ _ _ _ _]). unfold session_of.
  pose proof (f_equal sessionId (fields_at_layout P sg Wf)) as E. cbn in E. by rewrite E.
Qed.

Lemma deserialize_108 data q :
  (108 <= length data)%nat ->
  exists r, Deserialize (Some data) 108 q = Def r /\
    (Protocol.ok r = true -> outPayload r = fields_at data /\ valid_header (fields_at data)) /\
    (Protocol.ok r = false -> Protocol.outError r <> SUCCESS).
Proof.
  intros L. rewrite Deserialize_spec by lia. rewrite decide_True by done. eexists. split; [done|].
  split.
  - by intros (? & ? & _)%header_check_ok.
  - unfold header_check. repeat case_decide; done.
Qed.

Lemma unlock_spec base frame a :
  registry_ok base (m_deviceRegistry a) (obj (world a)) ->
  wlp (ProcessUnlockResponse frame) (fun e a' =>
    same_but_store a a' /\ m_transport a' = m_transport a /\
    if bool_decide (e = SUCCESS)
    then exists rec, authorises a (payload frame) (system_clock_ms (world a)).1 rec /\
         m_challengeStore a' = <[BytesToKey (session_of (payload frame)) := with_state CONSUMED rec]>
                                 (m_challengeStore a)
    else m_challengeStore a' = m_challengeStore a) a.
Proof.
  intros R. unfold ProcessUnlockResponse. set (data := payload frame). cbn zeta.
  destruct (Z.ltb_spec (Z.of_nat (length data)) (108 + 8)) as [|L]; [by apply wp_ret|].
  destruct (deserialize_108 data new_AuthPayload) as (r & Er & Rok & Rbad); [lia|].
  apply wp_bind. eapply wp_lift; [exact Er|].
  destruct (Protocol.ok r) eqn:Eok; cbn [negb].
  2: { apply wp_ret. by rewrite bool_decide_false by auto. }
  destruct (Rok eq_refl) as [-> Hh]. clear Rok Rbad.
  set (P := fields_at data) in *.
  apply wp_bind, wp_zoom, wp_call. intros now w1 Ew. cbn [view agent_world] in Ew.
  pose proof (clock_obj (world a)) as O1. rewrite Ew in O1. cbn [snd] in O1.
  apply wp_bind, wp_get. cbn [put agent_world with_world m_pcId m_challengeStore m_deviceRegistry m_cryptoEngine].
  set (q := {| q_sessionId := sessionId P; q_deviceId := deviceId P; q_pcId := m_pcId a;
               q_challenge := challenge P |}).
  rewrite Validate_verdict.
  destruct (m_challengeStore a !! BytesToKey (q_sessionId q)) as [rec|] eqn:Erec.
  2: { by apply wp_ret. }
  case_bool_decide as V; cbn [negb].
  2: { apply wp_ret. rewrite bool_decide_false by done. done. }
  pose proof (get_key_spec base _ (deviceId P) (world a) R) as G.
  destruct (trusted (m_deviceRegistry a) (obj (world a)) (deviceId P)) as [blob|] eqn:Et.
  2: { destruct G as [-> _]. rewrite Z.eqb_refl. by apply wp_ret. }
  destruct G as (N & _ & alg & Ko). rewrite (proj2 (Z.eqb_neq _ _) N).
  apply wp_bind, wp_zoom. cbn [view agent_world world].
  eapply wp_mono; [apply Verify_spec|]. intros b w2 (O2 & Sound). cbn beta in Sound. change (obj w2 = obj w1) in O2.
  cbn [put agent_world with_world].
  destruct b; cbn [negb].
  2: { apply wp_ret. cbn. split; [|done]. repeat split; cbn; congruence. }
  destruct (Sound eq_refl) as (p & s & [= <-] & [= <-] & _ & (alg' & blob' & raw & Ko' & Sv & Ev)).
  assert (Kw : obj w1 !! GetDevicePublicKey (deviceId P) (m_deviceRegistry a) = Some (KeyObj alg' blob'))
    by exact Ko'.
  rewrite O1, Ko in Kw. injection Kw as <- <-.
  apply wp_bind, wp_get. cbn [m_challengeStore with_world put agent_world].
  rewrite VAC_verdict, Erec, V. apply wp_bind, wp_put, wp_ret.
  rewrite bool_decide_true by done. cbn. split; [repeat split; cbn; congruence|]. split; [done|].
  assert (L108 : (108 <= length data)%nat) by lia.
  exists rec. split; [|done]. rewrite Ew. cbn [fst].
  apply verdict_success in V as (V1 & V2 & V3 & V4 & V5).
  rewrite wrap_small in Ev by lia.
  exists P, (drop 108 data), blob, raw. split; try done.
  - unfold P. by rewrite layout_fields_at, take_drop.
  - by apply wf_fields_at.
  - rewrite <- Sv. f_equal. len.
  - unfold P. by rewrite layout_fields_at.
Qed.

(** A well-signed response in time is accepted. *)
Lemma unlock_good `{HV : !CngLive W} base frame a P r s blob rec :
  registry_ok base (m_deviceRegistry a) (obj (world a)) ->
  healthy (system_clock_ms (world a)).2 ->
  obj (world a) !! m_hSha256Alg (m_cryptoEngine a) = Some (AlgObj SHA256 false) ->
  0 <= r < 2 ^ 256 -> 0 <= s < 2 ^ 256 -> length (der_encode r s) <> 64%nat ->
  authorised_by a (payload frame) (system_clock_ms (world a)).1 rec P (der_encode r s) blob (raw_rs r s) ->
  wp (ProcessUnlockResponse frame) (fun e a' =>
    e = SUCCESS /\ same_but_store a a' /\
    m_challengeStore a' = <[BytesToKey (sessionId P) := with_state CONSUMED rec]> (m_challengeStore a)) a.
Proof.
  intros R Hw Ha Hr Hs L64 [Ed Wf Hh Er O Tm Dv Pc Ch Tr _ Sg].
  unfold ProcessUnlockResponse. rewrite Ed.
  pose proof (length_layout P Wf) as LP. pose proof (length_der_encode r s) as Ld.
  set (sig := der_encode r s) in *. set (data := layout P ++ sig).
  assert (Ldata : length data = (108 + length sig)%nat) by (unfold data; len).
  cbn zeta. replace (_ <? 108 + 8) with false by lia.
  apply wp_bind. eapply wp_lift.
  { rewrite Deserialize_spec by lia. rewrite decide_True by done. unfold data.
    by rewrite header_check_valid; rewrite fields_at_layout. }
  cbn [Protocol.ok negb outPayload].
  apply wp_bind, wp_zoom, wp_call. intros now w1 Ew. cbn [view agent_world] in Ew.
  pose proof (clock_obj (world a)) as O1. rewrite Ew in O1, Hw, Tm. cbn [fst snd] in O1, Hw, Tm.
  apply wp_bind, wp_get. cbn [put agent_world with_world m_pcId m_challengeStore m_deviceRegistry m_cryptoEngine].
  set (q := {| q_sessionId := sessionId P; q_deviceId := deviceId P; q_pcId := m_pcId a;
               q_challenge := challenge P |}).
  assert (V : verdict q now rec = SUCCESS) by (by apply verdict_success).
  rewrite Validate_verdict. cbn [q_sessionId q]. rewrite Er, V.
  rewrite bool_decide_true by done. cbn [negb].
  pose proof (get_key_spec base _ (deviceId P) (world a) R) as G. rewrite Tr in G.
  destruct G as (N & _ & alg & Ko). rewrite (proj2 (Z.eqb_neq _ _) N).
  apply wp_bind, wp_zoom.
  replace (Z.of_nat (length data) - 108) with (Z.of_nat (length sig)) by lia.
  replace (drop 108 data) with sig by (unfold data; by rewrite drop_app_exact).
  eapply wp_mono.
  { apply (Verify_good _ _ alg blob data 108 sig (raw_rs r s)).
    - exact Hw.
    - change (obj w1 !! m_hSha256Alg (m_cryptoEngine a) = Some (AlgObj SHA256 false)). by rewrite O1.
    - done.
    - change (obj w1 !! GetDevicePublicKey (deviceId P) (m_deviceRegistry a) = Some (KeyObj alg blob)).
      by rewrite O1.
    - lia.
    - lia.
    - intros E. rewrite E in Ld. cbn in Ld. lia.
    - by apply signature_value_der.
    - change (Z.to_nat 108) with 108%nat. unfold data. by rewrite take_app_exact. }
  intros b w2 (-> & O2 & Hw2). change (obj w2 = obj w1) in O2. cbn [negb].
  apply wp_bind, wp_get. cbn [m_challengeStore with_world put agent_world].
  rewrite VAC_verdict. cbn [q_sessionId q]. rewrite Er, V.
  apply wp_bind, wp_put, wp_ret. split; [done|]. split; [|done].
  repeat split; cbn; congruence.
Qed.

(** ** The unlock request *)

Definition request_layout (r : ChallengeRecord) : list byte :=
  rec_sessionId r ++ rec_pcId r ++ rec_challenge r ++
  be_bytes 8 (creationTimestampMs r) ++ be_bytes 8 (rec_expirationTimestampMs r).

Lemma poke_skip pre l j b :
  0 <= j -> poke (pre ++ l) (Z.of_nat (length pre) + j) b = let? l' := poke l j b in Def (pre ++ l').
Proof.
  intros Hj. unfold poke, memcpy_to. cbn [length].
  rewrite length_app. destruct (Z.leb_spec (j + Z.of_nat 1) (Z.of_nat (length l))).
  - replace (_ && _) with true by lia. replace (_ && _) with true by lia. cbn [mbind Res_bind].
    f_equal. rewrite take_app_ge, drop_app_ge by lia. rewrite <- app_assoc. do 2 f_equal; [f_equal; lia|].
    f_equal. f_equal. lia.
  - replace (_ && _) with false by lia. by replace (_ && _) with false by lia.
Qed.

Lemma write_times_skip n c e pre l :
  (n <= 8)%nat ->
  write_times_loop n c e (Z.of_nat (length pre)) (pre ++ l) =
  (let? l' := write_times_loop n c e 0 l in Def (pre ++ l')).
Proof.
  revert l. induction n as [|n IH]; intros l Hn; cbn [write_times_loop]; [done|].
  rewrite poke_skip by lia. change (0 + (7 - Z.of_nat n)) with (7 - Z.of_nat n).
  destruct (poke l _ _) as [l1|]; cbn [mbind Res_bind]; [|done].
  replace (Z.of_nat (length pre) + 8 + (7 - Z.of_nat n))
    with (Z.of_nat (length pre) + (8 + (7 - Z.of_nat n))) by lia.
  rewrite poke_skip by lia. change (0 + 8 + (7 - Z.of_nat n)) with (8 + (7 - Z.of_nat n)).
  destruct (poke l1 _ _) as [l2|]; cbn [mbind Res_bind]; [|done]. apply IH. lia.
Qed.

Lemma write_times_fresh c e :
  write_times_loop 8 c e 0 (replicate 16 x00) = Def (be_bytes 8 c ++ be_bytes 8 e).
Proof.
  cbn. unfold poke, memcpy_to. cbn. by rewrite !byte_at_to_u8.
Qed.

Lemma unlock_request_layout r :
  wf_record r -> unlock_request r = Def (request_layout r).
Proof.
  intros [Ls _ Lp Lc]. unfold unlock_request.
  rewrite (memcpy_fill [] _ 80 0) by len. cbn [mbind Res_bind app].
  rewrite memcpy_fill by len. cbn [mbind Res_bind].
  rewrite memcpy_fill by len. cbn [mbind Res_bind].
  rewrite Ls, Lp, Lc. change (80 - 16 - 16 - 32)%nat with 16%nat.
  replace 64 with (Z.of_nat (length ((rec_sessionId r ++ rec_pcId r) ++ rec_challenge r))) by len.
  rewrite write_times_skip by lia. rewrite write_times_fresh. cbn [mbind Res_bind].
  unfold request_layout. by rewrite <- !app_assoc.
Qed.

Section Sender.
Context `{HF : FrameSender (Agent T W)}.
Context `{HSL : !SenderLaws (Agent T W) _ agent_core}.

Lemma initiate_spec did r0 a :
  wf_record r0 -> length did = 16%nat -> length (m_pcId a) = 16%nat ->
  wp (InitiateUnlockRequest did r0) (fun r a' =>
    wf_record r /\ rec_deviceId r = did /\ rec_pcId r = m_pcId a /\ state r = OUTSTANDING /\
    rec_expirationTimestampMs r = u64 (creationTimestampMs r + 30000) /\
    m_challengeStore a' = AddChallenge r (m_challengeStore a) /\ same_but_store a a') a.
Proof.
  intros Wf Ld Lp. unfold InitiateUnlockRequest.
  apply wp_bind, wp_get. apply wp_bind, wp_zoom.
  eapply wp_mono; [by apply generate_spec|].
  intros r w1 (O1 & Wr & D & P & St & _ & Ex). change (obj w1 = obj (world a)) in O1.
  apply wp_bind, wp_get. apply wp_bind, wp_put.
  apply wp_bind. eapply wp_lift; [by apply unlock_request_layout|].
  apply wp_bind. eapply wp_mono; [apply connected_core|]. intros c a1 ->.
  apply wp_bind. eapply wp_mono.
  { instantiate (1 := fun _ a' => agent_core a' = agent_core (with_store (AddChallenge r (m_challengeStore a)) (with_world w1 a))).
    destruct c; [apply send_core | by apply wp_ret]. }
  intros b a2 C. apply wp_ret. unfold agent_core in C. injection C as C1 C2 C3 C4 C5 C6.
  do 5 (split; [done|]). split; [done|]. repeat split; congruence.
Qed.

Lemma on_frame_spec base frame a :
  registry_ok base (m_deviceRegistry a) (obj (world a)) ->
  wlp (agent_OnFrameReceived frame) (fun _ a' =>
    same_but_store a a' /\
    (m_challengeStore a' = m_challengeStore a \/
     exists now rec, messageType frame = UNLOCK_RESP /\ authorises a (payload frame) now rec /\
       m_challengeStore a' = <[BytesToKey (session_of (payload frame)) := with_state CONSUMED rec]>
                               (m_challengeStore a))) a.
Proof.
  intros R. unfold agent_OnFrameReceived.
  destruct (messageType frame) eqn:M; try by (apply wp_ret; split; [done | by left]).
  eapply wp_seq; [by apply (unlock_spec base)|]. intros e a1 (Sm & _ & St).
  apply wp_bind. eapply wp_mono; [apply wpx_weaken, send_core|]. intros b a2 C. apply wp_ret.
  unfold agent_core in C. injection C as C1 C2 C3 C4 C5 C6.
  split.
  - apply (same_trans a a1); [done|]. repeat split; congruence.
  - rewrite C4. case_bool_decide; [|by left]. right. destruct St as (rec & A & E). eauto.
Qed.

End Sender.

End Laws.

(** ** Over TCP: from bytes to the store *)

Section OverTcp.
Context {W : Type} `{HC : Cng W} `{HT : Clock W} `{HM : CngModel W} `{HL : !CngLaws W}
        `{HTL : !ClockLaws W} `{HS : Winsock W} `{HWM : WinsockModel W} `{HWL : !WinsockLaws W}
        `{HWC : !WinsockCng W}.
Implicit Types (a : Agent TcpTransport W).

#[export] Instance agent_tcp_disjoint : LensDisjoint (Agent TcpTransport W) TcpTransport W.
Proof. by split. Qed.

#[export] Instance agent_tcp_sender_laws :
  SenderLaws (Agent TcpTransport W) _ (agent_core (T:=TcpTransport) (W:=W)).
Proof.
  split.
  - intros t p s. cbn [SendFrame tcp_sender].
    refine (wp_mono _ _ _ _ _ (send_frame_spec t p s) _). intros ok s' P. cbv zeta in P.
    destruct (negb _ || _); [by destruct P as [_ ->]|].
    destruct (_ >? _); [by destruct P as [_ ->]|].
    destruct P as (w' & out & -> & Wr & _). pose proof (wrote_obj _ _ _ _ Wr) as O.
    unfold agent_core. cbn. f_equal. exact O.
  - intros s. cbn [IsConnected tcp_sender]. unfold tcp_IsConnected. apply wp_bind, wp_members. by apply wp_ret.
Qed.

(** Between two states only authorised records were consumed, by frames among
    [evs]. *)
Definition only_consumes a a' (evs : list RxEvent) : Prop :=
  same_but_store a a' /\
  forall k, m_challengeStore a' !! k = m_challengeStore a !! k \/
    exists f now rec, EvFrame f ∈ evs /\ messageType f = UNLOCK_RESP /\
      authorises a (payload f) now rec /\ k = BytesToKey (session_of (payload f)) /\
      m_challengeStore a' !! k = Some (with_state CONSUMED rec).

Lemma only_consumes_same a a' : 
  same_but_store a a' -> m_challengeStore a' = m_challengeStore a -> only_consumes a a' [].
Proof. intros Sm E. split; [done|]. intros k. left. by rewrite E. Qed.

(** Authorisation looks only at the record and at what steps preserve. *)
Lemma authorises_back a a1 data now rec :
  same_but_store a a1 -> authorises a1 data now rec ->
  m_challengeStore a !! BytesToKey (session_of data) = Some rec -> authorises a data now rec.
Proof.
  intros (_ & P2 & _ & P4 & P5) Au Er.
  pose proof (authorises_session _ _ _ _ Au) as Es.
  destruct Au as (P & sg & blob & raw & [A1 A2 A3 A4 A5 A6 A7 A8 A9 A10 A11 A12]).
  exists P, sg, blob, raw. split; try done.
  - rewrite <- Er. f_equal. f_equal. rewrite A1. unfold session_of.
    pose proof (f_equal sessionId (fields_at_layout P sg A2)) as E. cbn in E. by rewrite E.
  - by rewrite A8, P2.
  - by rewrite <- P4, <- P5.
Qed.

Lemma only_consumes_step a a1 a2 evs ev :
  only_consumes a a1 evs -> only_consumes a1 a2 [ev] -> only_consumes a a2 (evs ++ [ev]).
Proof.
  intros [S1 H1] [S2 H2]. split; [by apply (same_trans a a1)|]. intros k.
  destruct (H2 k) as [E2|(f & now & rec & I & M & Au & Ek & E2)].
  - rewrite E2. destruct (H1 k) as [E1|(f & now & rec & I & R)]; [by left|].
    right. exists f, now, rec. split; [set_solver | done].
  - right. exists f, now, rec. split; [set_solver|]. split; [done|]. split; [|done].
    apply (authorises_back a a1); [done..|].
    pose proof (authorises_session _ _ _ _ Au) as Es.
    destruct Au as (P & sg & blob & raw & Ab). pose proof (au_outstanding _ _ _ _ _ _ _ _ Ab) as O.
    destruct (H1 k) as [E1|(f' & now' & rec' & _ & _ & _ & _ & E1)]; subst k; [congruence|].
    rewrite Es in E1. injection E1 as ->. done.
Qed.

Lemma deliver_spec base ev a :
  registry_ok base (m_deviceRegistry a) (obj (world a)) ->
  wlp (deliver ev) (fun _ a' => only_consumes a a' [ev]) a.
Proof.
  intros R.
  assert (Q : forall a', same_but_store a a' -> m_challengeStore a' = m_challengeStore a ->
                         only_consumes a a' [ev]).
  { intros a' Sm E. split; [done|]. intros k. left. by rewrite E. }
  assert (Nt : forall cb : Proc (Agent TcpTransport W) unit,
    wlp cb (fun _ a' => only_consumes a a' [ev]) a -> wlp (notify cb) (fun _ a' => only_consumes a a' [ev]) a).
  { intros cb H. unfold notify. apply wp_bind, wp_members. destruct (m_listener _); [done|].
    apply wp_ret. by apply Q. }
  destruct ev as [| |f|err]; cbn [deliver].
  - apply Nt, wp_ret. by apply Q.
  - apply wp_bind. unfold notify. apply wp_bind, wp_members.
    destruct (m_listener _); apply wp_ret, wp_modify; by apply Q.
  - apply Nt. cbn [OnFrameReceived agent_listener].
    eapply wp_mono; [by apply (on_frame_spec base)|]. intros _ a' (Sm & [E|(now & rec & M & Au & E)]).
    + by apply Q.
    + split; [done|]. intros k. destruct (decide (k = BytesToKey (session_of (payload f)))) as [->|N].
      * right. exists f, now, rec. split; [set_solver|]. do 3 (split; [done|]).
        by rewrite E, lookup_insert_eq.
      * left. by rewrite E, lookup_insert_ne.
  - apply Nt, wp_ret. by apply Q.
Qed.

Lemma deliver_all_spec base done evs a0 a :
  only_consumes a0 a done ->
  registry_ok base (m_deviceRegistry a) (obj (world a)) ->
  wlp (deliver_all evs) (fun _ a' => only_consumes a0 a' (done ++ evs)) a.
Proof.
  revert done a. induction evs as [|ev evs IH]; intros dn a Hd R; cbn [deliver_all].
  - apply wp_ret. by rewrite app_nil_r.
  - eapply wp_seq; [by apply (deliver_spec base)|]. intros [] a1 H1.
    replace (dn ++ ev :: evs) with ((dn ++ [ev]) ++ evs) by (by rewrite <- app_assoc).
    apply IH; [by apply (only_consumes_step a0 a)|].
    destruct H1 as [(_ & _ & _ & E4 & E5) _]. by rewrite E4, E5.
Qed.

End OverTcp.

(** * Properties *)

Section Properties.
Context {T W : Type} `{HC : Cng W} `{HT : Clock W} `{HM : CngModel W} `{HL : !CngLaws W}
        `{HTL : !ClockLaws W}.

(** C1: no unlock without proof.  Whatever the frame and whatever CNG does, when
    [ProcessUnlockResponse] answers [SUCCESS] the frame held a canonical payload
    naming an outstanding challenge issued by this PC to the device named, not
    past its expiry by what the clock tells this call, followed by a signature of
    exactly those 108 bytes under the key trusted for that device; that challenge, and nothing else, is then consumed.
    On every other answer the store is unchanged, and in all cases so are the
    registry, the engine, the CNG objects and the transport. *)
Theorem unlock_soundness base frame (a : Agent T W) e a' :
  registry_ok base (m_deviceRegistry a) (obj (world a)) ->
  ProcessUnlockResponse frame a = Def (e, a') ->
  same_but_store a a' /\ m_transport a' = m_transport a /\
  if bool_decide (e = SUCCESS)
  then exists rec, authorises a (payload frame) (system_clock_ms (world a)).1 rec /\
       m_challengeStore a' = <[BytesToKey (session_of (payload frame)) := with_state CONSUMED rec]>
                               (m_challengeStore a)
  else m_challengeStore a' = m_challengeStore a.
Proof. intros R. exact (wlp_elim _ _ _ _ _ (unlock_spec base frame a R)). Qed.

(** C10: an honest phone is let in.  When CNG is healthy and the engine
    initialised, a response whose payload names an outstanding challenge issued
    by this PC to a registered device, received no later than the challenge's
    expiry, and whose DER signature verifies under the device's key and is not 64
    bytes long (of that length it is taken as raw r || s), is answered [SUCCESS]
    with defined behaviour, and consumes the challenge.  The PC id and the expiry
    in the signed payload may be any: the code looks at those of its own record
    only, where protocol_spec.md asks for PC_MISMATCH
    ([signed_pc_not_checked]). *)
Theorem unlock_completeness `{HV : !CngLive W} base frame (a : Agent T W) P r s blob rec :
  registry_ok base (m_deviceRegistry a) (obj (world a)) ->
  healthy (system_clock_ms (world a)).2 ->
  obj (world a) !! m_hSha256Alg (m_cryptoEngine a) = Some (AlgObj SHA256 false) ->
  0 <= r < 2 ^ 256 -> 0 <= s < 2 ^ 256 -> length (der_encode r s) <> 64%nat ->
  authorised_by a (payload frame) (system_clock_ms (world a)).1 rec P (der_encode r s) blob (raw_rs r s) ->
  wp (ProcessUnlockResponse frame) (fun e a' =>
    e = SUCCESS /\ same_but_store a a' /\
    m_challengeStore a' = <[BytesToKey (sessionId P) := with_state CONSUMED rec]> (m_challengeStore a)) a.
Proof. apply unlock_good. Qed.

(** No replay.  After a response was accepted, no response about the same
    session, the same bytes included, is ever accepted by a second call. *)
Theorem replay_refused base f1 f2 (a a1 a2 : Agent T W) e2 :
  registry_ok base (m_deviceRegistry a) (obj (world a)) ->
  session_of (payload f2) = session_of (payload f1) ->
  ProcessUnlockResponse f1 a = Def (SUCCESS, a1) ->
  ProcessUnlockResponse f2 a1 = Def (e2, a2) ->
  e2 <> SUCCESS /\ m_challengeStore a2 = m_challengeStore a1.
Proof.
  intros R Es E1 E2.
  destruct (wlp_elim _ _ _ _ _ (unlock_spec base f1 a R) E1) as ((_ & _ & _ & P4 & P5) & _ & St).
  rewrite bool_decide_true in St by done. destruct St as (rec & _ & St).
  assert (R1 : registry_ok base (m_deviceRegistry a1) (obj (world a1))) by (by rewrite P4, P5).
  destruct (wlp_elim _ _ _ _ _ (unlock_spec base f2 a1 R1) E2) as (_ & _ & St2).
  case_bool_decide as D; [|done]. exfalso. destruct St2 as (rec2 & Au & _).
  pose proof (authorises_session _ _ _ _ Au) as L. rewrite Es, St, lookup_insert_eq in L.
  injection L as <-. destruct Au as (P & sg & blob & raw & Ab).
  by pose proof (au_outstanding _ _ _ _ _ _ _ _ Ab).
Qed.

(** Issuing a challenge.  [InitiateUnlockRequest] returns, and adds to the
    store under its session id, an outstanding record for the given device and
    this PC with the 30 s expiry; the payload it serializes is the session id,
    PC id, challenge and both timestamps in 80 bytes; sending it or not, failing
    or not, changes nothing else of the agent. *)
Theorem InitiateUnlockRequest_issues `{HF : FrameSender (Agent T W)}
    `{HSL : !SenderLaws (Agent T W) _ agent_core} did r0 (a : Agent T W) :
  wf_record r0 -> length did = 16%nat -> length (m_pcId a) = 16%nat ->
  wp (InitiateUnlockRequest did r0) (fun r a' =>
    rec_deviceId r = did /\ rec_pcId r = m_pcId a /\ state r = OUTSTANDING /\
    rec_expirationTimestampMs r = u64 (creationTimestampMs r + 30000) /\
    unlock_request r = Def (request_layout r) /\ length (request_layout r) = 80%nat /\
    m_challengeStore a' = <[BytesToKey (rec_sessionId r) := r]> (m_challengeStore a) /\
    same_but_store a a') a.
Proof.
  intros Wf Ld Lp. eapply wp_mono; [by apply initiate_spec|].
  intros r a' (Wr & D & P & St & Ex & E & Sm). do 4 (split; [done|]).
  split; [by apply unlock_request_layout|]. split; [|done].
  destruct Wr. unfold request_layout. len.
Qed.

End Properties.

(** C8: from bytes to the store.  Whatever bytes arrive on the connection, after
    the receiver has processed them every record of the store is as before, or
    was consumed by some frame parsed out of those bytes that carries a valid,
    trusted signature over that very challenge; the registry, the engine and
    the CNG objects are as before. *)
Theorem stream_only_authorised {W : Type} `{HC : Cng W} `{HT : Clock W} `{HM : CngModel W}
    `{HL : !CngLaws W} `{HTL : !ClockLaws W} `{HS : Winsock W} `{HWM : WinsockModel W}
    `{HWL : !WinsockLaws W} `{HWC : !WinsockCng W}
    base buf (a : Agent TcpTransport W) kept a' :
  registry_ok base (m_deviceRegistry a) (obj (world a)) ->
  drain_loop (length buf) buf a = Def (kept, a') ->
  only_consumes a a' (rx buf).1.
Proof.
  intros R. rewrite drain_refines.
  apply (wlp_elim (deliver_all (rx buf).1 ;; pret (rx buf).2) (fun _ a' => only_consumes a a' (rx buf).1)).
  eapply wp_seq; [apply (deliver_all_spec base [] _ a a); [by apply only_consumes_same | done]|].
  intros ? a1 H. by apply wp_ret.
Qed.

(** * Witnesses *)
From S2P Require Import Simulator.

Definition demo_pc : list byte := replicate 16 (to_u8 0x99).
Definition demo_payload : AuthPayload :=
  {| domain := DOMAIN_PREFIX; protocolVersion := 256; algorithmId := 1;
     deviceId := replicate 16 x02; sessionId := replicate 16 x01; pcId := demo_pc;
     challenge := replicate 32 x04; expirationTimestampMs := 31000 |}.
Definition demo_issued : ChallengeRecord := with_ids (replicate 16 x02) demo_pc demo_record.
Definition demo_phone : RegisteredDevice :=
  {| dev_deviceId := replicate 16 x02; deviceName := "phone"; hPublicKey := 4; isEnabled := true |}.
Definition demo_agent : Agent TcpTransport Sim :=
  {| m_port := 8443; m_pcId := demo_pc; m_cryptoEngine := demo_engine;
     m_challengeStore := AddChallenge demo_issued ∅;
     m_deviceRegistry := {[registry_key (replicate 16 x02) := demo_phone]};
     m_transport := with_listener true demo_tcp; world := set_clock [2000; 3000] demo_world |}.

(** The response of a phone that signs [P]. *)
Definition sign_as (P : AuthPayload) : list byte := toy_sign demo_blob (toy 7 (layout P)).
Definition sig_r (P : AuthPayload) : Z := be_value (take 32 (sign_as P)).
Definition sig_s (P : AuthPayload) : Z := be_value (drop 32 (sign_as P)).
Definition response (P : AuthPayload) : TransportFrame :=
  outgoing_frame UNLOCK_RESP 1 (layout P ++ der_encode (sig_r P) (sig_s P)).

Lemma demo_registry_ok :
  registry_ok (delete 4 (obj (world demo_agent))) (m_deviceRegistry demo_agent) (obj (world demo_agent)).
Proof.
  change (m_deviceRegistry demo_agent) with ({[registry_key (replicate 16 x02) := demo_phone]} : Devices).
  split.
  - intros k d [<- <-]%lookup_singleton_Some. split; [done|]. exists ECDSA_P256, demo_blob.
    vm_compute. reflexivity.
  - intros k1 k2 d1 d2 [<- _]%lookup_singleton_Some [<- _]%lookup_singleton_Some. done.
  - intros k d [<- <-]%lookup_singleton_Some. done.
  - intros h Hh. rewrite lookup_delete_ne; [done|].
    apply (Hh (registry_key (replicate 16 x02)) demo_phone). apply lookup_singleton_eq.
  - intros k d [<- <-]%lookup_singleton_Some. apply lookup_delete_eq.
Qed.

Definition demo_after : Agent TcpTransport Sim :=
  with_world (set_clock [3000] demo_world)
    (with_store (<[BytesToKey (replicate 16 x01) := with_state CONSUMED demo_issued]>
                   (m_challengeStore demo_agent)) demo_agent).

Lemma demo_unlock : ProcessUnlockResponse (response demo_payload) demo_agent = Def (SUCCESS, demo_after).
Proof. vm_compute. reflexivity. Qed.

Lemma unlock_soundness_witness :
  ProcessUnlockResponse (response demo_payload) demo_agent = Def (SUCCESS, demo_after) /\
  exists rec, authorises demo_agent (payload (response demo_payload)) 2000 rec.
Proof.
  split; [exact demo_unlock|].
  pose proof (unlock_soundness _ _ _ _ _ demo_registry_ok demo_unlock) as (_ & _ & H).
  rewrite bool_decide_true in H by done. destruct H as (rec & A & _). by exists rec.
Defined.

Lemma demo_authorised :
  authorised_by demo_agent (payload (response demo_payload)) 2000 demo_issued demo_payload
    (der_encode (sig_r demo_payload) (sig_s demo_payload)) demo_blob
    (raw_rs (sig_r demo_payload) (sig_s demo_payload)).
Proof.
  split; try (vm_compute; reflexivity); try done.
Qed.

Lemma unlock_completeness_witness :
  wp (ProcessUnlockResponse (response demo_payload)) (fun e a' =>
    e = SUCCESS /\ same_but_store demo_agent a' /\
    m_challengeStore a' = <[BytesToKey (sessionId demo_payload) := with_state CONSUMED demo_issued]>
                            (m_challengeStore demo_agent)) demo_agent.
Proof.
  assert (R : 0 <= sig_r demo_payload < 2 ^ 256) by (vm_compute; split; done).
  assert (S : 0 <= sig_s demo_payload < 2 ^ 256) by (vm_compute; split; done).
  assert (L : length (der_encode (sig_r demo_payload) (sig_s demo_payload)) <> 64%nat)
    by (vm_compute; done).
  assert (A : obj (world demo_agent) !! m_hSha256Alg (m_cryptoEngine demo_agent) = Some (AlgObj SHA256 false))
    by (vm_compute; reflexivity).
  assert (H : healthy (system_clock_ms (world demo_agent)).2) by reflexivity.
  exact (unlock_completeness _ (response demo_payload) demo_agent demo_payload _ _ demo_blob demo_issued
           demo_registry_ok H A R S L demo_authorised).
Defined.

Lemma replay_refused_witness :
  exists a2, ProcessUnlockResponse (response demo_payload) demo_after = Def (CHALLENGE_ALREADY_CONSUMED, a2) /\
    CHALLENGE_ALREADY_CONSUMED <> SUCCESS /\ m_challengeStore a2 = m_challengeStore demo_after.
Proof.
  assert (E : ProcessUnlockResponse (response demo_payload) demo_after =
    Def (CHALLENGE_ALREADY_CONSUMED, with_world (set_clock [] demo_world) demo_after))
    by (vm_compute; reflexivity).
  eexists. split; [exact E|].
  exact (replay_refused _ (response demo_payload) (response demo_payload) demo_agent demo_after _ _
           demo_registry_ok eq_refl demo_unlock E).
Defined.

Lemma InitiateUnlockRequest_issues_witness :
  wp (InitiateUnlockRequest (replicate 16 x02) demo_record) (fun r a' =>
    rec_deviceId r = replicate 16 x02 /\ rec_pcId r = m_pcId demo_agent /\ state r = OUTSTANDING /\
    rec_expirationTimestampMs r = u64 (creationTimestampMs r + 30000) /\
    unlock_request r = Def (request_layout r) /\ length (request_layout r) = 80%nat /\
    m_challengeStore a' = <[BytesToKey (rec_sessionId r) := r]> (m_challengeStore demo_agent) /\
    same_but_store demo_agent a') demo_agent.
Proof.
  assert (Wr : wf_record demo_record) by (split; reflexivity).
  exact (InitiateUnlockRequest_issues (replicate 16 x02) demo_record demo_agent Wr eq_refl eq_refl).
Defined.

(** The bytes of the response, as the phone's transport frames them. *)
Definition demo_bytes : list byte := frame_layout (response demo_payload).

Definition demo_final : Agent TcpTransport Sim := Eval vm_compute in
  match drain_loop (length demo_bytes) demo_bytes demo_agent with
  | Def (_, a') => a'
  | UB => demo_agent
  end.

Lemma stream_only_authorised_witness :
  m_challengeStore demo_final = m_challengeStore demo_after /\
  sent (world demo_final) 9 = frame_layout (outgoing_frame UNLOCK_RESP 1 [x00; x00]) /\
  only_consumes demo_agent demo_final (rx demo_bytes).1.
Proof.
  assert (E : drain_loop (length demo_bytes) demo_bytes demo_agent = Def ([], demo_final))
    by (vm_compute; reflexivity).
  split; [vm_compute; reflexivity|]. split; [vm_compute; reflexivity|].
  exact (stream_only_authorised _ demo_bytes demo_agent [] demo_final demo_registry_ok E).
Defined.

(** The PC id and the expiry inside the signed payload are not looked at: a
    response signed for another PC, and already expired by its own account, is
    accepted. *)
Definition foreign_payload : AuthPayload :=
  with_expiration 0 (with_pcId (replicate 16 x00) demo_payload).
Example signed_pc_not_checked :
  match ProcessUnlockResponse (response foreign_payload) demo_agent with
  | Def (e, _) => e
  | UB => INVALID_REQUEST
  end = SUCCESS.
Proof. vm_compute. reflexivity. Qed.
