(* ===== verification/Hkdf.v ===== *)
(** * Hkdf: HMAC-SHA256, HKDF (RFC 5869) and the pairing PIN

    Models windows/common/HkdfEngine.cpp and SasEngine.cpp over CNG.  The
    specification is the RFC's: Extract is one HMAC, Expand the first bytes of
    T(1) | T(2) | ... *)
From Stdlib Require Import Strings.Ascii ZifyN.
From stdpp Require Import pretty.
From S2P Require Import Prelude Bytes Platform CryptoEngine.

(** The bytes of a [std::string]. *)
Definition string_bytes (s : string) : list byte := String.list_byte_of_string s.

Section Hkdf.
Context {W : Type} `{Cng W}.

(** [&v[0]] of a vector or string: a pointer to its elements. *)
Definition HmacSha256 (key : option (list byte)) (keyLen : Z) (data : option (list byte)) (dataLen : Z)
    : Proc W (list byte) :=
  match key with
  | None => pret []
  | Some key =>
    if keyLen =? 0 then pret [] else
    let* '(status, hAlg) := pcall (BCryptOpenAlgorithmProvider SHA256 true NULL) in
    if negb (NT_SUCCESS status) then pret [] else
    let* secret := plift (rd_slice key 0 (u32 keyLen)) in
    let* '(status, hHash) := pcall (BCryptCreateHash hAlg (Some secret) NULL) in
    if negb (NT_SUCCESS status) then
      pcall (BCryptCloseAlgorithmProvider hAlg) ;;
      pret []
    else
    let* status :=
      match data with
      | Some data =>
        if dataLen >? 0 then
          let* bytes := plift (rd_slice data 0 (u32 dataLen)) in
          pcall (BCryptHashData hHash bytes)
        else pret 0
      | None => pret 0
      end in
    if negb (NT_SUCCESS status) then
      pcall (BCryptDestroyHash hHash) ;;
      pcall (BCryptCloseAlgorithmProvider hAlg) ;;
      pret []
    else
    let* '(status, mac) := pcall (BCryptFinishHash hHash (replicate 32 x00)) in
    pcall (BCryptDestroyHash hHash) ;;
    pcall (BCryptCloseAlgorithmProvider hAlg) ;;
    if negb (NT_SUCCESS status) then pret [] else
    pret mac
  end.

Definition Extract (salt : option (list byte)) (saltLen : Z) (ikm : option (list byte)) (ikmLen : Z)
    : Proc W (list byte) :=
  let* actualSalt :=
    match salt with
    | Some salt => if saltLen =? 0 then pret (replicate 32 x00) else plift (rd_slice salt 0 saltLen)
    | None => pret (replicate 32 x00)
    end in
  HmacSha256 (Some actualSalt) (Z.of_nat (length actualSalt)) ikm ikmLen.

(** [while (okm.size() < outLen)]: every round adds at least one byte, so
    [outLen] rounds are enough; running out of them is an outcome of its own,
    which the theorems exclude. *)
Fixpoint expand_loop (fuel : nat) (prk : list byte) (prkLen : Z) (info : list byte) (outLen : Z)
    (okm t : list byte) (counter : Z) : Proc W (list byte) :=
  if negb (Z.of_nat (length okm) <? outLen) then pret okm else
  match fuel with
  | O => plift UB
  | S fuel =>
    let msg := t ++ info ++ [to_u8 counter] in
    let* t := HmacSha256 (Some prk) prkLen (Some msg) (Z.of_nat (length msg)) in
    match t with
    | [] => pret []
    | _ =>
      let toCopy := Z.min (Z.of_nat (length t)) (outLen - Z.of_nat (length okm)) in
      expand_loop fuel prk prkLen info outLen (okm ++ take (Z.to_nat toCopy) t) t
        (wrap 8 (counter + 1))
    end
  end.

Definition Expand (prk : option (list byte)) (prkLen : Z) (info : string) (outLen : Z)
    : Proc W (list byte) :=
  match prk with
  | None => pret []
  | Some prk =>
    if (prkLen =? 0) || (outLen =? 0) then pret [] else
    expand_loop (Z.to_nat outLen) prk prkLen (string_bytes info) outLen [] [] 1
  end.

Definition DeriveKey (salt : option (list byte)) (saltLen : Z) (ikm : option (list byte)) (ikmLen : Z)
    (info : string) (outLen : Z) : Proc W (list byte) :=
  let* prk := Extract salt saltLen ikm ikmLen in
  match prk with
  | [] => pret []
  | _ => Expand (Some prk) (Z.of_nat (length prk)) info outLen
  end.

(** [SasEngine::ComputeSasPin] *)
Definition sas_info : string := "PhoneKey-SAS-PIN".

(** [std::setw(6) << std::setfill('0') << pin] *)
Fixpoint zeros (n : nat) : string := match n with O => "" | S n => String "0" (zeros n) end.
Definition setw6 (s : string) : string := zeros (6 - String.length s) +:+ s.

Definition ComputeSasPin (kSas : option (list byte)) (keyLen : Z) : Proc W string :=
  match kSas with
  | None => pret "000000"%string
  | Some kSas =>
    if keyLen =? 0 then pret "000000"%string else
    let info := string_bytes sas_info in
    let* mac := HmacSha256 (Some kSas) keyLen (Some info) (Z.of_nat (length info)) in
    if Z.of_nat (length mac) <? 4 then pret "000000"%string else
    let* val := plift (rd_be32 mac 0) in
    let pin := u32 (val mod 900000 + 100000) in
    pret (setw6 (pretty (Z.to_N pin)))
  end.

End Hkdf.

(** ** RFC 5869 *)

Section Rfc.
Context {W : Type} `{HM : CngModel W}.

Definition hkdf_extract (salt ikm : list byte) : list byte :=
  hmac_sha256 (match salt with [] => replicate 32 x00 | _ => salt end) ikm.

(** T(n); the code's one-byte counter agrees with the RFC's up to n = 255. *)
Fixpoint hkdf_T (prk info : list byte) (n : nat) : list byte :=
  match n with
  | O => []
  | S m => hmac_sha256 prk (hkdf_T prk info m ++ info ++ [to_u8 (Z.of_nat n)])
  end.
Definition hkdf_okm (prk info : list byte) (n : nat) : list byte :=
  concat (hkdf_T prk info <$> seq 1 n).
(** The first [L] bytes of T(1) | T(2) | ... *)
Definition hkdf_expand (prk info : list byte) (L : nat) : list byte :=
  take L (hkdf_okm prk info L).
Definition hkdf (salt ikm info : list byte) (L : nat) : list byte :=
  hkdf_expand (hkdf_extract salt ikm) info L.
End Rfc.

(** ** HMAC *)

Section Laws.
Context {W : Type} `{HC : Cng W} `{HM : CngModel W} `{HL : !CngLaws W} `{HV : !CngLive W}.
Implicit Types (w : W).

(** One MAC: nothing leaks; the result is empty or right; right when healthy. *)
Definition hmac_post (key data : list byte) w (r : list byte) w' : Prop :=
  obj w' = obj w /\ (r = [] \/ r = hmac_sha256 key data) /\
  (healthy w -> healthy w' /\ r = hmac_sha256 key data).

Lemma cleanup {A} (r : A) hH hA o w0 w3 :
  delete hH (obj w3) = o -> delete hA o = obj w0 ->
  wp (pcall (BCryptDestroyHash hH) ;; pcall (BCryptCloseAlgorithmProvider hA) ;; pret r)
    (fun r' w' => r' = r /\ obj w' = obj w0 /\ (healthy w3 -> healthy w')) w3.
Proof.
  intros D1 D2. apply wp_bind, wp_call. intros s4 w4 E4.
  pose proof (destroy_hash_law hH w3) as O4. pose proof (live_destroy_hash hH w3) as H4.
  rewrite E4 in O4, H4. cbn [snd] in *.
  apply wp_bind, wp_call. intros s5 w5 E5.
  pose proof (close_law hA w4) as O5. pose proof (live_close hA w4) as H5.
  rewrite E5 in O5, H5. cbn [snd] in *. apply wp_ret.
  split; [done|]. split; [by rewrite O5, O4, D1, D2 | auto].
Qed.

(** The optional call to BCryptHashData, as in the code. *)
Lemma hash_optional hH secret data w :
  obj w !! hH = Some (HashObj secret []) -> Z.of_nat (length data) < 2 ^ 32 ->
  wp (if Z.of_nat (length data) >? 0 then
        let* bytes := plift (rd_slice data 0 (u32 (Z.of_nat (length data)))) in
        pcall (BCryptHashData hH bytes)
      else pret 0)
    (fun st w' => only_touches hH w w' /\
       (NT_SUCCESS st = true -> obj w' !! hH = Some (HashObj secret data)) /\
       (healthy w -> NT_SUCCESS st = true /\ healthy w')) w.
Proof.
  intros Ho L. destruct (Z.gtb_spec (Z.of_nat (length data)) 0) as [G|G].
  - apply wp_bind. eapply wp_lift.
    { rewrite wrap_small by lia. apply rd_slice_ok; lia. }
    rewrite Nat2Z.id, sub_all by done. apply wp_call. intros st w' E.
    destruct (hash_data_law hH data w) as [T S]. pose proof (live_hash_data hH secret [] data w) as V.
    rewrite E in T, S, V. cbn [fst snd] in *. split; [done|]. split; [|by auto].
    intros Hst. rewrite (S Hst _ _ Ho). by rewrite lookup_insert_eq.
  - destruct data; [|cbn in G; lia]. by apply wp_ret.
Qed.

Lemma hmac_spec key data w :
  key <> [] -> Z.of_nat (length key) < 2 ^ 32 -> Z.of_nat (length data) < 2 ^ 32 ->
  wp (HmacSha256 (Some key) (Z.of_nat (length key)) (Some data) (Z.of_nat (length data)))
    (hmac_post key data w) w.
Proof.
  intros Nk Lk Ld. unfold HmacSha256, hmac_post.
  replace (_ =? 0) with false by (destruct key; [done | cbn [length]; lia]).
  apply wp_bind, wp_call. intros [st1 hA] w1 E1.
  pose proof (open_law SHA256 true NULL w) as M1. pose proof (live_open SHA256 true NULL w) as V1.
  rewrite E1 in M1, V1. cbn [fst snd] in V1.
  destruct (NT_SUCCESS st1) eqn:S1; cbn [negb].
  2: { apply wp_ret. apply makes_failed in M1 as [_ O]; [|done]. split; [done|].
       split; [by left|]. intros Hh. by destruct (V1 Hh). }
  pose proof (makes_delete _ _ _ _ _ _ M1 S1) as D1.
  unfold makes in M1. rewrite S1 in M1. destruct M1 as (_ & _ & O1).
  apply wp_bind. eapply wp_lift.
  { rewrite wrap_small by lia. apply rd_slice_ok; lia. }
  rewrite Nat2Z.id, sub_all by done.
  apply wp_bind, wp_call. intros [st2 hH] w2 E2.
  destruct (create_hash_law hA (Some key) NULL w1) as [M2 _].
  pose proof (live_create_hash hA (Some key) NULL w1) as V2. rewrite E2 in M2, V2. cbn [fst snd] in V2.
  assert (V2' : healthy w -> NT_SUCCESS st2 = true /\ healthy w2).
  { intros Hh. apply V2; [by apply V1|]. by rewrite O1, lookup_insert_eq. }
  clear V1 V2. destruct (NT_SUCCESS st2) eqn:S2; cbn [negb].
  2: { apply wp_bind, wp_call. intros s3 w3 E3. apply wp_ret.
       apply makes_failed in M2 as [_ O2]; [|done]. pose proof (close_law hA w2) as C3.
       rewrite E3 in C3. cbn [snd] in C3. split; [by rewrite C3, O2|]. split; [by left|].
       intros Hh. by destruct (V2' Hh). }
  pose proof (makes_delete _ _ _ _ _ _ M2 S2) as D2.
  unfold makes in M2. rewrite S2 in M2. destruct M2 as (_ & _ & O2).
  eapply wp_seq; [apply (hash_optional hH (Some key)); [by rewrite O2, lookup_insert_eq | done]|].
  intros st3 w3 (T3 & O3 & V3). unfold only_touches in T3. rewrite D2 in T3.
  destruct (NT_SUCCESS st3) eqn:S3; cbn [negb].
  2: { eapply wp_mono; [by apply (cleanup [] hH hA (obj w1) w)|]. intros r w' (-> & O & _).
       split; [done|]. split; [by left|]. intros Hh. destruct (V2' Hh) as [_ H2]. by destruct (V3 H2). }
  apply wp_bind, wp_call. intros [st4 mac] w4 E4.
  destruct (finish_hash_law hH (replicate 32 x00) w3) as (T4 & _ & F4).
  pose proof (live_finish_hash hH (Some key) data (replicate 32 x00) w3) as V4.
  rewrite E4 in T4, F4, V4. cbn [fst snd] in *. unfold only_touches in T4. rewrite T3 in T4.
  assert (C : forall r : list byte,
    wp (pcall (BCryptDestroyHash hH) ;; pcall (BCryptCloseAlgorithmProvider hA) ;; pret r)
      (fun r' w' => r' = r /\ obj w' = obj w /\ (healthy w4 -> healthy w')) w4)
    by (intros r; by apply (cleanup r hH hA (obj w1) w)).
  destruct (NT_SUCCESS st4) eqn:S4; cbn [negb].
  - eapply wp_mono; [apply (C mac)|]. intros r w' (-> & O & H').
    rewrite (F4 eq_refl _ _ (O3 eq_refl)). cbn [digest]. split; [done|]. split; [by right|].
    intros Hh. split; [|done]. apply H'. destruct (V2' Hh) as [_ H2].
    apply V4; [by apply V3 | by apply O3 | done].
  - eapply wp_mono; [apply (C [])|]. intros r w' (-> & O & _). split; [done|]. split; [by left|].
    intros Hh. destruct (V2' Hh) as [_ H2].
    destruct V4 as [V4 _]; [by apply V3 | by apply O3 | done | done].
Qed.

(** ** Expand *)

Lemma length_T prk info n : (length (hkdf_T prk info n) <= 32)%nat.
Proof. destruct n; cbn [hkdf_T]; [cbn; lia|]. rewrite hmac_sha256_length. lia. Qed.

Lemma okm_S prk info n :
  hkdf_okm prk info (S n) = hkdf_okm prk info n ++ hkdf_T prk info (S n).
Proof.
  unfold hkdf_okm. rewrite seq_S, fmap_app, concat_app. cbn [fmap list_fmap concat].
  by rewrite app_nil_r.
Qed.

Lemma length_okm prk info n : length (hkdf_okm prk info n) = (32 * n)%nat.
Proof.
  induction n as [|n IH]; [done|]. rewrite okm_S, length_app, IH. cbn [hkdf_T].
  rewrite hmac_sha256_length. lia.
Qed.

Lemma okm_prefix prk info n m :
  (n <= m)%nat -> exists rest, hkdf_okm prk info m = hkdf_okm prk info n ++ rest.
Proof.
  induction 1 as [|m _ [rest E]]; [exists []; by rewrite app_nil_r|].
  rewrite okm_S, E, <- app_assoc. eauto.
Qed.

Lemma okm_enough prk info n L :
  (L <= 32 * n)%nat -> take L (hkdf_okm prk info n) = hkdf_expand prk info L.
Proof.
  intros H. unfold hkdf_expand. destruct (Nat.le_ge_cases n L) as [N|N].
  - destruct (okm_prefix prk info n L N) as [rest ->]. rewrite take_app_le; [done|].
    by rewrite length_okm.
  - destruct (okm_prefix prk info L n N) as [rest ->]. rewrite take_app_le; [done|].
    rewrite length_okm. lia.
Qed.

Lemma to_u8_wrap z : to_u8 (wrap 8 z) = to_u8 z.
Proof. unfold to_u8, wrap. by rewrite Zmod_mod. Qed.

Lemma wrap_succ z : wrap 8 (wrap 8 z + 1) = wrap 8 (z + 1).
Proof. unfold wrap. by rewrite Zplus_mod_idemp_l. Qed.

(** The outcome of a derivation whose right value is [v]. *)
Definition derive_post (v : list byte) w (r : list byte) w' : Prop :=
  obj w' = obj w /\ (r = [] \/ r = v) /\ (healthy w -> healthy w' /\ r = v).

Lemma derive_now v w : derive_post v w v w.
Proof. split; [done|]. split; [by right | done]. Qed.

Lemma derive_after v w w1 r w' :
  obj w1 = obj w -> (healthy w -> healthy w1) -> derive_post v w1 r w' -> derive_post v w r w'.
Proof. intros O H (O' & D & H'). split; [congruence|]. split; [done | auto]. Qed.

Lemma expand_loop_spec fuel prk info L n w :
  prk <> [] -> Z.of_nat (length prk) < 2 ^ 32 -> Z.of_nat (length info) < 2 ^ 32 - 33 ->
  (L <= n + fuel)%nat ->
  wp (expand_loop fuel prk (Z.of_nat (length prk)) info (Z.of_nat L)
        (take L (hkdf_okm prk info n)) (hkdf_T prk info n) (wrap 8 (Z.of_nat n + 1)))
    (derive_post (hkdf_expand prk info L) w) w.
Proof.
  intros Np Lp Li. revert n w. induction fuel as [|fuel IH]; intros n w Hf; cbn [expand_loop].
  - rewrite length_take, length_okm.
    replace (negb _) with true by lia. apply wp_ret. rewrite okm_enough by lia. apply derive_now.
  - rewrite length_take, length_okm.
    destruct (Nat.le_gt_cases L (32 * n)) as [G|G].
    { replace (negb _) with true by lia. apply wp_ret. rewrite okm_enough by lia. apply derive_now. }
    replace (negb _) with false by lia. rewrite to_u8_wrap.
    pose proof (length_T prk info n) as Lt.
    eapply wp_seq; [apply hmac_spec; [done | done | len]|].
    intros t w1 (O1 & D1 & H1).
    assert (ET : hmac_sha256 prk (hkdf_T prk info n ++ info ++ [to_u8 (Z.of_nat n + 1)]) = hkdf_T prk info (S n)).
    { cbn [hkdf_T]. do 4 f_equal. f_equal. lia. }
    rewrite ET in D1, H1. destruct t as [|t0 t].
    { apply wp_ret. split; [done|]. split; [by left|]. intros Hh. destruct (H1 Hh) as [_ E].
      apply (f_equal length) in E. cbn [hkdf_T] in E. rewrite hmac_sha256_length in E. done. }
    destruct D1 as [|D1]; [done|]. rewrite D1.
    assert (L32 : length (hkdf_T prk info (S n)) = 32%nat) by apply hmac_sha256_length.
    rewrite L32, wrap_succ.
    replace (take L (hkdf_okm prk info n) ++ take _ (hkdf_T prk info (S n)))
      with (take L (hkdf_okm prk info (S n))).
    2: { rewrite okm_S, take_app, length_okm. f_equal.
         destruct (Nat.le_gt_cases 32 (L - 32 * n)).
         - rewrite !take_ge; rewrite ?L32; [done | lia | lia].
         - f_equal. lia. }
    replace (Z.of_nat n + 1 + 1) with (Z.of_nat (S n) + 1) by lia.
    eapply wp_mono; [apply IH; lia|]. intros r w'. apply derive_after; [done|].
    intros Hh. by apply H1.
Qed.

Lemma expand_spec prk info L w :
  prk <> [] -> Z.of_nat (length prk) < 2 ^ 32 -> Z.of_nat (length (string_bytes info)) < 2 ^ 32 - 33 ->
  wp (Expand (Some prk) (Z.of_nat (length prk)) info (Z.of_nat L))
    (derive_post (hkdf_expand prk (string_bytes info) L) w) w.
Proof.
  intros Np Lp Li. unfold Expand.
  destruct (Nat.eq_dec L 0) as [->|N].
  - rewrite orb_true_r. apply wp_ret, derive_now.
  - replace (_ || _) with false by (destruct prk; [done | cbn [length]; lia]).
    rewrite Nat2Z.id.
    pose proof (expand_loop_spec L prk (string_bytes info) L 0 w Np Lp Li) as H.
    cbn [hkdf_T] in H. unfold hkdf_okm in H. cbn [seq fmap list_fmap concat] in H.
    rewrite take_nil in H. apply H. lia.
Qed.

Lemma extract_spec salt ikm w :
  Z.of_nat (length salt) < 2 ^ 32 -> Z.of_nat (length ikm) < 2 ^ 32 ->
  wp (Extract (Some salt) (Z.of_nat (length salt)) (Some ikm) (Z.of_nat (length ikm)))
    (derive_post (hkdf_extract salt ikm) w) w.
Proof.
  intros Ls Li. unfold Extract.
  assert (E : exists k, k <> [] /\ Z.of_nat (length k) < 2 ^ 32 /\ hkdf_extract salt ikm = hmac_sha256 k ikm /\
    (if Z.of_nat (length salt) =? 0 then pret (replicate 32 x00)
     else plift (rd_slice salt 0 (Z.of_nat (length salt)))) w = Def (k, w)).
  { destruct salt as [|b salt].
    - by exists (replicate 32 x00).
    - exists (b :: salt). split; [done|]. split; [done|]. split; [done|].
      replace (_ =? 0) with false by (cbn [length]; lia).
      unfold plift. rewrite rd_slice_ok by lia. by rewrite Nat2Z.id, sub_all. }
  destruct E as (k & Nk & Lk & -> & Ek).
  apply wp_bind. unfold wpx at 1. rewrite Ek. by apply hmac_spec.
Qed.

Lemma derive_key_spec salt ikm info L w :
  Z.of_nat (length salt) < 2 ^ 32 -> Z.of_nat (length ikm) < 2 ^ 32 ->
  Z.of_nat (length (string_bytes info)) < 2 ^ 32 - 33 ->
  wp (DeriveKey (Some salt) (Z.of_nat (length salt)) (Some ikm) (Z.of_nat (length ikm)) info (Z.of_nat L))
    (derive_post (hkdf salt ikm (string_bytes info) L) w) w.
Proof.
  intros Ls Lk Li. unfold DeriveKey. eapply wp_seq; [by apply extract_spec|].
  intros prk w1 (O1 & D1 & H1).
  assert (L32 : length (hkdf_extract salt ikm) = 32%nat) by apply hmac_sha256_length.
  destruct prk as [|b prk].
  - apply wp_ret. split; [done|]. split; [by left|]. intros Hh. destruct (H1 Hh) as [_ E].
    by rewrite <- E in L32.
  - destruct D1 as [|D1]; [done|]. rewrite D1.
    eapply wp_mono.
    + apply expand_spec; [intros E; by rewrite E in L32 | lia | done].
    + intros r w'. apply derive_after; [done|]. intros Hh. by apply H1.
Qed.

(** ** The PIN *)

(** The six decimal digits of [v]. *)
Definition digit (v : N) : ascii := pretty_N_char (v mod 10).
Definition six_digits (v : N) : string :=
  String (digit (v / 10 / 10 / 10 / 10 / 10)) (String (digit (v / 10 / 10 / 10 / 10))
    (String (digit (v / 10 / 10 / 10)) (String (digit (v / 10 / 10))
      (String (digit (v / 10)) (String (digit v) "")))))%N.

Lemma pretty_six v : (100000 <= v < 1000000)%N -> pretty v = six_digits v.
Proof.
  intros H. unfold pretty, pretty_N. rewrite decide_False by lia.
  do 6 (rewrite pretty_N_go_step by (zify; Z.to_euclidean_division_equations; lia)).
  replace (v / 10 / 10 / 10 / 10 / 10 / 10)%N with 0%N
    by (zify; Z.to_euclidean_division_equations; lia).
  by rewrite pretty_N_go_0.
Qed.

(** The PIN a MAC stands for. *)
Definition pin_of (mac : list byte) : Z := be_value (take 4 mac) mod 900000 + 100000.

Lemma sas_spec key w :
  key <> [] -> Z.of_nat (length key) < 2 ^ 32 ->
  wp (ComputeSasPin (Some key) (Z.of_nat (length key)))
    (fun pin w' => obj w' = obj w /\
       let mac := hmac_sha256 key (string_bytes sas_info) in
       (pin = "000000"%string \/ pin = six_digits (Z.to_N (pin_of mac))) /\
       (healthy w -> healthy w' /\ pin = six_digits (Z.to_N (pin_of mac)))) w.
Proof.
  intros Nk Lk. unfold ComputeSasPin.
  replace (_ =? 0) with false by (destruct key; [done | cbn [length]; lia]).
  eapply wp_seq; [by apply hmac_spec|]. intros mac w1 (O1 & D1 & H1). cbn zeta.
  assert (L32 : length (hmac_sha256 key (string_bytes sas_info)) = 32%nat) by apply hmac_sha256_length.
  destruct (Z.ltb_spec (Z.of_nat (length mac)) 4) as [L|L].
  - apply wp_ret. split; [done|]. split; [by left|]. intros Hh. destruct (H1 Hh) as [_ E].
    rewrite E, L32 in L. lia.
  - destruct D1 as [-> | ->]; [cbn in L; lia|].
    apply wp_bind. eapply wp_lift; [apply rd_be32_ok; lia|]. apply wp_ret.
    change (sub (Z.to_nat 0) 4 ?l) with (take 4 l).
    set (mac := hmac_sha256 key (string_bytes sas_info)) in *.
    fold (pin_of mac). assert (R : 100000 <= pin_of mac < 1000000).
    { unfold pin_of. pose proof (Z.mod_pos_bound (be_value (take 4 mac)) 900000). lia. }
    rewrite wrap_small by lia. rewrite pretty_six by lia.
    change (setw6 (six_digits ?v)) with (six_digits v).
    split; [done|]. split; [by right|]. intros Hh. by split; [apply H1|].
Qed.

End Laws.

(** * Properties *)

Section Properties.
Context {W : Type} `{HC : Cng W} `{HM : CngModel W} `{HL : !CngLaws W} `{HV : !CngLive W}.

(** The key derivation is RFC 5869.  For salt, key material and info of less
    than 4 GiB, [DeriveKey] with an output of any length [L] terminates and
    returns exactly the first [L] bytes of T(1) | T(2) | ... computed from
    HMAC(salt, ikm), the default salt being 32 zero bytes; or the empty vector,
    which it never does when CNG is healthy.  It leaves no CNG object behind
    even when a call fails.  (The block counter is one byte: it is the RFC's for
    [L] up to 255 * 32, and wraps after.) *)
Theorem DeriveKey_rfc5869 salt ikm info L (w : W) :
  Z.of_nat (length salt) < 2 ^ 32 -> Z.of_nat (length ikm) < 2 ^ 32 ->
  Z.of_nat (length (string_bytes info)) < 2 ^ 32 - 33 ->
  wp (DeriveKey (Some salt) (Z.of_nat (length salt)) (Some ikm) (Z.of_nat (length ikm)) info (Z.of_nat L))
    (fun r w' => obj w' = obj w /\
       (r = [] \/ r = hkdf salt ikm (string_bytes info) L) /\
       (healthy w -> healthy w' /\ r = hkdf salt ikm (string_bytes info) L)) w.
Proof. apply derive_key_spec. Qed.

(** The pairing PIN.  For a non-empty key [ComputeSasPin] returns the six
    decimal digits of a number between 100000 and 999999 computed from the first
    four bytes of the MAC, or "000000", which is not in that range and which it
    returns only when CNG failed; no CNG object is left behind. *)
Theorem ComputeSasPin_range key (w : W) :
  key <> [] -> Z.of_nat (length key) < 2 ^ 32 ->
  wp (ComputeSasPin (Some key) (Z.of_nat (length key)))
    (fun pin w' => obj w' = obj w /\
       exists n, (100000 <= n <= 999999)%N /\
         n = Z.to_N (pin_of (hmac_sha256 key (string_bytes sas_info))) /\
         (pin = "000000"%string \/ pin = six_digits n) /\
         (healthy w -> healthy w' /\ pin = six_digits n)) w.
Proof.
  intros Nk Lk. eapply wp_mono; [by apply sas_spec|]. intros pin w' (O & D & H). split; [done|].
  eexists. split; [|split; [reflexivity|]; by split].
  unfold pin_of. pose proof (Z.mod_pos_bound
    (be_value (take 4 (hmac_sha256 key (string_bytes sas_info)))) 900000). lia.
Qed.

End Properties.

(** * Witnesses *)
From S2P Require Import Simulator.

Lemma DeriveKey_rfc5869_witness :
  wp (DeriveKey (Some [x01; x02]) 2 (Some [x03]) 1 "info" 70)
    (fun r w' => obj w' = obj sim0 /\
       (r = [] \/ r = hkdf [x01; x02] [x03] (string_bytes "info") 70) /\
       (healthy sim0 -> healthy w' /\ r = hkdf [x01; x02] [x03] (string_bytes "info") 70)) sim0.
Proof.
  exact (DeriveKey_rfc5869 [x01; x02] [x03] "info" 70 sim0 eq_refl eq_refl eq_refl).
Defined.

Lemma ComputeSasPin_range_witness :
  wp (ComputeSasPin (Some [x01; x02]) 2)
    (fun pin w' => obj w' = obj sim0 /\
       exists n, (100000 <= n <= 999999)%N /\
         n = Z.to_N (pin_of (hmac_sha256 [x01; x02] (string_bytes sas_info))) /\
         (pin = "000000"%string \/ pin = six_digits n) /\
         (healthy sim0 -> healthy w' /\ pin = six_digits n)) sim0.
Proof.
  assert (N : [x01; x02] <> []) by done.
  exact (ComputeSasPin_range [x01; x02] sim0 N eq_refl).
Defined.
