(* ===== verification/DpapiStorage.v ===== *)
(** * DpapiStorage: encrypted storage under the machine's DPAPI key

    Models windows/agent/DpapiStorage.cpp over the DPAPI and file interfaces of
    Platform.  Every output parameter is passed by its old value and returned. *)
From S2P Require Import Prelude Bytes Platform.

Section Storage.
Context {W : Type} `{HD : Dpapi W} `{HF : Files W}.

Definition EncryptData (plaintext outCiphertext : list byte) : Proc W (bool * list byte) :=
  match plaintext with
  | [] => pret (false, outCiphertext)
  | _ =>
    let* dataIn := plift (rd_slice plaintext 0 (u32 (Z.of_nat (length plaintext)))) in
    let* dataOut := pcall (CryptProtectData dataIn) in
    match dataOut with
    | None => pret (false, outCiphertext)
    | Some (pbData, bytes) =>
      pcall (LocalFree pbData) ;;
      pret (true, bytes)
    end
  end.

Definition DecryptData (ciphertext outPlaintext : list byte) : Proc W (bool * list byte) :=
  match ciphertext with
  | [] => pret (false, outPlaintext)
  | _ =>
    let* dataIn := plift (rd_slice ciphertext 0 (u32 (Z.of_nat (length ciphertext)))) in
    let* dataOut := pcall (CryptUnprotectData dataIn) in
    match dataOut with
    | None => pret (false, outPlaintext)
    | Some (pbData, bytes) =>
      pcall (LocalFree pbData) ;;
      pret (true, bytes)
    end
  end.

(** The stream's destructor runs on every return after its declaration. *)
Definition SaveToFile (filePath : string) (plaintextData : list byte) : Proc W bool :=
  let* '(ok, encrypted) := EncryptData plaintextData [] in
  if negb ok then pret false else
  let* is_open := pcall (ofstream_open filePath) in
  if negb is_open then
    pcall (ofstream_close filePath) ;;
    pret false
  else
  let* good := pcall (ofstream_write filePath encrypted) in
  pcall (ofstream_close filePath) ;;
  pret good.

Definition LoadFromFile (filePath : string) (outPlaintextData : list byte)
    : Proc W (bool * list byte) :=
  let* contents := pcall (ifstream_read filePath) in
  match contents with
  | None => pret (false, outPlaintextData)
  | Some [] => pret (false, outPlaintextData)
  | Some encrypted => DecryptData encrypted outPlaintextData
  end.

End Storage.

(** ** What the calls do *)

Section Laws.
Context {W : Type} `{HD : Dpapi W} `{HM : DpapiModel W} `{HL : !DpapiLaws W}.
Implicit Types (w : W).

Lemma u32_small (d : list byte) :
  Z.of_nat (length d) < 2 ^ 32 -> u32 (Z.of_nat (length d)) = Z.of_nat (length d).
Proof. intros. apply wrap_small. lia. Qed.

(** The bytes handed to DPAPI: the length is cast to a 32-bit DWORD. *)
Definition dword_prefix (d : list byte) : list byte :=
  take (Z.to_nat (u32 (Z.of_nat (length d)))) d.

Lemma dword_prefix_small d : Z.of_nat (length d) < 2 ^ 32 -> dword_prefix d = d.
Proof. intros L. unfold dword_prefix. rewrite u32_small by done. by rewrite Nat2Z.id, take_ge. Qed.

Lemma read_dword d : rd_slice d 0 (u32 (Z.of_nat (length d))) = Def (dword_prefix d).
Proof.
  pose proof (wrap_range 32 (Z.of_nat (length d))) as R.
  assert (u32 (Z.of_nat (length d)) <= Z.of_nat (length d)).
  { unfold u32, wrap. apply Z.mod_le; lia. }
  rewrite rd_slice_ok by lia. unfold sub. by rewrite drop_0.
Qed.

Lemma allocate_free w p d w' : allocates w (Some (p, d), w') -> blobs (LocalFree p w').2 = blobs w.
Proof. intros [N E]. rewrite local_free_law, E. set_solver. Qed.

(** Whether DPAPI seals [d] in world [w]. *)
Definition seals w (d : list byte) : bool :=
  match d with [] => false | _ => bool_decide (is_Some (CryptProtectData (dword_prefix d) w).1) end.

Lemma encrypt_spec d out w :
  wp (EncryptData d out) (fun r w' =>
    blobs w' = blobs w /\ r.1 = seals w d /\
    (if r.1 then unseal r.2 = Some (dword_prefix d) /\ r.2 <> [] else r.2 = out)) w.
Proof.
  unfold EncryptData, seals. destruct d as [|b d]; [by apply wp_ret|]. set (x := b :: d).
  apply wp_bind. eapply wp_lift; [apply read_dword|]. apply wp_bind, wp_call. intros r w1 E.
  destruct (protect_law (dword_prefix x) w) as [A B]. rewrite E in A, B |- *. cbn [fst] in B.
  destruct r as [[p c]|].
  - apply wp_bind, wp_call. intros ? w2 E2. apply wp_ret. cbn [fst snd].
    destruct (B p c eq_refl). rewrite <- (allocate_free w p c w1 A), E2. done.
  - apply wp_ret. done.
Qed.

Lemma decrypt_spec c out w :
  wp (DecryptData c out) (fun r w' =>
    blobs w' = blobs w /\ (if r.1 then unseal (dword_prefix c) = Some r.2 else r.2 = out)) w.
Proof.
  unfold DecryptData. destruct c as [|b c]; [by apply wp_ret|]. set (x := b :: c).
  apply wp_bind. eapply wp_lift; [apply read_dword|]. apply wp_bind, wp_call. intros r w1 E.
  destruct (unprotect_law (dword_prefix x) w) as [A B]. rewrite E in A, B. cbn [fst] in B.
  destruct r as [[p d]|]; [|by apply wp_ret].
  apply wp_bind, wp_call. intros ? w2 E2. apply wp_ret. cbn [fst snd].
  rewrite <- (allocate_free w p d w1 A), E2. split; [done | by apply (B p)].
Qed.

End Laws.

Section FileLaws.
Context {W : Type} `{HD : Dpapi W} `{HF : Files W} `{HM : DpapiModel W} `{HFM : FilesModel W}
        `{HL : !DpapiLaws W} `{HFL : !FilesLaws W} `{HW : Working W} `{HSL : !StorageLive W}.
Implicit Types (w : W).

Lemma encrypt_live d out w :
  working w -> wp (EncryptData d out) (fun r w' => (d <> [] -> r.1 = true) /\ working w') w.
Proof.
  intros Hw. unfold EncryptData. destruct d as [|b d]; [by apply wp_ret|]. set (x := b :: d).
  apply wp_bind. eapply wp_lift; [apply (read_dword x)|]. apply wp_bind, wp_call. intros r w1 E1.
  destruct (protect_live (dword_prefix x) w Hw) as [[[p c] Ep] W1]. rewrite E1 in Ep, W1. cbn [fst snd] in Ep, W1.
  subst r. apply wp_bind, wp_call. intros ? w2 E2. apply wp_ret. pose proof (free_live p w1 W1) as W2.
  by rewrite E2 in W2.
Qed.

(** The result of a save: the world after the destructor of a stream that
    holds [c]. *)
Definition saved (path : string) (c : list byte) w' : Prop :=
  exists w1, w' = (ofstream_close path w1).2 /\
    ((ofstream_close path w1).1 = true -> file w' path = Some c).

Lemma save_spec path d w :
  wp (SaveToFile path d) (fun b w' =>
    blobs w' = blobs w /\
    (b = true -> exists c, unseal c = Some (dword_prefix d) /\ c <> [] /\ saved path c w' /\
       (working w -> file w' path = Some c)) /\
    (working w -> working w' /\ (d <> [] -> b = true))) w.
Proof.
  unfold SaveToFile. apply wp_bind. eapply wp_mono; [apply wp_run, (encrypt_spec d [])|].
  intros [ok c] w1 (Run & B1 & _ & S). cbn [fst snd] in S.
  assert (L1 : working w -> (d <> [] -> ok = true) /\ working w1).
  { intros Hw. pose proof (encrypt_live d [] w Hw) as L. unfold wpx in L. by rewrite Run in L. }
  destruct ok; cbn [negb]; [|apply wp_ret; split; [done|]; split; [done|]; intros Hw; destruct (L1 Hw); by split].
  apply wp_bind, wp_call. intros is_open w2 E2.
  destruct (file_open_law path w1) as [B2 O2]. pose proof (open_live path w1) as L2.
  rewrite E2 in B2, O2, L2. cbn [fst snd] in B2, O2, L2.
  destruct is_open; cbn [negb].
  - apply wp_bind, wp_call. intros good w3 E3.
    destruct (file_write_law path c w2) as [B3 O3]. pose proof (write_live path c w2) as L3.
    rewrite E3 in B3, O3, L3. cbn [fst snd] in B3, O3, L3.
    apply wp_bind, wp_call. intros fl w4 E4. destruct (file_close_law path w3) as [B4 O4].
    pose proof (close_live path w3) as L4. apply wp_ret. rewrite E4 in B4, O4, L4. cbn [fst snd] in B4, O4, L4.
    split; [congruence|]. split; [|intros Hw; naive_solver]. intros ->.
    exists c. destruct S as [Su Sn]. do 2 (split; [done|]). split; [|intros Hw; rewrite O4, O3, O2; naive_solver].
    exists w3. rewrite E4. split; [done|]. cbn [fst snd]. intros F. by rewrite (O4 F), (O3 eq_refl), (O2 eq_refl).
  - apply wp_bind, wp_call. intros fl w4 E4. destruct (file_close_law path w2) as [B4 _].
    apply wp_ret. rewrite E4 in B4. cbn [snd] in B4. split; [congruence|]. split; [done|]. intros Hw.
    destruct (L1 Hw) as [_ W1]. by destruct (L2 W1).
Qed.

Lemma load_spec path out w :
  wp (LoadFromFile path out) (fun r w' =>
    blobs w' = blobs w /\
    (if r.1 then exists c, file w path = Some c /\ unseal (dword_prefix c) = Some r.2 else r.2 = out)) w.
Proof.
  unfold LoadFromFile. apply wp_bind, wp_call. intros r w1 E.
  destruct (file_read_law path w) as [B F]. rewrite E in B, F. cbn [fst snd] in B, F.
  destruct r as [[|b c]|]; [by apply wp_ret| |by apply wp_ret].
  eapply wp_mono; [apply decrypt_spec|]. intros [ok d] w2 (B2 & D). cbn [fst snd] in *.
  split; [congruence|]. destruct ok; [|done]. exists (b :: c). auto.
Qed.

(** When everything works, what was saved is loaded. *)
Lemma load_live path out c d w :
  working w -> file w path = Some c -> c <> [] -> unseal (dword_prefix c) = Some d ->
  wp (LoadFromFile path out) (fun r _ => r.1 = true) w.
Proof.
  intros Hw F N U. unfold LoadFromFile. apply wp_bind, wp_call. intros r w1 E1.
  destruct (read_live path c w Hw F) as [R1 W1]. rewrite E1 in R1, W1. cbn [fst snd] in R1, W1. subst r.
  destruct c as [|b c]; [done|]. unfold DecryptData. apply wp_bind. eapply wp_lift; [apply read_dword|].
  apply wp_bind, wp_call. intros r w2 E2. destruct (unprotect_live _ _ w1 W1 U) as [[[p x] Ep] _].
  rewrite E2 in Ep. cbn [fst] in Ep. subst r. apply wp_bind, wp_call. intros ? w3 _. by apply wp_ret.
Qed.
End FileLaws.

Section Properties.
Context {W : Type} `{HD : Dpapi W} `{HF : Files W} `{HM : DpapiModel W} `{HFM : FilesModel W}
        `{HL : !DpapiLaws W} `{HFL : !FilesLaws W} `{HW : Working W} `{HSL : !StorageLive W}.

(** C40: storage.  [SaveToFile] never leaks a DPAPI blob; when it returns true, the
    data was not empty and the stream it closed held a ciphertext [c] of the
    data, so that if the destructor's flush succeeded the file holds [c].
    From any world whose file holds such a [c], [LoadFromFile] leaks nothing and
    returns exactly the saved data or fails and leaves its output alone; when
    DPAPI and the files work it does not fail.  And when they work, saving data
    that is not empty returns true and the file holds that [c]. *)
Theorem save_load path data (w : W) :
  Z.of_nat (length data) < 2 ^ 32 ->
  wp (SaveToFile path data) (fun b w1 =>
    blobs w1 = blobs w /\
    (data = [] -> b = false) /\
    (working w -> working w1 /\ (data <> [] -> b = true)) /\
    (b = true -> exists c, unseal c = Some data /\ c <> [] /\ saved path c w1 /\
      (working w -> file w1 path = Some c) /\
      forall out w2, file w2 path = Some c -> Z.of_nat (length c) < 2 ^ 32 ->
      wp (LoadFromFile path out) (fun r w3 =>
        blobs w3 = blobs w2 /\ r.2 = (if r.1 then data else out) /\ (working w2 -> r.1 = true)) w2)) w.
Proof.
  intros L. apply wp_Def.
  destruct (proj1 (wp_Def _ _ _) (save_spec path data w)) as (b & w1 & E & B & S & Lv).
  exists b, w1. split; [done|]. split; [done|]. split.
  { intros ->. by injection E as <- _. }
  split; [done|]. intros ->. destruct (S eq_refl) as (c & U & N & Sv & Fl). exists c.
  rewrite dword_prefix_small in U by done. do 4 (split; [done|]).
  intros out w2 F Lc. apply wp_Def.
  destruct (proj1 (wp_Def _ _ _) (load_spec path out w2)) as ([ok d] & w3 & E3 & B3 & R). cbn [fst snd] in *.
  exists (ok, d), w3. split; [done|]. split; [done|]. split.
  - destruct ok; [|done]. destruct R as (c' & F' & U').
    assert (c' = c) as -> by congruence. rewrite dword_prefix_small in U' by done. cbn. congruence.
  - intros Hw. assert (Ld : wp (LoadFromFile path out) (fun r _ => r.1 = true) w2).
    { apply (load_live path out c data); [done..|]. by rewrite dword_prefix_small. }
    unfold wpx in Ld. by rewrite E3 in Ld.
Qed.

End Properties.

From S2P Require Import Simulator.

Definition demo_data : list byte := replicate 4 (to_u8 7).
Definition demo_saved : Sim := Eval vm_compute in
  match SaveToFile "devices.bin" demo_data sim0 with Def (_, w) => w | UB => sim0 end.

(** Saved, and loaded again. *)
Lemma save_load_witness :
  SaveToFile "devices.bin" demo_data sim0 = Def (true, demo_saved) /\
  wp (LoadFromFile "devices.bin" [x01]) (fun r _ => r = (true, demo_data)) demo_saved.
Proof.
  assert (E : SaveToFile "devices.bin" demo_data sim0 = Def (true, demo_saved)) by (vm_compute; reflexivity).
  split; [exact E|].
  assert (L : Z.of_nat (length demo_data) < 2 ^ 32) by (vm_compute; reflexivity).
  pose proof (save_load "devices.bin" demo_data sim0 L) as H. unfold wpx at 1 in H. rewrite E in H.
  destruct H as (_ & _ & Live & Load). destruct (Live eq_refl) as [Wk _].
  destruct (Load eq_refl) as (c & _ & _ & _ & Fl & Ld). pose proof (Fl eq_refl) as F.
  assert (Lc : Z.of_nat (length c) < 2 ^ 32) by (vm_compute in F; injection F as <-; vm_compute; reflexivity).
  pose proof (Ld [x01] demo_saved F Lc) as H. unfold wpx in H |- *.
  destruct (LoadFromFile "devices.bin" [x01] demo_saved) as [[[ok d] w3]|]; [|exact H].
  destruct H as (_ & H & Ok). cbn [fst snd] in H, Ok. rewrite (Ok Wk) in H |- *. by rewrite H.
Defined.

(** A save that succeeds and is read back. *)
Example save_then_load :
  (let* b := SaveToFile "devices.bin" [x01; x02; x03] in
   let* r := LoadFromFile "devices.bin" [] in pret (b, r)) sim0
  = Def ((true, (true, [x01; x02; x03])),
         set_files (<["devices.bin" := [to_u8 0x5A; x01; x02; x03]]> ∅)
           (set_buffers (<["devices.bin" := [to_u8 0x5A; x01; x02; x03]]> ∅) sim0)).
Proof. vm_compute. reflexivity. Qed.
