(* ===== verification/MultiDeviceManager.v ===== *)
(** * MultiDeviceManager: the list of paired phones

    Models windows/agent/MultiDeviceManager.cpp: the vector of devices is a list
    passed explicitly, and every change ends in [SaveStore], which seals an
    image of the list with DPAPI.  The specification is a finite map with the
    order of registration. *)
From S2P Require Import Prelude Bytes Platform CryptoEngine DpapiStorage.

(** ** Data *)
Record PairedDeviceInfo : Type := {
  p_deviceId : list byte;
  nickname : string;
  rawPublicKey : list byte;
  isPrimary : bool;
  pairedTimestampMs : Z;
  lastUsedTimestampMs : Z;
}.

Definition with_isPrimary v (d : PairedDeviceInfo) : PairedDeviceInfo :=
  {| p_deviceId := p_deviceId d; nickname := nickname d; rawPublicKey := rawPublicKey d;
     isPrimary := v; pairedTimestampMs := pairedTimestampMs d;
     lastUsedTimestampMs := lastUsedTimestampMs d |}.

(** ** Methods *)

(** The loop of [SaveStore]. *)
Fixpoint save_loop (m_devices : list PairedDeviceInfo) (buffer : list byte) : list byte :=
  match m_devices with
  | [] => buffer
  | dev :: rest =>
    let buffer := buffer ++ p_deviceId dev in
    let buffer := buffer ++ [if isPrimary dev then x01 else x00] in
    let buffer := buffer ++ rawPublicKey dev in
    save_loop rest buffer
  end.

(** The loop of [SetPrimaryDevice]. *)
Fixpoint set_primary_loop (deviceId : list byte) (m_devices : list PairedDeviceInfo) (found : bool)
    : bool * list PairedDeviceInfo :=
  match m_devices with
  | [] => (found, [])
  | dev :: rest =>
    if bool_decide (p_deviceId dev = deviceId)
    then let '(found, rest) := set_primary_loop deviceId rest true in
         (found, with_isPrimary true dev :: rest)
    else let '(found, rest) := set_primary_loop deviceId rest found in
         (found, with_isPrimary false dev :: rest)
  end.

(** [GetDevice]: the result and the new value of [outInfo]. *)
Fixpoint GetDevice (deviceId : list byte) (m_devices : list PairedDeviceInfo)
    (outInfo : PairedDeviceInfo) : bool * PairedDeviceInfo :=
  match m_devices with
  | [] => (false, outInfo)
  | dev :: rest =>
    if bool_decide (p_deviceId dev = deviceId) then (true, dev) else GetDevice deviceId rest outInfo
  end.

Definition ListDevices (m_devices : list PairedDeviceInfo) : list PairedDeviceInfo := m_devices.

Section Manager.
Context {W : Type} `{HC : Cng W} `{HD : Dpapi W}.

Definition SaveStore (m_devices : list PairedDeviceInfo) : Proc W bool :=
  let* '(ok, _) := EncryptData (save_loop m_devices []) [] in
  pret ok.

Definition LoadStore : Proc W bool := pret true.

(** [std::find_if] and the assignment through the iterator, or [push_back]. *)
Definition RegisterDevice (info : PairedDeviceInfo) (m_devices : list PairedDeviceInfo)
    : Proc W (bool * list PairedDeviceInfo) :=
  let m_devices :=
    match list_find (fun d => p_deviceId d = p_deviceId info) m_devices with
    | Some (i, _) => <[i := info]> m_devices
    | None => m_devices ++ [info]
    end in
  let* ok := SaveStore m_devices in
  pret (ok, m_devices).

(** [std::remove_if] and [erase]: the kept elements stay in order. *)
Definition RevokeDevice (deviceId : list byte) (m_devices : list PairedDeviceInfo)
    : Proc W (bool * list PairedDeviceInfo) :=
  let kept := filter (fun d => p_deviceId d <> deviceId) m_devices in
  if negb (Nat.eqb (length kept) (length m_devices)) then
    let* ok := SaveStore kept in
    pret (ok, kept)
  else pret (false, m_devices).

Definition SetPrimaryDevice (deviceId : list byte) (m_devices : list PairedDeviceInfo)
    : Proc W (bool * list PairedDeviceInfo) :=
  let '(found, m_devices) := set_primary_loop deviceId m_devices false in
  if found : bool then
    let* ok := SaveStore m_devices in
    pret (ok, m_devices)
  else pret (false, m_devices).

(** [info] is a local whose initial contents are indeterminate. *)
Definition GetPublicKeyHandle (e : CryptoEngine) (deviceId : list byte)
    (m_devices : list PairedDeviceInfo) (info : PairedDeviceInfo) : Proc W handle :=
  let '(found, info) := GetDevice deviceId m_devices info in
  if negb found || bool_decide (rawPublicKey info = []) then pret NULL else
  ImportRawPublicKey e (Some (rawPublicKey info)) (Z.of_nat (length (rawPublicKey info))).

(** The calls that change the manager. *)
Inductive ManagerOp : Type :=
| OpRegister (info : PairedDeviceInfo)
| OpRevoke (deviceId : list byte)
| OpSetPrimary (deviceId : list byte).

Definition manager_exec (op : ManagerOp) (m_devices : list PairedDeviceInfo)
    : Proc W (bool * list PairedDeviceInfo) :=
  match op with
  | OpRegister info => RegisterDevice info m_devices
  | OpRevoke deviceId => RevokeDevice deviceId m_devices
  | OpSetPrimary deviceId => SetPrimaryDevice deviceId m_devices
  end.

End Manager.

(** ** Specification *)

Definition ids (l : list PairedDeviceInfo) : list (list byte) := p_deviceId <$> l.

(** The devices by id. *)
Definition table (l : list PairedDeviceInfo) : gmap (list byte) PairedDeviceInfo :=
  list_to_map ((fun d => (p_deviceId d, d)) <$> l).

Definition spec_table (op : ManagerOp) (T : gmap (list byte) PairedDeviceInfo) :=
  match op with
  | OpRegister info => <[p_deviceId info := info]> T
  | OpRevoke did => delete did T
  | OpSetPrimary did => (fun d => with_isPrimary (bool_decide (p_deviceId d = did)) d) <$> T
  end.

Definition spec_order (op : ManagerOp) (l : list (list byte)) : list (list byte) :=
  match op with
  | OpRegister info => if bool_decide (p_deviceId info ∈ l) then l else l ++ [p_deviceId info]
  | OpRevoke did => filter (fun i => i <> did) l
  | OpSetPrimary _ => l
  end.

(** Whether the call finds what it is about. *)
Definition applies (op : ManagerOp) (T : gmap (list byte) PairedDeviceInfo) : bool :=
  match op with
  | OpRegister _ => true
  | OpRevoke did | OpSetPrimary did => bool_decide (is_Some (T !! did))
  end.

(** The image of the list that is sealed. *)
Definition image (l : list PairedDeviceInfo) : list byte :=
  mjoin ((fun d => p_deviceId d ++ [if isPrimary d then x01 else x00] ++ rawPublicKey d) <$> l).

(** The primary devices. *)
Definition primaries (l : list PairedDeviceInfo) : list (list byte) :=
  p_deviceId <$> filter (fun d => isPrimary d = true) l.

(** ** The list operations implement the specification *)

(** [find_if] and assignment, as one recursion. *)
Fixpoint put_device (info : PairedDeviceInfo) (l : list PairedDeviceInfo) : list PairedDeviceInfo :=
  match l with
  | [] => [info]
  | d :: l => if bool_decide (p_deviceId d = p_deviceId info) then info :: l else d :: put_device info l
  end.

Lemma register_list info l :
  match list_find (fun d => p_deviceId d = p_deviceId info) l with
  | Some (i, _) => <[i := info]> l
  | None => l ++ [info]
  end = put_device info l.
Proof.
  induction l as [|d l IH]; [done|]. cbn [list_find put_device].
  case_decide as E; [by rewrite bool_decide_true|]. rewrite bool_decide_false by done.
  rewrite <- IH. by destruct (list_find _ l) as [[i x]|].
Qed.

Lemma table_cons d l : table (d :: l) = <[p_deviceId d := d]> (table l).
Proof. done. Qed.

Lemma table_put info l : table (put_device info l) = <[p_deviceId info := info]> (table l).
Proof.
  induction l as [|d l IH]; [done|]. cbn [put_device]. case_bool_decide as E; rewrite !table_cons.
  - by rewrite E, insert_insert_eq.
  - by rewrite IH, insert_insert_ne.
Qed.

Lemma ids_put info l :
  ids (put_device info l) =
  if bool_decide (p_deviceId info ∈ ids l) then ids l else ids l ++ [p_deviceId info].
Proof.
  induction l as [|d l IH]; [done|]. cbn [put_device].
  destruct (bool_decide_reflect (p_deviceId d = p_deviceId info)) as [E|E];
    cbn [ids fmap list_fmap]; fold (ids l) (ids (put_device info l)).
  - rewrite (bool_decide_true (_ ∈ _ :: _)); [by rewrite E | apply elem_of_cons; by left].
  - rewrite IH, (bool_decide_ext (_ ∈ _ :: _) (p_deviceId info ∈ ids l)).
    + by case_bool_decide.
    + rewrite elem_of_cons. naive_solver.
Qed.

Lemma table_filter did l :
  table (filter (fun d => p_deviceId d <> did) l) = delete did (table l).
Proof.
  induction l as [|d l IH]; [symmetry; apply delete_empty|]. rewrite filter_cons, table_cons.
  case_decide as E.
  - by rewrite table_cons, IH, delete_insert_ne.
  - by rewrite IH, E, delete_insert_eq.
Qed.

Lemma ids_filter did l :
  ids (filter (fun d => p_deviceId d <> did) l) = filter (fun i => i <> did) (ids l).
Proof.
  induction l as [|d l IH]; [done|]. cbn [ids fmap list_fmap]. rewrite !filter_cons.
  case_decide; [exact (f_equal (cons _) IH) | exact IH].
Qed.

Lemma filter_absent (did : list byte) (l : list (list byte)) : did ∉ l -> l = filter (fun i => i <> did) l.
Proof.
  induction l as [|i l IH]; [done|]. intros [N Nl]%not_elem_of_cons.
  rewrite filter_cons_True by done. by rewrite <- IH.
Qed.

Lemma in_ids did l : did ∈ ids l <-> is_Some (table l !! did).
Proof.
  induction l as [|d l IH].
  - split; [by intros ?%not_elem_of_nil | by intros [? [=]]].
  - rewrite table_cons, lookup_insert_is_Some', <- IH. cbn [ids fmap list_fmap].
    rewrite elem_of_cons. naive_solver.
Qed.

(** Something was removed exactly when the device was there. *)
Lemma filter_shorter did l :
  negb (Nat.eqb (length (filter (fun d => p_deviceId d <> did) l)) (length l))
  = bool_decide (is_Some (table l !! did)).
Proof.
  rewrite <- (bool_decide_ext _ _ (in_ids did l)).
  induction l as [|d l IH]; [done|]. rewrite filter_cons. cbn [ids fmap list_fmap length].
  pose proof (length_filter (fun d => p_deviceId d <> did) l) as Le. destruct (decide (p_deviceId d <> did)) as [E|E].
  - etransitivity; [exact IH|]. apply bool_decide_ext. rewrite elem_of_cons. naive_solver.
  - apply dec_stable in E. rewrite bool_decide_true by (apply elem_of_cons; by left). lia.
Qed.

Lemma ids_cons_in did d l :
  bool_decide (did ∈ ids (d :: l)) = bool_decide (p_deviceId d = did) || bool_decide (did ∈ ids l).
Proof.
  rewrite <- bool_decide_or. apply bool_decide_ext. cbn [ids fmap list_fmap].
  rewrite elem_of_cons. naive_solver.
Qed.

Lemma set_primary_spec did l found :
  set_primary_loop did l found =
  (found || bool_decide (did ∈ ids l),
   (fun d => with_isPrimary (bool_decide (p_deviceId d = did)) d) <$> l).
Proof.
  revert found. induction l as [|d l IH]; intros found; cbn [set_primary_loop].
  - by rewrite orb_false_r.
  - rewrite ids_cons_in, !IH. cbn [fmap list_fmap].
    by destruct (bool_decide (p_deviceId d = did)), found.
Qed.

Lemma table_fmap (f : PairedDeviceInfo -> PairedDeviceInfo) l :
  (forall d, p_deviceId (f d) = p_deviceId d) -> table (f <$> l) = f <$> table l.
Proof.
  intros Hf. induction l as [|d l IH]; [symmetry; apply fmap_empty|].
  cbn [fmap list_fmap]. rewrite !table_cons, fmap_insert, Hf. by f_equal.
Qed.

Lemma ids_fmap (f : PairedDeviceInfo -> PairedDeviceInfo) l :
  (forall d, p_deviceId (f d) = p_deviceId d) -> ids (f <$> l) = ids l.
Proof. intros Hf. unfold ids. rewrite <- list_fmap_compose. apply list_fmap_ext. intros. apply Hf. Qed.

Lemma GetDevice_table did l out :
  GetDevice did l out = match table l !! did with Some d => (true, d) | None => (false, out) end.
Proof.
  induction l as [|d l IH]; [done|]. cbn [GetDevice]. rewrite table_cons. case_bool_decide as E.
  - by rewrite E, lookup_insert_eq.
  - by rewrite lookup_insert_ne.
Qed.

Lemma save_image l acc : save_loop l acc = acc ++ image l.
Proof.
  revert acc. induction l as [|d l IH]; intros acc; cbn [save_loop].
  - by rewrite app_nil_r.
  - rewrite IH. unfold image. cbn [fmap list_fmap mjoin list_join]. by rewrite <- !app_assoc.
Qed.

Lemma primaries_set did l :
  NoDup (ids l) ->
  primaries ((fun d => with_isPrimary (bool_decide (p_deviceId d = did)) d) <$> l) =
  if bool_decide (did ∈ ids l) then [did] else [].
Proof.
  unfold primaries. induction l as [|d l IH]; [done|]. intros [Nd N]%NoDup_cons.
  fold (ids l) in Nd, N. specialize (IH N). rewrite ids_cons_in. cbn [fmap list_fmap].
  rewrite filter_cons. cbn [isPrimary with_isPrimary].
  destruct (bool_decide_reflect (p_deviceId d = did)) as [E|E]; cbn [orb].
  - rewrite decide_True by done. rewrite bool_decide_false in IH by (by rewrite <- E).
    cbn [fmap list_fmap]. rewrite IH. cbn [p_deviceId with_isPrimary]. by rewrite E.
  - by rewrite decide_False.
Qed.

Lemma NoDup_spec_order op l : NoDup l -> NoDup (spec_order op l).
Proof.
  intros N. destruct op; cbn [spec_order].
  - case_bool_decide; [done|]. apply NoDup_app. split; [done|]. split; [set_solver | apply NoDup_singleton].
  - by apply NoDup_filter.
  - done.
Qed.

Section Properties.
Context {W : Type} `{HC : Cng W} `{HM : CngModel W} `{HL : !CngLaws W}
        `{HD : Dpapi W} `{HDM : DpapiModel W} `{HDL : !DpapiLaws W}.

Lemma SaveStore_spec l (w : W) :
  wp (SaveStore l) (fun b w' => blobs w' = blobs w /\ b = seals w (image l)) w.
Proof.
  unfold SaveStore. rewrite save_image, app_nil_l. apply wp_bind.
  eapply wp_mono; [apply encrypt_spec|]. intros [ok c] w' (B & E & _). by apply wp_ret.
Qed.

(** The key handle of a device: a fresh import of the key in the table. *)
Lemma GetPublicKeyHandle_table e did l info (w : W) :
  wp (GetPublicKeyHandle e did l info) (fun h w' =>
    match table l !! did with
    | Some d => if bool_decide (rawPublicKey d = []) then h = NULL /\ w' = w
                else imported w h w' (ecc_blob BCRYPT_ECDSA_PUBLIC_P256_MAGIC
                       (key_point (rawPublicKey d) (Z.of_nat (length (rawPublicKey d)))))
    | None => h = NULL /\ w' = w
    end) w.
Proof.
  unfold GetPublicKeyHandle. rewrite GetDevice_table.
  destruct (table l !! did) as [d|]; cbn [negb orb]; [|by apply wp_ret].
  destruct (bool_decide _); [by apply wp_ret|]. by apply import_raw_spec.
Qed.

(** C27: the paired-device list refines a table of devices.  From a list
    without duplicate ids every call keeps ids unique, changes the table and the
    order of registration as the specification says (a re-registration keeps the
    device's place), and answers whether it found its device and DPAPI
    sealed the image of the new list, leaking no blob.  In particular revoking
    the last device removes it and answers false, since the image is empty; and
    [SetPrimaryDevice] leaves the device it names as the only primary, or none
    when it is unknown. *)
Theorem manager_refines op l (w : W) :
  NoDup (ids l) ->
  wp (manager_exec op l) (fun r w' =>
    NoDup (ids r.2) /\
    table r.2 = spec_table op (table l) /\
    ids r.2 = spec_order op (ids l) /\
    r.1 = applies op (table l) && seals w (image r.2) /\
    blobs w' = blobs w /\
    (forall did, op = OpSetPrimary did ->
       primaries r.2 = if applies op (table l) then [did] else [])) w.
Proof.
  intros N.
  assert (H : wp (manager_exec op l) (fun r w' =>
    table r.2 = spec_table op (table l) /\ ids r.2 = spec_order op (ids l) /\
    r.1 = applies op (table l) && seals w (image r.2) /\ blobs w' = blobs w /\
    (forall did, op = OpSetPrimary did ->
       r.2 = (fun d => with_isPrimary (bool_decide (p_deviceId d = did)) d) <$> l)) w).
  { destruct op as [info|did|did]; cbn [manager_exec spec_table spec_order applies].
    - unfold RegisterDevice. rewrite register_list. apply wp_bind.
      eapply wp_mono; [apply SaveStore_spec|]. intros b w' [B ->]. apply wp_ret.
      cbn [fst snd]. by rewrite table_put, ids_put.
    - unfold RevokeDevice. cbn zeta. rewrite filter_shorter. case_bool_decide as E.
      + apply wp_bind. eapply wp_mono; [apply SaveStore_spec|]. intros b w' [B ->]. apply wp_ret.
        cbn [fst snd]. by rewrite table_filter, ids_filter.
      + apply wp_ret. cbn [fst snd]. apply eq_None_not_Some in E.
        rewrite delete_id by done. repeat split; try done.
        apply filter_absent. intros Hi%in_ids. by rewrite E in Hi.
    - unfold SetPrimaryDevice. rewrite set_primary_spec. cbn [orb].
      rewrite (bool_decide_ext _ _ (in_ids did l)).
      assert (T : forall d, p_deviceId (with_isPrimary (bool_decide (p_deviceId d = did)) d) = p_deviceId d) by done.
      case_bool_decide as E.
      + apply wp_bind. eapply wp_mono; [apply SaveStore_spec|]. intros b w' [B ->]. apply wp_ret.
        cbn [fst snd]. rewrite table_fmap, ids_fmap by done. repeat split; try done. by intros ? [= <-].
      + apply wp_ret. cbn [fst snd]. rewrite table_fmap, ids_fmap by done. repeat split; try done.
        by intros ? [= <-]. }
  eapply wp_mono; [exact H|]. intros [b l'] w' (T & I & R & B & P). cbn [fst snd] in *.
  split; [rewrite I; by apply NoDup_spec_order|]. repeat (split; [done|]).
  intros did ->. rewrite (P did eq_refl). cbn [applies].
  rewrite <- (bool_decide_ext _ _ (in_ids did l)). by apply primaries_set.
Qed.

End Properties.

From S2P Require Import Simulator.

Definition demo_phone (n : Z) (primary : bool) : PairedDeviceInfo :=
  {| p_deviceId := replicate 16 (to_u8 n); nickname := "phone"; rawPublicKey := replicate 64 (to_u8 n);
     isPrimary := primary; pairedTimestampMs := 0; lastUsedTimestampMs := 0 |}.

Lemma manager_refines_witness :
  let l := [demo_phone 1 true; demo_phone 2 false] in
  let op := OpSetPrimary (replicate 16 (to_u8 2)) in
  NoDup (ids l) /\
  wp (manager_exec op l) (fun r w' =>
    NoDup (ids r.2) /\
    table r.2 = spec_table op (table l) /\
    ids r.2 = spec_order op (ids l) /\
    r.1 = applies op (table l) && seals sim0 (image r.2) /\
    blobs w' = blobs sim0 /\
    (forall did, op = OpSetPrimary did ->
       primaries r.2 = if applies op (table l) then [did] else [])) sim0.
Proof.
  assert (N : NoDup (ids [demo_phone 1 true; demo_phone 2 false])).
  { repeat constructor; vm_compute; set_solver. }
  split; [exact N|]. apply (manager_refines _ _ _ N).
Defined.

(** Revoking the only device removes it and reports failure. *)
Example revoke_last :
  RevokeDevice (replicate 16 (to_u8 1)) [demo_phone 1 true] sim0 = Def ((false, []), sim0).
Proof. vm_compute. reflexivity. Qed.

(** Registering does not demote the previous primary device. *)
Example two_primaries :
  exists w b l, RegisterDevice (demo_phone 2 true) [demo_phone 1 true] sim0 = Def ((b, l), w) /\
    b = true /\ primaries l = [replicate 16 (to_u8 1); replicate 16 (to_u8 2)].
Proof. vm_compute. eauto 10. Qed.

(** Naming an unknown device clears the primary flag of every other one, and
    the cleared list is not saved. *)
Example unknown_primary :
  SetPrimaryDevice (replicate 16 (to_u8 3)) [demo_phone 1 true] sim0
  = Def ((false, [demo_phone 1 false]), sim0).
Proof. vm_compute. reflexivity. Qed.
