(* ===== verification/EcdhKeyExchange.v ===== *)
(** * EcdhKeyExchange: the ephemeral P-256 key agreement of pairing

    Models windows/common/EcdhKeyExchange.cpp over the CNG interface.  The
    object's two handles are a record passed explicitly; only
    [GenerateEphemeralKeyPair] changes them. *)
From S2P Require Import Prelude Bytes Platform CryptoEngine Hkdf.

(** ** State *)
Record EcdhKeyExchange : Type := {
  m_hEcdhAlg : handle;
  m_hLocalKeyPair : handle;
}.

Definition new_EcdhKeyExchange : EcdhKeyExchange := {| m_hEcdhAlg := NULL; m_hLocalKeyPair := NULL |}.
Definition with_hEcdhAlg h (e : EcdhKeyExchange) : EcdhKeyExchange :=
  {| m_hEcdhAlg := h; m_hLocalKeyPair := m_hLocalKeyPair e |}.
Definition with_hLocalKeyPair h (e : EcdhKeyExchange) : EcdhKeyExchange :=
  {| m_hEcdhAlg := m_hEcdhAlg e; m_hLocalKeyPair := h |}.

(** ** Methods *)
Section Exchange.
Context {W : Type} `{HC : Cng W}.

Definition destroy_EcdhKeyExchange (e : EcdhKeyExchange) : Proc W unit :=
  (if negb (m_hLocalKeyPair e =? NULL) then pcall (BCryptDestroyKey (m_hLocalKeyPair e)) else pret 0) ;;
  (if negb (m_hEcdhAlg e =? NULL) then pcall (BCryptCloseAlgorithmProvider (m_hEcdhAlg e)) else pret 0) ;;
  pret tt.

Definition GenerateEphemeralKeyPair (e : EcdhKeyExchange) : Proc W (bool * EcdhKeyExchange) :=
  let* '(status, h) := pcall (BCryptOpenAlgorithmProvider ECDH_P256 false (m_hEcdhAlg e)) in
  let e := with_hEcdhAlg h e in
  if negb (NT_SUCCESS status) then pret (false, e) else
  let* '(status, h) := pcall (BCryptGenerateKeyPair (m_hEcdhAlg e) 256 (m_hLocalKeyPair e)) in
  let e := with_hLocalKeyPair h e in
  if negb (NT_SUCCESS status) then pret (false, e) else
  let* status := pcall (BCryptFinalizeKeyPair (m_hLocalKeyPair e)) in
  pret (NT_SUCCESS status, e).

Definition GetPublicPointUncompressed (e : EcdhKeyExchange) : Proc W (list byte) :=
  if m_hLocalKeyPair e =? NULL then pret [] else
  let* '(status, _, cbBlob) := pcall (BCryptExportKey (m_hLocalKeyPair e) None 0) in
  if negb (NT_SUCCESS status) || (cbBlob <? SIZEOF_ECCKEY_BLOB + 64) then pret [] else
  let blob := replicate (Z.to_nat cbBlob) x00 in
  let* '(status, blob, _) := pcall (BCryptExportKey (m_hLocalKeyPair e) (Some blob) cbBlob) in
  if negb (NT_SUCCESS status) then pret [] else
  let uncompressed := replicate 65 x00 in
  let* uncompressed := plift (poke uncompressed 0 x04) in
  let* xyData := plift (rd_slice blob SIZEOF_ECCKEY_BLOB 64) in
  let* uncompressed := plift (memcpy_to uncompressed 1 xyData) in
  pret uncompressed.

(** The list is the memory readable from [peerPublicXy]. *)
Definition ComputeSharedSecret (e : EcdhKeyExchange) (peerPublicXy : option (list byte)) (length : Z)
    : Proc W (list byte) :=
  match peerPublicXy with
  | None => pret []
  | Some peer =>
    if (m_hLocalKeyPair e =? NULL) || (negb (length =? 64) && negb (length =? 65)) then pret [] else
    let* xy := (if length =? 65
                then let* b := plift (rd peer 0) in
                     pret (if u8 b =? 0x04 then drop 1 peer else peer)
                else pret peer) in
    let blobSize := SIZEOF_ECCKEY_BLOB + 64 in
    let blob := replicate (Z.to_nat blobSize) x00 in
    let* blob := plift (memcpy_to blob 0 (le_bytes 4 BCRYPT_ECDH_PUBLIC_P256_MAGIC)) in
    let* blob := plift (memcpy_to blob 4 (le_bytes 4 32)) in
    let* xy := plift (rd_slice xy 0 64) in
    let* blob := plift (memcpy_to blob SIZEOF_ECCKEY_BLOB xy) in
    let* '(status, hPeerKey) := pcall (BCryptImportKeyPair (m_hEcdhAlg e) blob NULL) in
    if negb (NT_SUCCESS status) then pret [] else
    let* '(status, hSecret) := pcall (BCryptSecretAgreement (m_hLocalKeyPair e) hPeerKey NULL) in
    pcall (BCryptDestroyKey hPeerKey) ;;
    if negb (NT_SUCCESS status) then pret [] else
    let* '(status, _, cbSecret) := pcall (BCryptDeriveKey hSecret None 0) in
    if negb (NT_SUCCESS status) || (cbSecret =? 0) then
      pcall (BCryptDestroySecret hSecret) ;;
      pret []
    else
    let sharedSecret := replicate (Z.to_nat cbSecret) x00 in
    let* '(status, sharedSecret, _) := pcall (BCryptDeriveKey hSecret (Some sharedSecret) cbSecret) in
    pcall (BCryptDestroySecret hSecret) ;;
    if negb (NT_SUCCESS status) then pret [] else
    pret sharedSecret
  end.

End Exchange.

(** ** What the calls do *)
Section Laws.
Context {W : Type} `{HC : Cng W} `{HM : CngModel W} `{HE : EcdhModel W} `{HL : !CngLaws W}
        `{HEL : !EcdhLaws W} `{HV : !CngLive W} `{HEV : !EcdhLive W}.
Implicit Types (w : W) (e : EcdhKeyExchange).

(** The object's local key pair is [private]. *)
Definition has_key e (private : list byte) w : Prop :=
  m_hLocalKeyPair e <> NULL /\ obj w !! m_hLocalKeyPair e = Some (KeyPairObj private) /\
  exists hmac, obj w !! m_hEcdhAlg e = Some (AlgObj ECDH_P256 hmac).

(** The object's key pair, if it has one, is [private]. *)
Definition holds e (private : list byte) w : Prop := m_hLocalKeyPair e = NULL \/ has_key e private w.

(** Without the object's handles the table is [o]. *)
Definition owned e (o o' : gmap handle CngObj) : Prop :=
  o' !! NULL = None /\ delete (m_hEcdhAlg e) (delete (m_hLocalKeyPair e) o') = o.

Lemma destroy_ecdh_spec e w :
  obj w !! NULL = None ->
  wp (destroy_EcdhKeyExchange e)
    (fun _ w' => obj w' = delete (m_hEcdhAlg e) (delete (m_hLocalKeyPair e) (obj w))) w.
Proof.
  intros N. unfold destroy_EcdhKeyExchange.
  apply wp_seq with (R := fun _ w' => obj w' = delete (m_hLocalKeyPair e) (obj w)).
  { destruct (Z.eqb_spec (m_hLocalKeyPair e) NULL) as [->|]; cbn [negb].
    - apply wp_ret. by rewrite delete_id.
    - apply wp_call. intros a w' E. pose proof (destroy_key_law (m_hLocalKeyPair e) w) as D.
      by rewrite E in D. }
  intros ? w1 O1. eapply wp_seq.
  { apply close_unless_NULL. rewrite O1. apply lookup_delete_None. by right. }
  intros ? w2 O2. apply wp_ret. by rewrite O2, O1.
Qed.

(** A new object's key generation, whichever call fails. *)
Lemma generate_pair_spec w :
  obj w !! NULL = None ->
  wp (GenerateEphemeralKeyPair new_EcdhKeyExchange) (fun r w' =>
    owned r.2 (obj w) (obj w') /\
    (exists private, holds r.2 private w') /\
    (healthy w -> healthy w' /\ r.1 = true /\ m_hLocalKeyPair r.2 <> NULL)) w.
Proof.
  intros N. unfold GenerateEphemeralKeyPair, owned. cbn [m_hEcdhAlg new_EcdhKeyExchange].
  apply wp_seq with (R := fun r w1 => (obj w1 !! NULL = None /\ delete r.2 (obj w1) = obj w /\
       (NT_SUCCESS r.1 = true -> obj w1 = <[r.2 := AlgObj ECDH_P256 false]> (obj w) /\ obj w !! r.2 = None)) /\
       (healthy w -> healthy w1 /\ NT_SUCCESS r.1 = true)).
  { apply wp_and; [by apply open_step|]. apply wp_call. intros r w1 E Hw.
    destruct (live_open ECDH_P256 false NULL w Hw) as [A B]. by rewrite E in A, B. }
  intros [st h] w1 ((N1 & D1 & S1) & V1). cbn [fst snd] in *.
  destruct (NT_SUCCESS st); cbn [negb].
  2: { apply wp_ret. cbn. rewrite (delete_id (obj w1) NULL) by done.
       split; [done|]. split; [exists []; by left|]. intros Hw. by destruct (V1 Hw). }
  destruct (S1 eq_refl) as [O1 F1].
  apply wp_bind, wp_call. intros [st2 h2] w2 E2.
  cbn [m_hEcdhAlg m_hLocalKeyPair with_hEcdhAlg new_EcdhKeyExchange] in E2.
  destruct (generate_law h 256 NULL w1) as [private M].
  assert (V2 : healthy w -> healthy w2 /\ NT_SUCCESS st2 = true).
  { intros Hw. destruct (live_generate h false NULL w1 (proj1 (V1 Hw))) as [A B].
    - by rewrite O1, lookup_insert_eq.
    - by rewrite E2 in A, B. }
  rewrite E2 in M. unfold makes in M.
  destruct (NT_SUCCESS st2); cbn [negb].
  2: { destruct M as [-> O2]. apply wp_ret. cbn. rewrite O2.
       rewrite (delete_id (obj w1) NULL) by done.
       split; [done|]. split; [exists []; by left|]. intros Hw. by destruct (V2 Hw). }
  destruct M as (N2 & F2 & O2). apply wp_bind, wp_call. intros st3 w3 E3. apply wp_ret.
  cbn [m_hLocalKeyPair with_hLocalKeyPair] in E3.
  pose proof (finalize_law h2 w2) as O3.
  assert (V3 : healthy w -> healthy w3 /\ NT_SUCCESS st3 = true).
  { intros Hw. destruct (live_finalize h2 private w2 (proj1 (V2 Hw))) as [A B].
    - by rewrite O2, lookup_insert_eq.
    - by rewrite E3 in A, B. }
  rewrite E3 in O3. cbn [fst snd] in *. cbn. rewrite O3, O2.
  assert (h <> h2) by (intros ->; by rewrite O1, lookup_insert_eq in F2).
  split; [split|split].
  - by rewrite lookup_insert_ne.
  - by rewrite delete_insert_id.
  - exists private. right. unfold has_key. cbn. rewrite O3, O2.
    rewrite lookup_insert_eq, lookup_insert_ne, O1, lookup_insert_eq by done. eauto.
  - intros Hw. destruct (V3 Hw). done.
Qed.

(** Exporting the public point. *)
Lemma public_point_spec e private w :
  holds e private w ->
  wp (GetPublicPointUncompressed e) (fun r w' =>
    obj w' = obj w /\
    (r = [] \/ r = x04 :: ecdh_public private) /\
    (healthy w -> healthy w' /\ (m_hLocalKeyPair e <> NULL -> r <> []))) w.
Proof.
  intros K. unfold GetPublicPointUncompressed.
  destruct (Z.eqb_spec (m_hLocalKeyPair e) NULL) as [E0|NK].
  { apply wp_ret. split; [done|]. split; [by left|]. intros Hw. by split. }
  destruct K as [?|(_ & Ok & _)]; [done|].
  set (h := m_hLocalKeyPair e) in *.
  apply wp_bind, wp_call. intros [[st out] cb] w1 E1.
  pose proof (export_law h None 0 w) as X1. rewrite E1 in X1. destruct X1 as (O1 & _ & L1).
  assert (V1 : healthy w -> healthy w1 /\ NT_SUCCESS st = true).
  { intros Hw. destruct (live_export h private None 0 w Hw Ok) as [A B]; [done|].
    by rewrite E1 in A, B. }
  destruct (NT_SUCCESS st) eqn:Es; cbn [negb orb].
  2: { apply wp_ret. split; [done|]. split; [by left|]. intros Hw. by destruct (V1 Hw). }
  destruct (L1 eq_refl private Ok) as [-> _]. cbn [orb]. change (72 <? _) with false. cbn iota zeta.
  apply wp_bind, wp_call. intros [[st2 blob] cb2] w2 E2.
  pose proof (export_law h (Some (replicate (Z.to_nat 72) x00)) 72 w1) as X2. rewrite E2 in X2.
  destruct X2 as (O2 & Lb & L2). rewrite O1 in L2. change (length blob = 72%nat) in Lb.
  assert (V2 : healthy w -> healthy w2 /\ NT_SUCCESS st2 = true).
  { intros Hw. rewrite <- O1 in Ok.
    destruct (live_export h private (Some (replicate (Z.to_nat 72) x00)) 72 w1 (proj1 (V1 Hw)) Ok) as [A B].
    - by intros b [= <-].
    - by rewrite E2 in A, B. }
  destruct (NT_SUCCESS st2); cbn [negb].
  2: { apply wp_ret. split; [congruence|]. split; [by left|]. intros Hw. by destruct (V2 Hw). }
  destruct (L2 eq_refl private Ok) as [_ Eb]. specialize (Eb Lb).
  apply wp_bind. eapply wp_lift; [apply (poke_fill [] x04 65); len|].
  apply wp_bind. eapply wp_lift; [apply rd_slice_ok; unfold SIZEOF_ECCKEY_BLOB; lia|].
  assert (Ex : sub (Z.to_nat SIZEOF_ECCKEY_BLOB) (Z.to_nat 64) blob = ecdh_public private).
  { rewrite Eb. unfold ecc_blob. rewrite app_assoc. rewrite <- (app_nil_r (ecdh_public private)) at 1.
    pose proof (ecdh_public_length private).
    apply sub_app_exact; unfold SIZEOF_ECCKEY_BLOB; len. }
  rewrite Ex. pose proof (ecdh_public_length private) as Lp.
  apply wp_bind. eapply wp_lift; [apply (memcpy_fill [x04]); len|].
  apply wp_ret. split; [congruence|]. cbn [app].
  replace (65 - 1 - length (ecdh_public private))%nat with 0%nat by lia. cbn [replicate].
  rewrite app_nil_r. split; [by right|]. intros Hw. by destruct (V2 Hw).
Qed.

(** A point some private key has. *)
Definition valid_point (P : list byte) : Prop := exists other, P = ecdh_public other.

(** Reading a secret out and destroying its handle. *)
Lemma derive_secret_spec hSec s o w :
  length s = 32%nat -> o !! hSec = None -> obj w = <[hSec := SecretObj s]> o ->
  wp (let* '(status, _, cbSecret) := pcall (BCryptDeriveKey hSec None 0) in
      if negb (NT_SUCCESS status) || (cbSecret =? 0) then
        pcall (BCryptDestroySecret hSec) ;;
        pret []
      else
      let sharedSecret := replicate (Z.to_nat cbSecret) x00 in
      let* '(status, sharedSecret, _) := pcall (BCryptDeriveKey hSec (Some sharedSecret) cbSecret) in
      pcall (BCryptDestroySecret hSec) ;;
      if negb (NT_SUCCESS status) then pret [] else
      pret sharedSecret)
    (fun r w' => obj w' = o /\ (r = [] \/ r = s) /\ (healthy w -> healthy w' /\ r <> [])) w.
Proof.
  intros Ls F O. assert (Os : obj w !! hSec = Some (SecretObj s)) by (by rewrite O, lookup_insert_eq).
  assert (Done : forall (w' : W) x w'', BCryptDestroySecret hSec w' = (x, w'') -> obj w' = obj w ->
                 obj w'' = o /\ (healthy w' -> healthy w'')).
  { intros w' x w'' Ed Ow. pose proof (destroy_secret_law hSec w') as D.
    pose proof (live_destroy_secret hSec w') as V. rewrite Ed in D, V. cbn [snd] in D, V.
    by rewrite D, Ow, O, delete_insert_id. }
  apply wp_bind, wp_call. intros [[st out] cb] w1 E1.
  pose proof (derive_law hSec None 0 w) as X1. rewrite E1 in X1. destruct X1 as (O1 & _ & L1).
  assert (V1 : healthy w -> healthy w1 /\ NT_SUCCESS st = true).
  { intros Hw. destruct (live_derive hSec s None 0 w Hw Os) as [A B]; [done|]. by rewrite E1 in A, B. }
  destruct (NT_SUCCESS st); cbn [negb orb].
  2: { apply wp_bind, wp_call. intros ? w2 E2. apply wp_ret. split; [by eapply Done|].
       split; [by left|]. intros Hw. by destruct (V1 Hw). }
  destruct (L1 eq_refl s Os) as [-> _]. rewrite Ls. change (Z.of_nat 32 =? 0) with false. cbn iota zeta.
  apply wp_bind, wp_call. intros [[st2 out2] cb2] w2 E2.
  set (buf := replicate (Z.to_nat (Z.of_nat 32)) x00) in *.
  pose proof (derive_law hSec (Some buf) (Z.of_nat 32) w1) as X2. rewrite E2 in X2.
  destruct X2 as (O2 & Lo & L2). change (length out2 = 32%nat) in Lo. rewrite O1 in L2.
  assert (V2 : healthy w -> healthy w2 /\ NT_SUCCESS st2 = true).
  { intros Hw. rewrite <- O1 in Os.
    destruct (live_derive hSec s (Some buf) (Z.of_nat 32) w1 (proj1 (V1 Hw)) Os) as [A B].
    - intros b [= <-]. by rewrite Ls.
    - by rewrite E2 in A, B. }
  apply wp_bind, wp_call. intros ? w3 E3.
  destruct (Done w2 _ w3 E3) as [O3 V3]; [congruence|].
  destruct (NT_SUCCESS st2); cbn [negb]; apply wp_ret; (split; [done|]).
  - destruct (L2 eq_refl s Os) as [_ ->]; [|by rewrite Ls]. split; [by right|]. intros Hw.
    split; [by apply V3, V2|]. intros ->. discriminate.
  - split; [by left|]. intros Hw. by destruct (V2 Hw).
Qed.

(** The part of [ComputeSharedSecret] after the peer's blob is built. *)
Lemma secret_from_blob e private hmac P w :
  obj w !! m_hLocalKeyPair e = Some (KeyPairObj private) ->
  obj w !! m_hEcdhAlg e = Some (AlgObj ECDH_P256 hmac) ->
  wp (let* '(status, hPeerKey) := pcall (BCryptImportKeyPair (m_hEcdhAlg e)
                                    (ecc_blob BCRYPT_ECDH_PUBLIC_P256_MAGIC P) NULL) in
      if negb (NT_SUCCESS status) then pret [] else
      let* '(status, hSecret) := pcall (BCryptSecretAgreement (m_hLocalKeyPair e) hPeerKey NULL) in
      pcall (BCryptDestroyKey hPeerKey) ;;
      if negb (NT_SUCCESS status) then pret [] else
      let* '(status, _, cbSecret) := pcall (BCryptDeriveKey hSecret None 0) in
      if negb (NT_SUCCESS status) || (cbSecret =? 0) then
        pcall (BCryptDestroySecret hSecret) ;;
        pret []
      else
      let sharedSecret := replicate (Z.to_nat cbSecret) x00 in
      let* '(status, sharedSecret, _) := pcall (BCryptDeriveKey hSecret (Some sharedSecret) cbSecret) in
      pcall (BCryptDestroySecret hSecret) ;;
      if negb (NT_SUCCESS status) then pret [] else
      pret sharedSecret)
    (fun r w' => obj w' = obj w /\ (r = [] \/ r = ecdh_shared private P) /\
       (valid_point P -> healthy w -> healthy w' /\ r <> [])) w.
Proof.
  intros Ok Oa. set (h := m_hLocalKeyPair e) in *.
  apply wp_bind, wp_call. intros [st hPeer] w1 E1.
  destruct (import_law (m_hEcdhAlg e) (ecc_blob BCRYPT_ECDH_PUBLIC_P256_MAGIC P) NULL w) as (alg & hm & M1 & _).
  assert (V1 : valid_point P -> healthy w -> healthy w1 /\ NT_SUCCESS st = true).
  { intros [other ->] Hw.
    destruct (live_import (m_hEcdhAlg e) hmac other NULL w Hw Oa) as [A B]. by rewrite E1 in A, B. }
  rewrite E1 in M1. unfold makes in M1.
  destruct (NT_SUCCESS st); cbn [negb].
  2: { apply wp_ret. destruct M1 as [_ O1]. split; [done|]. split; [by left|].
       intros Hp Hw. by destruct (V1 Hp Hw). }
  destruct M1 as (N1 & F1 & O1). assert (Nh : hPeer <> h) by (intros ->; congruence).
  apply wp_bind, wp_call. intros [st2 hSec] w2 E2.
  destruct (agreement_law h hPeer NULL w1) as (pr & alg2 & magic & xy & M2 & S2).
  assert (V2 : valid_point P -> healthy w -> healthy w2 /\ NT_SUCCESS st2 = true).
  { intros Hp Hw. destruct (live_agreement h hPeer private alg P NULL w1 (proj1 (V1 Hp Hw))) as [A B].
    - by rewrite O1, lookup_insert_ne.
    - by rewrite O1, lookup_insert_eq.
    - by rewrite E2 in A, B. }
  rewrite E2 in M2, S2. unfold makes in M2. cbn [fst snd] in S2. rewrite O1 in M2, S2.
  apply wp_bind, wp_call. intros ? w3 E3.
  pose proof (destroy_key_law hPeer w2) as O3. pose proof (live_destroy_key hPeer w2) as V3.
  rewrite E3 in O3, V3. cbn [snd] in O3, V3.
  destruct (NT_SUCCESS st2); cbn [negb].
  2: { apply wp_ret. destruct M2 as [_ O2]. rewrite O3, O2, delete_insert_id by done.
       split; [done|]. split; [by left|]. intros Hp Hw. by destruct (V2 Hp Hw). }
  destruct M2 as (N2 & F2 & O2). destruct (S2 eq_refl) as [K1 K2].
  rewrite lookup_insert_ne, Ok in K1 by done. rewrite lookup_insert_eq in K2. injection K1 as <-.
  assert (xy = P) as -> by (apply (ecc_blob_inj magic BCRYPT_ECDH_PUBLIC_P256_MAGIC); congruence).
  assert (Nsp : hSec <> hPeer) by (intros ->; by rewrite lookup_insert_eq in F2).
  rewrite lookup_insert_ne in F2 by done. rewrite O2, delete_insert_ne, delete_insert_id in O3 by done.
  eapply wp_mono; [apply derive_secret_spec; [apply ecdh_shared_length | exact F2 | exact O3]|].
  intros r w' (O & R & V). split; [done|]. split; [done|]. intros Hp Hw. by apply V, V3, V2.
Qed.

(** Deriving the shared secret from a peer's point: whatever fails, the two
    temporary handles are destroyed. *)
Lemma shared_secret_spec e private peer n w :
  has_key e private w ->
  n <= Z.of_nat (length peer) ->
  wp (ComputeSharedSecret e (Some peer) n) (fun r w' =>
    obj w' = obj w /\
    (r = [] \/ ((n = 64 \/ n = 65) /\ r = ecdh_shared private (key_point peer n))) /\
    (forall other, healthy w -> (n = 64 \/ n = 65) -> key_point peer n = ecdh_public other ->
     healthy w' /\ r <> [])) w.
Proof.
  intros (NK & Ok & hmac & Oa) L. unfold ComputeSharedSecret.
  destruct ((m_hLocalKeyPair e =? NULL) || _) eqn:G.
  { apply wp_ret. split; [done|]. split; [by left|]. intros ?? Hn. lia. }
  assert (Hn : n = 64 \/ n = 65) by lia. clear G.
  eapply wp_seq; [by apply pick_point|]. intros xy ? (-> & Ek & Lx).
  apply fill_blob; [done|]. rewrite Ek. set (P := key_point peer n).
  eapply wp_mono; [by eapply secret_from_blob|]. cbn beta. intros r w' (A & B & D).
  split; [done|]. split; [destruct B; auto|]. intros other Hw _ EP. apply D; [by exists other | done].
Qed.

End Laws.

(** * Properties *)
Section Properties.
Context {W : Type} `{HC : Cng W} `{HM : CngModel W} `{HE : EcdhModel W} `{HL : !CngLaws W}
        `{HEL : !EcdhLaws W} `{HV : !CngLive W} `{HEV : !EcdhLive W}.

(** One end's PIN from its shared secret, as pairing computes it. *)
Definition pairing_info : string := "PhoneKey-Pairing-SAS".
Definition pairing_pin (sessionId secret : list byte) : Proc W string :=
  match secret with
  | [] => pret "000000"%string
  | _ =>
    let* kSas := DeriveKey (Some sessionId) (Z.of_nat (length sessionId)) (Some secret)
                   (Z.of_nat (length secret)) pairing_info 32 in
    ComputeSasPin (Some kSas) (Z.of_nat (length kSas))
  end.

(** The pairing exchange with both ends: each makes a key pair, sends its
    public point, derives the secret and the PIN, and the objects go away. *)
Definition pairing (sessionId : list byte) : Proc W ((list byte * string) * (list byte * string)) :=
  let* '(_, a) := GenerateEphemeralKeyPair new_EcdhKeyExchange in
  let* '(_, b) := GenerateEphemeralKeyPair new_EcdhKeyExchange in
  let* pa := GetPublicPointUncompressed a in
  let* pb := GetPublicPointUncompressed b in
  let* sa := ComputeSharedSecret a (Some pb) (Z.of_nat (length pb)) in
  let* sb := ComputeSharedSecret b (Some pa) (Z.of_nat (length pa)) in
  let* pinA := pairing_pin sessionId sa in
  let* pinB := pairing_pin sessionId sb in
  destroy_EcdhKeyExchange b ;;
  destroy_EcdhKeyExchange a ;;
  pret ((sa, pinA), (sb, pinB)).

(** The PIN of a secret. *)
Definition PIN (sessionId secret : list byte) : string :=
  six_digits (Z.to_N (pin_of (hmac_sha256
    (hkdf sessionId secret (string_bytes pairing_info) 32) (string_bytes sas_info)))).

Lemma pairing_pin_spec sid secret (w : W) :
  Z.of_nat (length sid) < 2 ^ 32 -> length secret = 32%nat ->
  wp (pairing_pin sid secret) (fun pin w' =>
    obj w' = obj w /\ (pin = "000000"%string \/ pin = PIN sid secret) /\
    (healthy w -> healthy w' /\ pin = PIN sid secret)) w.
Proof.
  intros Ls L32. unfold pairing_pin. destruct secret as [|x0 s0]; [done|]. set (secret := x0 :: s0) in *.
  eapply wp_seq; [apply (derive_key_spec sid secret pairing_info 32); [done | lia | done]|].
  intros k w1 (O1 & D1 & H1).
  assert (Lk : length (hkdf sid secret (string_bytes pairing_info) 32) = 32%nat).
  { unfold hkdf, hkdf_expand. rewrite length_take, length_okm. lia. }
  destruct D1 as [-> | ->].
  - apply wp_ret. split; [done|]. split; [by left|]. intros Hw. destruct (H1 Hw) as [_ E].
    rewrite <- E in Lk. done.
  - set (k := hkdf _ _ _ _) in *. eapply wp_mono; [apply sas_spec; [by destruct k | lia]|].
    intros pin w2 (O2 & D2 & H2). split; [congruence|]. split; [done|]. intros Hw. apply H2, H1, Hw.
Qed.

Lemma pairing_pin_after sid secret r o (w : W) (Good : Prop) :
  Z.of_nat (length sid) < 2 ^ 32 -> length secret = 32%nat -> obj w = o ->
  (r = [] \/ r = secret) -> (Good -> healthy w /\ r <> []) ->
  wp (pairing_pin sid r) (fun pin w' =>
    obj w' = o /\ (pin = "000000"%string \/ pin = PIN sid secret) /\
    (Good -> healthy w' /\ r = secret /\ pin = PIN sid secret)) w.
Proof.
  intros Ls L32 O [-> | ->] G.
  - apply wp_ret. split; [done|]. split; [by left|]. intros [_ ?]%G. done.
  - eapply wp_mono; [by apply pairing_pin_spec|]. intros pin w' (O' & D & H).
    split; [congruence|]. split; [done|]. intros [Hw _]%G. destruct (H Hw). done.
Qed.

(** The peer's buffer, when it is a point. *)
Lemma key_point_uncompressed P :
  length P = 64%nat -> key_point (x04 :: P) (Z.of_nat (length (x04 :: P))) = P.
Proof.
  intros L. unfold key_point. cbn [length]. rewrite L. change (Z.of_nat 65 =? 65) with true.
  change (u8 x04 =? 4) with true. cbn [andb]. apply take_ge. lia.
Qed.

(** One end's derivation, from whatever the other end exported. *)
Lemma derive_from_peer e private peer point (w : W) :
  holds e private w ->
  (point = [] \/ point = x04 :: ecdh_public peer) ->
  wp (ComputeSharedSecret e (Some point) (Z.of_nat (length point))) (fun r w' =>
    obj w' = obj w /\
    (r = [] \/ r = ecdh_shared private (ecdh_public peer)) /\
    (healthy w -> m_hLocalKeyPair e <> NULL -> point <> [] -> healthy w' /\ r <> [])) w.
Proof.
  intros K Pt. destruct (decide (m_hLocalKeyPair e = NULL)) as [EN|NN].
  { unfold ComputeSharedSecret. rewrite EN. apply wp_ret. split; [done|]. split; [by left | done]. }
  destruct K as [|HK]; [done|].
  eapply wp_mono; [by apply (shared_secret_spec e private)|].
  intros r w' (O & R & V). split; [done|]. pose proof (ecdh_public_length peer) as Lp. split.
  - destruct R as [->|[Hn ->]]; [by left|]. destruct Pt as [-> | ->]; [cbn in Hn; lia|].
    right. by rewrite key_point_uncompressed.
  - intros Hw _ NP. destruct Pt as [ | ->]; [done|]. apply (V peer Hw); [cbn [length]; lia|].
    by apply key_point_uncompressed.
Qed.

(** Two objects that can coexist in one table. *)
Lemma owned_subseteq e o o' : owned e o o' -> o ⊆ o'.
Proof. intros [_ <-]. etransitivity; apply delete_subseteq. Qed.

Lemma holds_mono e private (w w' : W) : holds e private w -> obj w ⊆ obj w' -> holds e private w'.
Proof.
  intros [|(N & K & hmac & A)] Sub; [by left|]. right. split; [done|].
  split; [by eapply lookup_weaken|]. exists hmac. by eapply lookup_weaken.
Qed.

Lemma destroy_owned e o (w : W) :
  owned e o (obj w) -> wp (destroy_EcdhKeyExchange e) (fun _ w' => obj w' = o) w.
Proof.
  intros [N D]. eapply wp_mono; [by apply destroy_ecdh_spec|]. intros _ w' ->. exact D.
Qed.

(** C26: two key exchanges of the PC's own code (the two ends of its tests; a phone
    at the other end reads the secret in the other byte order, see
    [pairing_with_phone] in PhonePairing).  Whatever CNG calls fail, the exchange has a defined result and
    leaves no CNG object behind, and there is one 32-byte secret such that each
    end's secret is it or empty, and each end's PIN is its six-digit PIN or
    "000000".  When CNG is healthy both ends get the secret and the same PIN. *)
Theorem pairing_agreement sid (w : W) :
  obj w !! NULL = None -> Z.of_nat (length sid) < 2 ^ 32 ->
  wp (pairing sid) (fun r w' =>
    obj w' = obj w /\
    exists secret, length secret = 32%nat /\
      (r.1.1 = [] \/ r.1.1 = secret) /\ (r.2.1 = [] \/ r.2.1 = secret) /\
      (r.1.2 = "000000"%string \/ r.1.2 = PIN sid secret) /\
      (r.2.2 = "000000"%string \/ r.2.2 = PIN sid secret) /\
      (healthy w -> r = ((secret, PIN sid secret), (secret, PIN sid secret)))) w.
Proof.
  intros N Ls. unfold pairing.
  eapply wp_seq; [by apply generate_pair_spec|]. intros [b1 a] w1 (Oa & [A Ka] & Ha). cbn [fst snd] in *.
  eapply wp_seq; [apply generate_pair_spec, Oa|]. intros [b2 b] w2 (Ob & [B Kb] & Hb). cbn [fst snd] in *.
  eapply (holds_mono _ _ _ w2) in Ka; [|by eapply owned_subseteq].
  eapply wp_seq; [by apply public_point_spec|]. intros pa w3 (O3 & Da & H3).
  assert (S3 : obj w2 ⊆ obj w3) by (by rewrite O3).
  eapply wp_seq; [apply public_point_spec; by eapply holds_mono|]. intros pb w4 (O4 & Db & H4).
  assert (S4 : obj w2 ⊆ obj w4) by (by rewrite O4).
  eapply wp_seq; [by apply (derive_from_peer a A B); [eapply holds_mono|]|]. intros sa w5 (O5 & Dsa & H5).
  assert (S5 : obj w2 ⊆ obj w5) by (by rewrite O5).
  eapply wp_seq; [by apply (derive_from_peer b B A); [eapply holds_mono|]|]. intros sb w6 (O6 & Dsb & H6).
  rewrite (ecdh_commutes B A) in Dsb. pose proof (ecdh_shared_length A (ecdh_public B)) as L32.
  set (secret := ecdh_shared A (ecdh_public B)) in *.
  assert (G6 : healthy w -> healthy w6 /\ sa <> [] /\ sb <> []).
  { intros Hw. destruct (Ha Hw) as (V1 & _ & Na). destruct (Hb V1) as (V2 & _ & Nb).
    destruct (H3 V2) as [V3 Pa]. destruct (H4 V3) as [V4 Pb].
    destruct (H5 V4 Na (Pb Nb)) as [V5 Sa]. destruct (H6 V5 Nb (Pa Na)) as [V6 Sb]. done. }
  eapply wp_seq; [apply (pairing_pin_after sid secret sa (obj w2) w6 (healthy w)); try done; [congruence | naive_solver]|].
  intros pinA w7 (O7 & DA & H7).
  eapply wp_seq; [apply (pairing_pin_after sid secret sb (obj w2) w7 (healthy w)); try done; naive_solver|].
  intros pinB w8 (O8 & DB & H8).
  eapply wp_seq; [apply (destroy_owned b (obj w1)); by rewrite O8|]. intros ? w9 O9.
  eapply wp_seq; [apply (destroy_owned a (obj w)); by rewrite O9|]. intros ? w10 O10.
  apply wp_ret. split; [done|]. exists secret. cbn [fst snd]. repeat (split; [done|]).
  intros Hw. destruct (H7 Hw) as (_ & -> & ->), (H8 Hw) as (_ & -> & ->). done.
Qed.

End Properties.

(** * Witnesses *)
From S2P Require Import Simulator.

Lemma pairing_agreement_witness :
  let sid := replicate 16 (to_u8 5) in
  (match pairing sid sim0 with
   | Def ((sa, pinA), (sb, pinB), _) => bool_decide (length sa = 32%nat) && bool_decide (sa = sb) && String.eqb pinA pinB
   | UB => false
   end = true) /\
  wp (pairing sid) (fun r w' =>
    obj w' = obj sim0 /\
    exists secret, length secret = 32%nat /\
      (r.1.1 = [] \/ r.1.1 = secret) /\ (r.2.1 = [] \/ r.2.1 = secret) /\
      (r.1.2 = "000000"%string \/ r.1.2 = PIN sid secret) /\
      (r.2.2 = "000000"%string \/ r.2.2 = PIN sid secret) /\
      (healthy sim0 -> r = ((secret, PIN sid secret), (secret, PIN sid secret)))) sim0.
Proof.
  split; [vm_compute; reflexivity|].
  exact (pairing_agreement (replicate 16 (to_u8 5)) sim0 eq_refl eq_refl).
Defined.
