(* ===== verification/Win32.v ===== *)
(** * Win32: programs that call the operating system and run beside others

    The pipe server, its client and the credential provider run in different
    threads and processes, so their Win32 calls interleave.  Such a function is
    a [Prog]: a tree whose nodes are calls and whose branches are the answers.
    [runs p tr r] says that [p], receiving the answers recorded in the trace
    [tr], ends with [r]; nothing is assumed about what other threads do between
    two calls.  A program is a finite tree, so every run ends. *)
From S2P Require Import Prelude Bytes Platform.

(** ** Calls *)
Definition INVALID_HANDLE_VALUE : handle := -1.
Definition ERROR_PIPE_CONNECTED : Z := 535.

(** A [ReadFile] answers whether it succeeded and the bytes it stored; a
    [WriteFile] whether it succeeded and how many it wrote.  [Load] and [Store]
    are accesses to the members another thread also uses. *)
Inductive Shared : Type -> Type :=
| m_hPipe : Shared handle
| m_isRunning : Shared bool.

Inductive Win32 : Type -> Type :=
| CreateNamedPipeW : Win32 handle
| ConnectNamedPipe (h : handle) : Win32 bool
| GetLastError : Win32 Z
| DisconnectNamedPipe (h : handle) : Win32 bool
| FlushFileBuffers (h : handle) : Win32 bool
| WaitNamedPipeW (timeoutMs : Z) : Win32 bool
| CreateFileW : Win32 handle
| SetNamedPipeHandleState (h : handle) : Win32 bool
| ReadFile (h : handle) (n : Z) : Win32 (bool * list byte)
| WriteFile (h : handle) (data : list byte) : Win32 (bool * Z)
| CloseHandle (h : handle) : Win32 bool
| sleep_for (ms : Z) : Win32 unit
| join : Win32 unit
| CoTaskMemAlloc (n : Z) : Win32 handle
| SHStrDupW (s : string) : Win32 (Z * handle)
| RegCreateKeyExW (subkey : string) : Win32 (Z * handle)
| RegSetValueExW (hKey : handle) (value : string) : Win32 Z
| RegCloseKey (hKey : handle) : Win32 Z
| RegDeleteKeyW (subkey : string) : Win32 Z
| Load {X : Type} (v : Shared X) : Win32 X
| Store {X : Type} (v : Shared X) (x : X) : Win32 unit.

(** ** Programs *)
Inductive Prog (A : Type) : Type :=
| Ret (r : Res A)
| Vis {X : Type} (e : Win32 X) (k : X -> Prog A).
Arguments Ret {A} r.
Arguments Vis {A X} e k.

Fixpoint gbind {A B : Type} (p : Prog A) (k : A -> Prog B) : Prog B :=
  match p with
  | Ret (Def a) => k a
  | Ret UB => Ret UB
  | Vis e c => Vis e (fun x => gbind (c x) k)
  end.
Definition call {X : Type} (e : Win32 X) : Prog X := Vis e (fun x => Ret (Def x)).
Definition gret {A : Type} (a : A) : Prog A := Ret (Def a).

Declare Scope prog_scope.
Delimit Scope prog_scope with prog.
Notation "'do' p '<-' c1 'in' c2" := (gbind c1 (fun p => c2))
  (at level 10, p binder, c1 at level 100, c2 at level 200,
   format "'[v' 'do'  p  '<-'  c1  'in' '/' c2 ']'") : prog_scope.
Open Scope prog_scope.

(** ** Runs *)
Inductive Event : Type :=
| Ev {X : Type} (e : Win32 X) (x : X).
Abbreviation trace := (list Event).

Inductive runs {A : Type} : Prog A -> trace -> Res A -> Prop :=
| runs_ret r : runs (Ret r) [] r
| runs_vis {X : Type} (e : Win32 X) (k : X -> Prog A) x tr r :
    runs (k x) tr r -> runs (Vis e k) (Ev e x :: tr) r.

(** What is documented of a single answer: a read stores at most the bytes it
    was asked for. *)
Definition answer_ok {X : Type} (e : Win32 X) : X -> Prop :=
  match e with
  | ReadFile _ n => fun r => Z.of_nat (length r.2) <= n
  | _ => fun _ => True
  end.
Definition event_ok (ev : Event) : Prop := let '(Ev e x) := ev in answer_ok e x.

(** ** Reasoning

    [all p Q]: every run of [p] with documented answers has a defined result,
    and it satisfies [Q] together with its trace. *)
Fixpoint all {A : Type} (p : Prog A) (Q : trace -> A -> Prop) : Prop :=
  match p with
  | Ret (Def a) => Q [] a
  | Ret UB => False
  | Vis e k => forall x, answer_ok e x -> all (k x) (fun tr a => Q (Ev e x :: tr) a)
  end.

Lemma all_mono {A} (p : Prog A) (Q R : trace -> A -> Prop) :
  all p Q -> (forall tr a, Q tr a -> R tr a) -> all p R.
Proof.
  revert Q R. induction p as [[a|]|X e k IH]; intros Q R; cbn; auto.
  intros H HR x Hx. eapply IH; [by apply H|]. auto.
Qed.

Lemma all_and {A} (p : Prog A) (Q R : trace -> A -> Prop) :
  all p Q -> all p R -> all p (fun tr a => Q tr a /\ R tr a).
Proof.
  revert Q R. induction p as [[a|]|X e k IH]; intros Q R; cbn; auto.
Qed.

Lemma all_bind {A B} (p : Prog A) (k : A -> Prog B) (Q : trace -> B -> Prop) :
  all p (fun tr a => all (k a) (fun tr' b => Q (tr ++ tr') b)) -> all (gbind p k) Q.
Proof.
  revert Q. induction p as [[a|]|X e c IH]; intros Q; cbn; auto.
Qed.

(** The soundness of [all]. *)
Lemma all_runs {A} (p : Prog A) Q tr r :
  all p Q -> runs p tr r -> Forall event_ok tr -> exists a, r = Def a /\ Q tr a.
Proof.
  intros H R. revert Q H. induction R as [[a|]|X e k x tr r R IH]; intros Q H Ok.
  - by exists a.
  - done.
  - apply Forall_cons in Ok as [Hx Ok]. destruct (IH _ (H x Hx) Ok) as (a & -> & HQ). by exists a.
Qed.

(** Every program has a run, whatever the answers. *)
Lemma runs_bind {A B} (p : Prog A) (k : A -> Prog B) tr1 tr2 a r :
  runs p tr1 (Def a) -> runs (k a) tr2 r -> runs (gbind p k) (tr1 ++ tr2) r.
Proof.
  intros H. remember (Def a) as o eqn:E. revert E. induction H as [o|X e c x tr o H IH]; intros -> K; [done|].
  cbn. apply runs_vis. auto.
Qed.

Lemma runs_ub {A B} (p : Prog A) (k : A -> Prog B) tr :
  runs p tr UB -> runs (gbind p k) tr UB.
Proof.
  intros H. remember UB as o eqn:E. revert E. induction H as [o|X e c x tr o H IH]; intros ->.
  - apply runs_ret.
  - cbn. apply runs_vis. auto.
Qed.

(** ** Two threads *)

(** [merges a b m]: [m] interleaves [a] and [b]. *)
Inductive merges : trace -> trace -> trace -> Prop :=
| merges_nil : merges [] [] []
| merges_l e a b m : merges a b m -> merges (e :: a) b (e :: m)
| merges_r e a b m : merges a b m -> merges a (e :: b) (e :: m).

(** The interleaving a schedule picks ([true]: the first thread moves). *)
Fixpoint weave (schedule : list bool) (a b : trace) : trace :=
  match schedule, a, b with
  | true :: schedule, e :: a, _ => e :: weave schedule a b
  | false :: schedule, _, e :: b => e :: weave schedule a b
  | _ :: schedule, _, _ => weave schedule a b
  | [], _, _ => a ++ b
  end.

Lemma merges_concat a b : merges a b (a ++ b).
Proof.
  induction a as [|e a IH]; [|by apply merges_l].
  induction b as [|e b IH]; [apply merges_nil | by apply merges_r].
Qed.

Lemma weave_merges schedule a b : merges a b (weave schedule a b).
Proof.
  revert a b. induction schedule as [|s schedule IH]; intros a b; [apply merges_concat|].
  destruct s, a, b; cbn; auto using merges_l, merges_r.
Qed.

(** The values of the shared members along a trace: loads see the last store. *)
Fixpoint coherent (pipe : handle) (running : bool) (tr : trace) : Prop :=
  match tr with
  | [] => True
  | Ev (Load m_hPipe) x :: tr => x = pipe /\ coherent pipe running tr
  | Ev (Load m_isRunning) x :: tr => x = running /\ coherent pipe running tr
  | Ev (Store m_hPipe x) _ :: tr => coherent x running tr
  | Ev (Store m_isRunning x) _ :: tr => coherent pipe x tr
  | _ :: tr => coherent pipe running tr
  end.

(** ** What a trace did *)

(** Messages read and written, with the handle. *)
Fixpoint reads (tr : trace) : list (handle * list byte) :=
  match tr with
  | [] => []
  | Ev (ReadFile h _) r :: tr => (if r.1 then [(h, r.2)] else []) ++ reads tr
  | _ :: tr => reads tr
  end.
Fixpoint writes (tr : trace) : list (handle * list byte) :=
  match tr with
  | [] => []
  | Ev (WriteFile h data) r :: tr => (if r.1 then [(h, data)] else []) ++ writes tr
  | _ :: tr => writes tr
  end.

(** Pipe handles obtained, and handles closed. *)
Definition opened (h : handle) : list handle := if h =? INVALID_HANDLE_VALUE then [] else [h].
Fixpoint opens (tr : trace) : list handle :=
  match tr with
  | [] => []
  | Ev CreateFileW h :: tr => opened h ++ opens tr
  | Ev CreateNamedPipeW h :: tr => opened h ++ opens tr
  | _ :: tr => opens tr
  end.
Fixpoint closes (tr : trace) : list handle :=
  match tr with
  | [] => []
  | Ev (CloseHandle h) _ :: tr => h :: closes tr
  | _ :: tr => closes tr
  end.

(** Memory allocated for another component: the pointer and its size. *)
Fixpoint allocs (tr : trace) : list (handle * Z) :=
  match tr with
  | [] => []
  | Ev (CoTaskMemAlloc n) p :: tr => (if p =? NULL then [] else [(p, n)]) ++ allocs tr
  | _ :: tr => allocs tr
  end.

Ltac by_events tr := induction tr as [|[X e x] tr IH]; [done|]; destruct e; cbn; rewrite ?IH, ?app_assoc; done.

Lemma reads_app tr tr' : reads (tr ++ tr') = reads tr ++ reads tr'.
Proof. by_events tr. Qed.
Lemma writes_app tr tr' : writes (tr ++ tr') = writes tr ++ writes tr'.
Proof. by_events tr. Qed.
Lemma opens_app tr tr' : opens (tr ++ tr') = opens tr ++ opens tr'.
Proof. by_events tr. Qed.
Lemma closes_app tr tr' : closes (tr ++ tr') = closes tr ++ closes tr'.
Proof. by_events tr. Qed.
Lemma allocs_app tr tr' : allocs (tr ++ tr') = allocs tr ++ allocs tr'.
Proof. by_events tr. Qed.
Create Rewrite HintDb traces.
#[export] Hint Rewrite reads_app writes_app opens_app closes_app allocs_app : traces.

(** The shared members after a trace. *)
Fixpoint after (pipe : handle) (running : bool) (tr : trace) : handle * bool :=
  match tr with
  | [] => (pipe, running)
  | Ev (Store m_hPipe x) _ :: tr => after x running tr
  | Ev (Store m_isRunning x) _ :: tr => after pipe x tr
  | _ :: tr => after pipe running tr
  end.

Lemma after_app pipe running tr tr' :
  after pipe running (tr ++ tr') = after (after pipe running tr).1 (after pipe running tr).2 tr'.
Proof.
  revert pipe running. induction tr as [|[X e x] tr IH]; intros pipe running; [done|].
  destruct e; cbn; try apply IH; destruct v; cbn; apply IH.
Qed.

(** A trace that moves no message, touches no handle and stores nothing. *)
Definition quiet (tr : trace) : Prop :=
  reads tr = [] /\ writes tr = [] /\ closes tr = [] /\ opens tr = [] /\
  forall pipe running, after pipe running tr = (pipe, running).

Lemma quiet_app tr tr' : quiet tr -> quiet tr' -> quiet (tr ++ tr').
Proof.
  intros (R & Wr & C & O & A) (R' & Wr' & C' & O' & A'). unfold quiet. autorewrite with traces.
  rewrite R, R', Wr, Wr', C, C', O, O'. repeat (split; [done|]). intros. by rewrite after_app, A.
Qed.

Lemma coherent_app pipe running tr tr' :
  coherent pipe running (tr ++ tr') <->
  coherent pipe running tr /\ coherent (after pipe running tr).1 (after pipe running tr).2 tr'.
Proof.
  revert pipe running. induction tr as [|[X e x] tr IH]; intros pipe running; [cbn; tauto|].
  destruct e; cbn; try apply IH; destruct v; cbn; rewrite ?IH; tauto.
Qed.

(** Build a run from its trace. *)
Ltac run_trace := repeat (refine (runs_vis _ _ _ _ _ _); cbn); try apply runs_ret.
