(* ===== verification/NamedPipeIpc.v ===== *)
(** * NamedPipeIpc: requests between the logon screen and the agent

    Models windows/common/NamedPipeIpc.cpp: the packet format, the client's
    [SendIpcRequest], the server's worker loop and [Start]/[Stop], as programs
    of Win32.  The server's handler is a parameter. *)
From S2P Require Import Prelude Bytes Protocol Platform Win32.

(** ** Data *)

(** [IpcMessageType] is an enumeration over [uint16_t]: a cast can give it any
    16-bit value. *)
Definition REQ_STATUS : Z := 0x0001.
Definition RESP_STATUS : Z := 0x0002.
Definition REQ_UNLOCK : Z := 0x0003.
Definition RESP_UNLOCK : Z := 0x0004.
Definition IPC_MAX_BUFFER_SIZE : Z := 4096.

Record IpcPacket : Type := {
  type : Z;
  statusCode : Z;
  ipc_payload : list byte;
}.

(** ** The packet format *)
Definition ipc_pack (p : IpcPacket) : list byte :=
  [byte_at (type p) 8; byte_at (type p) 0; byte_at (statusCode p) 8; byte_at (statusCode p) 0]
  ++ ipc_payload p.

#[global] Arguments ipc_pack : simpl never.

(** The fields read from [rxBuf] into [out]; an empty payload is not assigned. *)
Definition ipc_unpack (rxBuf : list byte) (bytesRead : Z) (out : IpcPacket) : Res IpcPacket :=
  let? b0 := rd rxBuf 0 in
  let? b1 := rd rxBuf 1 in
  let? b2 := rd rxBuf 2 in
  let? b3 := rd rxBuf 3 in
  let out := {| type := be16 b0 b1; statusCode := be16 b2 b3; ipc_payload := ipc_payload out |} in
  if bytesRead >? 4 then
    let? body := rd_slice rxBuf 4 (bytesRead - 4) in
    Def {| type := type out; statusCode := statusCode out; ipc_payload := body |}
  else Def out.

(** A buffer of [n] zero bytes after a read stored [bytes] in it. *)
Definition fill (n : Z) (bytes : list byte) : list byte :=
  bytes ++ replicate (Z.to_nat n - length bytes) x00.

(** The first [static_cast<DWORD>(size())] bytes of a vector. *)
Definition dword_bytes (l : list byte) : list byte := take (Z.to_nat (u32 (Z.of_nat (length l)))) l.

(** ** The client *)
Definition SendIpcRequest (request outResponse : IpcPacket) (timeoutMs : Z) : Prog (bool * IpcPacket) :=
  do found <- call (WaitNamedPipeW timeoutMs) in
  if negb found then gret (false, outResponse) else
  do hPipe <- call CreateFileW in
  if hPipe =? INVALID_HANDLE_VALUE then gret (false, outResponse) else
  do _ <- call (SetNamedPipeHandleState hPipe) in
  let txBuf := ipc_pack request in
  do '(ok, _) <- call (WriteFile hPipe (dword_bytes txBuf)) in
  if negb ok then
    do _ <- call (CloseHandle hPipe) in
    gret (false, outResponse)
  else
  do '(ok, bytes) <- call (ReadFile hPipe IPC_MAX_BUFFER_SIZE) in
  let rxBuf := fill IPC_MAX_BUFFER_SIZE bytes in
  let bytesRead := Z.of_nat (length bytes) in
  if negb ok || (bytesRead <? 4) then
    do _ <- call (CloseHandle hPipe) in
    gret (false, outResponse)
  else
  do outResponse <- Ret (ipc_unpack rxBuf bytesRead outResponse) in
  do _ <- call (CloseHandle hPipe) in
  gret (true, outResponse).

(** ** The server *)
Section Server.
Variable m_handler : option (IpcPacket -> IpcPacket).

(** The answer to a request; without a handler its payload is empty. *)
Definition ipc_respond (req : IpcPacket) : IpcPacket :=
  match m_handler with
  | Some handler => handler req
  | None => {| type := type req; statusCode := 0xFFFF; ipc_payload := [] |}
  end.

(** A connected client: one request, one response. *)
Definition serve_client (req : IpcPacket) : Prog unit :=
  do h <- call (Load m_hPipe) in
  do '(ok, bytes) <- call (ReadFile h IPC_MAX_BUFFER_SIZE) in
  let rxBuf := fill IPC_MAX_BUFFER_SIZE bytes in
  let bytesRead := Z.of_nat (length bytes) in
  if ok && (bytesRead >=? 4) then
    do req <- Ret (ipc_unpack rxBuf bytesRead req) in
    let txBuf := ipc_pack (ipc_respond req) in
    do h <- call (Load m_hPipe) in
    do _ <- call (WriteFile h (dword_bytes txBuf)) in
    do h <- call (Load m_hPipe) in
    do _ <- call (FlushFileBuffers h) in
    gret tt
  else gret tt.

(** The body of the loop.  [req] is the packet declared in it: its payload is
    empty, its other fields are indeterminate. *)
Definition serve_once (type0 status0 : Z) : Prog unit :=
  do h <- call CreateNamedPipeW in
  do _ <- call (Store m_hPipe h) in
  do h <- call (Load m_hPipe) in
  if h =? INVALID_HANDLE_VALUE then
    do _ <- call (sleep_for 500) in
    gret tt
  else
  do h <- call (Load m_hPipe) in
  do ok <- call (ConnectNamedPipe h) in
  do connected <- (if ok : bool then gret true
                   else do err <- call GetLastError in gret (err =? ERROR_PIPE_CONNECTED)) in
  do running <- (if connected : bool then call (Load m_isRunning) else gret false) in
  do _ <- (if connected && running
           then serve_client {| type := type0; statusCode := status0; ipc_payload := [] |}
           else gret tt) in
  do h <- call (Load m_hPipe) in
  do _ <- call (DisconnectNamedPipe h) in
  do h <- call (Load m_hPipe) in
  do _ <- call (CloseHandle h) in
  do _ <- call (Store m_hPipe INVALID_HANDLE_VALUE) in
  gret tt.

(** [while (m_isRunning)]; [false] means it was still running after [fuel]
    iterations. *)
Fixpoint ServerWorker (fuel : nat) (type0 status0 : Z) : Prog bool :=
  match fuel with
  | O => gret false
  | S fuel =>
    do running <- call (Load m_isRunning) in
    if negb running then gret true else
    do _ <- serve_once type0 status0 in
    ServerWorker fuel type0 status0
  end.
End Server.

(** [Stop]; [joinable] is whether a worker thread was started. *)
Definition pipe_Stop (joinable : bool) : Prog unit :=
  do _ <- call (Store m_isRunning false) in
  do h <- call (Load m_hPipe) in
  do _ <- (if negb (h =? INVALID_HANDLE_VALUE) then
             do h <- call (Load m_hPipe) in
             do _ <- call (CloseHandle h) in
             call (Store m_hPipe INVALID_HANDLE_VALUE)
           else gret tt) in
  if joinable then call join else gret tt.

(** [Start], up to the creation of the thread that runs [ServerWorker]. *)
Definition pipe_Start (joinable : bool) : Prog bool :=
  do _ <- pipe_Stop joinable in
  do _ <- call (Store m_isRunning true) in
  gret true.

(** ** The packet format round-trips *)

(** What a message says, received into [out]. *)
Definition packet_of (msg : list byte) (out : IpcPacket) : IpcPacket :=
  {| type := be_value (sub 0 2 msg); statusCode := be_value (sub 2 2 msg);
     ipc_payload := match drop 4 msg with [] => ipc_payload out | body => body end |}.

Lemma fill_length bytes : Z.of_nat (length bytes) <= 4096 -> length (fill IPC_MAX_BUFFER_SIZE bytes) = 4096%nat.
Proof. intros. unfold fill, IPC_MAX_BUFFER_SIZE. len. Qed.

Lemma ipc_unpack_spec msg out :
  4 <= Z.of_nat (length msg) <= 4096 ->
  ipc_unpack (fill IPC_MAX_BUFFER_SIZE msg) (Z.of_nat (length msg)) out = Def (packet_of msg out).
Proof.
  intros L. unfold ipc_unpack, packet_of.
  destruct msg as [|b0 [|b1 [|b2 [|b3 body]]]]; try (cbn in L; lia).
  pose proof (fill_length (b0 :: b1 :: b2 :: b3 :: body)) as Lf. set (msg := b0 :: b1 :: b2 :: b3 :: body) in *.
  assert (R : forall i b, msg !! i = Some b -> rd (fill IPC_MAX_BUFFER_SIZE msg) (Z.of_nat i) = Def b).
  { intros i b H. apply rd_Def. split; [lia|]. rewrite Nat2Z.id. unfold fill. by apply lookup_app_l_Some. }
  rewrite (R 0%nat b0 eq_refl : rd _ 0 = _), (R 1%nat b1 eq_refl : rd _ 1 = _),
    (R 2%nat b2 eq_refl : rd _ 2 = _), (R 3%nat b3 eq_refl : rd _ 3 = _). cbn [mbind Res_bind].
  rewrite !be16_value. change (drop 4 msg) with body.
  destruct (Z.gtb_spec (Z.of_nat (length msg)) 4) as [G|G].
  - rewrite rd_slice_ok by lia. cbn [mbind Res_bind type statusCode].
    assert (E : sub (Z.to_nat 4) (Z.to_nat (Z.of_nat (length msg) - 4)) (fill IPC_MAX_BUFFER_SIZE msg) = body).
    { change (Z.to_nat 4) with 4%nat. unfold sub, fill, msg. cbn [drop app]. apply take_app_exact. cbn [length]. lia. }
    rewrite E. destruct body; [cbn in G; lia | done].
  - destruct body; [done | cbn in G; lia].
Qed.

(** A packet whose two header fields are 16-bit, as their types make them. *)
Definition wf_packet (p : IpcPacket) : Prop := 0 <= type p < 2 ^ 16 /\ 0 <= statusCode p < 2 ^ 16.

Lemma length_ipc_pack p : length (ipc_pack p) = (4 + length (ipc_payload p))%nat.
Proof. done. Qed.

Lemma ipc_pack_be p : ipc_pack p = be_bytes 2 (type p) ++ be_bytes 2 (statusCode p) ++ ipc_payload p.
Proof. by rewrite !be_bytes_2. Qed.

(** What a packet becomes when it is received into [out]. *)
Definition received (p out : IpcPacket) : IpcPacket :=
  {| type := type p; statusCode := statusCode p;
     ipc_payload := match ipc_payload p with [] => ipc_payload out | body => body end |}.

Lemma packet_of_pack p out : wf_packet p -> packet_of (ipc_pack p) out = received p out.
Proof.
  intros [Ht Hs]. unfold packet_of, received.
  assert (E1 : sub 0 2 (ipc_pack p) = be_bytes 2 (type p)).
  { rewrite ipc_pack_be. apply sub_app_head. len. }
  assert (E2 : sub 2 2 (ipc_pack p) = be_bytes 2 (statusCode p)).
  { rewrite ipc_pack_be. apply sub_app_exact; by rewrite length_be_bytes. }
  rewrite E1, E2, !be_value_be_bytes_small by done. done.
Qed.

Lemma dword_bytes_small l : Z.of_nat (length l) < 2 ^ 32 -> dword_bytes l = l.
Proof. intros H. unfold dword_bytes. rewrite wrap_small by lia. rewrite Nat2Z.id. apply take_ge. lia. Qed.

(** ** What one call of the client does *)

(** The answers of calls that succeed, a read bringing at least a header. *)
Definition answered (ev : Event) : Prop :=
  match ev with
  | Ev (WaitNamedPipeW _) found => found = true
  | Ev CreateFileW h => h <> INVALID_HANDLE_VALUE
  | Ev (WriteFile _ _) r => r.1 = true
  | Ev (ReadFile _ _) r => r.1 = true /\ 4 <= Z.of_nat (length r.2)
  | Ev (CoTaskMemAlloc _) p => p <> NULL
  | _ => True
  end.

(** Refute a trace whose last answers are failures. *)
Ltac unanswered F := exfalso; repeat (apply Forall_cons in F as [? F]; cbn in *); naive_solver lia.

(** The client's side of an exchange: at most one message each way, on the one
    handle it opens, which it closes. *)
Definition client_post (request out : IpcPacket) (tr : trace) (r : bool * IpcPacket) : Prop :=
  closes tr = opens tr /\
  (Forall answered tr -> r.1 = true) /\
  if r.1
  then exists h msg, opens tr = [h] /\ writes tr = [(h, dword_bytes (ipc_pack request))] /\
       reads tr = [(h, msg)] /\ 4 <= Z.of_nat (length msg) <= 4096 /\ r.2 = packet_of msg out
  else r.2 = out.

Lemma client_spec request out timeoutMs :
  all (SendIpcRequest request out timeoutMs) (client_post request out).
Proof.
  unfold SendIpcRequest, client_post. cbn [call gbind all answer_ok].
  intros found _. destruct found; cbn [negb gret all].
  2: { split; [done|]. split; [intros F; unanswered F | done]. }
  cbn [gbind all answer_ok]. intros h _.
  destruct (Z.eqb_spec h INVALID_HANDLE_VALUE) as [->|N]; cbn [gret all].
  { split; [done|]. split; [intros F; unanswered F | done]. }
  assert (Oh : opened h = [h]) by (unfold opened; by rewrite (proj2 (Z.eqb_neq _ _) N)).
  cbn [gbind all answer_ok]. intros ? _ [ok n] _. cbn [fst].
  destruct ok; cbn [negb gbind call all answer_ok gret].
  2: { intros ? _. cbn [closes opens]. rewrite Oh. split; [done|].
       split; [intros F; unanswered F | done]. }
  intros [ok bytes] Hb. cbn [snd] in Hb. unfold IPC_MAX_BUFFER_SIZE in Hb at 1.
  destruct (negb ok || _) eqn:G; cbn [gbind call all answer_ok gret].
  { intros ? _. cbn [closes opens]. rewrite Oh. split; [done|]. split; [intros F | done].
    destruct ok; unanswered F. }
  apply orb_false_elim in G as [Gok%negb_false_iff G4]. subst ok.
  rewrite ipc_unpack_spec by lia. cbn [gbind all answer_ok].
  intros ? _. cbn. rewrite Oh. split; [done|]. split; [done|]. exists h, bytes.
  repeat (split; [done || lia|]). done.
Qed.

(** ** What one iteration of the server does *)

(** Whatever other threads do: at most one message is read, and what is written
    is the packed response to it. *)
Definition server_post (H : option (IpcPacket -> IpcPacket)) (req : IpcPacket) (tr : trace) : Prop :=
  (reads tr = [] /\ writes tr = []) \/
  exists h msg, reads tr = [(h, msg)] /\ Z.of_nat (length msg) <= 4096 /\
    (writes tr = [] \/
     4 <= Z.of_nat (length msg) /\
     exists h', writes tr = [(h', dword_bytes (ipc_pack (ipc_respond H (packet_of msg req))))]).

(** When no other thread touches the members, it closes the pipe it opened. *)
Definition tidy (tr : trace) : Prop :=
  forall pipe running, coherent pipe running tr ->
    closes tr = opens tr /\ after pipe running tr = (INVALID_HANDLE_VALUE, running).

(** The part with a connected client, on pipe [h]. *)
Lemma serve_client_spec H req :
  all (serve_client H req) (fun tr _ =>
    server_post H req tr /\ closes tr = [] /\ opens tr = [] /\
    (forall pipe running, after pipe running tr = (pipe, running))).
Proof.
  unfold serve_client. cbn [call gbind all answer_ok]. intros h _ [ok bytes] Hb. cbn [snd] in Hb.
  unfold IPC_MAX_BUFFER_SIZE in Hb at 1.
  destruct (ok && _) eqn:G; cbn [gret all gbind].
  - apply andb_prop in G as [-> G4]. rewrite ipc_unpack_spec by lia. cbn [gbind all answer_ok call].
    intros h1 _ [ok2 n] _ h2 _ ? _. cbn. split; [|done]. right. exists h, bytes.
    split; [done|]. split; [lia|]. destruct ok2; [right | by left]. split; [lia|]. by exists h1.
  - split; [|done]. cbn. destruct ok; [|by left]. right. exists h, bytes. auto.
Qed.

Lemma server_post_quiet H req tr pre post :
  reads pre = [] -> writes pre = [] -> reads post = [] -> writes post = [] ->
  server_post H req tr -> server_post H req (pre ++ tr ++ post).
Proof.
  intros R1 W1 R2 W2. unfold server_post.
  autorewrite with traces. rewrite R1, W1, R2, W2. cbn [app]. by rewrite !app_nil_r.
Qed.

(** Around the client's part: the pipe is created, stored and closed. *)
Lemma tidy_iteration h x h1 tr h4 y h5 z u :
  h1 <> INVALID_HANDLE_VALUE -> closes tr = [] -> opens tr = [] ->
  (forall pipe running, after pipe running tr = (pipe, running)) ->
  tidy ([Ev CreateNamedPipeW h; Ev (Store m_hPipe h) x; Ev (Load m_hPipe) h1] ++ tr ++
        [Ev (Load m_hPipe) h4; Ev (DisconnectNamedPipe h4) y; Ev (Load m_hPipe) h5;
         Ev (CloseHandle h5) z; Ev (Store m_hPipe INVALID_HANDLE_VALUE) u]).
Proof.
  intros N C O A pipe running Co. rewrite !coherent_app in Co.
  destruct Co as (Cp & _ & Cq). cbn in Cp, Cq. rewrite A in Cq. cbn in Cq.
  destruct Cp as (-> & _), Cq as (_ & -> & _).
  autorewrite with traces. rewrite !after_app, C, O. cbn. rewrite A. cbn.
  unfold opened. by rewrite (proj2 (Z.eqb_neq _ _) N).
Qed.

Lemma serve_once_spec H type0 status0 :
  all (serve_once H type0 status0) (fun tr _ =>
    server_post H {| type := type0; statusCode := status0; ipc_payload := [] |} tr /\ tidy tr).
Proof.
  set (req := {| type := type0; statusCode := status0; ipc_payload := [] |}).
  unfold serve_once. cbn [call gbind all answer_ok]. intros h _ ? _ h1 _.
  destruct (Z.eqb_spec h1 INVALID_HANDLE_VALUE) as [->|N]; cbn [gbind call all answer_ok gret].
  { intros ? _. split; [by left|]. intros pipe running. cbn. by intros [<- _]. }
  intros h2 _ ok _. apply all_bind. apply all_mono with (Q := fun tr (_ : bool) => quiet tr).
  { destruct ok; cbn [gret call gbind all answer_ok]; [done|]. by intros err _. }
  intros tr1 connected Q1. apply all_bind. apply all_mono with (Q := fun tr (_ : bool) => quiet tr).
  { destruct connected; cbn [gret call all answer_ok]; [|done]. by intros y _. }
  intros tr2 running Q2. apply all_bind.
  apply all_mono with (Q := fun tr (_ : unit) => server_post H req tr /\ closes tr = [] /\ opens tr = [] /\
    forall pipe running, after pipe running tr = (pipe, running)).
  { destruct (connected && running); [apply serve_client_spec|]. split; [by left | done]. }
  intros tr3 ? (S3 & C3 & O3 & A3). cbn [call gbind all answer_ok gret].
  intros h4 _ y _ h5 _ z _ u _.
  assert (Q0 : quiet ([Ev (Load m_hPipe) h2; Ev (ConnectNamedPipe h2) ok] ++ tr1 ++ tr2)).
  { apply quiet_app; [done | by apply quiet_app]. }
  set (mid := [Ev (Load m_hPipe) h2; Ev (ConnectNamedPipe h2) ok] ++ tr1 ++ tr2) in *.
  destruct Q0 as (R0 & W0 & C0 & O0 & A0).
  match goal with |- server_post _ _ ?t /\ _ =>
    replace t with ([Ev CreateNamedPipeW h; Ev (Store m_hPipe h) x; Ev (Load m_hPipe) h1] ++ (mid ++ tr3) ++
      [Ev (Load m_hPipe) h4; Ev (DisconnectNamedPipe h4) y; Ev (Load m_hPipe) h5;
       Ev (CloseHandle h5) z; Ev (Store m_hPipe INVALID_HANDLE_VALUE) u])
    by (unfold mid; cbn; by rewrite <- !app_assoc)
  end.
  split.
  - apply server_post_quiet; try done. rewrite <- (app_nil_r (mid ++ tr3)), <- app_assoc.
    by apply server_post_quiet.
  - apply tidy_iteration; [done| | |].
    + autorewrite with traces. by rewrite C0, C3.
    + autorewrite with traces. by rewrite O0, O3.
    + intros. by rewrite after_app, A0.
Qed.

(** ** The worker loop *)
Lemma worker_spec H fuel type0 status0 :
  all (ServerWorker H fuel type0 status0) (fun tr exited =>
    forall running, coherent INVALID_HANDLE_VALUE running tr ->
      closes tr = opens tr /\ after INVALID_HANDLE_VALUE running tr = (INVALID_HANDLE_VALUE, running) /\
      exited = match fuel with O => false | _ => negb running end).
Proof.
  induction fuel as [|fuel IH]; cbn [ServerWorker]; [done|].
  cbn [call gbind all answer_ok]. intros x _. destruct x; cbn [negb gret all].
  2: { intros running. cbn. by intros [<- _]. }
  apply all_bind. eapply all_mono; [apply serve_once_spec|]. intros tr1 _ [_ T].
  eapply all_mono; [apply IH|]. intros tr2 exited E running. cbn [coherent].
  intros [<- Co]. apply coherent_app in Co as [C1 C2]. destruct (T _ _ C1) as [D1 A1].
  rewrite A1 in C2. destruct (E true C2) as (D2 & A2 & ->).
  cbn [closes opens after]. autorewrite with traces. rewrite after_app, A1. cbn [fst snd].
  rewrite D1, D2. split; [done|]. split; [done|]. by destruct fuel.
Qed.

(** * Properties *)

Lemma received_fresh p type0 status0 :
  received p {| type := type0; statusCode := status0; ipc_payload := [] |} = p.
Proof. destruct p as [t s []]; done. Qed.

Lemma prefix_singleton {A} (x : A) l l' : [x] `prefix_of` l -> l = [] \/ l = [l'] -> l' = x.
Proof. intros [k ->] [E|E]; [done|]. by injection E as <- _. Qed.

(** The two ends of a connection that delivers messages intact and in order. *)
Definition connected_ends (trc trs : trace) : Prop :=
  (reads trs).*2 `prefix_of` (writes trc).*2 /\ (reads trc).*2 `prefix_of` (writes trs).*2.

Lemma ends_agree H request out type0 status0 trc trs r :
  wf_packet request -> Z.of_nat (length (ipc_payload request)) < 2 ^ 32 - 4 ->
  wf_packet (ipc_respond H request) ->
  Z.of_nat (length (ipc_payload (ipc_respond H request))) < 2 ^ 32 - 4 ->
  client_post request out trc (true, r) ->
  server_post H {| type := type0; statusCode := status0; ipc_payload := [] |} trs ->
  connected_ends trc trs ->
  r = received (ipc_respond H request) out /\ (reads trs).*2 = [ipc_pack request].
Proof.
  intros Wq Lq Wr Lr (_ & _ & C) S [Ps Pc]. destruct C as (h & msg & _ & Ew & Er & Lm & Eq).
  cbn [snd] in Eq. subst r. rewrite Ew in Ps. rewrite Er in Pc. cbn in Ps, Pc.
  destruct S as [[_ Ws] | (h1 & m1 & Rs1 & Lm1 & [Ws | (L1 & h2 & Ws)])].
  1, 2: rewrite Ws in Pc; cbn in Pc; by apply prefix_nil_inv in Pc.
  rewrite Rs1 in Ps |- *. rewrite Ws in Pc. cbn in Ps, Pc |- *.
  pose proof (prefix_singleton _ _ _ Ps (or_intror eq_refl)) as <-.
  pose proof (prefix_singleton _ _ _ Pc (or_intror eq_refl)) as <-.
  rewrite (dword_bytes_small (ipc_pack request)) by (rewrite length_ipc_pack; lia).
  rewrite packet_of_pack, received_fresh by done.
  rewrite dword_bytes_small by (rewrite length_ipc_pack; lia). by rewrite packet_of_pack.
Qed.

(** C22: the exchange over the pipe.  Take any run of the client and any run of
    the server iteration that serves it, however their calls interleave with
    each other and with other threads; assume only that the pipe delivers
    messages intact and in order, so that what each end read is a prefix of what
    the other wrote.  Then neither run touches memory outside its buffers; if the
    client returns true, the server's handler was run on exactly the client's
    request and the client's output is exactly the handler's response (keeping
    its old payload when that of the response is empty); if it returns false its
    output is unchanged.  When all its calls succeed it returns true. *)
Theorem ipc_exchange H request out timeoutMs type0 status0 trc rc trs rs :
  wf_packet request -> Z.of_nat (length (ipc_payload request)) < 2 ^ 32 - 4 ->
  wf_packet (ipc_respond H request) ->
  Z.of_nat (length (ipc_payload (ipc_respond H request))) < 2 ^ 32 - 4 ->
  runs (SendIpcRequest request out timeoutMs) trc rc -> Forall event_ok trc ->
  runs (serve_once H type0 status0) trs rs -> Forall event_ok trs ->
  connected_ends trc trs ->
  exists ok r, rc = Def (ok, r) /\ rs = Def tt /\
    r = (if ok then received (ipc_respond H request) out else out) /\
    (ok = true -> (reads trs).*2 = [ipc_pack request]) /\
    (Forall answered trc -> ok = true).
Proof.
  intros Wq Lq Wr Lr Rc Okc Rs Oks Ends.
  destruct (all_runs _ _ _ _ (client_spec request out timeoutMs) Rc Okc) as ([ok r] & -> & P).
  destruct (all_runs _ _ _ _ (serve_once_spec H type0 status0) Rs Oks) as ([] & -> & S & _).
  exists ok, r. split; [done|]. split; [done|]. pose proof P as (_ & An & C). destruct ok; [|done].
  by destruct (ends_agree H request out type0 status0 trc trs r) as [-> ->].
Qed.

(** C31: pipe handles.  Every run of the client closes exactly the handle it
    opened.  Every run of the server's worker, for any number of iterations and
    whatever calls fail, during which no other thread changes [m_hPipe] and
    [m_isRunning], closes exactly the pipe instances it created, in order, leaves
    [m_hPipe] invalid, and exits at once when the server is not running. *)
Theorem ipc_handles H request out timeoutMs fuel type0 status0 running trc rc trs rs :
  runs (SendIpcRequest request out timeoutMs) trc rc -> Forall event_ok trc ->
  runs (ServerWorker H (S fuel) type0 status0) trs rs -> Forall event_ok trs ->
  coherent INVALID_HANDLE_VALUE running trs ->
  closes trc = opens trc /\ closes trs = opens trs /\
  after INVALID_HANDLE_VALUE running trs = (INVALID_HANDLE_VALUE, running) /\
  rs = Def (negb running).
Proof.
  intros Rc Okc Rs Oks Co.
  destruct (all_runs _ _ _ _ (client_spec request out timeoutMs) Rc Okc) as (? & -> & C & _).
  destruct (all_runs _ _ _ _ (worker_spec H (S fuel) type0 status0) Rs Oks) as (b & -> & S).
  destruct (S running Co) as (D & A & ->). done.
Qed.

(** * Witnesses *)
Definition demo_request : IpcPacket := {| type := REQ_UNLOCK; statusCode := 0; ipc_payload := [] |}.
Definition demo_reply : IpcPacket := {| type := RESP_UNLOCK; statusCode := 0; ipc_payload := [x01; x02] |}.
Definition demo_handler : option (IpcPacket -> IpcPacket) := Some (fun _ => demo_reply).
Definition demo_message : list byte := [x00; x03; x00; x00].
Definition demo_answer : list byte := [x00; x04; x00; x00; x01; x02].

Definition client_trace : trace :=
  [Ev (WaitNamedPipeW 5000) true; Ev CreateFileW 7; Ev (SetNamedPipeHandleState 7) true;
   Ev (WriteFile 7 demo_message) (true, 4); Ev (ReadFile 7 4096) (true, demo_answer);
   Ev (CloseHandle 7) true].
Definition server_trace : trace :=
  [Ev CreateNamedPipeW 9; Ev (Store m_hPipe 9) tt; Ev (Load m_hPipe) 9; Ev (Load m_hPipe) 9;
   Ev (ConnectNamedPipe 9) true; Ev (Load m_isRunning) true;
   Ev (Load m_hPipe) 9; Ev (ReadFile 9 4096) (true, demo_message);
   Ev (Load m_hPipe) 9; Ev (WriteFile 9 demo_answer) (true, 6);
   Ev (Load m_hPipe) 9; Ev (FlushFileBuffers 9) true;
   Ev (Load m_hPipe) 9; Ev (DisconnectNamedPipe 9) true; Ev (Load m_hPipe) 9;
   Ev (CloseHandle 9) true; Ev (Store m_hPipe INVALID_HANDLE_VALUE) tt].

(** The worker's view of the same iteration, and the exit after it. *)
Definition worker_trace : trace := Ev (Load m_isRunning) true :: server_trace.

Lemma client_trace_runs :
  runs (SendIpcRequest demo_request demo_request 5000) client_trace (Def (true, demo_reply)).
Proof. unfold SendIpcRequest, client_trace. run_trace. Qed.

Lemma server_trace_runs : runs (serve_once demo_handler 0 0) server_trace (Def tt).
Proof. unfold serve_once, server_trace. run_trace. Qed.

Lemma demo_packets_wf : wf_packet demo_request /\ wf_packet demo_reply.
Proof. repeat split; unfold demo_request, demo_reply, REQ_UNLOCK, RESP_UNLOCK; cbn [type statusCode]; lia. Qed.

Lemma traces_ok : Forall event_ok client_trace /\ Forall event_ok worker_trace.
Proof. split; repeat constructor; apply Z.leb_le; reflexivity. Qed.

Lemma ipc_exchange_witness :
  exists ok r, Def (true, demo_reply) = Def (ok, r) /\ Def tt = Def tt /\
    r = (if ok then received (ipc_respond demo_handler demo_request) demo_request else demo_request) /\
    (ok = true -> (reads server_trace).*2 = [ipc_pack demo_request]) /\
    (Forall answered client_trace -> ok = true).
Proof.
  apply (ipc_exchange demo_handler demo_request demo_request 5000 0 0 client_trace _ server_trace _).
  - apply demo_packets_wf.
  - reflexivity.
  - apply demo_packets_wf.
  - reflexivity.
  - apply client_trace_runs.
  - apply traces_ok.
  - apply server_trace_runs.
  - eapply Forall_inv_tail, traces_ok.
  - split; by exists [].
Defined.

Lemma worker_trace_runs : runs (ServerWorker demo_handler 1 0 0) worker_trace (Def false).
Proof. unfold ServerWorker, serve_once, worker_trace, server_trace. run_trace. Qed.

Lemma ipc_handles_witness :
  closes client_trace = opens client_trace /\ closes worker_trace = opens worker_trace /\
  after INVALID_HANDLE_VALUE true worker_trace = (INVALID_HANDLE_VALUE, true) /\
  Def false = Def (negb true).
Proof.
  apply (ipc_handles demo_handler demo_request demo_request 5000 0 0 0 true client_trace
           (Def (true, demo_reply)) worker_trace (Def false)).
  - apply client_trace_runs.
  - apply traces_ok.
  - apply worker_trace_runs.
  - apply traces_ok.
  - cbn. by repeat split.
Defined.

(** [Stop] racing with the worker: both read [m_hPipe] before either resets it,
    and the pipe handle is closed twice. *)
Definition racing_worker : trace :=
  [Ev (Load m_isRunning) true; Ev CreateNamedPipeW 9; Ev (Store m_hPipe 9) tt; Ev (Load m_hPipe) 9;
   Ev (Load m_hPipe) 9; Ev (ConnectNamedPipe 9) true; Ev (Load m_isRunning) false;
   Ev (Load m_hPipe) 9; Ev (DisconnectNamedPipe 9) true; Ev (Load m_hPipe) 9;
   Ev (CloseHandle 9) true; Ev (Store m_hPipe INVALID_HANDLE_VALUE) tt; Ev (Load m_isRunning) false].
Definition racing_stop : trace :=
  [Ev (Store m_isRunning false) tt; Ev (Load m_hPipe) 9; Ev (Load m_hPipe) 9; Ev (CloseHandle 9) true;
   Ev (Store m_hPipe INVALID_HANDLE_VALUE) tt; Ev join tt].
Definition race : trace :=
  weave (replicate 6 true ++ replicate 4 false ++ replicate 7 true) racing_worker racing_stop.

Example stop_closes_twice :
  runs (ServerWorker None 2 0 0) racing_worker (Def true) /\
  runs (pipe_Stop true) racing_stop (Def tt) /\
  merges racing_worker racing_stop race /\ coherent INVALID_HANDLE_VALUE true race /\
  opens race = [9] /\ closes race = [9; 9].
Proof.
  split; [unfold ServerWorker, serve_once, racing_worker; run_trace|].
  split; [unfold pipe_Stop, racing_stop; run_trace|].
  split; [apply weave_merges|]. split; [cbn; by repeat split|]. done.
Qed.

