(* ===== verification/Credential.v ===== *)
(** * Credential: the logon screen's credential

    Models windows/credential-provider/PhoneKeyCredential.cpp and the stateless
    methods of PhoneKeyCredentialProvider.cpp and dllmain.cpp.  An output
    pointer is [None] when it is null and otherwise carries the value it points
    to; a method returns its HRESULT with the new contents.  [GetSerialization]
    is a program: it talks to the agent over the pipe and allocates memory for
    the logon screen.  Reference counts and events are in ComServer. *)
From S2P Require Import Prelude Bytes Protocol Platform Win32 NamedPipeIpc.

(** ** HRESULTs and enumerations of the SDK *)
Definition S_OK : Z := 0.
Definition S_FALSE : Z := 1.
Definition E_NOTIMPL : Z := 0x80004001.
Definition E_NOINTERFACE : Z := 0x80004002.
Definition E_POINTER : Z := 0x80004003.
Definition E_FAIL : Z := 0x80004005.
Definition E_OUTOFMEMORY : Z := 0x8007000E.
Definition E_INVALIDARG : Z := 0x80070057.
Definition CLASS_E_NOAGGREGATION : Z := 0x80040110.
Definition CLASS_E_CLASSNOTAVAILABLE : Z := 0x80040111.

Inductive GsrResponse : Type :=
| CPGSR_NO_CREDENTIAL_NOT_FINISHED | CPGSR_NO_CREDENTIAL_FINISHED
| CPGSR_RETURN_CREDENTIAL_FINISHED | CPGSR_RETURN_NO_CREDENTIAL_FINISHED.
Inductive StatusIcon : Type := CPSI_NONE | CPSI_ERROR | CPSI_WARNING | CPSI_SUCCESS.
Inductive FieldState : Type :=
| CPFS_HIDDEN | CPFS_DISPLAY_IN_SELECTED_TILE | CPFS_DISPLAY_IN_DESELECTED_TILE | CPFS_DISPLAY_IN_BOTH.
Inductive InteractiveState : Type := CPFIS_NONE | CPFIS_READONLY | CPFIS_DISABLED | CPFIS_FOCUSED.

(** The class id in memory order. *)
Definition CLSID_PhoneKeyCredentialProvider : list Z :=
  [0x8b67d3a1; 0x7e9b; 0x4d1c; 0x9e; 0x3a; 0x2b; 0x5c; 0x1d; 0x0e; 0x4f; 0x8a].

(** ** GetSerialization *)

(** The structure for the logon screen; [buffer] is the memory at
    [rgbSerialization]. *)
Record CredentialSerialization : Type := {
  clsidCredentialProvider : list Z;
  cbSerialization : Z;
  rgbSerialization : handle;
  buffer : list byte;
}.

(** The four output parameters. *)
Record SerializationOut : Type := {
  pcpgsr : option GsrResponse;
  pcpcs : option CredentialSerialization;
  ppszOptionalStatusText : option handle;
  pcpsiStatusIcon : option StatusIcon;
}.

Definition with_pcpgsr v (o : SerializationOut) : SerializationOut :=
  {| pcpgsr := (fun _ => v) <$> pcpgsr o; pcpcs := pcpcs o;
     ppszOptionalStatusText := ppszOptionalStatusText o; pcpsiStatusIcon := pcpsiStatusIcon o |}.
Definition with_pcpcs v (o : SerializationOut) : SerializationOut :=
  {| pcpgsr := pcpgsr o; pcpcs := (fun _ => v) <$> pcpcs o;
     ppszOptionalStatusText := ppszOptionalStatusText o; pcpsiStatusIcon := pcpsiStatusIcon o |}.
Definition with_text v (o : SerializationOut) : SerializationOut :=
  {| pcpgsr := pcpgsr o; pcpcs := pcpcs o;
     ppszOptionalStatusText := (fun _ => v) <$> ppszOptionalStatusText o;
     pcpsiStatusIcon := pcpsiStatusIcon o |}.
Definition with_icon v (o : SerializationOut) : SerializationOut :=
  {| pcpgsr := pcpgsr o; pcpcs := pcpcs o; ppszOptionalStatusText := ppszOptionalStatusText o;
     pcpsiStatusIcon := (fun _ => v) <$> pcpsiStatusIcon o |}.

(** [if (ppszOptionalStatusText) SHStrDupW(text, ppszOptionalStatusText)] *)
Definition set_status_text (text : string) (o : SerializationOut) : Prog SerializationOut :=
  match ppszOptionalStatusText o with
  | None => gret o
  | Some _ =>
    do '(_, p) <- call (SHStrDupW text) in
    gret (with_text p o)
  end.

(** [resp] is a local whose two header fields are indeterminate. *)
Definition GetSerialization (type0 status0 : Z) (o : SerializationOut) : Prog (Z * SerializationOut) :=
  match pcpgsr o, pcpcs o with
  | Some _, Some _ =>
    let req := {| type := REQ_UNLOCK; statusCode := 0; ipc_payload := [] |} in
    do '(ipcOk, resp) <- SendIpcRequest req {| type := type0; statusCode := status0; ipc_payload := [] |} 5000 in
    if negb ipcOk || negb (statusCode resp =? 0x0000) || bool_decide (ipc_payload resp = []) then
      let o := with_pcpgsr CPGSR_NO_CREDENTIAL_FINISHED o in
      do o <- set_status_text "PhoneKey Biometric Authentication Failed or Timed Out" o in
      let o := with_icon CPSI_ERROR o in
      gret (S_OK, o)
    else
    do pBuffer <- call (CoTaskMemAlloc (Z.of_nat (length (ipc_payload resp)))) in
    if pBuffer =? NULL then gret (E_OUTOFMEMORY, o) else
    let o := with_pcpcs {| clsidCredentialProvider := CLSID_PhoneKeyCredentialProvider;
                           cbSerialization := u32 (Z.of_nat (length (ipc_payload resp)));
                           rgbSerialization := pBuffer; buffer := ipc_payload resp |} o in
    let o := with_pcpgsr CPGSR_RETURN_CREDENTIAL_FINISHED o in
    do o <- set_status_text "PhoneKey Biometric Unlock Authorized" o in
    let o := with_icon CPSI_SUCCESS o in
    gret (S_OK, o)
  | _, _ => gret (E_POINTER, o)
  end.

(** ** Methods without state *)
Definition SetSelected (pbAutoLogon : option bool) : Z * option bool :=
  (S_OK, (fun _ => false) <$> pbAutoLogon).
Definition SetDeselected : Z := S_OK.
Definition GetFieldState (dwFieldCallout : Z) (pcpfs : option FieldState) (pcpfis : option InteractiveState)
    : Z * option FieldState * option InteractiveState :=
  (S_OK, (fun _ => CPFS_DISPLAY_IN_BOTH) <$> pcpfs, (fun _ => CPFIS_NONE) <$> pcpfis).
Definition GetStringValue (dwFieldCallout : Z) (ppsz : option handle) : Prog (Z * option handle) :=
  match ppsz with
  | None => gret (E_POINTER, None)
  | Some _ =>
    do '(hr, p) <- call (SHStrDupW "PhoneKey Biometric Unlock") in
    gret (hr, Some p)
  end.
Definition GetBitmapValue (dwFieldCallout : Z) (phbmp : option handle) : Z * option handle :=
  (E_NOTIMPL, (fun _ => NULL) <$> phbmp).
Definition GetCheckboxValue (dwFieldCallout : Z) (pbChecked : option bool) (ppszLabel : option handle)
    : Z * option bool * option handle :=
  (E_NOTIMPL, (fun _ => false) <$> pbChecked, (fun _ => NULL) <$> ppszLabel).
Definition GetSubmitButtonValue (dwFieldCallout : Z) (pdwSubmitButtonValue : option Z) : Z * option Z :=
  (E_NOTIMPL, (fun _ => 0) <$> pdwSubmitButtonValue).
Definition GetComboBoxValueCount (dwFieldCallout : Z) (pcItems pdwDefault : option Z)
    : Z * option Z * option Z :=
  (E_NOTIMPL, (fun _ => 0) <$> pcItems, (fun _ => 0) <$> pdwDefault).
Definition GetComboBoxValueAt (dwFieldCallout dwItem : Z) (ppszItem : option handle) : Z * option handle :=
  (E_NOTIMPL, (fun _ => NULL) <$> ppszItem).
Definition SetStringValue (dwFieldCallout : Z) (psz : handle) : Z := S_OK.
Definition SetCheckboxValue (dwFieldCallout : Z) (bChecked : bool) : Z := S_OK.
Definition SetComboBoxSelectedValue (dwFieldCallout dwItem : Z) : Z := S_OK.
Definition CommandLinkClicked (dwFieldCallout : Z) : Z := S_OK.
Definition SetSerialization (pcpcs : handle) : Z := S_OK.
Definition GetUserSid (ppszSid : option handle) : Z * option handle :=
  match ppszSid with None => (E_POINTER, None) | Some _ => (E_NOTIMPL, Some NULL) end.
Definition ReportResult (ntsStatus ntsSubstatus : Z) (text : option handle) (icon : option StatusIcon)
    : Z * option handle * option StatusIcon :=
  (S_OK, (fun _ => NULL) <$> text, (fun _ => CPSI_SUCCESS) <$> icon).

(** The provider's field descriptor; [SHStrDupW] stores the label. *)
Record FieldDescriptor : Type := {
  dwFieldID : Z;
  cpft_large_text : bool;
  pszLabel : handle;
  guidFieldType_null : bool;
}.
Definition SIZEOF_FIELD_DESCRIPTOR : Z := 32.
Definition GetFieldDescriptorCount (pdwCount : option Z) : Z * option Z :=
  match pdwCount with None => (E_POINTER, None) | Some _ => (S_OK, Some 1) end.
Definition GetFieldDescriptorAt (dwIndex : Z) (ppcpfd : bool) : Prog (Z * option (handle * FieldDescriptor)) :=
  if negb (dwIndex =? 0) || negb ppcpfd then gret (E_INVALIDARG, None) else
  do pcpfd <- call (CoTaskMemAlloc SIZEOF_FIELD_DESCRIPTOR) in
  if pcpfd =? NULL then gret (E_OUTOFMEMORY, None) else
  do '(_, label) <- call (SHStrDupW "PhoneKey Biometric Unlock") in
  gret (S_OK, Some (pcpfd, {| dwFieldID := 0; cpft_large_text := true; pszLabel := label;
                              guidFieldType_null := true |})).
Definition GetCredentialCount (pdwCount pdwDefault : option Z) (pbAutoLogonWithDefault : option bool)
    : Z * option Z * option Z * option bool :=
  match pdwCount, pdwDefault, pbAutoLogonWithDefault with
  | Some _, Some _, Some _ => (S_OK, Some 1, Some 0, Some false)
  | _, _, _ => (E_POINTER, pdwCount, pdwDefault, pbAutoLogonWithDefault)
  end.

(** ** Registration *)
Definition provider_subkey : string :=
  "SOFTWARE\Microsoft\Windows\CurrentVersion\Authentication\Credential Providers\{8B67D3A1-7E9B-4D1C-9E3A-2B5C1D0E4F8A}".
Definition DllRegisterServer : Prog Z :=
  do '(lRes, hKey) <- call (RegCreateKeyExW provider_subkey) in
  if lRes =? 0 then
    do _ <- call (RegSetValueExW hKey "PhoneKeyCredentialProvider") in
    do _ <- call (RegCloseKey hKey) in
    gret S_OK
  else gret E_FAIL.
Definition DllUnregisterServer : Prog Z :=
  do _ <- call (RegDeleteKeyW provider_subkey) in
  gret S_OK.

(** ** What GetSerialization does *)

Definition logon_request : IpcPacket := {| type := REQ_UNLOCK; statusCode := 0; ipc_payload := [] |}.

(** Whether a response lets the user in. *)
Definition grants (p : IpcPacket) : bool := (statusCode p =? 0) && negb (bool_decide (ipc_payload p = [])).

(** The credential in memory [p]. *)
Definition credential (p : handle) (payload : list byte) : CredentialSerialization :=
  {| clsidCredentialProvider := CLSID_PhoneKeyCredentialProvider;
     cbSerialization := u32 (Z.of_nat (length payload)); rgbSerialization := p; buffer := payload |}.

(** The outcome when the client's call gave [r], by trace and by output. *)
Definition logon_outcome (o : SerializationOut) (r : bool * IpcPacket) (tr : trace)
    (hr : Z) (o' : SerializationOut) : Prop :=
  if r.1 && grants r.2
  then (hr = E_OUTOFMEMORY /\ o' = o /\ allocs tr = [] /\ ~ Forall answered tr) \/
       (hr = S_OK /\ pcpgsr o' = Some CPGSR_RETURN_CREDENTIAL_FINISHED /\
        exists p, p <> NULL /\ allocs tr = [(p, Z.of_nat (length (ipc_payload r.2)))] /\
          pcpcs o' = Some (credential p (ipc_payload r.2)))
  else hr = S_OK /\ pcpgsr o' = Some CPGSR_NO_CREDENTIAL_FINISHED /\ pcpcs o' = pcpcs o /\ allocs tr = [].

Lemma set_status_text_spec text o :
  all (set_status_text text o) (fun tr o' =>
    quiet tr /\ allocs tr = [] /\ pcpgsr o' = pcpgsr o /\ pcpcs o' = pcpcs o).
Proof.
  unfold set_status_text. destruct (ppszOptionalStatusText o); cbn [gret call gbind all answer_ok]; [|done].
  intros [hr p] _. done.
Qed.

Lemma client_allocs request out timeoutMs :
  all (SendIpcRequest request out timeoutMs) (fun tr r => client_post request out tr r /\ allocs tr = []).
Proof.
  apply all_and; [apply client_spec|]. unfold SendIpcRequest.
  cbn [call gbind all answer_ok]. intros found _. destruct found; cbn [negb gret all]; [|done].
  cbn [gbind all answer_ok]. intros h _. destruct (h =? INVALID_HANDLE_VALUE); cbn [gret all]; [done|].
  cbn [gbind all answer_ok]. intros ? _ [ok n] _.
  destruct ok; cbn [negb gbind call all answer_ok gret]; [|done]. intros [ok bytes] Hb.
  cbn [snd] in Hb. unfold IPC_MAX_BUFFER_SIZE in Hb at 1.
  destruct (negb ok || _) eqn:G; cbn [gbind call all answer_ok gret]; [done|].
  rewrite ipc_unpack_spec by lia. done.
Qed.

(** What is known of a whole run: the client's call in it and the outcome. *)
Definition serialization_post (type0 status0 : Z) (o : SerializationOut) (tr : trace)
    (r : Z * SerializationOut) : Prop :=
  exists tri ri,
    client_post logon_request {| type := type0; statusCode := status0; ipc_payload := [] |} tri ri /\
    reads tr = reads tri /\ writes tr = writes tri /\ closes tr = opens tr /\
    (Forall answered tr -> ri.1 = true) /\ logon_outcome o ri tr r.1 r.2.

(** The calls after the client's leave the pipe alone. *)
Lemma outcome_after type0 status0 o tri ri tr2 r :
  client_post logon_request {| type := type0; statusCode := status0; ipc_payload := [] |} tri ri ->
  quiet tr2 -> logon_outcome o ri (tri ++ tr2) r.1 r.2 ->
  serialization_post type0 status0 o (tri ++ tr2) r.
Proof.
  intros P (R2 & W2 & C2 & O2 & _) Out. pose proof P as (Cl & An & _).
  exists tri, ri. split; [done|]. autorewrite with traces. rewrite R2, W2, C2, O2, !app_nil_r, Cl.
  repeat (split; [done|]). split; [|done]. intros [F _]%Forall_app. by apply An.
Qed.

Lemma refused_iff ok resp :
  (negb ok || negb (statusCode resp =? 0x0000) || bool_decide (ipc_payload resp = []))
  = negb (ok && grants resp).
Proof. unfold grants. by destruct ok, (statusCode resp =? 0), (bool_decide (ipc_payload resp = [])). Qed.

Lemma serialization_spec type0 status0 o g c :
  pcpgsr o = Some g -> pcpcs o = Some c ->
  all (GetSerialization type0 status0 o) (serialization_post type0 status0 o).
Proof.
  intros Eg Ec. unfold GetSerialization. rewrite Eg, Ec. cbn zeta. fold logon_request.
  apply all_bind. eapply all_mono; [apply client_allocs|]. intros tri [ok resp] [P Ai].
  rewrite refused_iff. destruct (ok && grants resp) eqn:G; cbn [negb].
  - cbn [call gbind all answer_ok]. intros p _. destruct (Z.eqb_spec p NULL) as [->|N]; cbn [gret all].
    + eapply outcome_after; [exact P | done|]. unfold logon_outcome. cbn [fst snd]. rewrite G. left.
      repeat (split; [done|]). autorewrite with traces. rewrite Ai.
      split; [done|]. intros [_ F]%Forall_app. apply Forall_cons in F as [F _]. by apply F.
    + apply all_bind. eapply all_mono; [apply set_status_text_spec|].
      intros tr2 o2 (Q2 & L2 & G2 & S2). cbn [gret all]. rewrite app_nil_r.
      eapply outcome_after; [exact P | exact Q2|]. unfold logon_outcome. cbn [fst snd]. rewrite G. right.
      cbn [pcpgsr pcpcs with_icon]. rewrite G2, S2. cbn [pcpgsr pcpcs with_pcpgsr with_pcpcs].
      rewrite Eg, Ec. split; [done|]. split; [done|]. exists p. split; [done|].
      autorewrite with traces. rewrite Ai. cbn [allocs app]. by rewrite L2, (proj2 (Z.eqb_neq _ _) N).
  - apply all_bind. eapply all_mono; [apply set_status_text_spec|].
    intros tr2 o2 (Q2 & L2 & G2 & S2). cbn [gret all]. rewrite app_nil_r.
    eapply outcome_after; [exact P | exact Q2|]. unfold logon_outcome. cbn [fst snd]. rewrite G.
    cbn [pcpgsr pcpcs with_icon]. rewrite G2, S2. cbn [pcpgsr pcpcs with_pcpgsr].
    rewrite Eg. autorewrite with traces. by rewrite Ai, L2.
Qed.

(** * Properties *)

(** C21: the logon screen gets a credential only from the agent.  Take any run of
    [GetSerialization] with non-null pointers and any run of the agent's pipe
    server iteration, interleaved in any way, over a pipe that delivers messages
    intact and in order, where the agent's handler answers [resp] to an unlock
    request.  The method closes the pipe; it returns
    CPGSR_RETURN_CREDENTIAL_FINISHED with S_OK only if the handler was run on
    exactly that request and [resp] has status 0 and a payload, and then the
    credential is that payload, in one allocation of exactly its size; in every
    other case with S_OK it answers CPGSR_NO_CREDENTIAL_FINISHED, allocates no
    credential and leaves the structure alone.  When all calls succeed and [resp]
    grants access, the credential is returned.  (credential_provider_spec.md has
    the payload encrypted with DPAPI, to be decrypted here; the code hands it on
    as it was received.) *)
Theorem logon_credential H type0 status0 type1 status1 o g c trc rc trs rs :
  pcpgsr o = Some g -> pcpcs o = Some c ->
  let resp := ipc_respond H logon_request in
  wf_packet resp -> Z.of_nat (length (ipc_payload resp)) < 2 ^ 32 - 4 ->
  runs (GetSerialization type0 status0 o) trc rc -> Forall event_ok trc ->
  runs (serve_once H type1 status1) trs rs -> Forall event_ok trs ->
  connected_ends trc trs ->
  exists hr o', rc = Def (hr, o') /\ closes trc = opens trc /\
    (hr = S_OK \/ (hr = E_OUTOFMEMORY /\ o' = o)) /\
    (hr = S_OK ->
     (pcpgsr o' = Some CPGSR_RETURN_CREDENTIAL_FINISHED /\
      grants resp = true /\ (reads trs).*2 = [ipc_pack logon_request] /\
      exists p, p <> NULL /\ allocs trc = [(p, Z.of_nat (length (ipc_payload resp)))] /\
        pcpcs o' = Some (credential p (ipc_payload resp))) \/
     (pcpgsr o' = Some CPGSR_NO_CREDENTIAL_FINISHED /\ pcpcs o' = pcpcs o /\ allocs trc = [])) /\
    (Forall answered trc -> grants resp = true ->
     hr = S_OK /\ pcpgsr o' = Some CPGSR_RETURN_CREDENTIAL_FINISHED).
Proof.
  intros Eg Ec resp Wr Lr Rc Okc Rs Oks Ends.
  destruct (all_runs _ _ _ _ (serialization_spec type0 status0 o g c Eg Ec) Rc Okc)
    as ([hr o'] & -> & tri & [ok r] & P & Er & Ew & Cl & An & Out).
  destruct (all_runs _ _ _ _ (serve_once_spec H type1 status1) Rs Oks) as ([] & -> & S & _).
  exists hr, o'. split; [done|]. split; [done|].
  assert (Agree : ok = true -> r = resp /\ (reads trs).*2 = [ipc_pack logon_request]).
  { intros ->. unfold connected_ends in Ends. rewrite Er, Ew in Ends.
    destruct (ends_agree H logon_request {| type := type0; statusCode := status0; ipc_payload := [] |}
                type1 status1 tri trs r) as [Er' Rt]; try done.
    by rewrite received_fresh in Er'. }
  unfold logon_outcome in Out. cbn [fst snd] in *.
  destruct ok; cbn [andb] in Out.
  - destruct (Agree eq_refl) as [-> Rt]. destruct (grants resp).
    + destruct Out as [(-> & -> & _ & NA) | (-> & G & p & N & Al & Sc)].
      * split; [by right|]. split; [done|]. by intros ?%NA.
      * split; [by left|]. split; [|done]. intros _. left. eauto 10.
    + destruct Out as (-> & G & Sc & Al). split; [by left|]. split; [|done]. intros _. by right.
  - destruct Out as (-> & G & Sc & Al). split; [by left|]. split; [intros _; by right|].
    intros F. by specialize (An F).
Qed.

(** * Witnesses *)
Definition demo_out : SerializationOut :=
  {| pcpgsr := Some CPGSR_NO_CREDENTIAL_NOT_FINISHED; pcpcs := Some (credential NULL []);
     ppszOptionalStatusText := Some NULL; pcpsiStatusIcon := None |}.
Definition logon_trace : trace :=
  client_trace ++ [Ev (CoTaskMemAlloc 2) 100; Ev (SHStrDupW "PhoneKey Biometric Unlock Authorized") (0, 200)].
Definition logon_result : SerializationOut :=
  {| pcpgsr := Some CPGSR_RETURN_CREDENTIAL_FINISHED; pcpcs := Some (credential 100 [x01; x02]);
     ppszOptionalStatusText := Some 200; pcpsiStatusIcon := None |}.

Lemma logon_trace_runs : runs (GetSerialization 0 0 demo_out) logon_trace (Def (S_OK, logon_result)).
Proof. unfold GetSerialization, SendIpcRequest, logon_trace, client_trace. cbn. run_trace. Qed.

Lemma logon_credential_witness :
  exists hr o', Def (S_OK, logon_result) = Def (hr, o') /\ closes logon_trace = opens logon_trace /\
    (hr = S_OK \/ (hr = E_OUTOFMEMORY /\ o' = demo_out)) /\
    (hr = S_OK ->
     (pcpgsr o' = Some CPGSR_RETURN_CREDENTIAL_FINISHED /\
      grants demo_reply = true /\ (reads server_trace).*2 = [ipc_pack logon_request] /\
      exists p, p <> NULL /\ allocs logon_trace = [(p, 2)] /\ pcpcs o' = Some (credential p [x01; x02])) \/
     (pcpgsr o' = Some CPGSR_NO_CREDENTIAL_FINISHED /\ pcpcs o' = pcpcs demo_out /\ allocs logon_trace = [])) /\
    (Forall answered logon_trace -> grants demo_reply = true ->
     hr = S_OK /\ pcpgsr o' = Some CPGSR_RETURN_CREDENTIAL_FINISHED).
Proof.
  eapply (logon_credential demo_handler 0 0 0 0 demo_out _ _ logon_trace _ server_trace _).
  - reflexivity.
  - reflexivity.
  - apply demo_packets_wf.
  - reflexivity.
  - apply logon_trace_runs.
  - apply Forall_app. split; [apply traces_ok | by repeat constructor].
  - apply server_trace_runs.
  - eapply Forall_inv_tail, traces_ok.
  - split; by exists [].
Defined.

(** The result of a logon attempt is reported as a success whatever happened. *)
Example failure_reported_as_success status text :
  (ReportResult status 0 text (Some CPSI_NONE)).2 = Some CPSI_SUCCESS.
Proof. reflexivity. Qed.
