(* ===== verification/ComServer.v ===== *)
(** * ComServer: the COM objects of the credential provider DLL

    Models the reference counting, object creation and event registration of
    windows/credential-provider/dllmain.cpp, PhoneKeyCredentialProvider.cpp and
    PhoneKeyCredential.cpp: a heap of objects of the three classes, the module's
    lock count, and the references the DLL holds on objects of the logon screen.
    A method called on a destroyed object has undefined behaviour, also one that
    uses no member of it. *)
From S2P Require Import Prelude Bytes Platform Credential.

(** ** Data *)
Inductive Iid : Type :=
| IID_IUnknown | IID_IClassFactory | IID_ICredentialProvider
| IID_ICredentialProviderCredential | IID_ICredentialProviderCredential2 | IID_other (n : Z).

Inductive UsageScenario : Type :=
| CPUS_INVALID | CPUS_LOGON | CPUS_UNLOCK_WORKSTATION | CPUS_CHANGE_PASSWORD | CPUS_CREDUI | CPUS_PLAP.

(** The members of the three classes. *)
Inductive ComObj : Type :=
| PhoneKeyCredential (m_cRef : Z) (m_pcpce : handle)
| PhoneKeyCredentialProvider (m_cRef : Z) (m_cpus : UsageScenario) (m_pcpe : handle) (m_upRef : Z)
| PhoneKeyClassFactory (m_cRef : Z).

Definition new_PhoneKeyCredential : ComObj := PhoneKeyCredential 1 NULL.
Definition new_PhoneKeyCredentialProvider : ComObj := PhoneKeyCredentialProvider 1 CPUS_LOGON NULL 0.
Definition new_PhoneKeyClassFactory : ComObj := PhoneKeyClassFactory 1.

Inductive ComClass : Type := CredentialClass | ProviderClass | FactoryClass.
#[export] Instance ComClass_eq_dec : EqDecision ComClass.
Proof. solve_decision. Defined.
Definition class_of (o : ComObj) : ComClass :=
  match o with
  | PhoneKeyCredential _ _ => CredentialClass
  | PhoneKeyCredentialProvider _ _ _ _ => ProviderClass
  | PhoneKeyClassFactory _ => FactoryClass
  end.

Definition m_cRef (o : ComObj) : Z :=
  match o with
  | PhoneKeyCredential n _ | PhoneKeyCredentialProvider n _ _ _ | PhoneKeyClassFactory n => n
  end.
Definition with_cRef (n : Z) (o : ComObj) : ComObj :=
  match o with
  | PhoneKeyCredential _ e => PhoneKeyCredential n e
  | PhoneKeyCredentialProvider _ c e u => PhoneKeyCredentialProvider n c e u
  | PhoneKeyClassFactory _ => PhoneKeyClassFactory n
  end.

(** [foreign] counts AddRef minus Release on objects outside the DLL. *)
Record Com : Type := {
  heap : gmap handle ComObj;
  foreign : gmap handle Z;
  g_cRefModule : Z;
  g_hInst : handle;
}.
Definition with_heap v (s : Com) : Com :=
  {| heap := v; foreign := foreign s; g_cRefModule := g_cRefModule s; g_hInst := g_hInst s |}.
Definition with_foreign v (s : Com) : Com :=
  {| heap := heap s; foreign := v; g_cRefModule := g_cRefModule s; g_hInst := g_hInst s |}.
Definition with_cRefModule v (s : Com) : Com :=
  {| heap := heap s; foreign := foreign s; g_cRefModule := v; g_hInst := g_hInst s |}.
Definition with_hInst v (s : Com) : Com :=
  {| heap := heap s; foreign := foreign s; g_cRefModule := g_cRefModule s; g_hInst := v |}.
Definition com0 : Com := {| heap := ∅; foreign := ∅; g_cRefModule := 0; g_hInst := NULL |}.

(** A 32-bit LONG. *)
Definition s32 (z : Z) : Z := (z + 2 ^ 31) mod 2 ^ 32 - 2 ^ 31.

(** What the DLL uses of the platform: whether [QISearch] finds an interface in
    a table, and the address [operator new] returns. *)
Class ComPlatform := {
  QISearch_finds : list Iid -> Iid -> bool;
  operator_new : gmap handle ComObj -> handle;
}.
Class ComPlatformLaws `{ComPlatform} : Prop := {
  new_fresh : forall h, operator_new h = NULL \/ h !! operator_new h = None;
}.

(** ** IUnknown *)

Definition this_object (this : handle) : Proc Com ComObj :=
  let* s := pget in
  plift (match heap s !! this with Some o => Def o | None => UB end).

(** A virtual call of a method of [cls] that uses no member: the object must be
    there, and be of that class. *)
Definition called_on (this : handle) (cls : ComClass) : Proc Com unit :=
  let* o := this_object this in
  if bool_decide (class_of o = cls) then pret tt else plift UB.

Definition AddRef (this : handle) : Proc Com Z :=
  let* o := this_object this in
  let cRef := s32 (m_cRef o + 1) in
  let* s := pget in
  pput (with_heap (<[this := with_cRef cRef o]> (heap s)) s) ;;
  pret (u32 cRef).

Definition Release (this : handle) : Proc Com Z :=
  let* o := this_object this in
  let cRef := s32 (m_cRef o - 1) in
  let* s := pget in
  pput (with_heap (<[this := with_cRef cRef o]> (heap s)) s) ;;
  (if cRef =? 0 then
     let* s := pget in
     pput (with_heap (delete this (heap s)) s)
   else pret tt) ;;
  pret (u32 cRef).

(** The interface table of each class. *)
Definition qit (o : ComObj) : list Iid :=
  match o with
  | PhoneKeyCredential _ _ => [IID_ICredentialProviderCredential2; IID_ICredentialProviderCredential]
  | PhoneKeyCredentialProvider _ _ _ _ => [IID_ICredentialProvider]
  | PhoneKeyClassFactory _ => [IID_IClassFactory]
  end.

Section Server.
Context `{HP : ComPlatform}.

(** [QISearch(this, qit, riid, ppv)]: a found interface is returned with a
    reference of its own. *)
Definition QueryInterface (this : handle) (riid : Iid) : Proc Com (Z * option handle) :=
  let* o := this_object this in
  if QISearch_finds (qit o) riid then
    AddRef this ;;
    pret (S_OK, Some this)
  else pret (E_NOINTERFACE, None).

(** [new (std::nothrow)] with a constructor. *)
Definition new_object (o : ComObj) : Proc Com handle :=
  let* s := pget in
  let p := operator_new (heap s) in
  if p =? NULL then pret NULL else
  pput (with_heap (<[p := o]> (heap s)) s) ;;
  pret p.

(** ** Creation *)

Definition CreateInstance (this pUnkOuter : handle) (riid : Iid) : Proc Com (Z * option handle) :=
  called_on this FactoryClass ;;
  if negb (pUnkOuter =? NULL) then pret (CLASS_E_NOAGGREGATION, None) else
  let* pProvider := new_object new_PhoneKeyCredentialProvider in
  if pProvider =? NULL then pret (E_OUTOFMEMORY, None) else
  let* '(hr, ppv) := QueryInterface pProvider riid in
  Release pProvider ;;
  pret (hr, ppv).

Definition GetCredentialAt (this : handle) (dwIndex : Z) (ppcpc : bool) : Proc Com (Z * option handle) :=
  called_on this ProviderClass ;;
  if negb (dwIndex =? 0) || negb ppcpc then pret (E_INVALIDARG, None) else
  let* pCred := new_object new_PhoneKeyCredential in
  if pCred =? NULL then pret (E_OUTOFMEMORY, None) else
  let* '(hr, ppv) := QueryInterface pCred IID_ICredentialProviderCredential in
  Release pCred ;;
  pret (hr, ppv).

Definition DllGetClassObject (rclsid : list Z) (riid : Iid) : Proc Com (Z * option handle) :=
  if bool_decide (rclsid = CLSID_PhoneKeyCredentialProvider) then
    let* pFactory := new_object new_PhoneKeyClassFactory in
    if pFactory =? NULL then pret (E_OUTOFMEMORY, None) else
    let* '(hr, ppv) := QueryInterface pFactory riid in
    Release pFactory ;;
    pret (hr, ppv)
  else pret (CLASS_E_CLASSNOTAVAILABLE, None).

End Server.

(** ** Events *)

(** A virtual AddRef or Release on an object of the logon screen. *)
Definition foreign_ref (d : Z) (p : handle) : Proc Com unit :=
  let* s := pget in
  pput (with_foreign (<[p := default 0 (foreign s !! p) + d]> (foreign s)) s).
Definition set_object (this : handle) (o : ComObj) : Proc Com unit :=
  let* s := pget in
  pput (with_heap (<[this := o]> (heap s)) s).

(** [PhoneKeyCredential::Advise] and [PhoneKeyCredentialProvider::Advise]; the
    class factory has no such method. *)
Definition Advise (this : handle) (events : handle) (upRef : Z) : Proc Com Z :=
  let* o := this_object this in
  (match o with
   | PhoneKeyCredential n _ => set_object this (PhoneKeyCredential n events)
   | PhoneKeyCredentialProvider n c _ _ => set_object this (PhoneKeyCredentialProvider n c events upRef)
   | PhoneKeyClassFactory _ => plift UB
   end) ;;
  (if negb (events =? NULL) then foreign_ref 1 events else pret tt) ;;
  pret S_OK.

Definition UnAdvise (this : handle) : Proc Com Z :=
  let* o := this_object this in
  (match o with
   | PhoneKeyCredential n e =>
     if negb (e =? NULL) then foreign_ref (-1) e ;; set_object this (PhoneKeyCredential n NULL) else pret tt
   | PhoneKeyCredentialProvider n c e u =>
     if negb (e =? NULL) then foreign_ref (-1) e ;; set_object this (PhoneKeyCredentialProvider n c NULL u)
     else pret tt
   | PhoneKeyClassFactory _ => plift UB
   end) ;;
  pret S_OK.

Definition SetUsageScenario (this : handle) (cpus : UsageScenario) (dwFlags : Z) : Proc Com Z :=
  let* o := this_object this in
  (match o with
   | PhoneKeyCredentialProvider n _ e u => set_object this (PhoneKeyCredentialProvider n cpus e u)
   | _ => plift UB
   end) ;;
  match cpus with
  | CPUS_LOGON | CPUS_UNLOCK_WORKSTATION => pret S_OK
  | _ => pret E_NOTIMPL
  end.

(** ** The module *)
Definition count_lock (fLock : bool) : Proc Com unit :=
  let* s := pget in
  pput (with_cRefModule (s32 (g_cRefModule s + (if fLock then 1 else -1))) s).
Definition LockServer (this : handle) (fLock : bool) : Proc Com Z :=
  called_on this FactoryClass ;;
  count_lock fLock ;;
  pret S_OK.

Definition DllCanUnloadNow : Proc Com Z :=
  let* s := pget in
  pret (if g_cRefModule s =? 0 then S_OK else S_FALSE).

Definition DllMain (hModule : handle) (ul_reason_for_call : Z) : Proc Com bool :=
  let* s := pget in
  (if ul_reason_for_call =? 1 then pput (with_hInst hModule s) else pret tt) ;;
  pret true.

(** ** A client of the DLL *)

Inductive ComOp : Type :=
| OpAddRef (p : handle) | OpRelease (p : handle) | OpQuery (p : handle) (riid : Iid)
| OpClassObject (rclsid : list Z) (riid : Iid) | OpCreate (p pUnkOuter : handle) (riid : Iid)
| OpCredential (p : handle) (dwIndex : Z)
| OpAdvise (p events : handle) (upRef : Z) | OpUnAdvise (p : handle)
| OpUsage (p : handle) (cpus : UsageScenario) | OpLock (p : handle) (fLock : bool).

(** The interface pointer a call hands out. *)
Definition com_exec `{ComPlatform} (op : ComOp) : Proc Com (option handle) :=
  match op with
  | OpAddRef p => AddRef p ;; pret (Some p)
  | OpRelease p => Release p ;; pret None
  | OpQuery p riid => let* '(_, r) := QueryInterface p riid in pret r
  | OpClassObject rclsid riid => let* '(_, r) := DllGetClassObject rclsid riid in pret r
  | OpCreate p pUnkOuter riid => let* '(_, r) := CreateInstance p pUnkOuter riid in pret r
  | OpCredential p dwIndex => let* '(_, r) := GetCredentialAt p dwIndex true in pret r
  | OpAdvise p events upRef => Advise p events upRef ;; pret None
  | OpUnAdvise p => UnAdvise p ;; pret None
  | OpUsage p cpus => SetUsageScenario p cpus 0 ;; pret None
  | OpLock p fLock => LockServer p fLock ;; pret None
  end.

(** The references the client owes: one for each pointer it was handed, less
    those it released. *)
Definition owe (op : ComOp) (r : option handle) (owed : handle -> Z) : handle -> Z :=
  match r, op with
  | Some p, _ => fun q => if decide (q = p) then owed q + 1 else owed q
  | None, OpRelease p => fun q => if decide (q = p) then owed q - 1 else owed q
  | None, _ => owed
  end.

(** A well-behaved client only calls methods of objects it holds, of a class
    that has them, and never holds 2^31 - 1 references to one. *)
Definition advisable (o : ComObj) : Prop := match o with PhoneKeyClassFactory _ => False | _ => True end.
Definition holds_a (cls : ComClass) (p : handle) (owed : handle -> Z) (s : Com) : Prop :=
  0 < owed p /\ forall o, heap s !! p = Some o -> class_of o = cls.
Definition legal (op : ComOp) (owed : handle -> Z) (s : Com) : Prop :=
  match op with
  | OpAddRef p | OpQuery p _ => 0 < owed p < 2 ^ 31 - 1
  | OpRelease p => 0 < owed p
  | OpAdvise p _ _ | OpUnAdvise p => 0 < owed p /\ forall o, heap s !! p = Some o -> advisable o
  | OpUsage p _ | OpCredential p _ => holds_a ProviderClass p owed s
  | OpCreate p _ _ | OpLock p _ => holds_a FactoryClass p owed s
  | OpClassObject _ _ => True
  end.

Inductive com_step `{ComPlatform} : (handle -> Z) * Com -> (handle -> Z) * Com -> Prop :=
| com_step_intro op owed s r s' :
    legal op owed s -> com_exec op s = Def (r, s') -> com_step (owed, s) (owe op r owed, s').

(** ** The invariant: an object's count is what the client owes, and an object
    exists exactly as long as that is positive. *)
Record com_ok (owed : handle -> Z) (s : Com) : Prop := {
  com_live : forall p o, heap s !! p = Some o -> m_cRef o = owed p /\ 0 < owed p < 2 ^ 31;
  com_dead : forall p, heap s !! p = None -> owed p = 0;
}.

Section Laws.
Context `{HP : ComPlatform} `{HL : !ComPlatformLaws}.

Lemma s32_small z : - 2 ^ 31 <= z < 2 ^ 31 -> s32 z = z.
Proof. intros. unfold s32. rewrite Z.mod_small by lia. lia. Qed.

Lemma cRef_with n o : m_cRef (with_cRef n o) = n.
Proof. by destruct o. Qed.

Lemma class_with n o : class_of (with_cRef n o) = class_of o.
Proof. by destruct o. Qed.

Lemma with_cRef_with n m o : with_cRef n (with_cRef m o) = with_cRef n o.
Proof. by destruct o. Qed.

Lemma with_cRef_id o : with_cRef (m_cRef o) o = o.
Proof. by destruct o. Qed.

Lemma held owed s p : com_ok owed s -> 0 < owed p ->
  exists o, heap s !! p = Some o /\ m_cRef o = owed p /\ owed p < 2 ^ 31.
Proof.
  intros [L D] H. destruct (heap s !! p) as [o|] eqn:E; [|by rewrite D in H].
  destruct (L p o E). exists o. repeat split; [done|lia].
Qed.

Lemma object_spec p s o (Q : ComObj -> Com -> Prop) :
  heap s !! p = Some o -> Q o s -> wp (this_object p) Q s.
Proof. intros E H. unfold this_object. apply wp_bind, wp_get. eapply wp_lift; [by rewrite E | done]. Qed.

Lemma called_spec cls p owed s (Q : unit -> Com -> Prop) :
  com_ok owed s -> holds_a cls p owed s -> Q tt s -> wp (called_on p cls) Q s.
Proof.
  intros Ok [H C] HQ. destruct (held owed s p Ok H) as (o & E & _). unfold called_on.
  apply wp_bind, (object_spec _ _ o); [done|]. rewrite bool_decide_true by (by apply C). by apply wp_ret.
Qed.

Lemma AddRef_spec p o s (Q : Z -> Com -> Prop) :
  heap s !! p = Some o -> 0 < m_cRef o < 2 ^ 31 - 1 ->
  Q (m_cRef o + 1) (with_heap (<[p := with_cRef (m_cRef o + 1) o]> (heap s)) s) ->
  wp (AddRef p) Q s.
Proof.
  intros E R H. unfold AddRef. apply wp_bind. apply (object_spec _ _ o); [done|]. cbn zeta.
  rewrite s32_small by lia. rewrite wrap_small by lia. by apply wp_bind, wp_get, wp_bind, wp_put, wp_ret.
Qed.

Lemma Release_spec p o s (Q : Z -> Com -> Prop) :
  heap s !! p = Some o -> 0 < m_cRef o < 2 ^ 31 ->
  Q (m_cRef o - 1)
    (with_heap (if decide (m_cRef o = 1) then delete p (heap s)
                else <[p := with_cRef (m_cRef o - 1) o]> (heap s)) s) ->
  wp (Release p) Q s.
Proof.
  intros E R H. unfold Release. apply wp_bind. apply (object_spec _ _ o); [done|]. cbn zeta.
  rewrite s32_small by lia. rewrite wrap_small by lia.
  apply wp_bind, wp_get, wp_bind, wp_put, wp_bind. destruct (decide (m_cRef o = 1)) as [E1|N1].
  - rewrite (proj2 (Z.eqb_eq (m_cRef o - 1) 0)) by lia. apply wp_bind, wp_get, wp_put, wp_ret.
    cbn [heap with_heap]. rewrite delete_insert_eq. exact H.
  - rewrite (proj2 (Z.eqb_neq (m_cRef o - 1) 0)) by lia. by apply wp_ret, wp_ret.
Qed.

(** Creation: the caller's pointer is the only reference, or the object is gone. *)
Lemma create_spec o riid err s :
  m_cRef o = 1 ->
  wp (let* p := new_object o in
      if p =? NULL then pret (err, None) else
      let* '(hr, ppv) := QueryInterface p riid in
      Release p ;;
      pret (hr, ppv))
    (fun r s' => match r.2 with
     | None => s' = s
     | Some p => heap s !! p = None /\ s' = with_heap (<[p := o]> (heap s)) s
     end) s.
Proof.
  intros R. unfold new_object. apply wp_bind, wp_bind, wp_get. set (p := operator_new (heap s)).
  destruct (Z.eqb_spec p NULL) as [->|N]; [done|]. apply wp_bind, wp_put, wp_ret.
  rewrite (proj2 (Z.eqb_neq _ _) N).
  destruct (new_fresh (heap s)) as [?|F]; [done|]. fold p in F.
  apply wp_bind. unfold QueryInterface, this_object. apply wp_bind, wp_bind, wp_get.
  cbn [heap with_heap]. rewrite lookup_insert_eq. eapply wp_lift; [done|].
  destruct (QISearch_finds (qit o) riid).
  - apply wp_bind. eapply AddRef_spec; [apply lookup_insert_eq | rewrite R; lia|].
    apply wp_ret. cbn [heap with_heap]. rewrite insert_insert_eq, R.
    apply wp_bind. eapply Release_spec; [apply lookup_insert_eq | rewrite cRef_with; lia|].
    apply wp_ret. cbn [heap with_heap snd]. rewrite cRef_with. rewrite decide_False by lia.
    rewrite insert_insert_eq, with_cRef_with. change (1 + 1 - 1) with 1. rewrite <- R, with_cRef_id.
    by destruct s.
  - apply wp_ret, wp_bind. eapply Release_spec; [apply lookup_insert_eq | rewrite R; lia|].
    apply wp_ret. cbn [heap with_heap snd]. rewrite decide_True by done.
    rewrite delete_insert_id by done. by destruct s.
Qed.

Lemma ok_heap owed s s' : heap s' = heap s -> com_ok owed s -> com_ok owed s'.
Proof. intros E [L D]. split; by rewrite E. Qed.

(** Changing or making the object [p]. *)
Lemma ok_update owed owed' p o s s' :
  com_ok owed s -> heap s' = <[p := o]> (heap s) ->
  (forall q, q <> p -> owed' q = owed q) -> owed' p = m_cRef o -> 0 < m_cRef o < 2 ^ 31 ->
  com_ok owed' s'.
Proof.
  intros [L D] E Ne Ep R. split; rewrite E.
  - intros q o' [[<- <-] | [N H]]%lookup_insert_Some; [lia|]. rewrite Ne by done. by apply L.
  - intros q [H N]%lookup_insert_None. rewrite Ne by done. by apply D.
Qed.

Lemma ok_delete owed owed' p s s' :
  com_ok owed s -> heap s' = delete p (heap s) ->
  (forall q, q <> p -> owed' q = owed q) -> owed' p = 0 -> com_ok owed' s'.
Proof.
  intros [L D] E Ne Ep. split; rewrite E.
  - intros q o' [N H]%lookup_delete_Some. rewrite Ne by done. by apply L.
  - intros q [-> | H]%lookup_delete_None; [done|]. destruct (decide (q = p)) as [->|]; [done|].
    rewrite Ne by done. by apply D.
Qed.

Ltac owed_cases := cbn [owe]; intros; rewrite ?decide_False, ?decide_True by done; done || lia.

Lemma addref_ok op owed p s :
  com_ok owed s -> 0 < owed p < 2 ^ 31 - 1 ->
  wp (AddRef p) (fun _ s' => com_ok (owe op (Some p) owed) s') s.
Proof.
  intros Ok H. destruct (held owed s p Ok) as (o & E & R & B); [lia|].
  eapply AddRef_spec; [done | lia|].
  eapply (ok_update owed _ p); [done | done | owed_cases | rewrite cRef_with; owed_cases | rewrite cRef_with; lia].
Qed.

Lemma release_ok owed p s :
  com_ok owed s -> 0 < owed p ->
  wp (Release p) (fun _ s' => com_ok (owe (OpRelease p) None owed) s') s.
Proof.
  intros Ok H. destruct (held owed s p Ok) as (o & E & R & B); [lia|].
  eapply Release_spec; [done | lia|]. destruct (decide (m_cRef o = 1)).
  - eapply (ok_delete owed _ p); [done | done | owed_cases | owed_cases].
  - eapply (ok_update owed _ p); [done | done | owed_cases | rewrite cRef_with; owed_cases | rewrite cRef_with; lia].
Qed.

(** A creating call. *)
Lemma created_ok op o owed (m : Proc Com (Z * option handle)) s :
  com_ok owed s -> m_cRef o = 1 -> (forall p, op <> OpRelease p) ->
  wp m (fun r s' => match r.2 with
     | None => s' = s
     | Some p => heap s !! p = None /\ s' = with_heap (<[p := o]> (heap s)) s
     end) s ->
  wp (let* '(_, r) := m in pret r) (fun r s' => com_ok (owe op r owed) s') s.
Proof.
  intros Ok R N H. apply wp_bind. eapply wp_mono; [exact H|]. intros [hr [p|]] s' P; cbn [snd] in P; apply wp_ret.
  - destruct P as [F ->]. pose proof (com_dead _ _ Ok p F) as Z0.
    eapply (ok_update owed _ p); [done | done | owed_cases | owed_cases | lia].
  - subst s'. destruct op; try exact Ok. by destruct (N p).
Qed.

Lemma set_object_ok owed p o o' s :
  com_ok owed s -> heap s !! p = Some o -> m_cRef o' = m_cRef o ->
  wp (set_object p o') (fun _ s' => com_ok owed s') s.
Proof.
  intros Ok E R. apply wp_bind, wp_get, wp_put. destruct (com_live _ _ Ok p o E).
  eapply (ok_update owed _ p); [done | done | done | lia | lia].
Qed.

Lemma foreign_ref_ok owed d p s :
  com_ok owed s -> wp (foreign_ref d p) (fun _ s' => com_ok owed s' /\ heap s' = heap s) s.
Proof. intros Ok. apply wp_bind, wp_get, wp_put. split; [by apply (ok_heap owed s) | done]. Qed.

Lemma advise_ok owed p events upRef s :
  com_ok owed s -> 0 < owed p -> (forall o, heap s !! p = Some o -> advisable o) ->
  wp (Advise p events upRef) (fun _ s' => com_ok owed s') s.
Proof.
  intros Ok H A. destruct (held owed s p Ok H) as (o & E & R & B). specialize (A o E).
  unfold Advise. apply wp_bind. apply (object_spec _ _ o); [done|].
  apply wp_seq with (R := fun _ s' => com_ok owed s').
  - destruct o; [by eapply set_object_ok | by eapply set_object_ok | done].
  - intros ? s1 Ok1. apply wp_seq with (R := fun _ s' => com_ok owed s').
    + destruct (negb _); [|by apply wp_ret]. eapply wp_mono; [by apply foreign_ref_ok|]. by intros ? s2 [? _].
    + intros ? s2 Ok2. by apply wp_ret.
Qed.

Lemma unadvise_ok owed p s :
  com_ok owed s -> 0 < owed p -> (forall o, heap s !! p = Some o -> advisable o) ->
  wp (UnAdvise p) (fun _ s' => com_ok owed s') s.
Proof.
  intros Ok H A. destruct (held owed s p Ok H) as (o & E & R & B). specialize (A o E).
  unfold UnAdvise. apply wp_bind. apply (object_spec _ _ o); [done|].
  apply wp_seq with (R := fun _ s' => com_ok owed s'); [|intros ? s1 Ok1; by apply wp_ret].
  assert (Un : forall e o', m_cRef o' = m_cRef o ->
    wp (if negb (e =? NULL) then foreign_ref (-1) e ;; set_object p o' else pret tt)
       (fun _ s' => com_ok owed s') s).
  { intros e o' R'. destruct (negb _); [|by apply wp_ret].
    eapply wp_seq; [by apply foreign_ref_ok|]. intros ? s1 [Ok1 E1]. eapply set_object_ok; [done| |done].
    by rewrite E1. }
  destruct o; [by apply Un | by apply Un | done].
Qed.

Lemma usage_ok owed p cpus s :
  com_ok owed s -> holds_a ProviderClass p owed s ->
  wp (SetUsageScenario p cpus 0) (fun _ s' => com_ok owed s') s.
Proof.
  intros Ok [H A]. destruct (held owed s p Ok H) as (o & E & R & B). specialize (A o E).
  unfold SetUsageScenario. apply wp_bind. apply (object_spec _ _ o); [done|].
  destruct o; [done| |done]. eapply wp_seq; [by eapply set_object_ok|].
  intros ? s1 Ok1. by destruct cpus; apply wp_ret.
Qed.

Lemma com_exec_ok op owed s :
  com_ok owed s -> legal op owed s ->
  wp (com_exec op) (fun r s' => com_ok (owe op r owed) s') s.
Proof.
  intros Ok Lg. destruct op as [p|p|p riid|clsid riid|p outer riid|p i|p e u|p|p c|p b]; cbn [com_exec legal] in *.
  - eapply wp_seq; [by apply (addref_ok (OpAddRef p))|]. intros ? s' H. by apply wp_ret.
  - eapply wp_seq; [by apply release_ok|]. intros ? s' H. by apply wp_ret.
  - destruct (held owed s p Ok) as (o & E & R & B); [lia|]. apply wp_bind. unfold QueryInterface.
    apply wp_bind. apply (object_spec _ _ o); [done|]. destruct (QISearch_finds _ _).
    + eapply wp_seq; [by apply (addref_ok (OpQuery p riid))|]. intros ? s' H. by apply wp_ret, wp_ret.
    + by apply wp_ret, wp_ret.
  - apply (created_ok _ new_PhoneKeyClassFactory); [done..|]. unfold DllGetClassObject.
    destruct (bool_decide _); [by apply create_spec | by apply wp_ret].
  - apply (created_ok _ new_PhoneKeyCredentialProvider); [done..|]. unfold CreateInstance.
    apply wp_bind, (called_spec FactoryClass p owed); [done..|].
    destruct (negb _); [by apply wp_ret | by apply create_spec].
  - apply (created_ok _ new_PhoneKeyCredential); [done..|]. unfold GetCredentialAt.
    apply wp_bind, (called_spec ProviderClass p owed); [done..|].
    destruct (negb _ || _); [by apply wp_ret | by apply create_spec].
  - destruct Lg. eapply wp_seq; [by apply advise_ok|]. intros ? s' H'. by apply wp_ret.
  - destruct Lg. eapply wp_seq; [by apply unadvise_ok|]. intros ? s' H'. by apply wp_ret.
  - eapply wp_seq; [by apply usage_ok|]. intros ? s' H'. by apply wp_ret.
  - apply wp_bind, wp_bind, (called_spec FactoryClass p owed); [done..|].
    apply wp_bind, wp_bind, wp_get, wp_put, wp_ret, wp_ret. by apply (ok_heap owed s).
Qed.

Lemma com_ok_init : com_ok (fun _ => 0) com0.
Proof. split; [|done]. intros p o [=]. Qed.

Lemma com_steps_ok c c' : rtc com_step c c' -> com_ok c.1 c.2 -> com_ok c'.1 c'.2.
Proof.
  induction 1 as [c|c1 c2 c3 St _ IH]; [done|]. intros Ok. apply IH.
  destruct St as [op owed s r s' Lg E]. cbn [fst snd] in *.
  pose proof (com_exec_ok op owed s Ok Lg) as H. unfold wpx in H. by rewrite E in H.
Qed.

End Laws.

(** * Properties *)

(** C25: object lifetime.  In every state a well-behaved client can reach from the
    freshly loaded DLL, through any sequence of calls and whichever
    allocations and interface queries fail: every legal call has a defined
    result (no method runs on a destroyed object), an object exists exactly
    while the client owes it references, and its count is that number.  So an
    object is destroyed by the release of its last reference and not earlier, and
    a client that releases everything leaves no object. *)
Theorem com_lifetime `{HP : ComPlatform} `{HL : !ComPlatformLaws} owed s :
  rtc com_step ((fun _ => 0), com0) (owed, s) ->
  (forall op, legal op owed s -> exists r s', com_exec op s = Def (r, s')) /\
  (forall p, match heap s !! p with
             | Some o => m_cRef o = owed p /\ 0 < owed p
             | None => owed p = 0
             end) /\
  ((forall p, owed p = 0) -> heap s = ∅).
Proof.
  intros R. pose proof (com_steps_ok _ _ R com_ok_init) as Ok. cbn [fst snd] in Ok. split; [|split].
  - intros op Lg. destruct (proj1 (wp_Def _ _ _) (com_exec_ok op owed s Ok Lg)) as (r & s' & E & _).
    by exists r, s'.
  - intros p. destruct (heap s !! p) as [o|] eqn:E; [|by apply (com_dead _ _ Ok)].
    destruct (com_live _ _ Ok p o E). split; [done | lia].
  - intros Z0. apply map_empty. intros p. apply eq_None_not_Some. intros [o E].
    destruct (com_live _ _ Ok p o E). specialize (Z0 p). lia.
Qed.

(** * Witnesses *)
From S2P Require Import Simulator.

#[export] Instance Iid_eq_dec : EqDecision Iid.
Proof. solve_decision. Defined.

(** [QISearch] as documented, and the lowest free address. *)
Definition demo_platform : ComPlatform :=
  {| QISearch_finds := fun table riid => bool_decide (riid = IID_IUnknown) || bool_decide (riid ∈ table);
     operator_new := next_handle |}.
Definition demo_platform_laws : @ComPlatformLaws demo_platform.
Proof. constructor. intros h. right. apply next_handle_fresh. Qed.

(** The logon screen's usual calls: class object, lock, provider, the release of
    the class object, and a credential. *)
Definition demo_session : list ComOp :=
  [OpClassObject CLSID_PhoneKeyCredentialProvider IID_IClassFactory; OpLock 1 true;
   OpCreate 1 NULL IID_ICredentialProvider; OpRelease 1; OpUsage 2 CPUS_LOGON; OpAdvise 2 77 5; OpCredential 2 0].
Fixpoint session `{ComPlatform} (ops : list ComOp) (owed : handle -> Z) (s : Com)
    : option ((handle -> Z) * Com) :=
  match ops with
  | [] => Some (owed, s)
  | op :: ops => match com_exec op s with
                 | Def (r, s) => session ops (owe op r owed) s
                 | UB => None
                 end
  end.
Definition demo_owed : handle -> Z :=
  match @session demo_platform demo_session (fun _ => 0) com0 with Some c => c.1 | None => fun _ => 0 end.
Definition demo_com : Com :=
  match @session demo_platform demo_session (fun _ => 0) com0 with Some c => c.2 | None => com0 end.

Fixpoint session_legal `{ComPlatform} (ops : list ComOp) (owed : handle -> Z) (s : Com) : Prop :=
  match ops with
  | [] => True
  | op :: ops => legal op owed s /\
    match com_exec op s with Def (r, s) => session_legal ops (owe op r owed) s | UB => False end
  end.

Lemma session_steps `{ComPlatform} ops owed s c :
  session_legal ops owed s -> session ops owed s = Some c -> rtc com_step (owed, s) c.
Proof.
  revert owed s. induction ops as [|op ops IH]; intros owed s L E; cbn in L, E.
  - injection E as <-. apply rtc_refl.
  - destruct L as [Lg L]. destruct (com_exec op s) as [[r s1]|] eqn:X; [|done].
    eapply rtc_l; [by apply com_step_intro|]. by apply IH.
Qed.

Lemma demo_legal : @session_legal demo_platform demo_session (fun _ => 0) com0.
Proof.
  cbn [session_legal demo_session].
  repeat (split; [vm_compute; repeat split; try done; try (intros ? [= <-]; first [exact I | reflexivity])|];
          match goal with |- context [com_exec ?op ?s] =>
            let r := eval vm_compute in (@com_exec demo_platform op s) in
            change (@com_exec demo_platform op s) with r; cbn iota end).
  exact I.
Qed.

Lemma demo_session_runs :
  @session demo_platform demo_session (fun _ => 0) com0 = Some (demo_owed, demo_com).
Proof.
  unfold demo_owed, demo_com.
  assert (S : match @session demo_platform demo_session (fun _ => 0) com0 with
              | Some _ => true | None => false end = true) by (vm_compute; reflexivity).
  by destruct (@session _ demo_session (fun _ => 0) com0) as [[]|].
Qed.

Lemma com_lifetime_witness :
  (exists o, heap demo_com !! 2 = Some o) /\ heap demo_com !! 1 = None /\
  (forall op, legal op demo_owed demo_com -> exists r s', @com_exec demo_platform op demo_com = Def (r, s')) /\
  (forall p, match heap demo_com !! p with
             | Some o => m_cRef o = demo_owed p /\ 0 < demo_owed p
             | None => demo_owed p = 0
             end) /\
  ((forall p, demo_owed p = 0) -> heap demo_com = ∅).
Proof.
  split; [eexists; vm_compute; reflexivity|]. split; [reflexivity|].
  apply (@com_lifetime demo_platform demo_platform_laws).
  apply (@session_steps demo_platform demo_session); [apply demo_legal | apply demo_session_runs].
Defined.

(** A client that goes on using the class object it has released goes wrong. *)
Example create_after_release :
  @session demo_platform [OpClassObject CLSID_PhoneKeyCredentialProvider IID_IClassFactory; OpRelease 1;
                          OpCreate 1 NULL IID_ICredentialProvider] (fun _ => 0) com0 = None.
Proof. reflexivity. Qed.

(** The module says it can be unloaded while an object is in use: only
    [LockServer] is counted. *)
Example unload_with_live_object :
  exists c, @session demo_platform [OpClassObject CLSID_PhoneKeyCredentialProvider IID_IClassFactory]
              (fun _ => 0) com0 = Some c /\
    heap c.2 !! 1 = Some (PhoneKeyClassFactory 1) /\ DllCanUnloadNow c.2 = Def (S_OK, c.2).
Proof. eexists. split; [reflexivity|]. by vm_compute. Qed.

(** A second [Advise] drops the first events object without releasing it. *)
Definition after `{ComPlatform} (ops : list ComOp) (P : Com -> Prop) : Prop :=
  match session ops (fun _ => 0) com0 with Some (_, s) => P s | None => False end.
Definition one_provider : list ComOp :=
  [OpClassObject CLSID_PhoneKeyCredentialProvider IID_IClassFactory; OpCreate 1 NULL IID_ICredentialProvider;
   OpRelease 1].
Example advise_twice :
  @after demo_platform (one_provider ++ [OpAdvise 2 77 0; OpAdvise 2 78 0; OpUnAdvise 2; OpRelease 2])
    (fun s => heap s = ∅ /\ foreign s !! 77 = Some 1 /\ foreign s !! 78 = Some 0).
Proof. vm_compute. done. Qed.

(** Destroying an object does not release its events object. *)
Example destroyed_while_advised :
  @after demo_platform (one_provider ++ [OpAdvise 2 77 0; OpRelease 2])
    (fun s => heap s = ∅ /\ foreign s !! 77 = Some 1).
Proof. vm_compute. done. Qed.
