(* ===== verification/TcpWorker.v ===== *)
(** * TcpWorker: the life of the TCP worker threads

    Theorems about the two worker bodies of windows/common/TcpTransport.cpp as
    modelled in TcpTransport: they end when the peer's stream does.  The sockets
    they use are accounted for in TcpSockets. *)
From S2P Require Import Prelude Bytes FrameProtocol Platform TransportInterface TcpTransport.

(** ** Termination

    A stream that ends: some measure of the whole state is decreased by each
    read that brings bytes, and not increased by anything else. *)
Class FiniteStream (S W : Type) (budget : S -> nat) `{Lens S TcpTransport, Lens S W, Winsock W}
    `{ITransportListener S} : Prop := {
  recv_budget : forall c n s, let '((r, _), w') := recv c n (view s) in
    (0 < r -> (budget (put w' s) < budget s)%nat) /\ (budget (put w' s) <= budget s)%nat;
  accept_budget : forall c s, let '(_, w') := accept c (view s) in (budget (put w' s) <= budget s)%nat;
  tcp_budget : forall (t : TcpTransport) s, budget (put t s) = budget s;
  frame_budget : forall f s, wp (OnFrameReceived f) (fun _ s' => (budget s' <= budget s)%nat) s;
  state_budget : forall b p s, wp (OnConnectionStateChanged b p) (fun _ s' => (budget s' <= budget s)%nat) s;
  error_budget : forall e s, wp (OnError e) (fun _ s' => (budget s' <= budget s)%nat) s;
}.

Section Termination.
Context {S W : Type} `{LT : Lens S TcpTransport} `{LW : Lens S W}
        `{LTL : !LensLaws S TcpTransport} `{LWL : !LensLaws S W}
        `{HS : Winsock W} `{HLi : ITransportListener S}
        (budget : S -> nat) `{HB : !FiniteStream S W budget}.

(** What a step that reads nothing leaves. *)
Definition within (n : nat) {A : Type} (_ : A) (s : S) : Prop := (budget s <= n)%nat.

Lemma modify_within f n s : (budget s <= n)%nat -> wp (modify f) (within n) s.
Proof. intros L. apply wp_modify. unfold within. by rewrite tcp_budget. Qed.

Lemma notify_within callback n s :
  (forall s, wp callback (fun _ s' => (budget s' <= budget s)%nat) s) ->
  (budget s <= n)%nat -> wp (notify callback) (within n) s.
Proof.
  intros C L. unfold notify. apply wp_bind, wp_members. destruct (m_listener _); [|by apply wp_ret].
  eapply wp_mono; [apply C|]. intros a s' H. unfold within. cbn beta in H. lia.
Qed.

Lemma deliver_within evs n s : (budget s <= n)%nat -> wp (deliver_all evs) (within n) s.
Proof.
  revert s. induction evs as [|ev evs IH]; intros s L; cbn [deliver_all]; [by apply wp_ret|].
  eapply wp_seq with (R := within n); [|intros ? s' L'; by apply IH].
  destruct ev; cbn [deliver].
  - apply notify_within; [apply error_budget | done].
  - eapply wp_seq; [apply notify_within; [apply error_budget | done]|].
    intros ? s' L'. by apply modify_within.
  - apply notify_within; [apply frame_budget | done].
  - apply notify_within; [apply error_budget | done].
Qed.

Lemma drain_within buf n s : (budget s <= n)%nat -> wp (drain_loop (length buf) buf) (within n) s.
Proof.
  intros L. unfold wpx. rewrite drain_refines.
  change (wp (deliver_all (rx_events (length buf) buf).1 ;; pret (rx_events (length buf) buf).2) (within n) s).
  eapply wp_seq; [by apply deliver_within|]. intros ? s' L'. by apply wp_ret.
Qed.

Lemma receive_within fuel buf s :
  (budget s < fuel)%nat -> wp (receive_loop fuel buf) (fun finished _ => finished = true) s.
Proof.
  revert buf s. induction fuel as [|fuel IH]; intros buf s L; [lia|]. cbn [receive_loop].
  apply wp_bind, wp_members. destruct (negb _); [by apply wp_ret|].
  apply wp_bind, wp_sys. intros [r bytes] w' E.
  pose proof (recv_budget (m_clientSocket (view s)) 4096 s) as D. rewrite E in D. destruct D as [D1 D2].
  destruct (Z.leb_spec r 0) as [Hr|Hr].
  - eapply wp_seq; [by apply modify_within|]. intros ? s1 L1.
    eapply wp_seq; [by apply notify_within; [apply state_budget|]|]. intros ? s2 L2. by apply wp_ret.
  - cbn zeta. eapply wp_seq; [apply drain_within; reflexivity|]. intros kept s1 L1.
    apply IH. unfold within in L1. specialize (D1 Hr). lia.
Qed.
End Termination.

(** * Properties *)

(** C30: the worker threads end.  On a connection whose stream ends (each read that
    brings bytes uses up part of a finite budget, and the callbacks give none
    back), from every state, both worker bodies have a defined result and finish
    within as many reads as the budget plus one, whatever bytes arrive. *)
Theorem workers_terminate {S W : Type} `{LT : Lens S TcpTransport} `{LW : Lens S W}
    `{LTL : !LensLaws S TcpTransport} `{LWL : !LensLaws S W}
    `{HS : Winsock W} `{HLi : ITransportListener S}
    (budget : S -> nat) `{HB : !FiniteStream S W budget} fuel (s : S) :
  (budget s < fuel)%nat ->
  wp (tcp_ReceiverWorker fuel) (fun finished _ => finished = true) s /\
  wp (tcp_ListenerWorker fuel) (fun finished _ => finished = true) s.
Proof.
  intros L. split; [by apply (receive_within budget)|]. unfold tcp_ListenerWorker.
  apply wp_bind, wp_members, wp_bind, wp_sys. intros [c peer] w' E.
  pose proof (accept_budget (m_listenSocket (view s)) s) as A. rewrite E in A.
  apply wp_bind, wp_members. destruct (_ || _); [by apply wp_ret|].
  eapply wp_seq; [by apply (modify_within budget)|]. intros ? s1 L1.
  eapply wp_seq; [by apply (modify_within budget)|]. intros ? s2 L2.
  eapply wp_seq; [by apply (notify_within budget); [apply state_budget|]|]. intros ? s3 L3.
  apply (receive_within budget). unfold within in L3. lia.
Qed.

(** * Witness *)
From S2P Require Import Simulator.

(** A listener that only looks, over a simulated socket. *)
#[export] Instance quiet_listener : ITransportListener (TcpTransport * Sim) := {
  OnFrameReceived := fun _ => pret tt;
  OnConnectionStateChanged := fun _ _ => pret tt;
  OnError := fun _ => pret tt;
}.
Definition unread (s : TcpTransport * Sim) : nat := length (concat (s_inbox s.2)).

#[export] Instance sim_stream : FiniteStream (TcpTransport * Sim) Sim unread.
Proof.
  constructor; [..|by intros t [t' w]|intros; apply wp_ret; reflexivity|intros; apply wp_ret; reflexivity
    |intros; apply wp_ret; reflexivity].
  - intros c n [t w]. unfold unread. cbn. destruct (s_inbox w) as [|x rest] eqn:E; cbn; rewrite ?E; [done|].
    destruct (Z.leb_spec (Z.of_nat (length x)) n) as [L|L]; cbn [fst snd s_inbox set_inbox concat];
      rewrite !length_app; len.
  - intros c [t w]. unfold unread. cbn. destruct (s_peers w) as [|p rest]; [done|].
    pose proof (sim_open_inbox (set_peers rest w)) as I. destruct (sim_open (set_peers rest w)).
    cbn in *. by rewrite I.
Qed.

Definition demo_link : TcpTransport * Sim :=
  (with_listener true (with_isRunning true demo_tcp),
   set_inbox [take 3 (stream demo_stream); drop 3 (stream demo_stream)] sim0).

Lemma workers_terminate_witness :
  (unread demo_link < 60)%nat /\
  wp (tcp_ReceiverWorker 60) (fun finished _ => finished = true) demo_link /\
  wp (tcp_ListenerWorker 60) (fun finished _ => finished = true) demo_link.
Proof.
  assert (L : (unread demo_link < 60)%nat) by (vm_compute; lia).
  split; [exact L|]. exact (workers_terminate unread 60 demo_link L).
Defined.
