(* ===== verification/Threads.v ===== *)
(** * Threads: programs whose atomic steps interleave

    A thread is a tree of atomic steps on a shared state [S]: a step may have to
    wait (a mutex, a [join]), may be undefined, or yields a value that the rest
    of the thread depends on.  Threads are finite trees, so every run of a pool
    of threads ends; that it ends with all of them done, and in what state, is
    proved with the rely/guarantee predicate [rg]: thread by thread, against
    what the others may do between its steps. *)
From S2P Require Import Prelude.

Inductive Thread (S A : Type) : Type :=
| Done (a : A)
| Atom {X : Type} (m : S -> option (Res (X * S))) (k : X -> Thread S A).
Arguments Done {S A} a.
Arguments Atom {S A X} m k.

Fixpoint tbind {S A B : Type} (t : Thread S A) (k : A -> Thread S B) : Thread S B :=
  match t with
  | Done a => k a
  | Atom m c => Atom m (fun x => tbind (c x) k)
  end.

Notation "'let@' p ':=' c1 'in' c2" := (tbind c1 (fun p => c2))
  (at level 10, p binder, c1 at level 100, c2 at level 200,
   format "'[v' 'let@'  p  ':='  c1  'in' '/' c2 ']'") : phonekey_scope.
Notation "c1 ;@ c2" := (tbind c1 (fun _ => c2))
  (at level 100, c2 at level 200, right associativity) : phonekey_scope.

(** A step that never waits, and one that waits until [m] has an answer. *)
Definition act {S X : Type} (m : Proc S X) : Thread S X := Atom (fun s => Some (m s)) Done.
Definition await {S X : Type} (m : S -> option (X * S)) : Thread S X := Atom (fun s => Def <$> m s) Done.
(** A local computation. *)
Definition local {S X : Type} (r : Res X) : Thread S X :=
  match r with Def x => Done x | UB => act (fun _ => UB) end.

(** A thread that runs without interference; [None] when it waits for ever. *)
Fixpoint alone {S A : Type} (t : Thread S A) (s : S) : option (Res (A * S)) :=
  match t with
  | Done a => Some (Def (a, s))
  | Atom m k =>
    match m s with
    | Some (Def (x, s')) => alone (k x) s'
    | Some UB => Some UB
    | None => None
    end
  end.

Lemma alone_bind {S A B} (t : Thread S A) (k : A -> Thread S B) s :
  alone (tbind t k) s =
    match alone t s with
    | Some (Def (a, s')) => alone (k a) s'
    | Some UB => Some UB
    | None => None
    end.
Proof.
  revert s. induction t as [a|X m c IH]; intros s; cbn; [done|]. by destruct (m s) as [[[x s']|]|].
Qed.

(** A thread that without interference does to the part [f] of the state what [m]
    does. *)
Section Mirrors.
Context {S V : Type} (f : S -> V).

Definition mirrors {A} (t : Thread S A) (m : Proc V A) (s : S) : Prop :=
  match m (f s) with
  | Def (x, v) => exists s', alone t s = Some (Def (x, s')) /\ f s' = v
  | UB => alone t s = Some UB
  end.

Lemma mirrors_seq {A B} (t : Thread S A) m (k : A -> Thread S B) k' s :
  mirrors t m s -> (forall x s', mirrors (k x) (k' x) s') -> mirrors (tbind t k) (pbind m k') s.
Proof.
  unfold mirrors, pbind. intros H K. rewrite alone_bind. destruct (m (f s)) as [[x v]|].
  - destruct H as (s' & -> & <-). apply K.
  - by rewrite H.
Qed.

Lemma mirrors_done {A} (x : A) s : mirrors (Done x) (pret x) s.
Proof. by exists s. Qed.

Lemma mirrors_local {A} (r : Res A) s : mirrors (local r) (plift r) s.
Proof. destruct r; [by exists s | done]. Qed.

Lemma mirrors_get {A} (t : Thread S A) m s : mirrors t (m (f s)) s -> mirrors t (pbind pget m) s.
Proof. done. Qed.

(** Sequences may be grouped either way. *)
Lemma mirrors_assoc {A B C} (t : Thread S A) (k : A -> Thread S B) (k' : B -> Thread S C) m s :
  mirrors (tbind t (fun x => tbind (k x) k')) m s -> mirrors (tbind (tbind t k) k') m s.
Proof.
  assert (E : alone (tbind t (fun x => tbind (k x) k')) s = alone (tbind (tbind t k) k') s).
  { rewrite !alone_bind. destruct (alone t s) as [[[x s']|]|]; [|done..]. by rewrite alone_bind. }
  unfold mirrors. by rewrite E.
Qed.
End Mirrors.
Arguments mirrors_seq {S V f A B} t m k k' s.
Arguments mirrors_assoc {S V f A B C} t k k' m s.

(** ** Pools *)
Section Pool.
Context {S A : Type}.
Abbreviation config := (S * list (Thread S A))%type.

Inductive pool_step : config -> config -> Prop :=
| pool_step_intro i X (m : S -> option (Res (X * S))) k x s s' ts :
    ts !! i = Some (Atom m k) -> m s = Some (Def (x, s')) ->
    pool_step (s, ts) (s', <[i := k x]> ts).

Definition is_done (t : Thread S A) : Prop := match t with Done _ => True | Atom _ _ => False end.
#[export] Instance is_done_dec t : Decision (is_done t).
Proof. destruct t; cbn; apply _. Defined.
Definition all_done (c : config) : Prop := Forall is_done c.2.

(** Some thread's next step is undefined. *)
Definition goes_wrong (c : config) : Prop :=
  exists i X (m : S -> option (Res (X * S))) k, c.2 !! i = Some (Atom m k) /\ m c.1 = Some UB.
End Pool.

Lemma pool_steps_length {S A} (c c' : S * list (Thread S A)) : rtc pool_step c c' -> length c.2 = length c'.2.
Proof. induction 1 as [|c c1 c2 St _ IH]; [done|]. rewrite <- IH. destruct St. symmetry. apply length_insert. Qed.

(** *** Schedules *)
Section Schedule.
Context {S A : Type}.

(** The run in which the threads move in the order given. *)
Fixpoint run_schedule (schedule : list nat) (c : S * list (Thread S A)) : option (S * list (Thread S A)) :=
  match schedule with
  | [] => Some c
  | i :: rest =>
    match c.2 !! i with
    | Some (Atom m k) =>
      match m c.1 with
      | Some (Def (x, s')) => run_schedule rest (s', <[i := k x]> c.2)
      | _ => None
      end
    | _ => None
    end
  end.

Lemma run_schedule_steps schedule c c' : run_schedule schedule c = Some c' -> rtc pool_step c c'.
Proof.
  revert c. induction schedule as [|i rest IH]; intros [s ts] H; cbn in H; [by injection H as <-|].
  destruct (ts !! i) as [[a|X m k]|] eqn:Ei; [done| |done].
  destruct (m s) as [[[x s']|]|] eqn:Em; [|done..].
  eapply rtc_l; [by econstructor | by apply IH].
Qed.

(** Whether that run reaches a configuration that passes a test. *)
Definition reaches (schedule : list nat) (test : S * list (Thread S A) -> bool) c : bool :=
  match run_schedule schedule c with Some c' => test c' | None => false end.

Lemma reaches_spec schedule test c :
  reaches schedule test c = true -> exists c', rtc pool_step c c' /\ test c' = true.
Proof.
  unfold reaches. destruct (run_schedule schedule c) as [c'|] eqn:E; [|done]. intros T.
  exists c'. split; [by eapply run_schedule_steps | done].
Qed.
End Schedule.

(** *** Every run ends *)
Section Ends.
Context {S A : Type}.
Implicit Types (t : Thread S A) (ts : list (Thread S A)).

Definition next_tree t' t : Prop :=
  match t with Done _ => False | Atom m k => exists x, t' = k x end.

(** One of the threads has moved on. *)
Inductive next_list : list (Thread S A) -> list (Thread S A) -> Prop :=
| next_here t' t ts : next_tree t' t -> next_list (t' :: ts) (t :: ts)
| next_there t ts' ts : next_list ts' ts -> next_list (t :: ts') (t :: ts).

Lemma next_tree_wf t : Acc next_tree t.
Proof.
  induction t as [a|X m k IH]; constructor; intros t' N; [done|]. destruct N as [x ->]. apply IH.
Qed.

Lemma next_list_wf ts : Acc next_list ts.
Proof.
  induction ts as [|t ts IHl]; [constructor; intros l N; inversion N|].
  revert ts IHl. induction (next_tree_wf t) as [t _ IHt]. intros ts Al. pose proof Al as Al'.
  induction Al as [ts _ IHl]. constructor. intros l N. inversion N; subst.
  - by apply IHt.
  - apply IHl; [done|]. by apply Al'.
Qed.

Lemma next_list_insert i t t' ts :
  ts !! i = Some t -> next_tree t' t -> next_list (<[i := t']> ts) ts.
Proof.
  revert i. induction ts as [|u ts IH]; intros [|i] H N; simplify_eq/=; constructor; auto.
Qed.

Lemma pool_step_next (c c' : S * list (Thread S A)) : pool_step c c' -> next_list c'.2 c.2.
Proof. intros St. destruct St. eapply next_list_insert; [done|]. by eexists. Qed.

(** Every run is finite. *)
Lemma runs_finite (c : S * list (Thread S A)) : sn pool_step c.
Proof.
  destruct c as [s ts]. revert s. induction (next_list_wf ts) as [ts _ IH]. intros s.
  constructor. intros [s' ts'] St. apply IH. exact (pool_step_next _ _ St).
Qed.

(** Whether some thread can move can be decided. *)
Definition moves (s : S) (t : Thread S A) : bool :=
  match t with
  | Done _ => false
  | Atom m k => match m s with Some (Def _) => true | _ => false end
  end.

Lemma step_or_stuck (c : S * list (Thread S A)) : red pool_step c \/ nf pool_step c.
Proof.
  destruct c as [s ts]. destruct (decide (Exists (fun t => moves s t) ts)) as [E|N].
  - left. apply Exists_exists in E as (t & Et & M). apply list_elem_of_lookup in Et as [i Ei].
    destruct t as [a|X m k]; [done|]. cbn in M. destruct (m s) as [[[x s']|]|] eqn:Em; [|done..].
    exists (s', <[i := k x]> ts). by econstructor.
  - right. intros [c' St]. apply N. refine (match St in pool_step c _ return Exists (fun t => moves c.1 t) c.2 with
      pool_step_intro i X m k x s s' ts Ei Em => _ end).
    apply Exists_exists. exists (Atom m k). split; [by eapply list_elem_of_lookup_2|]. cbn. by rewrite Em.
Qed.

Lemma runs_settle (c : S * list (Thread S A)) : exists c', rtc pool_step c c' /\ nf pool_step c'.
Proof.
  induction (runs_finite c) as [c _ IH]. destruct (step_or_stuck c) as [[c' St]|N]; [|by exists c].
  destruct (IH c' St) as (c'' & R & N). exists c''. split; [by eapply rtc_l | done].
Qed.
End Ends.

(** ** Rely and guarantee

    [rg R G B t Q s]: run [t] from [s] while the others make [R]-steps.  Its own
    steps are defined and satisfy [G], it waits only where [B] holds, and when
    it is done, [Q] holds, then and later.  In [rgx U] they may be undefined, but
    only if [U]. *)
Section RelyGuarantee.
Context {S : Type}.

Fixpoint rgx {A : Type} (U : Prop) (R G : S -> S -> Prop) (B : S -> Prop) (t : Thread S A) (Q : A -> S -> Prop) (s : S)
    : Prop :=
  match t with
  | Done a => forall s', rtc R s s' -> Q a s'
  | Atom m k => forall s', rtc R s s' ->
      match m s' with
      | Some (Def (x, s'')) => G s' s'' /\ rgx U R G B (k x) Q s''
      | Some UB => U
      | None => B s'
      end
  end.

Definition stable (R : S -> S -> Prop) (P : S -> Prop) : Prop := forall s s', R s s' -> P s -> P s'.

Lemma stable_rtc R P s s' : stable R P -> rtc R s s' -> P s -> P s'.
Proof. intros St. induction 1; eauto. Qed.

Section Rules.
Context {U : Prop} (R G : S -> S -> Prop) (B : S -> Prop).
Abbreviation rg := (rgx U).

Lemma rg_rely {A} (t : Thread S A) Q s s' : rg R G B t Q s -> R s s' -> rg R G B t Q s'.
Proof. intros H Rs. destruct t; cbn in *; intros s2 R2; apply H; by eapply rtc_l. Qed.

Lemma rg_mono {A} (t : Thread S A) (Q Q' : A -> S -> Prop) s :
  rg R G B t Q s -> (forall a s', Q a s' -> Q' a s') -> rg R G B t Q' s.
Proof.
  intros H K. revert s H. induction t as [a|X m k IH]; cbn; intros s H s' Rs; [by apply K, H|].
  specialize (H s' Rs). destruct (m s') as [[[x s'']|]|]; [|done..]. split; [apply H | by apply IH, H].
Qed.

Lemma rg_bind {A C} (t : Thread S A) (k : A -> Thread S C) Q s :
  rg R G B t (fun a s' => rg R G B (k a) Q s') s -> rg R G B (tbind t k) Q s.
Proof.
  revert s. induction t as [a|X m c IH]; cbn; intros s H; [by apply H|].
  intros s' Rs. specialize (H s' Rs). destruct (m s') as [[[x s'']|]|]; [|done..].
  split; [apply H | by apply IH, H].
Qed.

Lemma rg_seq {A C} (t : Thread S A) (k : A -> Thread S C) (P : A -> S -> Prop) Q s :
  rg R G B t P s -> (forall a s', P a s' -> rg R G B (k a) Q s') -> rg R G B (tbind t k) Q s.
Proof. intros H K. apply rg_bind. by eapply rg_mono. Qed.

(** The same where the first part is the beginning of a longer sequence. *)
Lemma rg_then {A C D} (t : Thread S A) (k1 : A -> Thread S C) (k2 : C -> Thread S D) (P : C -> S -> Prop) Q s :
  rg R G B (tbind t k1) P s -> (forall a s', P a s' -> rg R G B (k2 a) Q s') ->
  rg R G B (tbind t (fun x => tbind (k1 x) k2)) Q s.
Proof.
  intros H K. revert s H. induction t as [a|X m c IH]; cbn; intros s H; [by eapply rg_seq|].
  intros s' Rs. specialize (H s' Rs). destruct (m s') as [[[x s'']|]|]; [|done..].
  split; [apply H | by apply IH, H].
Qed.

(** Sequences may be grouped either way. *)
Lemma rg_assoc {A C D} (t : Thread S A) (f : A -> Thread S C) (k : C -> Thread S D) Q s :
  rg R G B (tbind t (fun x => tbind (f x) k)) Q s -> rg R G B (tbind (tbind t f) k) Q s.
Proof.
  revert s. induction t as [a|X m c IH]; cbn; intros s H; [done|].
  intros s' Rs. specialize (H s' Rs). destruct (m s') as [[[x s'']|]|]; [|done..].
  split; [apply H | by apply IH, H].
Qed.

(** A step from a state known by a stable assertion. *)
Lemma rg_atom {A X} (P : S -> Prop) (m : S -> option (Res (X * S))) (k : X -> Thread S A) Q s :
  stable R P -> P s ->
  (forall s', P s' -> match m s' with
     | Some (Def (x, s'')) => G s' s'' /\ rg R G B (k x) Q s''
     | Some UB => U
     | None => B s'
     end) ->
  rg R G B (Atom m k) Q s.
Proof. intros St Ps H s' Rs. apply H. by eapply stable_rtc. Qed.

Lemma rg_act {A X} (P : S -> Prop) (m : Proc S X) (k : X -> Thread S A) Q s :
  stable R P -> P s ->
  (forall s', P s' -> wp m (fun x s'' => G s' s'' /\ rg R G B (k x) Q s'') s') ->
  rg R G B (tbind (act m) k) Q s.
Proof.
  intros St Ps H. apply (rg_atom P); [done..|]. intros s' P'. specialize (H s' P'). unfold wpx in H.
  by destruct (m s') as [[x s'']|].
Qed.

Lemma rg_await {A X} (P : S -> Prop) (m : S -> option (X * S)) (k : X -> Thread S A) Q s :
  stable R P -> P s ->
  (forall s', P s' -> match m s' with
     | Some (x, s'') => G s' s'' /\ rg R G B (k x) Q s''
     | None => B s'
     end) ->
  rg R G B (tbind (await m) k) Q s.
Proof.
  intros St Ps H. apply (rg_atom P); [done..|]. intros s' P'. specialize (H s' P').
  by destruct (m s') as [[x s'']|].
Qed.

Lemma rg_done {A} (a : A) (P : S -> Prop) (Q : A -> S -> Prop) s :
  stable R P -> P s -> (forall s', P s' -> Q a s') -> rg R G B (Done a) Q s.
Proof. intros St Ps H s' Rs. apply H. by eapply stable_rtc. Qed.
End Rules.
End RelyGuarantee.
Abbreviation rg := (rgx False).

(** *** Parallel composition

    When every thread guarantees what the others rely on, the threads keep their
    specifications in every interleaving. *)
Section Parallel.
Context {S A : Type} (U : nat -> Prop) (R G : nat -> S -> S -> Prop) (B : nat -> S -> Prop) (Q : nat -> A -> S -> Prop).
Hypothesis compatible : forall i j s s', i <> j -> G i s s' -> R j s s'.
Abbreviation config := (S * list (Thread S A))%type.

Definition specifiedx (c : config) : Prop :=
  forall i t, c.2 !! i = Some t -> rgx (U i) (R i) (G i) (B i) t (Q i) c.1.

Lemma specifiedx_step c c' : specifiedx c -> pool_step c c' -> specifiedx c'.
Proof.
  intros H St. destruct St as [i X m k x s s' ts Ei Em].
  pose proof (H i _ Ei s (rtc_refl _ _)) as Hi. cbn [fst snd] in Hi. rewrite Em in Hi. destruct Hi as [Gi Hi].
  intros j t. cbn [fst snd]. destruct (decide (i = j)) as [->|N].
  - rewrite list_lookup_insert_eq by (by eapply lookup_lt_Some). by intros [= <-].
  - rewrite list_lookup_insert_ne by done. intros Ej. eapply rg_rely; [by apply (H j t)|].
    by eapply compatible.
Qed.

Lemma specifiedx_steps c c' : specifiedx c -> rtc pool_step c c' -> specifiedx c'.
Proof. intros H. induction 1; eauto using specifiedx_step. Qed.

Lemma specifiedx_wrong c : specifiedx c -> goes_wrong c -> exists i, (i < length c.2)%nat /\ U i.
Proof.
  intros H (i & X & m & k & Ei & Em). exists i. split; [by eapply lookup_lt_Some|].
  pose proof (H i _ Ei c.1 (rtc_refl _ _)) as Hi. cbn in Hi. by rewrite Em in Hi.
Qed.

Lemma specifiedx_done c i a : specifiedx c -> c.2 !! i = Some (Done a) -> Q i a c.1.
Proof. intros H Ei. exact (H i _ Ei c.1 (rtc_refl _ _)). Qed.

(** Either the thread is done, or it waits, or the pool can step, or go wrong. *)
Lemma specifiedx_progress c i t :
  specifiedx c -> c.2 !! i = Some t ->
  (exists a, t = Done a /\ Q i a c.1) \/ B i c.1 \/ (exists c', pool_step c c') \/ goes_wrong c.
Proof.
  intros H Ei. pose proof (H i t Ei) as Hi. destruct t as [a|X m k].
  - left. exists a. split; [done|]. by apply (specifiedx_done c).
  - right. specialize (Hi c.1 (rtc_refl _ _)). cbn in Hi. destruct (m c.1) as [[[x s']|]|] eqn:Em.
    + right; left. destruct c as [s ts]. exists (s', <[i := k x]> ts). by econstructor.
    + right; right. by exists i, X, m, k.
    + by left.
Qed.

Lemma specifiedx_guarantee c c' :
  specifiedx c -> pool_step c c' -> exists i, (i < length c.2)%nat /\ G i c.1 c'.1.
Proof.
  intros H St. destruct St as [i X m k x s s' ts Ei Em]. exists i. split; [by eapply lookup_lt_Some|].
  pose proof (H i _ Ei s (rtc_refl _ _)) as Hi. cbn [fst snd] in Hi. rewrite Em in Hi. apply Hi.
Qed.

(** What every guarantee keeps holds throughout. *)
Lemma specifiedx_invariant (I : nat -> S -> Prop) c c' :
  (forall N i s s', (i < N)%nat -> G i s s' -> I N s -> I N s') ->
  specifiedx c -> I (length c.2) c.1 -> rtc pool_step c c' -> I (length c.2) c'.1.
Proof.
  intros Keep Sp Ic. induction 1 as [c|c c1 c2 St Rs IH]; [done|].
  assert (L : length c1.2 = length c.2) by (destruct St; apply length_insert).
  rewrite <- L. apply IH; [by eapply specifiedx_step|]. rewrite L.
  destruct (specifiedx_guarantee _ _ Sp St) as (i & Li & Gi). eauto.
Qed.
End Parallel.
Arguments specifiedx_step {S A U R G B Q} compatible.
Arguments specifiedx_steps {S A U R G B Q} compatible.
Arguments specifiedx_invariant {S A U R G B Q} compatible.
Arguments specifiedx_wrong {S A U R G B Q}.
Arguments specifiedx_done {S A U R G B Q}.
Arguments specifiedx_progress {S A U R G B Q}.

(** Where nothing is undefined. *)
Abbreviation specified := (specifiedx (fun _ => False)).
Section Safe.
Context {S A : Type} (R G : nat -> S -> S -> Prop) (B : nat -> S -> Prop) (Q : nat -> A -> S -> Prop).
Abbreviation config := (S * list (Thread S A))%type.
Implicit Types (c : config).

Lemma specified_safe c : specified R G B Q c -> ~ goes_wrong c.
Proof. intros H W. by destruct (specifiedx_wrong c H W) as (? & _ & []). Qed.
Lemma specified_done c i a : specified R G B Q c -> c.2 !! i = Some (Done a) -> Q i a c.1.
Proof. apply specifiedx_done. Qed.
Lemma specified_progress c i t :
  specified R G B Q c -> c.2 !! i = Some t ->
  (exists a, t = Done a /\ Q i a c.1) \/ B i c.1 \/ exists c', pool_step c c'.
Proof.
  intros H Ei. destruct (specifiedx_progress c i t H Ei) as [D|[Bc|[St|W]]]; auto.
  by destruct (specified_safe c H).
Qed.

Hypothesis compatible : forall i j s s', i <> j -> G i s s' -> R j s s'.
Lemma specified_steps c c' : specified R G B Q c -> rtc pool_step c c' -> specified R G B Q c'.
Proof. by apply specifiedx_steps. Qed.
Lemma specified_invariant (I : nat -> S -> Prop) c c' :
  (forall N i s s', (i < N)%nat -> G i s s' -> I N s -> I N s') ->
  specified R G B Q c -> I (length c.2) c.1 -> rtc pool_step c c' -> I (length c.2) c'.1.
Proof. by apply specifiedx_invariant. Qed.
End Safe.


(** *** Threads that keep an invariant

    The common shape of rely and guarantee: while the invariant [sound] holds,
    a step of thread [i] keeps it and is a [link i]. *)
Section Linked.
Context {S : Type} (sound : S -> Prop) (link : nat -> S -> S -> Prop).
Implicit Types (P : S -> Prop) (s : S).

Definition linked (i : nat) s s' : Prop := sound s -> sound s' /\ link i s s'.
Definition linked_others (i : nat) s s' : Prop := exists j, j <> i /\ linked j s s'.
(** Threads of this shape that never wait. *)
Definition keepsx (U : Prop) (i : nat) {A} (t : Thread S A) (Q : A -> S -> Prop) s : Prop :=
  rgx U (linked_others i) (linked i) (fun _ => False) t Q s.

Lemma linked_compatible i j s s' : i <> j -> linked i s s' -> linked_others j s s'.
Proof. intros N L. by exists i. Qed.

Section Thread.
Context {U : Prop} (i : nat).
Abbreviation keeps := (keepsx U).

(** What the steps of the others keep. *)
Definition lasting P : Prop := forall j s s', j <> i -> sound s -> link j s s' -> P s -> P s'.

Lemma lasting_and P P' : lasting P -> lasting P' -> lasting (fun s => P s /\ P' s).
Proof. intros L L' j s s' N So Lk [HP HP']. split; [by eapply L | by eapply L']. Qed.

Lemma stable_lasting P : lasting P -> stable (linked_others i) (fun s => sound s /\ P s).
Proof.
  intros L s s' (j & N & G) [So Ps]. destruct (G So) as [So' Lk]. split; [done|]. exact (L j s s' N So Lk Ps).
Qed.

Lemma keeps_act {A X} P (m : Proc S X) (k : X -> Thread S A) Q s :
  lasting P -> sound s -> P s ->
  (forall s, sound s -> P s -> wp m (fun x s' => linked i s s' /\ (sound s' -> keeps i (k x) Q s')) s) ->
  keeps i (tbind (act m) k) Q s.
Proof.
  intros L So Ps H. apply (rg_act _ _ _ (fun s => sound s /\ P s)); [by apply stable_lasting|done|].
  clear s So Ps. intros s [So Ps]. eapply wp_mono; [by apply H|]. intros x s' [G K]. split; [done|].
  apply K. by apply G.
Qed.

Lemma keeps_done {A} P (a : A) (Q : A -> S -> Prop) s :
  lasting P -> sound s -> P s -> (forall s, sound s -> P s -> Q a s) -> keeps i (Done a) Q s.
Proof.
  intros L So Ps H. apply (rg_done _ _ _ _ (fun s => sound s /\ P s)); [by apply stable_lasting|done|].
  intros s' [So' Ps']. by apply H.
Qed.

(** Whatever a thread is known to do, the invariant stays, and what no link
    changes. *)
Lemma keeps_frame {A V} (f : S -> V) (t : Thread S A) Q s :
  (forall j s s', link j s s' -> f s' = f s) ->
  sound s -> keeps i t Q s -> keeps i t (fun a s' => sound s' /\ f s' = f s /\ Q a s') s.
Proof.
  intros K. assert (St : forall v, stable (linked_others i) (fun s => sound s /\ f s = v)).
  { intros v s1 s2 (j & _ & G) [So Fx]. destruct (G So) as [So' Lk]. by rewrite (K _ _ _ Lk). }
  generalize (eq_refl (f s)). generalize (f s) at 1 3. intros v E So. revert s E So. unfold keepsx.
  induction t as [a|X m k IH]; cbn; intros s E So H s' Rs;
    destruct (stable_rtc _ _ _ _ (St v) Rs (conj So (eq_sym E))) as [So' Fx']; [auto|]. specialize (H s' Rs).
  destruct (m s') as [[[x s'']|]|]; [|done..]. destruct H as [G H]. split; [done|].
  destruct (G So') as [So'' Lk]. apply IH; [|done..]. by rewrite (K _ _ _ Lk).
Qed.
End Thread.

(** Pools of such threads. *)
Section Pool.
Context {A : Type} (U : nat -> Prop) (Q : nat -> A -> S -> Prop).
Definition all_keepx (c : S * list (Thread S A)) : Prop :=
  specifiedx U linked_others linked (fun _ _ => False) Q c.

(** A run ends with all threads done, or with one about to go wrong. *)
Lemma all_keepx_ends c :
  all_keepx c -> (goes_wrong c -> exists i, (i < length c.2)%nat /\ U i) /\
    (nf pool_step c -> all_done c \/ goes_wrong c).
Proof.
  intros Sp. split; [exact (specifiedx_wrong c Sp)|]. intros N.
  destruct (decide (Forall is_done c.2)) as [D|D]; [by left|]. right.
  apply not_Forall_Exists in D; [|apply _]. apply Exists_exists in D as (t & Ht & Nd).
  apply list_elem_of_lookup in Ht as [i Ht].
  destruct (specifiedx_progress c i t Sp Ht) as [(a & -> & _)|[[]|[St|W]]]; [by destruct Nd|by destruct N|done].
Qed.

Lemma all_keepx_steps c c' : all_keepx c -> rtc pool_step c c' -> all_keepx c'.
Proof. intros Sp. apply specifiedx_steps; [|done]. apply linked_compatible. Qed.

(** What every link keeps holds throughout, [N] being the number of threads. *)
Lemma all_keepx_invariant (I : nat -> S -> Prop) c c' :
  (forall N i s s', (i < N)%nat -> sound s -> link i s s' -> I N s -> I N s') ->
  all_keepx c -> sound c.1 -> I (length c.2) c.1 -> rtc pool_step c c' -> sound c'.1 /\ I (length c.2) c'.1.
Proof.
  intros K Sp So Ic Rs.
  refine (specifiedx_invariant linked_compatible (fun N s => sound s /\ I N s) c c' _ Sp (conj So Ic) Rs).
  intros N i s s' Lt G [So1 I1]. destruct (G So1) as [So2 Lk]. split; [done|]. by apply (K N i s s').
Qed.
End Pool.
End Linked.

Abbreviation keeps sound link := (keepsx sound link False).
Abbreviation all_keep sound link := (all_keepx sound link (fun _ => False)).
Section Safe_pool.
Context {S A : Type} (sound : S -> Prop) (link : nat -> S -> S -> Prop) (Q : nat -> A -> S -> Prop).
Implicit Types (c : S * list (Thread S A)).
Lemma all_keep_ends c :
  all_keep sound link Q c -> ~ goes_wrong c /\ sn pool_step c /\ (nf pool_step c -> all_done c).
Proof.
  intros Sp. assert (Safe : ~ goes_wrong c) by (by eapply specified_safe). split; [done|].
  split; [apply runs_finite|]. intros N. by destruct (proj2 (all_keepx_ends _ _ _ _ c Sp) N).
Qed.
Lemma all_keep_steps c c' : all_keep sound link Q c -> rtc pool_step c c' -> all_keep sound link Q c'.
Proof. apply all_keepx_steps. Qed.
Lemma all_keep_invariant (I : nat -> S -> Prop) c c' :
  (forall N i s s', (i < N)%nat -> sound s -> link i s s' -> I N s -> I N s') ->
  all_keep sound link Q c -> sound c.1 -> I (length c.2) c.1 -> rtc pool_step c c' -> sound c'.1 /\ I (length c.2) c'.1.
Proof. apply all_keepx_invariant. Qed.
End Safe_pool.

Arguments lasting_and {S sound link i} P P'.
Arguments keeps_act {S sound link U i A X} P m k Q s.
Arguments keeps_done {S sound link U i A} P a Q s.
Arguments keeps_frame {S sound link U i A V} f t Q s.
