(* ===== verification/TcpThreads.v ===== *)
(** * TcpThreads: the TCP transport under concurrency

    The methods and worker bodies of windows/common/TcpTransport.cpp once more,
    as threads of Threads: every access to a member that another thread also
    uses, every socket call, the mutex of [SendFrame] and the [join] of [Close]
    is a step of its own (plain members are taken to be read and written whole).
    [accept] and [recv] wait on an open socket; a receive loop out of fuel is
    stuck, so that ending is something to be proved.
    The [alone_*] lemmas at the end show for [SendFrame] and [Close] that without
    interference they are the procedures of TcpTransport.  Callbacks are threads
    too and run on the calling thread. *)
From S2P Require Import Prelude Bytes FrameProtocol Platform TransportInterface TcpTransport Threads.

(** ** State *)

(** What a call of [SendFrame] put on the wire while it held the mutex. *)
Record Entry : Type := {
  e_thread : nat;
  e_type : TransportMessageType;
  e_payload : list byte;
  e_out : list byte;
  e_ok : bool;
}.

(** [std::thread] objects are numbered from 1 in the order of their creation:
    [started] were created, the last as [spawned], and [finished] of them have
    returned.  The mutex is free or held by a thread.  [journal] and [receiving]
    (the worker has found the transport running in its receive loop) are history
    variables: nothing reads them. *)
Record Sync : Type := {
  started : nat;
  finished : nat;
  spawned : Worker;
  m_sendMutex : option nat;
  journal : list Entry;
  receiving : bool;
}.
Definition new_Sync : Sync :=
  {| started := 0; finished := 0; spawned := ListenerThread; m_sendMutex := None; journal := [];
     receiving := false |}.

Record Shared (W : Type) : Type := { tcp : TcpTransport; sync : Sync; system : W }.
Arguments tcp {W}. Arguments sync {W}. Arguments system {W}.

#[export] Instance shared_tcp W : Lens (Shared W) TcpTransport :=
  { view := tcp; put := fun t s => {| tcp := t; sync := sync s; system := system s |} }.
#[export] Instance shared_system W : Lens (Shared W) W :=
  { view := system; put := fun w s => {| tcp := tcp s; sync := sync s; system := w |} }.
#[export] Instance shared_tcp_laws W : LensLaws (Shared W) TcpTransport.
Proof. by split; [|intros []|]. Qed.
#[export] Instance shared_system_laws W : LensLaws (Shared W) W.
Proof. by split; [|intros []|]. Qed.
#[export] Instance shared_disjoint W : LensDisjoint (Shared W) TcpTransport W.
Proof. by split. Qed.

Definition with_sync {W} (y : Sync) (s : Shared W) : Shared W :=
  {| tcp := tcp s; sync := y; system := system s |}.
Definition with_mutex m (y : Sync) : Sync :=
  {| started := started y; finished := finished y; spawned := spawned y; m_sendMutex := m;
     journal := journal y; receiving := receiving y |}.
Definition with_entry e (y : Sync) : Sync :=
  {| started := started y; finished := finished y; spawned := spawned y; m_sendMutex := m_sendMutex y;
     journal := journal y ++ [e]; receiving := receiving y |}.
Definition with_started k (y : Sync) : Sync :=
  {| started := S (started y); finished := finished y; spawned := k; m_sendMutex := m_sendMutex y;
     journal := journal y; receiving := receiving y |}.
Definition with_finished (y : Sync) : Sync :=
  {| started := started y; finished := S (finished y); spawned := spawned y;
     m_sendMutex := m_sendMutex y; journal := journal y; receiving := false |}.
Definition with_receiving (y : Sync) : Sync :=
  {| started := started y; finished := finished y; spawned := spawned y;
     m_sendMutex := m_sendMutex y; journal := journal y; receiving := true |}.

(** The sockets block: whether a [recv] or an [accept] on an open socket has
    something to return, or waits. *)
Class Blocking (W : Type) := {
  recv_ready : handle -> W -> bool;
  accept_ready : handle -> W -> bool;
}.

(** The peers send only so much: [unread w] is left to be read, on whatever
    connections. *)
Class Unread (W : Type) := unread : W -> nat.
Class FiniteStreams (W : Type) `{Winsock W, Unread W} : Prop := {
  recv_unread : forall s n w, let '((r, _), w') := recv s n w in
    (unread w' <= unread w)%nat /\ (0 < r -> (unread w' < unread w)%nat);
  send_unread : forall s data w, (unread (send s data w).2 <= unread w)%nat;
  socket_unread : forall w, (unread (socket w).2 <= unread w)%nat;
  setsockopt_unread : forall s w, (unread (setsockopt_reuseaddr s w).2 <= unread w)%nat;
  bind_unread : forall s p w, (unread (bind s p w).2 <= unread w)%nat;
  listen_unread : forall s w, (unread (listen s w).2 <= unread w)%nat;
  accept_unread : forall s w, (unread (accept s w).2 <= unread w)%nat;
  connect_unread : forall s a p w, (unread (connect s a p w).2 <= unread w)%nat;
  close_unread : forall s w, (unread (closesocket s w).2 <= unread w)%nat;
}.

(** The callbacks, on the thread that makes them. *)
Class ThreadListener (W : Type) := {
  frame_thread : nat -> TransportFrame -> Thread (Shared W) unit;
  state_thread : nat -> bool -> string -> Thread (Shared W) unit;
  error_thread : nat -> string -> Thread (Shared W) unit;
}.

Section Methods.
Context {W : Type} `{HS : Winsock W} `{HWM : WinsockModel W} `{HB : Blocking W} `{HLi : ThreadListener W}.
Abbreviation SH := (Shared W).
Abbreviation step := (Thread SH).

(** ** Steps *)
Definition read {X} (f : TcpTransport -> X) : step X := act (fun s => Def (f (tcp s), s)).
Definition write (f : TcpTransport -> TcpTransport) : step unit := act (modify f).
Definition os {X} (f : W -> X * W) : step X := act (sys f).

(** [recv] and [accept]: on an open socket they wait until there is something to
    return, so until another thread closes it if there never is; on one that is
    not open they fail. *)
Definition is_open (h : handle) (s : SH) : bool :=
  negb (h =? INVALID_SOCKET) && bool_decide (h ∈ socks (system s)).
Definition th_recv (c : handle) (n : Z) : step (Z * list byte) :=
  Atom (fun s => if negb (is_open c s) then Some (Def ((SOCKET_ERROR, []), s))
                 else if recv_ready c (system s) then Some (sys (recv c n) s) else None) Done.
Definition th_accept (h : handle) : step (handle * string) :=
  Atom (fun s => if negb (is_open h s) then Some (Def ((INVALID_SOCKET, ""%string), s))
                 else if accept_ready h (system s) then Some (sys (accept h) s) else None) Done.

(** [m_isRunning] as the receive loop reads it. *)
Definition read_running : step bool :=
  act (fun s => let b := m_isRunning (tcp s) in
                Def (b, if b then with_sync (with_receiving (sync s)) s else s)).

(** A loop of which the model has followed as many rounds as it can: the thread
    is still in it, and never moves on. *)
Definition out_of_fuel {X} : step X := await (fun _ => None).

(** [closesocket] of a member, its load and the call in one step.  Closing a
    socket that is not open counts as undefined: its number may by then belong to
    somebody else. *)
Definition close_member (f : TcpTransport -> handle) : step Z :=
  act (fun s => if bool_decide (f (tcp s) ∈ socks (system s)) then sys (closesocket (f (tcp s))) s else UB).

(** [m_sequenceCounter++] on the atomic. *)
Definition next_sequence : step Z :=
  act (let* t := members in
       modify (with_sequenceCounter (u32 (m_sequenceCounter t + 1))) ;;
       pret (m_sequenceCounter t)).

(** The mutex, by thread [i]. *)
Definition lock (i : nat) : step unit :=
  await (fun s => match m_sendMutex (sync s) with
                  | None => Some (tt, with_sync (with_mutex (Some i) (sync s)) s)
                  | Some _ => None
                  end).
Definition unlock (e : Entry) : step unit :=
  act (fun s => Def (tt, with_sync (with_entry e (with_mutex None (sync s))) s)).

(** Assigning to a joinable [std::thread] terminates the program. *)
Definition spawn (k : Worker) : step unit :=
  act (fun s => match m_workerThread (tcp s) with
                | Some _ => UB
                | None => Def (tt, put (with_workerThread (Some k) (tcp s))
                                     (with_sync (with_started k (sync s)) s))
                end).
Definition join : step unit :=
  await (fun s => if Nat.eqb (finished (sync s)) (started (sync s)) then Some (tt, s) else None).

Definition th_notify (callback : step unit) : step unit :=
  let@ listener := read m_listener in if listener : bool then callback else Done tt.

(** ** Sending *)
Fixpoint th_send_loop (fuel : nat) (serialized : list byte) (totalSent : Z) : step (bool * Z) :=
  match fuel with
  | O => Done (true, totalSent)
  | S fuel =>
    if negb (totalSent <? Z.of_nat (length serialized)) then Done (true, totalSent) else
    let@ c := read m_clientSocket in
    let@ sent := os (send c (drop (Z.to_nat totalSent) serialized)) in
    if sent <=? 0 then
      write (with_isConnected false) ;@
      Done (false, totalSent)
    else th_send_loop fuel serialized (totalSent + sent)
  end.

(** The lock guard is released on each return. *)
Definition th_SendFrame (i : nat) (messageType : TransportMessageType) (payload : list byte) : step bool :=
  let@ connected := read m_isConnected in
  if negb connected then Done false else
  let@ c := read m_clientSocket in
  if c =? INVALID_SOCKET then Done false else
  lock i ;@
  let@ seq := next_sequence in
  let@ serialized := local (SerializeFrame (outgoing_frame messageType seq payload)) in
  let entry ok out := {| e_thread := i; e_type := messageType; e_payload := payload;
                         e_out := out; e_ok := ok |} in
  match serialized with
  | [] => unlock (entry false []) ;@ Done false
  | _ =>
    let@ '(ok, totalSent) := th_send_loop (length serialized) serialized 0 in
    unlock (entry ok (take (Z.to_nat totalSent) serialized)) ;@
    Done ok
  end.

(** ** Closing and opening *)
Definition th_Close : step unit :=
  write (with_isRunning false) ;@
  write (with_isConnected false) ;@
  let@ h := read m_listenSocket in
  (if negb (h =? INVALID_SOCKET) then
     close_member m_listenSocket ;@
     write (with_listenSocket INVALID_SOCKET)
   else Done tt) ;@
  let@ h := read m_clientSocket in
  (if negb (h =? INVALID_SOCKET) then
     close_member m_clientSocket ;@
     write (with_clientSocket INVALID_SOCKET)
   else Done tt) ;@
  let@ joinable := read m_workerThread in
  match joinable with
  | Some _ => join ;@ write (with_workerThread None)
  | None => Done tt
  end.

(** [i] is the calling thread, for the callbacks. *)
Definition th_StartListener (i : nat) (port : Z) : step bool :=
  th_Close ;@
  let@ h := os socket in
  write (with_listenSocket h) ;@
  if h =? INVALID_SOCKET then
    th_notify (error_thread i "Failed to create listen socket") ;@
    Done false
  else
  os (setsockopt_reuseaddr h) ;@
  let@ r := os (bind h port) in
  if r =? SOCKET_ERROR then
    close_member m_listenSocket ;@
    write (with_listenSocket INVALID_SOCKET) ;@
    th_notify (error_thread i "Failed to bind listen socket") ;@
    Done false
  else
  let@ r := os (listen h) in
  if r =? SOCKET_ERROR then
    close_member m_listenSocket ;@
    write (with_listenSocket INVALID_SOCKET) ;@
    th_notify (error_thread i "Failed to listen on socket") ;@
    Done false
  else
  write (with_isRunning true) ;@
  spawn ListenerThread ;@
  Done true.

Definition th_Connect (i : nat) (address : string) (port : Z) : step bool :=
  th_Close ;@
  let@ h := os socket in
  write (with_clientSocket h) ;@
  if h =? INVALID_SOCKET then
    th_notify (error_thread i "Failed to create client socket") ;@
    Done false
  else
  let@ r := os (connect h address port) in
  if r =? SOCKET_ERROR then
    close_member m_clientSocket ;@
    write (with_clientSocket INVALID_SOCKET) ;@
    th_notify (error_thread i "Failed to connect to target host") ;@
    Done false
  else
  write (with_isConnected true) ;@
  write (with_isRunning true) ;@
  th_notify (state_thread i true (address +:+ ":" +:+ pretty.pretty (Z.to_N port))) ;@
  spawn ReceiverThread ;@
  Done true.

(** ** The worker threads *)
Fixpoint th_drain (j fuel : nat) (rxBuffer : list byte) : step (list byte) :=
  match fuel with
  | O => Done rxBuffer
  | S fuel =>
    if Z.of_nat (length rxBuffer) <? 18 then Done rxBuffer else
    let@ magic := local (rd_be32 rxBuffer 0) in
    if negb (magic =? FRAME_MAGIC) then
      th_notify (error_thread j err_bad_magic) ;@
      th_drain j fuel (drop 1 rxBuffer)
    else
    let@ payloadLen := local (rd_be32 rxBuffer 4) in
    if payloadLen >? MAX_PAYLOAD_SIZE then
      th_notify (error_thread j err_ceiling) ;@
      write (with_isConnected false) ;@
      Done rxBuffer
    else
    let totalFrameLen := 14 + payloadLen + 4 in
    if Z.of_nat (length rxBuffer) <? totalFrameLen then Done rxBuffer else
    let@ r := local (DeserializeFrame (Some rxBuffer) totalFrameLen new_TransportFrame) in
    (if frame_ok r then th_notify (frame_thread j (outFrame r))
     else th_notify (error_thread j (err_frame (outError r)))) ;@
    th_drain j fuel (drop (Z.to_nat totalFrameLen) rxBuffer)
  end.

Fixpoint th_receive_loop (j fuel : nat) (rxBuffer : list byte) : step unit :=
  match fuel with
  | O => out_of_fuel
  | S fuel =>
    let@ running := read_running in
    let@ connected := (if running : bool then read m_isConnected else Done false) in
    if negb (running && connected) then Done tt else
    let@ c := read m_clientSocket in
    let@ '(bytesRead, tempBuf) := th_recv c 4096 in
    if bytesRead <=? 0 then
      write (with_isConnected false) ;@
      th_notify (state_thread j false "Disconnected")
    else
    let rxBuffer := rxBuffer ++ take (Z.to_nat bytesRead) tempBuf in
    let@ rxBuffer := th_drain j (length rxBuffer) rxBuffer in
    th_receive_loop j fuel rxBuffer
  end.

Definition th_ReceiverWorker (j fuel : nat) : step unit := th_receive_loop j fuel [].

Definition th_ListenerWorker (j fuel : nat) : step unit :=
  let@ h := read m_listenSocket in
  let@ '(acceptedSocket, peerAddr) := th_accept h in
  if acceptedSocket =? INVALID_SOCKET then Done tt else
  let@ running := read m_isRunning in
  if negb running then Done tt else
  write (with_clientSocket acceptedSocket) ;@
  write (with_isConnected true) ;@
  th_notify (state_thread j true peerAddr) ;@
  th_ReceiverWorker j fuel.

(** The [j]-th thread that is created, from before its creation to its end. *)
Definition th_worker (fuel j : nat) : step unit :=
  let@ k := await (fun s => if (j <=? started (sync s))%nat then Some (spawned (sync s), s) else None) in
  match k with
  | ListenerThread => th_ListenerWorker j fuel
  | ReceiverThread => th_ReceiverWorker j fuel
  end ;@
  act (fun s => Def (tt, with_sync (with_finished (sync s)) s)).

(** A thread that sends some frames. *)
Fixpoint th_sends (i : nat) (frames : list (TransportMessageType * list byte)) : step (list bool) :=
  match frames with
  | [] => Done []
  | (t, payload) :: frames =>
    let@ b := th_SendFrame i t payload in
    let@ bs := th_sends i frames in
    Done (b :: bs)
  end.

(** The thread that owns the transport: some calls of its methods, then the
    [Close] of the agent's [Stop] and the one of the destructor. *)
Inductive OwnerOp : Type :=
| OpSetListener (listener : bool)
| OpIsConnected
| OpStartListener (port : Z)
| OpConnect (address : string) (port : Z)
| OpSendFrame (t : TransportMessageType) (payload : list byte)
| OpClose.

Definition th_op (op : OwnerOp) : step bool :=
  match op with
  | OpSetListener b => write (with_listener b) ;@ Done true
  | OpIsConnected => read m_isConnected
  | OpStartListener port => th_StartListener 0 port
  | OpConnect address port => th_Connect 0 address port
  | OpSendFrame t payload => th_SendFrame 0 t payload
  | OpClose => th_Close ;@ Done true
  end.
Fixpoint th_ops (ops : list OwnerOp) : step (list bool) :=
  match ops with
  | [] => Done []
  | op :: ops =>
    let@ b := th_op op in
    let@ bs := th_ops ops in
    Done (b :: bs)
  end.
Definition th_owner (ops : list OwnerOp) : step (list bool) :=
  let@ bs := th_ops ops in
  th_Close ;@
  th_Close ;@
  Done bs.

(** All of them: every operation of the owner creates at most one worker. *)
Definition th_pool (fuel : nat) (ops : list OwnerOp) (senders : list (list (TransportMessageType * list byte)))
    : list (step (list bool)) :=
  th_owner ops :: ((fun j => th_worker fuel j ;@ Done []) <$> seq 1 (length ops)) ++
  imap (fun k frames => th_sends (S (length ops) + k) frames) senders.
End Methods.

(** ** Without interference

    Left alone, with the mutex free and the last worker ended, the threads do
    what the procedures of TcpTransport do. *)
Section Alone.
Context {W : Type} `{HS : Winsock W} `{HWM : WinsockModel W}.
Implicit Types (s : Shared W).

(** What is left of the bookkeeping is up to the thread. *)
Definition alone_as {A} (t : Thread (Shared W) A) (p : Proc (Shared W) A) s : Prop :=
  exists y, alone t s = Some (pbind p (fun a s' => Def (a, with_sync y s')) s).

Lemma alone_send_loop y fuel data tot s :
  exists tot', alone (th_send_loop fuel data tot) (with_sync y s) =
    Some (pbind (send_loop fuel data tot) (fun ok s' => Def ((ok, tot'), with_sync y s')) s).
Proof.
  revert tot s. induction fuel as [|fuel IH]; intros tot s; cbn [th_send_loop send_loop]; [by exists tot|].
  destruct (negb _); [by exists tot|].
  rewrite alone_bind. cbn [alone read act]. rewrite alone_bind. unfold pbind, members, zoom, sys, zoom, pcall. cbn.
  destruct (send _ _ _) as [r w]. cbn. destruct (r <=? 0); [by exists tot|].
  destruct (IH (tot + r) {| tcp := tcp s; sync := sync s; system := w |}) as (tot' & E). exists tot'. exact E.
Qed.

Lemma alone_SendFrame i t payload s :
  m_sendMutex (sync s) = None -> alone_as (th_SendFrame i t payload) (tcp_SendFrame t payload) s.
Proof.
  intros Em. unfold alone_as, th_SendFrame, tcp_SendFrame, pbind, members, zoom. cbn.
  destruct (m_isConnected (tcp s)); cbn; [|exists (sync s); by destruct s].
  destruct (m_clientSocket (tcp s) =? INVALID_SOCKET); cbn; [exists (sync s); by destruct s|].
  rewrite Em. cbn. unfold pbind, members, modify, zoom, plift. cbn. rewrite alone_bind.
  destruct (SerializeFrame _) as [out|]; [|by exists (sync s)]. cbn [local alone].
  destruct out as [|b out]; [by eexists|]. generalize (length (b :: out)). generalize (b :: out). clear b out.
  intros d fuel. rewrite alone_bind.
  set (s1 := {| tcp := with_sequenceCounter _ _; sync := sync s; system := system s |}).
  destruct (alone_send_loop (with_mutex (Some i) (sync s)) fuel d 0 s1) as (tot & E).
  match type of E with alone _ ?z = _ => match goal with |- context[alone (th_send_loop _ _ _) ?z'] => change z' with z end end.
  rewrite E. unfold pbind. destruct (send_loop _ _ _ s1) as [[ok s2]|]; [|by exists (sync s)]. by eexists.
Qed.

Lemma alone_Close `{HWL : !WinsockLaws W} s :
  finished (sync s) = started (sync s) ->
  (m_listenSocket (tcp s) = INVALID_SOCKET \/ m_listenSocket (tcp s) ∈ socks (system s)) ->
  (m_clientSocket (tcp s) = INVALID_SOCKET \/
   m_clientSocket (tcp s) ∈ socks (system s) /\ m_clientSocket (tcp s) <> m_listenSocket (tcp s)) ->
  alone_as th_Close tcp_Close s.
Proof.
  destruct s as [[l c li co ru sq wk] y w]. cbn. intros F L C. exists y.
  unfold th_Close, tcp_Close, close_member, members, modify, sys, zoom, pcall. unfold pbind. cbn.
  pose proof (close_socket_law l w) as Ll.
  destruct (Z.eqb_spec l INVALID_SOCKET) as [->|Nl]; cbn [negb tbind alone act];
  [|destruct L as [?|L]; [done|]; cbn; rewrite bool_decide_true by done; destruct (closesocket l w) as [r w1]; cbn in Ll];
  cbn; destruct (Z.eqb_spec c INVALID_SOCKET) as [->|Nc]; cbn.
  all: try (destruct C as [?|[C N]]; [done|]; rewrite bool_decide_true by (rewrite ?Ll; set_solver); destruct (closesocket c _) as [r' w2]; cbn).
  all: destruct wk; cbn; rewrite ?F, ?Nat.eqb_refl; cbn; done.
Qed.
End Alone.
