(* ===== verification/TcpRoles.v ===== *)
(** * TcpRoles: who may do what to a shared transport

    The rely and guarantee conditions of the threads of TcpThreads: the thread
    that owns the transport and calls its methods, the worker threads those calls
    create, and threads that only send.  Then the assertions each of them may
    rely on, and the quiet threads, which leave the connection alone. *)
From S2P Require Import Prelude Bytes FrameProtocol Platform TransportInterface TcpTransport Threads TcpThreads.

Create HintDb steady.

Lemma SerializeFrame_total f : exists out, SerializeFrame f = Def out.
Proof.
  destruct (Z.le_gt_cases (Z.of_nat (length (payload f))) MAX_PAYLOAD_SIZE) as [L|L].
  - rewrite SerializeFrame_layout by done. eauto.
  - rewrite SerializeFrame_oversize by lia. eauto.
Qed.

Section Roles.
Context {W : Type} `{HS : Winsock W} `{HWM : WinsockModel W} `{HWL : !WinsockLaws W}
        `{HU : Unread W} `{HFS : !FiniteStreams W}.
Abbreviation SH := (Shared W).
Implicit Types (s : SH).
Context (base : gset handle).

Abbreviation l_ s := (m_listenSocket (tcp s)).
Abbreviation c_ s := (m_clientSocket (tcp s)).
Abbreviation open_ s := (socks (system s)).
Abbreviation mx s := (m_sendMutex (sync s)).
Abbreviation fin s := (finished (sync s)).
Abbreviation st s := (started (sync s)).
Abbreviation rx s := (receiving (sync s)).
Abbreviation left_ s := (unread (system s)).

(** ** Guarantees *)

(** The mutex moves only between free and thread [i]. *)
Definition mutex_by (i : nat) s s' : Prop :=
  mx s' = mx s \/ mx s = None /\ mx s' = Some i \/ mx s = Some i /\ mx s' = None.

(** Nothing of the connection changes, but for giving it up. *)
Record calm s s' : Prop := {
  calm_listen : l_ s' = l_ s;
  calm_client : c_ s' = c_ s;
  calm_running : m_isRunning (tcp s') = m_isRunning (tcp s);
  calm_thread : m_workerThread (tcp s') = m_workerThread (tcp s);
  calm_connected : m_isConnected (tcp s') = true -> m_isConnected (tcp s) = true;
  calm_started : st s' = st s;
  calm_finished : fin s' = fin s;
  calm_open : open_ s' = open_ s;
  calm_receiving : rx s' = rx s;
}.

(** A socket the worker may store: open, nobody else's, not the listening one. *)
Definition storable (h : handle) s : Prop :=
  h <> INVALID_SOCKET /\ h ∈ open_ s /\ h ∉ base /\ h <> l_ s.

(** A running worker opens a socket while the listening one is open, stores it, or
    ends.  It starts to receive only while the transport is told to run, and
    then its connection is that of the member. *)
Record works s s' : Prop := {
  works_listen : l_ s' = l_ s;
  works_client : c_ s' = c_ s \/ storable (c_ s') s';
  works_running : m_isRunning (tcp s') = m_isRunning (tcp s);
  works_thread : m_workerThread (tcp s') = m_workerThread (tcp s);
  works_started : st s' = st s;
  works_finished : (fin s <= fin s' <= st s)%nat;
  works_open : open_ s ⊆ open_ s';
  works_accept : open_ s' = open_ s \/ l_ s ∈ open_ s;
  works_receiving : rx s' = true -> rx s = true \/ m_isRunning (tcp s) = true;
  works_ended : fin s' = fin s \/ rx s' = false;
  works_connection : rx s = true -> c_ s' = c_ s /\ open_ s' = open_ s;
}.

(** While the transport is told to run, the sockets it holds are open. *)
Definition sound s : Prop :=
  m_isRunning (tcp s) = true ->
  (l_ s = INVALID_SOCKET \/ l_ s ∈ open_ s) /\ (c_ s = INVALID_SOCKET \/ c_ s ∈ open_ s).

(** The owner: creates a thread only when the last has ended; while one runs it
    only stops, closes what the members hold, and forgets it. *)
Record owner s s' : Prop := {
  owner_finished : fin s' = fin s;
  owner_started : st s' = st s \/ (st s <= fin s)%nat /\ st s' = S (st s);
  owner_base : base ⊆ open_ s -> base ⊆ open_ s';
  owner_sound : sound s -> sound s';
  owner_listen : (fin s < st s)%nat -> l_ s' = l_ s \/ l_ s' = INVALID_SOCKET /\ l_ s ∉ open_ s;
  owner_client : (fin s < st s)%nat ->
    c_ s' = c_ s \/ c_ s' = INVALID_SOCKET /\ (rx s = true -> c_ s ∉ open_ s);
  owner_running : (fin s < st s)%nat -> m_isRunning (tcp s') = true -> m_isRunning (tcp s) = true;
  owner_open : (fin s < st s)%nat -> forall h, h ∈ open_ s -> h <> l_ s -> h <> c_ s -> h ∈ open_ s';
  owner_closes : (fin s < st s)%nat -> open_ s' ⊆ open_ s;
  owner_receiving : rx s' = rx s;
}.

(** Thread 0 is the owner, 1 to [n] the workers, the rest send. *)
Context (n : nat).
Definition running (j : nat) s : Prop := st s = j /\ (fin s < j)%nat.
Definition guar (i : nat) s s' : Prop :=
  mutex_by i s s' /\ (left_ s' <= left_ s)%nat /\
  (calm s s' \/ i = 0%nat /\ owner s s' \/ (0 < i <= n)%nat /\ running i s /\ works s s').
Definition rely (i : nat) s s' : Prop := exists i', i' <> i /\ guar i' s s'.

(** When a thread may have to wait: for the mutex; the owner in [join], when it
    has closed the listening socket and the connection; a worker for its creation,
    for a peer on the open listening socket, and for bytes on the open
    connection. *)
Definition waits (i : nat) s : Prop :=
  mx s <> Some i /\
  (is_Some (mx s) \/
   i = 0%nat /\ (fin s < st s <= n)%nat /\ l_ s = INVALID_SOCKET /\ (rx s = true -> c_ s = INVALID_SOCKET) \/
   (0 < i <= n)%nat /\ (st s < i)%nat \/
   (0 < i <= n)%nat /\ running i s /\ (l_ s <> INVALID_SOCKET \/ rx s = true /\ c_ s <> INVALID_SOCKET)).

Lemma guar_rely i j s s' : i <> j -> guar i s s' -> rely j s s'.
Proof. intros N H. by exists i. Qed.

Lemma calm_refl s : calm s s.
Proof. by split. Qed.
Lemma guar_refl i s : guar i s s.
Proof. split; [by left|]. split; [done|]. left. apply calm_refl. Qed.

(** ** Stable assertions *)

Definition ours i s : Prop := mx s <> Some i.

Lemma stable_and (R : SH -> SH -> Prop) P Q :
  stable R P -> stable R Q -> stable R (fun s => P s /\ Q s).
Proof. intros HP HQ s s' Rs [p q]. split; eauto. Qed.
Lemma stable_const (R : SH -> SH -> Prop) (P : Prop) : stable R (fun _ => P).
Proof. by intros s s' _. Qed.

Lemma stable_unlocked i : stable (rely i) (fun s => mx s <> Some i).
Proof. intros s s' (i' & N & M & _) U. destruct M as [->|[[_ ->]|[_ ->]]]; congruence. Qed.
Lemma stable_locked i : stable (rely i) (fun s => mx s = Some i).
Proof. intros s s' (i' & N & M & _) U. destruct M as [->|[[? _]|[? _]]]; congruence. Qed.

(** What the owner relies on. *)
Lemma rely_owner s s' :
  rely 0 s s' -> calm s s' \/ (fin s < st s)%nat /\ works s s'.
Proof. intros (i & N & _ & _ & [C|[[-> _]|(_ & [<- L] & Wk)]]); [by left | done | by right]. Qed.

Ltac by_owner :=
  intros s s' R P; destruct (rely_owner _ _ R) as [C|[L Wk]]; [destruct C | destruct Wk]; cbn in *.

Lemma stable_listen h : stable (rely 0) (fun s => l_ s = h).
Proof. by_owner; congruence. Qed.
Lemma stable_running b : stable (rely 0) (fun s => m_isRunning (tcp s) = b).
Proof. by_owner; congruence. Qed.
Lemma stable_thread k : stable (rely 0) (fun s => m_workerThread (tcp s) = k).
Proof. by_owner; congruence. Qed.
Lemma stable_started m : stable (rely 0) (fun s => st s = m).
Proof. by_owner; congruence. Qed.
Lemma stable_finished : stable (rely 0) (fun s => (fin s <= st s)%nat).
Proof. by_owner; lia. Qed.
Lemma stable_ended : stable (rely 0) (fun s => fin s = st s).
Proof. by_owner; lia. Qed.
Lemma stable_base : stable (rely 0) (fun s => base ⊆ open_ s).
Proof. by_owner; set_solver. Qed.
Lemma stable_member h : stable (rely 0) (fun s => h ∈ open_ s).
Proof. by_owner; set_solver. Qed.
Lemma stable_listen_closed : stable (rely 0) (fun s => l_ s ∉ open_ s).
Proof.
  by_owner; [congruence|]. rewrite works_listen0. by destruct works_accept0 as [->|].
Qed.
(** Told to stop, a worker does not start to receive. *)
Lemma stable_receiving (Kp : handle -> gset handle -> Prop) :
  stable (rely 0) (fun s => m_isRunning (tcp s) = false /\ (rx s = true -> Kp (c_ s) (open_ s))).
Proof.
  by_owner; destruct P as [Ru K].
  - split; [congruence|]. intros R'. rewrite calm_client0, calm_open0. apply K. congruence.
  - split; [congruence|]. intros R'. destruct (works_receiving0 R') as [Rx|]; [|congruence].
    destruct (works_connection0 Rx) as [-> ->]. by apply K.
Qed.

(** The client socket: none, or an open one that may be closed. *)
Definition client_ok s : Prop := c_ s = INVALID_SOCKET \/ storable (c_ s) s.

Lemma storable_grows h s s' :
  l_ s' = l_ s -> open_ s ⊆ open_ s' -> storable h s -> storable h s'.
Proof. intros E O (N & I & B & L). split_and!; [done | set_solver | done | congruence]. Qed.

Lemma stable_client : stable (rely 0) client_ok.
Proof.
  by_owner; unfold client_ok in *.
  - rewrite calm_client0. destruct P as [P|P]; [by left | right]. eapply storable_grows; [..|exact P]; set_solver.
  - destruct works_client0 as [->|St]; [|by right].
    destruct P as [P|P]; [by left | right]. by eapply storable_grows.
Qed.

Lemma stable_client_held : stable (rely 0) (fun s => c_ s <> INVALID_SOCKET).
Proof. by_owner; [congruence|]. destruct works_client0 as [->|[N _]]; done. Qed.

(** With no worker the client socket and the connection are the owner's. *)
Lemma stable_client_idle h : stable (rely 0) (fun s => fin s = st s /\ c_ s = h).
Proof. by_owner; [|lia]. destruct P. split; congruence. Qed.
Lemma stable_disconnected : stable (rely 0) (fun s => fin s = st s /\ m_isConnected (tcp s) = false).
Proof.
  by_owner; [|lia]. destruct P as [P C]. split; [congruence|].
  destruct (m_isConnected (tcp s')); [|done]. by rewrite calm_connected0 in C.
Qed.

(** What the owner knows throughout: its own members, the number of threads it
    has created, and that nobody touched the sockets of others. *)
Record owns_state (m : nat) (h : handle) (b : bool) (k : option Worker) s : Prop := {
  os_mutex : ours 0 s;
  os_base : base ⊆ open_ s;
  os_started : st s = m;
  os_finished : (fin s <= st s)%nat;
  os_listen : l_ s = h;
  os_running : m_isRunning (tcp s) = b;
  os_thread : m_workerThread (tcp s) = k;
}.

Lemma stable_owns m h b k : stable (rely 0) (owns_state m h b k).
Proof.
  intros s s' R [A1 A2 A3 A4 A5 A6 A7]. split.
  - by eapply stable_unlocked.
  - by eapply stable_base.
  - by eapply stable_started.
  - by eapply stable_finished.
  - by eapply stable_listen.
  - by eapply stable_running.
  - by eapply stable_thread.
Qed.

Lemma stable_imp (R : SH -> SH -> Prop) (C : Prop) P :
  stable R P -> stable R (fun s => C -> P s).
Proof. intros H s s' Rs Ps E. eapply H; eauto. Qed.

(** *** Rules for the owner's steps *)
Lemma rg_read {A X} i (P : SH -> Prop) (f : TcpTransport -> X) (k : X -> Thread SH A) (Qa : A -> SH -> Prop) s :
  stable (rely i) P -> P s ->
  (forall s', P s' -> rg (rely i) (guar i) (waits i) (k (f (tcp s'))) Qa s') ->
  rg (rely i) (guar i) (waits i) (let@ x := read f in k x) Qa s.
Proof.
  intros St Ps K. apply (rg_act _ _ _ P); [done..|]. intros s' P'. cbn. split; [|by apply K].
  apply guar_refl.
Qed.

(** A step of the owner that leaves the mutex and the threads alone. *)
Definition owner_frame s s' : Prop :=
  mx s' = mx s /\ fin s' = fin s /\ st s' = st s /\ rx s' = rx s /\ (left_ s' <= left_ s)%nat.

Lemma guar_owner s s' :
  owner_frame s s' -> (base ⊆ open_ s -> base ⊆ open_ s') -> (sound s -> sound s') ->
  ((fin s < st s)%nat -> (l_ s' = l_ s \/ l_ s' = INVALID_SOCKET /\ l_ s ∉ open_ s) /\
     (c_ s' = c_ s \/ c_ s' = INVALID_SOCKET /\ (rx s = true -> c_ s ∉ open_ s)) /\
     (m_isRunning (tcp s') = true -> m_isRunning (tcp s) = true) /\
     (forall h, h ∈ open_ s -> h <> l_ s -> h <> c_ s -> h ∈ open_ s') /\ open_ s' ⊆ open_ s) ->
  guar 0 s s'.
Proof.
  intros (M & F & T & X & L) B So C. split; [by left|]. split; [done|]. right; left. split; [done|].
  split; auto; intros Lt; destruct (C Lt) as (?&?&?&?&?); auto.
Qed.

Lemma rg_write {A} (P : SH -> Prop) f (k : unit -> Thread SH A) (Qa : A -> SH -> Prop) s :
  stable (rely 0) P -> P s ->
  (forall s', P s' -> guar 0 s' (put (f (tcp s')) s') /\
     rg (rely 0) (guar 0) (waits 0) (k tt) Qa (put (f (tcp s')) s')) ->
  rg (rely 0) (guar 0) (waits 0) (let@ x := write f in k x) Qa s.
Proof. intros St Ps K. apply (rg_act _ _ _ P); [done..|]. intros s' P'. by apply K. Qed.

Lemma stable_or (R : SH -> SH -> Prop) P P' :
  stable R P -> stable R P' -> stable R (fun s => P s \/ P' s).
Proof. intros HP HQ s s' Rs [p|q]; eauto. Qed.

(** Closing an open socket that a member holds, and forgetting it. *)
Lemma rg_close {A} (P : SH -> Prop) f (k : Z -> Thread SH A) (Qa : A -> SH -> Prop) s :
  stable (rely 0) P -> P s ->
  (forall s', P s' -> let h := f (tcp s') in
     h ∈ open_ s' /\ h ∉ base /\ m_isRunning (tcp s') = false /\ (h = l_ s' \/ h = c_ s') /\
     forall r w, socks w = open_ s' ∖ {[h]} -> rg (rely 0) (guar 0) (waits 0) (k r) Qa (put w s')) ->
  rg (rely 0) (guar 0) (waits 0) (let@ r := close_member f in k r) Qa s.
Proof.
  intros St Ps K. apply (rg_act _ _ _ P); [done..|]. intros s' P'. destruct (K s' P') as (Ho & Hb & Hr & Hm & K').
  set (h := f (tcp s')) in *. unfold wpx. fold h. rewrite bool_decide_true by done. apply (wp_sys False). intros r w E.
  pose proof (close_socket_law h (system s')) as Law. change (view s') with (system s') in E.
  rewrite E in Law. cbn in Law. pose proof (close_unread h (system s')) as Lu. rewrite E in Lu.
  split; [|by apply K'].
  apply guar_owner; cbn.
  - by split_and!.
  - rewrite Law. set_solver.
  - intros _ Run. cbn in Run. congruence.
  - intros _. split; [by left|]. split; [by left|]. split; [congruence|]. split; [|rewrite Law; set_solver].
    intros g G1 G2 G3. rewrite Law. destruct Hm as [->| ->]; set_solver.
Qed.

(** ** Quiet threads

    A quiet thread leaves the connection alone, but for giving it up, whatever the
    others do; it may take and release the mutex. *)
Definition others (i : nat) s s' : Prop := exists i', i' <> i /\ mutex_by i' s s'.
Definition quietly (i : nat) s s' : Prop := mutex_by i s s' /\ (left_ s' <= left_ s)%nat /\ calm s s'.
Definition held (i : nat) s : Prop := mx s <> Some i /\ is_Some (mx s).

(** More generally, a thread whose steps keep what it knows of the mutex, [M]. *)
Class Known (i : nat) (M : option nat -> Prop) : Prop :=
  known : stable (others i) (fun s => M (mx s)).
Definition steady {A} (M : option nat -> Prop) (i : nat) (t : Thread SH A) : Prop :=
  forall s, M (mx s) -> rg (others i) (quietly i) (held i) t (fun _ s => M (mx s)) s.
Abbreviation quiet i := (steady (fun m => m <> Some i) i).
Abbreviation inside i := (steady (fun m => m = Some i) i).

#[export] Instance known_outside i : Known i (fun m => m <> Some i).
Proof. intros s s' (i' & N & M) U. destruct M as [->|[[_ ->]|[_ ->]]]; congruence. Qed.
#[export] Instance known_inside i : Known i (fun m => m = Some i).
Proof. intros s s' (i' & N & M) U. destruct M as [->|[[? _]|[? _]]]; congruence. Qed.

Section Steady.
Context (i : nat) (M : option nat -> Prop) `{HK : !Known i M}.

Lemma steady_done {A} (a : A) : steady M i (Done a).
Proof. intros s U. by apply (rg_done _ _ _ _ (fun s => M (mx s))); [apply HK|..]. Qed.

Lemma steady_bind {A C} (t : Thread SH A) (k : A -> Thread SH C) :
  steady M i t -> (forall a, steady M i (k a)) -> steady M i (tbind t k).
Proof. intros T K s U. eapply rg_seq; [exact (T s U)|]. intros a s' U'. exact (K a s' U'). Qed.

Lemma steady_if {A} (b : bool) (t u : Thread SH A) :
  steady M i t -> steady M i u -> steady M i (if b then t else u).
Proof. by destruct b. Qed.

(** A step that is defined, does not touch the mutex and is calm. *)
Lemma steady_act {X} (m : Proc SH X) :
  (forall s, wp m (fun _ s' => mx s' = mx s /\ (left_ s' <= left_ s)%nat /\ calm s s') s) -> steady M i (act m).
Proof.
  intros H s U. apply (rg_atom _ _ _ (fun s => M (mx s))); [apply HK|done|]. intros s' U'. specialize (H s').
  unfold wpx in H. destruct (m s') as [[x s'']|]; [|done]. destruct H as (E & L & C).
  split; [by split; [left|]|]. apply steady_done. by rewrite E.
Qed.

Lemma steady_read {X} (f : TcpTransport -> X) : steady M i (read f).
Proof. apply steady_act. intros s. split; [done|]. split; [done | apply calm_refl]. Qed.

Lemma steady_write f :
  (forall t, m_listenSocket (f t) = m_listenSocket t /\ m_clientSocket (f t) = m_clientSocket t /\
     m_isRunning (f t) = m_isRunning t /\ m_workerThread (f t) = m_workerThread t /\
     (m_isConnected (f t) = true -> m_isConnected t = true)) ->
  steady M i (write f).
Proof. intros H. apply steady_act. intros s. destruct (H (tcp s)) as (?&?&?&?&?). by split_and!; [..|split]. Qed.

Lemma steady_disconnect : steady M i (write (with_isConnected false)).
Proof. by apply steady_write. Qed.
Lemma steady_sequence : steady M i next_sequence.
Proof. apply steady_act. intros s. by split_and!; [..|split]. Qed.

Lemma steady_os {X} (f : W -> X * W) :
  (forall w, socks (f w).2 = socks w /\ (unread (f w).2 <= unread w)%nat) -> steady M i (os f).
Proof.
  intros H. apply steady_act. intros s. apply (wp_sys False). intros x w E. destruct (H (system s)) as [Hs Hu].
  change (view s) with (system s) in E. rewrite E in Hs, Hu. split; [done|]. split; [done|]. by split.
Qed.
Lemma steady_send c data : steady M i (os (send c data)).
Proof.
  apply steady_os. intros w. split; [|apply send_unread].
  pose proof (send_law c data w) as L. destruct (send c data w) as [r w']. apply L.
Qed.

Lemma steady_local {X} (r : Res X) (x : X) : r = Def x -> steady M i (local r).
Proof. intros ->. apply steady_done. Qed.

Lemma steady_send_loop fuel data tot : steady M i (th_send_loop fuel data tot).
Proof.
  revert tot. induction fuel as [|fuel IH]; intros tot; cbn [th_send_loop]; [apply steady_done|].
  apply steady_if; [apply steady_done|]. apply steady_bind; [apply steady_read|]. intros c.
  apply steady_bind; [apply steady_send|]. intros r. apply steady_if; [|apply IH].
  apply steady_bind; [apply steady_disconnect|]. intros ?. apply steady_done.
Qed.
End Steady.
#[local] Hint Resolve steady_done steady_read steady_disconnect steady_sequence steady_send
  steady_send_loop known_outside known_inside : steady.

(** [SendFrame] waits for the mutex, and lets go of it. *)
Lemma SendFrame_quiet i t payload : quiet i (th_SendFrame i t payload).
Proof.
  unfold th_SendFrame. apply steady_bind; [auto with steady|]. intros connected.
  apply steady_if; [auto with steady|]. apply steady_bind; [auto with steady|]. intros c.
  apply steady_if; [auto with steady|]. intros s U.
  apply (rg_await _ _ _ (ours i)); [apply (known_outside i)|done|]. clear s U. intros s U.
  destruct (mx s) as [j|] eqn:Em; [by split; [|rewrite Em]|].
  split; [split; [by right; left|by split; [|split]]|]. set (s1 := with_sync _ s).
  assert (U1 : mx s1 = Some i) by done. clearbody s1. clear s U Em.
  eapply rg_seq; [exact (steady_sequence _ _ s1 U1)|]. clear s1 U1. cbn beta. intros seq s1 U1.
  destruct (SerializeFrame_total (outgoing_frame t seq payload)) as [out E].
  eapply rg_seq; [exact (steady_local i _ _ _ E s1 U1)|]. clear s1 U1 E out. cbn beta. intros out s1 U1.
  assert (Fin : forall e (b : bool) s1, mx s1 = Some i ->
    rg (others i) (quietly i) (held i) (unlock e ;@ Done b) (fun _ => ours i) s1).
  { clear s1 U1. intros e b s1 U1. apply (rg_act _ _ _ (fun s => mx s = Some i)); [apply known_inside|done|].
    clear s1 U1. intros s1 U1. split; [split; [by right; right|by split; [|split]]|]. by apply (steady_done i (fun m => m <> Some i)). }
  destruct out as [|b0 out]; [by apply Fin|].
  eapply rg_seq; [exact (steady_send_loop i _ _ _ _ s1 U1)|]. clear s1 U1. cbn beta. intros [ok tot] s1 U1.
  by apply Fin.
Qed.

Lemma sends_quiet i frames : quiet i (th_sends i frames).
Proof.
  induction frames as [|[t payload] frames IH]; cbn [th_sends]; [auto with steady|].
  apply steady_bind; [apply SendFrame_quiet|]. intros b. apply steady_bind; [done|]. auto with steady.
Qed.

(** A quiet thread among the others keeps what they keep. *)
Definition unlocked s : SH := with_sync (with_mutex None (sync s)) s.

Lemma rely_unlocked i s s' : rely i s s' -> rely i (unlocked s) (unlocked s').
Proof.
  intros (i' & N & M & Lu & H). exists i'. split; [done|]. split; [by left|]. split; [done|].
  destruct H as [[]|[[-> []]|(L & Ru & [])]]; [left; by split | right; left; by split | right; right].
  split; [done|]. split; [done | by split].
Qed.

Lemma rely_calm i s s' : (left_ s' <= left_ s)%nat -> calm s s' -> rely i (unlocked s) (unlocked s').
Proof. intros L []. exists (S i). split; [lia|]. split; [by left|]. split; [done|]. left. by split. Qed.

Lemma unlock_step i s : ours i s -> s = unlocked s \/ rely i (unlocked s) s /\ rely i s (unlocked s).
Proof.
  intros U. destruct (mx s) as [i'|] eqn:E; [right | left].
  - assert (i' <> i) by (unfold ours in U; congruence).
    split; (exists i'; split; [done|]; split; [right | split; [done | left; by split]]); cbn; rewrite E; auto.
  - destruct s as [t [? ? ? ? ? ?] w]. cbn in *. by subst.
Qed.

Lemma quiet_rg {A} i (t : Thread SH A) (P : SH -> Prop) (Qa : A -> SH -> Prop) s :
  stable (rely i) P -> quiet i t -> ours i s -> P s -> (forall a s', ours i s' -> P s' -> Qa a s') ->
  rg (rely i) (guar i) (waits i) t Qa s.
Proof.
  intros St T U Ps K. assert (R : forall s s', rtc (rely i) s s' -> rtc (others i) s s').
  { intros s1 s2. induction 1 as [|s1 s2 s3 (i' & N & M & _)]; [done|]. eapply rtc_l; [|done]. by exists i'. }
  assert (Pu : P (unlocked s)) by (destruct (unlock_step i s U) as [<-|[_ H]]; eauto).
  specialize (T s U). clear U Ps. revert s Pu T. induction t as [a|X m k IH]; cbn; intros s Pu T s' Rs.
  all: assert (Pu' : P (unlocked s')) by (clear -St Pu Rs; induction Rs; eauto using rely_unlocked).
  - specialize (T s' (R _ _ Rs)). apply K; [done|].
    destruct (unlock_step i s' T) as [->|[H _]]; eauto.
  - specialize (T s' (R _ _ Rs)). destruct (m s') as [[[x s'']|]|]; [|done|].
    + destruct T as [(M & L & C) T]. split; [split; [done | split; [done | by left]]|]. apply IH; [|done]. eauto using rely_calm.
    + destruct T as [U H]. split; [done | by left].
Qed.
End Roles.

Abbreviation quiet i := (steady (fun m => m <> Some i) i).

(** Callbacks that may disconnect and send but not open or close. *)
Class QuietListener (W : Type) `{WinsockModel W, Unread W, ThreadListener W} : Prop := {
  frame_quiet i f : quiet i (frame_thread i f);
  state_quiet i b peer : quiet i (state_thread i b peer);
  error_quiet i e : quiet i (error_thread i e);
}.

(** ** What the receiver does with its bytes

    It belongs to every class of threads that contains its steps and the
    callbacks, [j] being the thread that runs it. *)
Class ThreadClass (W : Type) (P : forall A : Type, Thread (Shared W) A -> Prop) : Prop := {
  class_done {A} (a : A) : P A (Done a);
  class_bind {A C} (t : Thread (Shared W) A) (k : A -> Thread (Shared W) C) :
    P A t -> (forall a, P C (k a)) -> P C (tbind t k);
  class_read {X} (f : TcpTransport -> X) : P X (read f);
  class_disconnect : P unit (write (with_isConnected false));
}.
Class CallbackClass (W : Type) `{ThreadListener W} (P : forall A : Type, Thread (Shared W) A -> Prop)
    (j : nat) : Prop := {
  class_frame f : P unit (frame_thread j f);
  class_state b peer : P unit (state_thread j b peer);
  class_error e : P unit (error_thread j e);
}.

Section Receiver.
Context {W : Type} `{HLi : ThreadListener W}
        (P : forall A : Type, Thread (Shared W) A -> Prop) `{HP : !ThreadClass W P} (j : nat)
        `{HC : !CallbackClass W P j}.
Lemma class_if {A} (b : bool) (t u : Thread (Shared W) A) : P A t -> P A u -> P A (if b then t else u).
Proof. by destruct b. Qed.
Lemma class_local {X} (r : Res X) (x : X) : r = Def x -> P X (local r).
Proof. intros ->. apply class_done. Qed.
Lemma class_notify (t : Thread (Shared W) unit) : P unit t -> P unit (th_notify t).
Proof. intros T. apply class_bind; [apply class_read|]. intros b. apply class_if; [done | apply class_done]. Qed.

Ltac in_class := repeat first
  [ done | apply class_done | apply class_read | apply class_disconnect | apply class_frame
  | apply class_state | apply class_error | apply class_notify | apply class_if | apply class_bind; [|intros ?] ].

Lemma drain_class fuel buf : P (list byte) (th_drain j fuel buf).
Proof.
  revert buf. induction fuel as [|fuel IH]; intros buf; cbn [th_drain]; [in_class|].
  destruct (Z.ltb_spec (Z.of_nat (length buf)) 18) as [|L]; [in_class|].
  apply class_bind; [eapply class_local, rd_be32_ok; lia|]. intros magic.
  apply class_if; [in_class; apply IH|].
  apply class_bind; [eapply class_local, rd_be32_ok; lia|]. intros k.
  apply class_if; [in_class|].
  cbv zeta. destruct (Z.ltb_spec (Z.of_nat (length buf)) (14 + k + 4)) as [|L2]; [in_class|].
  apply class_bind; [eapply class_local, DeserializeFrame_spec; lia|]. intros r. in_class.
Qed.

(** The whole loop, for the classes that contain what waits in it. *)
Lemma receive_class `{HB : Blocking W} `{HS : Winsock W} `{HWM : WinsockModel W} fuel buf :
  P bool read_running -> (forall c k, P (Z * list byte)%type (th_recv c k)) -> P unit out_of_fuel ->
  P unit (th_receive_loop j fuel buf).
Proof.
  intros Cr Cv Co. revert buf. induction fuel as [|fuel IH]; intros buf; cbn [th_receive_loop]; [done|].
  apply class_bind; [done|]. intros running. apply class_bind; [in_class|]. intros connected.
  apply class_if; [in_class|]. apply class_bind; [in_class|]. intros c.
  apply class_bind; [apply Cv|]. intros [r tmp]. apply class_if; [in_class|].
  apply class_bind; [apply drain_class | done].
Qed.
End Receiver.

Section Quiet.
Context {W : Type} `{HWM : WinsockModel W} `{HU : Unread W} `{HLi : ThreadListener W} `{HQL : !QuietListener W}.

#[export] Instance quiet_class j : ThreadClass W (fun A => quiet j).
Proof. split; intros; auto using steady_done, steady_bind, steady_read, steady_disconnect, known_outside. Qed.
#[export] Instance quiet_callbacks j : CallbackClass W (fun A => quiet j) j.
Proof. split; intros; [apply frame_quiet | apply state_quiet | apply error_quiet]. Qed.

Lemma quiet_notify i (t : Thread (Shared W) unit) : quiet i t -> quiet i (th_notify t).
Proof. apply (class_notify (fun A => quiet i)). Qed.
Lemma drain_quiet j fuel buf : quiet j (th_drain j fuel buf).
Proof. apply (drain_class (fun A => quiet j)); apply _. Qed.
End Quiet.

(** For examples: callbacks that send every frame back. *)
Definition echo {W} `{Winsock W} : ThreadListener W :=
  {| frame_thread i f := th_SendFrame i UNLOCK_RESP (payload f) ;@ Done tt;
     state_thread _ _ _ := Done tt;
     error_thread _ _ := Done tt |}.
Lemma echo_quiet {W} `{HS : Winsock W} `{HWM : WinsockModel W} `{HWL : !WinsockLaws W}
    `{HU : Unread W} `{HFS : !FiniteStreams W} : @QuietListener W _ _ echo.
Proof.
  split; intros; [|apply steady_done, _..]. apply steady_bind; [apply SendFrame_quiet|].
  intros ?. apply steady_done, _.
Qed.

(** The simulated network: a peer that has sent everything stays silent. *)
From S2P Require Import Simulator.
#[export] Instance sim_blocking : Blocking Sim := {
  recv_ready _ w := negb (bool_decide (s_inbox w = []));
  accept_ready _ w := negb (bool_decide (s_peers w = []));
}.
#[export] Instance sim_unread : Unread Sim := fun w => length (concat (s_inbox w)).
Lemma sim_status_inbox w : s_inbox (sim_status w).2 = s_inbox w.
Proof. unfold sim_status, fault. by destruct (s_faults w). Qed.
#[export] Instance sim_finite : FiniteStreams Sim.
Proof.
  constructor; unfold unread, sim_unread; intros; cbn [socket setsockopt_reuseaddr bind listen accept connect send
    recv closesocket sim_winsock]; rewrite ?sim_status_inbox, ?sim_open_inbox; try done.
  - destruct (s_inbox w) as [|x rest] eqn:E; cbn; rewrite ?E; [by split; [|lia]|].
    destruct (Z.leb_spec (Z.of_nat (length x)) n) as [L|L]; cbn [fst snd s_inbox set_inbox concat];
      rewrite !length_app; len.
  - destruct (s_quota w); cbn; by destruct (0 <? _).
  - destruct (s_peers w) as [|p rest]; [done|].
    pose proof (sim_open_inbox (set_peers rest w)) as I. destruct (sim_open (set_peers rest w)). cbn in *. by rewrite I.
Qed.
