(* ===== verification/TcpRaces.v ===== *)
(** * TcpRaces: the TCP transport in every interleaving

    Rely/guarantee proofs for the methods and workers of TcpThreads in the roles
    of TcpRoles, and what follows for pools of them. *)
From S2P Require Import Prelude Bytes FrameProtocol Platform TransportInterface TcpTransport Threads TcpThreads TcpRoles.

Section Races.
Context {W : Type} `{HS : Winsock W} `{HWM : WinsockModel W} `{HWL : !WinsockLaws W}
        `{HU : Unread W} `{HFS : !FiniteStreams W} `{HB : Blocking W}.
Abbreviation SH := (Shared W).
Implicit Types (s : SH).
Context (base : gset handle) (n : nat).

Abbreviation l_ s := (m_listenSocket (tcp s)).
Abbreviation c_ s := (m_clientSocket (tcp s)).
Abbreviation open_ s := (socks (system s)).
Abbreviation mx s := (m_sendMutex (sync s)).
Abbreviation fin s := (finished (sync s)).
Abbreviation st s := (started (sync s)).
Abbreviation rx s := (receiving (sync s)).
Abbreviation left_ s := (unread (system s)).
Abbreviation rely := (rely base n).
Abbreviation guar := (guar base n).
Abbreviation waits := (waits n).
Abbreviation owns_state := (owns_state base).
Abbreviation client_ok := (client_ok base).

(** ** Closing *)

(** What [Close] starts from: [h] is the listening socket, [idle] says that no
    worker is left. *)
Definition closing (m : nat) (h : handle) (b : bool) (k : option Worker) (idle : bool) s : Prop :=
  owns_state m h b k s /\ (h = INVALID_SOCKET \/ h ∈ open_ s) /\ (h = INVALID_SOCKET \/ h ∉ base) /\
  client_ok s /\ (k = None -> fin s = st s) /\ (idle = true -> fin s = st s).

(** What it leaves; only when no worker was left is the connection surely gone. *)
Definition shut (m : nat) (idle : bool) s : Prop :=
  owns_state m INVALID_SOCKET false None s /\ client_ok s /\ fin s = st s /\
  (idle = true -> (fin s = st s /\ c_ s = INVALID_SOCKET) /\ fin s = st s /\ m_isConnected (tcp s) = false).

Ltac frames := done || by split_and!.
Ltac stab := repeat first
  [ apply stable_owns | apply stable_client | apply stable_client_idle | apply stable_disconnected
  | apply stable_ended | apply stable_member | apply stable_listen_closed | apply stable_const
  | apply (stable_receiving _ _ (fun c o => c ∉ o)) | apply (stable_receiving _ _ (fun c _ => c = INVALID_SOCKET))
  | apply stable_and | apply stable_or | apply stable_imp ].

Lemma stable_closing m h b k idle : stable (rely 0) (closing m h b k idle).
Proof. unfold closing. stab. Qed.


(** The stages of [Close]: told to stop; the listening socket gone; the client
    socket gone. *)
Definition stopped (m : nat) (h : handle) (k : option Worker) (idle : bool) s : Prop :=
  owns_state m h false k s /\ (h = INVALID_SOCKET \/ h ∉ base) /\ client_ok s /\ (k = None -> fin s = st s) /\
  (idle = true -> fin s = st s /\ m_isConnected (tcp s) = false).
Definition client_gone (m : nat) (k : option Worker) (idle : bool) s : Prop :=
  stopped m INVALID_SOCKET k idle s /\ (idle = true -> fin s = st s /\ c_ s = INVALID_SOCKET) /\
  (m_isRunning (tcp s) = false /\ (rx s = true -> c_ s = INVALID_SOCKET)).

Lemma stable_stopped m h k idle : stable (rely 0) (stopped m h k idle).
Proof. unfold stopped. stab. Qed.
Lemma stable_gone m k idle : stable (rely 0) (client_gone m k idle).
Proof. unfold client_gone, stopped. stab. Qed.

Lemma stable_shut m idle : stable (rely 0) (shut m idle).
Proof. unfold shut. stab. Qed.

Lemma client_ok_closed h s w :
  client_ok s -> h = l_ s -> socks w = open_ s ∖ {[h]} -> client_ok (put w s).
Proof.
  intros [C|(N & O & B & L)] E K; [by left|]. right. split_and!; [done| |done..].
  cbn. rewrite K. set_solver.
Qed.

Lemma close_listen_spec m h k idle s :
  stopped m h k idle s -> (h = INVALID_SOCKET \/ h ∈ open_ s) ->
  rg (rely 0) (guar 0) (waits 0)
    (let@ h := read m_listenSocket in
     if negb (h =? INVALID_SOCKET) then
       close_member m_listenSocket ;@
       write (with_listenSocket INVALID_SOCKET)
     else Done tt) (fun _ => stopped m INVALID_SOCKET k idle) s.
Proof.
  intros S0 O0. set (P := fun s => stopped m h k idle s /\ (h = INVALID_SOCKET \/ h ∈ open_ s)).
  assert (StP : stable (rely 0) P) by (unfold P, stopped; stab).
  apply (rg_read _ _ 0 P); [done | done|]. clear s S0 O0. intros s Ps.
  destruct Ps as [Ps Po]. pose proof (os_listen _ _ _ _ _ _ (proj1 Ps)) as El. rewrite El.
  destruct (Z.eqb_spec h INVALID_SOCKET) as [->|N]; cbn [negb].
  { apply (rg_done _ _ _ _ (stopped m INVALID_SOCKET k idle)); auto using stable_stopped. }
  apply (rg_close _ _ P); [done | by split|]. clear s Ps Po El. intros s [(O & Hb & C & F & I) Po].
  cbv zeta. rewrite (os_listen _ _ _ _ _ _ O).
  destruct Po as [?|Po]; [done|]. destruct Hb as [?|Hb]; [done|].
  split_and!; [done|done|apply O|by left|]. intros r w K.
  apply (rg_write _ _ (fun s => stopped m h k idle s /\ l_ s ∉ open_ s)); [unfold stopped; stab| |].
  - split; [split_and!; [|by right| |done..]|].
    + destruct O as [O1 O2 O3 O4 O5 O6 O7]. split; try done. cbn. rewrite K. set_solver.
    + eapply client_ok_closed; [done| |done]. symmetry. apply O.
    + cbn. rewrite K, (os_listen _ _ _ _ _ _ O). set_solver.
  - clear s O C F I Po K. intros s [(O & _ & C & F & I) Cl]. split.
    + apply guar_owner; [frames..| |].
      * intros _ Run. destruct O. cbn in Run. congruence.
      * intros _. cbn. split_and!; auto.
    + apply (rg_done _ _ _ _ (stopped m INVALID_SOCKET k idle)); [apply stable_stopped| |done].
      split_and!; [by destruct O|by left| |done..].
      destruct C as [C|(N1 & O1 & B1 & L1)]; [by left | right]. by split_and!.
Qed.

Lemma close_client_spec m k idle s :
  stopped m INVALID_SOCKET k idle s ->
  rg (rely 0) (guar 0) (waits 0)
    (let@ h := read m_clientSocket in
     if negb (h =? INVALID_SOCKET) then
       close_member m_clientSocket ;@
       write (with_clientSocket INVALID_SOCKET)
     else Done tt) (fun _ => client_gone m k idle) s.
Proof.
  intros S0. apply (rg_read _ _ 0 (stopped m INVALID_SOCKET k idle)); [apply stable_stopped | done|].
  clear s S0. intros s S0. destruct (Z.eqb_spec (c_ s) INVALID_SOCKET) as [E|N]; cbn [negb].
  { apply (rg_done _ _ _ _ (client_gone m k idle)); [apply stable_gone| |done].
    split; [done|]. split; [intros I; split; [by apply S0 | done]|]. split; [by destruct S0 as [[] _]|done]. }
  apply (rg_close _ _ (fun s => stopped m INVALID_SOCKET k idle s /\ c_ s <> INVALID_SOCKET));
    [apply stable_and; [apply stable_stopped | apply stable_client_held] | done |].
  clear s S0 N. intros s [(O & Hb & C & F & I) N]. cbv zeta.
  destruct C as [?|(_ & O1 & B1 & L1)]; [done|]. split_and!; [done|done|apply O|by right|]. intros r w K.
  set (P := fun s => owns_state m INVALID_SOCKET false k s /\ (k = None -> fin s = st s) /\
                     (idle = true -> fin s = st s /\ m_isConnected (tcp s) = false) /\
                     (m_isRunning (tcp s) = false /\ (rx s = true -> c_ s ∉ open_ s))).
  apply (rg_write _ _ P); [unfold P; stab| |].
  { split; [destruct O; split; try done; cbn; rewrite K; set_solver|]. split; [done|]. split; [done|].
    split; [by destruct O|]. intros _. cbn. rewrite K. set_solver. }
  clear s O Hb F I N O1 B1 L1 K. intros s (O & F & I & _ & Cl). split.
  - apply guar_owner; [frames..| |].
    + intros _ Run. destruct O. cbn in Run. congruence.
    + intros _. cbn. split_and!; auto.
  - apply (rg_done _ _ _ _ (client_gone m k idle)); [apply stable_gone| |done].
    split; [split_and!; [by destruct O|by left|by left|done..]|]. split; [intros E; split; [by apply I|done]|].
    split; [by destruct O|done].
Qed.

Lemma join_spec m k idle s :
  (m <= n)%nat -> client_gone m k idle s ->
  rg (rely 0) (guar 0) (waits 0)
    (let@ joinable := read m_workerThread in
     match joinable with
     | Some _ => join ;@ write (with_workerThread None)
     | None => Done tt
     end) (fun _ => shut m idle) s.
Proof.
  intros Lm S0. apply (rg_read _ _ 0 (client_gone m k idle)); [apply stable_gone | done|].
  clear s S0. intros s S0. assert (E : m_workerThread (tcp s) = k) by apply S0. rewrite E.
  destruct k as [k|].
  - apply (rg_await _ _ _ (client_gone m (Some k) idle)); [apply stable_gone | done|].
    clear s S0 E. intros s S0. destruct (Nat.eqb_spec (fin s) (st s)) as [E|N].
    + split; [apply guar_refl|].
      apply (rg_write _ _ (fun s => client_gone m (Some k) idle s /\ fin s = st s));
        [apply stable_and; [apply stable_gone | apply stable_ended] | done |].
      clear s S0 E. intros s [((O & Hb & C & F & I) & J & _) E]. split.
      * apply guar_owner; [frames..|]. intros _. cbn. split_and!; auto.
      * apply (rg_done _ _ _ _ (shut m idle)); [apply stable_shut| |done].
        split_and!; [by destruct O | done | done |]. intros X. split_and!; [done | by apply J | done | by apply I].
    + destruct S0 as [(O & _) (_ & _ & J)]. destruct O. split; [done|]. right; left. split_and!; try done; lia.
  - apply (rg_done _ _ _ _ (shut m idle)); [apply stable_shut| |done].
    destruct S0 as [(O & Hb & C & F & I) [J _]]. split_and!; auto.
Qed.

Lemma close_spec m h b k idle s :
  (m <= n)%nat -> closing m h b k idle s ->
  rg (rely 0) (guar 0) (waits 0) th_Close (fun _ => shut m idle) s.
Proof.
  intros Lm H. unfold th_Close.
  apply (rg_write _ _ (closing m h b k idle)); [apply stable_closing | done |]. clear s H. intros s (O & H1 & H2 & H3 & H4 & H5).
  split.
  { apply guar_owner; [frames..| |].
    - intros _ Run. done.
    - intros _. cbn. split_and!; auto; done. }
  set (s1 := put _ s). assert (C1 : closing m h false k idle s1) by (destruct O; by split_and!).
  clearbody s1. clear s O H1 H2 H3 H4 H5.
  (* m_isConnected = false *)
  apply (rg_write _ _ (closing m h false k idle)); [apply stable_closing | done |]. clear s1 C1.
  intros s (O & H1 & H2 & H3 & H4 & H5). split.
  { apply guar_owner; [frames..| ]. intros _. cbn. split_and!; auto. }
  assert (C1 : stopped m h k idle (put (with_isConnected false (tcp s)) s) /\ (h = INVALID_SOCKET \/ h ∈ open_ s)).
  { split; [|done]. split; [by destruct O|]. split; [done|]. split; [done|]. split; [done|]. intros X. split; [by apply H5 | done]. }
  destruct C1 as [C1 C2]. clear O H1 H2 H3 H4 H5.
  eapply rg_then; [exact (close_listen_spec m h k idle _ C1 C2)|]. clear s C1 C2. cbn beta. intros _ s C.
  eapply rg_then; [exact (close_client_spec m k idle _ C)|]. clear s C. cbn beta. intros _ s C.
  by apply (join_spec m k idle).
Qed.

(** ** Opening *)
Context `{HLi : ThreadListener W} `{HQL : !QuietListener W}.

(** A socket the owner may keep in a member. *)
Definition kept (h : handle) s : Prop := h = INVALID_SOCKET \/ h ∈ open_ s /\ h ∉ base.

(** No worker is left; the members hold [l] and [c]. *)
Definition at_rest (m : nat) (l : handle) (b : bool) (c : handle) s : Prop :=
  owns_state m l b None s /\ (fin s = st s /\ c_ s = c) /\ kept l s /\ kept c s /\
  (l = c -> c = INVALID_SOCKET).

(** What the owner knows between two calls. *)
Definition ready (m : nat) s : Prop := exists h b k, closing m h b k false s.

Lemma stable_kept h : stable (rely 0) (kept h).
Proof. unfold kept. stab. Qed.
Lemma stable_rest m l b c : stable (rely 0) (at_rest m l b c).
Proof. unfold at_rest. stab; apply stable_kept. Qed.
Lemma stable_ready m : stable (rely 0) (ready m).
Proof. intros s s' R (h & b & k & C). exists h, b, k. by eapply stable_closing. Qed.

Lemma rest_ready m l b c s : at_rest m l b c s -> ready m s.
Proof.
  intros (O & [E Ec] & L & C & N). exists l, b, None. split; [done|]. destruct O. split_and!; [..|done].
  - destruct L as [?|[? ?]]; auto.
  - destruct L as [?|[? ?]]; auto.
  - destruct C as [C|[C1 C2]]; [left; congruence|]. destruct (decide (c = INVALID_SOCKET)); [left; congruence|].
    right. rewrite Ec. split_and!; [done..|]. rewrite os_listen. intros ->. auto.
  - done.
Qed.

Lemma shut_rest m idle s : shut m idle s -> exists c, at_rest m INVALID_SOCKET false c s.
Proof.
  intros (O & C & E & _). exists (c_ s). split_and!; [done..|by left| |done].
  destruct C as [C|(_ & C1 & C2 & _)]; [by left | by right].
Qed.

Lemma shut_ready m idle s : shut m idle s -> ready m s.
Proof. intros H. apply shut_rest in H as [c H]. by eapply rest_ready. Qed.

Lemma guar_rest m l b c s s' :
  at_rest m l b c s -> owner_frame s s' ->
  (base ⊆ open_ s -> base ⊆ open_ s') -> (b = true \/ m_isRunning (tcp s') = true -> sound s') ->
  guar 0 s s'.
Proof.
  intros (O & [E _] & _) Fr Bs So. apply guar_owner; [frames..| |lia].
  intros S0 Run. by apply So; [right|].
Qed.

Lemma kept_grows h s w : open_ s ⊆ socks w -> kept h s -> kept h (put w s).
Proof. intros Sub [?|[? ?]]; [by left | right; split; [by apply Sub | done]]. Qed.

(** *** Steps at rest *)
Section Rest.
Context {A : Type} (Qa : A -> SH -> Prop) (m : nat).
Abbreviation run t s := (rg (rely 0) (guar 0) (waits 0) t Qa s).

Lemma rest_sys {X} l c (f : W -> X * W) (k : X -> Thread SH A) s :
  at_rest m l false c s ->
  (forall s x w, at_rest m l false c s -> f (system s) = (x, w) ->
     (unread w <= left_ s)%nat /\ open_ s ⊆ socks w /\ (at_rest m l false c (put w s) -> run (k x) (put w s))) ->
  run (let@ x := os f in k x) s.
Proof.
  intros H K. apply (rg_act _ _ _ (at_rest m l false c)); [apply stable_rest | done |].
  clear s H. intros s H. apply (wp_sys False). intros x w E. change (view s) with (system s) in E.
  destruct (K s x w H E) as (Lu & Sub & Go). split.
  - eapply guar_rest; [exact H|by split_and!| |].
    + cbn. intros ?. by etrans.
    + destruct H as (O & _). intros [?|Run]; [done|]. destruct O. cbn in Run. congruence.
  - apply Go. destruct H as ([] & [E1 E2] & L & C & N).
    split_and!; [split; try done; by etrans|done|done|by eapply kept_grows..|done].
Qed.

Lemma rest_inert {X} l c (f : W -> X * W) (k : X -> Thread SH A) s :
  (forall w, (unread (f w).2 <= unread w)%nat) -> (forall w, socks (f w).2 = socks w) -> at_rest m l false c s ->
  (forall x s, at_rest m l false c s -> run (k x) s) -> run (let@ x := os f in k x) s.
Proof.
  intros U F H K. apply (rest_sys l c); [done|]. clear s H. intros s x w H E. specialize (F (system s)).
  specialize (U (system s)). rewrite E in F, U. cbn in F. split; [done|]. split; [by rewrite F | by apply K].
Qed.

(** A new socket: not one that is held. *)
Lemma fresh_kept (h : handle) s w :
  h ∉ open_ s -> base ⊆ open_ s -> socks w = {[h]} ∪ open_ s -> kept h (put w s).
Proof. intros F B K. right. cbn. rewrite K. split; set_solver. Qed.

Lemma rest_socket l c (k : handle -> Thread SH A) s :
  at_rest m l false c s ->
  (forall h s, at_rest m l false c s -> kept h s -> (h = INVALID_SOCKET \/ h <> l /\ h <> c) -> run (k h) s) ->
  run (let@ h := os socket in k h) s.
Proof.
  intros H K. apply (rest_sys l c); [done|]. clear s H. intros s h w H E.
  pose proof (socket_unread (system s)) as Lu. rewrite E in Lu. split; [done|].
  pose proof (socket_law (system s)) as L. rewrite E in L. case_bool_decide as D.
  - split; [by rewrite L|]. intros H'. apply K; [done|by left..].
  - destruct L as [F L]. split; [rewrite L; set_solver|]. intros H'.
    destruct H as (O & _ & [Kl|[Kl _]] & [Kc|[Kc _]] & _); (apply K; [done|by apply fresh_kept; [..|apply O|]|right]).
    all: split; intros ->; congruence.
Qed.

Lemma rest_listen l c (k : unit -> Thread SH A) h s :
  at_rest m l false c s -> kept h s -> (h = c -> c = INVALID_SOCKET) ->
  (forall s, at_rest m h false c s -> run (k tt) s) ->
  run (let@ x := write (with_listenSocket h) in k x) s.
Proof.
  intros H Kh N K. apply (rg_write _ _ (fun s => at_rest m l false c s /\ kept h s));
    [apply stable_and; [apply stable_rest | apply stable_kept] | done |].
  clear s H Kh. intros s [H Kh]. split.
  - eapply guar_rest; [exact H|by split_and!|done|]. destruct H as [[] _]. intros [?|Run]; [done|]. cbn in Run. congruence.
  - apply K. destruct H as ([] & [E E2] & L & C & _). by split_and!; [split|..]. 
Qed.

Lemma rest_client l c (k : unit -> Thread SH A) h s :
  at_rest m l false c s -> kept h s -> (l = h -> h = INVALID_SOCKET) ->
  (forall s, at_rest m l false h s -> run (k tt) s) ->
  run (let@ x := write (with_clientSocket h) in k x) s.
Proof.
  intros H Kh N K. apply (rg_write _ _ (fun s => at_rest m l false c s /\ kept h s));
    [apply stable_and; [apply stable_rest | apply stable_kept] | done |].
  clear s H Kh. intros s [H Kh]. split.
  - eapply guar_rest; [exact H|by split_and!|done|]. destruct H as [[] _]. intros [?|Run]; [done|]. cbn in Run. congruence.
  - apply K. destruct H as ([] & [E E2] & L & C & _). by split_and!; [split|..].
Qed.

Lemma rest_quiet {X} l b c (t : Thread SH X) (k : X -> Thread SH A) s :
  quiet 0 t -> at_rest m l b c s -> (forall x s, at_rest m l b c s -> run (k x) s) ->
  run (let@ x := t in k x) s.
Proof.
  intros T H K. eapply rg_seq.
  - eapply (quiet_rg _ _ _ _ (at_rest m l b c) (fun _ => at_rest m l b c)); [apply stable_rest|done|apply H|done|auto].
  - intros x s'. apply K.
Qed.

Lemma rest_run l b c (k : unit -> Thread SH A) s :
  at_rest m l b c s -> (forall s, at_rest m l true c s -> run (k tt) s) ->
  run (let@ x := write (with_isRunning true) in k x) s.
Proof.
  intros H K. apply (rg_write _ _ (at_rest m l b c)); [apply stable_rest | done |].
  clear s H. intros s H. split.
  - eapply guar_rest; [exact H|by split_and!|done|]. intros _ _. destruct H as ([] & [_ Ec] & L & C & _).
    cbn. rewrite os_listen, Ec. split; [destruct L as [?|[? ?]] | destruct C as [?|[? ?]]]; auto.
  - apply K. destruct H as ([] & [E E2] & L & C & N). by split_and!; [split|..].
Qed.

Lemma rest_connected l b c (k : unit -> Thread SH A) s :
  at_rest m l b c s -> (forall s, at_rest m l b c s -> run (k tt) s) ->
  run (let@ x := write (with_isConnected true) in k x) s.
Proof.
  intros H K. apply (rg_write _ _ (at_rest m l b c)); [apply stable_rest | done |].
  clear s H. intros s H. split.
  - apply guar_owner; [frames..|]. destruct H as (_ & [E _] & _). lia.
  - apply K. destruct H as ([] & [E E2] & L & C & N). by split_and!; [split|..].
Qed.

Lemma kept_closed h h' s w : h <> h' \/ h = INVALID_SOCKET -> kept h s -> socks w = open_ s ∖ {[h']} -> kept h (put w s).
Proof.
  intros [N|N] [K|[K1 K2]] E; [by left| |by left..]. right. cbn. rewrite E. split; [set_solver | done].
Qed.

(** Between [closesocket] and the reset of the member. *)
Definition closed_listen l c s : Prop := owns_state m l false None s /\ (fin s = st s /\ c_ s = c) /\ kept c s.
Definition closed_client s : Prop := owns_state m INVALID_SOCKET false None s /\ fin s = st s.

Lemma rest_give_back_listen l c (k : unit -> Thread SH A) s :
  l <> INVALID_SOCKET -> at_rest m l false c s ->
  (forall s, at_rest m INVALID_SOCKET false c s -> run (k tt) s) ->
  run (let@ x := close_member m_listenSocket in let@ y := write (with_listenSocket INVALID_SOCKET) in k y) s.
Proof.
  intros Nl H K. apply (rg_close _ _ (at_rest m l false c)); [apply stable_rest|done|].
  clear s H. intros s ([] & [E E2] & L & C & N). cbv zeta. rewrite os_listen.
  destruct L as [?|[L1 L2]]; [done|]. split_and!; [done..|by left|]. intros r w Kw.
  apply (rg_write _ _ (closed_listen l c)); [unfold closed_listen; stab; apply stable_kept| |].
  - split; [split; try done|split; [done|]].
    + cbn. rewrite Kw. set_solver.
    + eapply kept_closed; [|done..]. destruct (decide (c = l)); [right|left]; auto.
  - clear -K HWL. intros s ([] & [E E2] & C). split.
    + apply guar_owner; [frames..|intros _ Run; cbn in Run; congruence|lia].
    + apply K. split_and!; [by split|done..|by left|done|done].
Qed.

Lemma rest_give_back_client c (k : unit -> Thread SH A) s :
  c <> INVALID_SOCKET -> at_rest m INVALID_SOCKET false c s ->
  (forall s, at_rest m INVALID_SOCKET false INVALID_SOCKET s -> run (k tt) s) ->
  run (let@ x := close_member m_clientSocket in let@ y := write (with_clientSocket INVALID_SOCKET) in k y) s.
Proof.
  intros Nc H K. apply (rg_close _ _ (at_rest m INVALID_SOCKET false c)); [apply stable_rest|done|].
  clear s H. intros s ([] & [E E2] & L & C & N). cbv zeta. rewrite E2.
  destruct C as [?|[C1 C2]]; [done|]. split_and!; [done..|by right|]. intros r w Kw.
  apply (rg_write _ _ closed_client); [unfold closed_client; stab| |].
  - split; [split; try done|done]. cbn. rewrite Kw. set_solver.
  - clear -K HWL. intros s ([] & E). split.
    + apply guar_owner; [frames..|intros _ Run; cbn in Run; congruence|lia].
    + apply K. split_and!; [by split|done..|by left|by left|done].
Qed.

Lemma rest_spawn l b c kind (k : unit -> Thread SH A) s :
  at_rest m l b c s -> (forall s, ready (S m) s -> run (k tt) s) ->
  run (let@ x := spawn kind in k x) s.
Proof.
  intros H K. apply (rg_act _ _ _ (at_rest m l b c)); [apply stable_rest | done |].
  clear s H. intros s H. unfold wpx. destruct (rest_ready _ _ _ _ _ H) as (h' & b' & k' & R).
  pose proof H as ([] & [E E2] & _). rewrite os_thread. split.
  - split; [by left|]. split; [done|]. right; left. split; [done|]. split; try done; cbn; lia || auto.
  - apply K. destruct R as ([] & R1 & R2 & R3 & R4 & R5). exists h', b', (Some kind).
    split; [split; try done|split_and!; try done]; cbn; lia.
Qed.
End Rest.

(** *** [StartListener] and [Connect] *)
Lemma rest_failed m l b c (t : Thread SH unit) s :
  quiet 0 t -> at_rest m l b c s ->
  rg (rely 0) (guar 0) (waits 0) (t ;@ Done false) (fun _ => ready m) s.
Proof.
  intros T H. eapply rest_quiet; [done|exact H|]. clear s H. intros ? s H.
  apply (rg_done _ _ _ _ (ready m)); [apply stable_ready | by eapply rest_ready | done].
Qed.

(** What an operation that may create a thread leaves. *)
Definition ready_upto m s : Prop := ready m s \/ ready (S m) s.

Lemma StartListener_owner m port s :
  (m <= n)%nat -> ready m s ->
  rg (rely 0) (guar 0) (waits 0) (th_StartListener 0 port) (fun _ => ready_upto m) s.
Proof.
  intros Lm (h0 & b0 & k0 & C0). unfold th_StartListener.
  eapply rg_seq; [exact (close_spec m h0 b0 k0 false s Lm C0)|]. clear s h0 b0 k0 C0. intros ? s H. apply shut_rest in H as [c H].
  eapply rest_socket; [exact H|]. clear s H. intros h s H Kh Fr.
  eapply rest_listen; [exact H|done|destruct Fr as [->|[? ?]]; auto; congruence|]. clear s H Kh. intros s H.
  assert (Fail : forall l s e, at_rest m l false c s ->
    rg (rely 0) (guar 0) (waits 0) (th_notify (error_thread 0 e) ;@ Done false) (fun _ => ready_upto m) s).
  { intros. eapply rg_mono; [eapply rest_failed; [apply quiet_notify, error_quiet|done]|]. by left. }
  destruct (Z.eqb_spec h INVALID_SOCKET) as [->|Nh]; [by eapply Fail|].
  eapply rest_inert; [intros; apply setsockopt_unread|intros; apply setsockopt_law|exact H|]. clear s H. intros x s H.
  eapply rest_inert; [intros; apply bind_unread|intros; apply bind_law|exact H|]. clear s H. intros r s H.
  destruct (r =? SOCKET_ERROR). { eapply rest_give_back_listen; [done|exact H|]. intros. by eapply Fail. }
  eapply rest_inert; [intros; apply listen_unread|intros; apply listen_law|exact H|]. clear s H. intros r' s H.
  destruct (r' =? SOCKET_ERROR). { eapply rest_give_back_listen; [done|exact H|]. intros. by eapply Fail. }
  eapply rest_run; [exact H|]. clear s H. intros s H.
  eapply rest_spawn; [exact H|]. clear s H. intros s H.
  apply (rg_done _ _ _ _ (ready (S m))); [apply stable_ready | done | by right].
Qed.

Lemma Connect_owner m addr port s :
  (m <= n)%nat -> ready m s ->
  rg (rely 0) (guar 0) (waits 0) (th_Connect 0 addr port) (fun _ => ready_upto m) s.
Proof.
  intros Lm (h0 & b0 & k0 & C0). unfold th_Connect.
  eapply rg_seq; [exact (close_spec m h0 b0 k0 false s Lm C0)|]. clear s h0 b0 k0 C0. intros ? s H. apply shut_rest in H as [c H].
  eapply rest_socket; [exact H|]. clear s H. intros h s H Kh Fr.
  eapply rest_client; [exact H|done|auto|]. clear s H Kh Fr. intros s H.
  assert (Fail : forall c s e, at_rest m INVALID_SOCKET false c s ->
    rg (rely 0) (guar 0) (waits 0) (th_notify (error_thread 0 e) ;@ Done false) (fun _ => ready_upto m) s).
  { intros. eapply rg_mono; [eapply rest_failed; [apply quiet_notify, error_quiet|done]|]. by left. }
  destruct (Z.eqb_spec h INVALID_SOCKET) as [->|Nh]; [by eapply Fail|].
  eapply rest_inert; [intros; apply connect_unread|intros; apply connect_law|exact H|]. clear s H. intros r s H.
  destruct (r =? SOCKET_ERROR). { eapply rest_give_back_client; [done|exact H|]. intros. by eapply Fail. }
  eapply rest_connected; [exact H|]. clear s H. intros s H.
  eapply rest_run; [exact H|]. clear s H. intros s H.
  eapply rest_quiet; [apply quiet_notify, state_quiet|exact H|]. clear s H. intros ? s H.
  eapply rest_spawn; [exact H|]. clear s H. intros s H.
  apply (rg_done _ _ _ _ (ready (S m))); [apply stable_ready | done | by right].
Qed.

(** *** The owner's program *)
Lemma op_owner m op s :
  (m <= n)%nat -> ready m s -> rg (rely 0) (guar 0) (waits 0) (th_op op) (fun _ => ready_upto m) s.
Proof.
  intros Lm H. assert (St : stable (rely 0) (ready_upto m)) by (apply stable_or; apply stable_ready).
  assert (U : forall s, ready_upto m s -> ours 0 s) by (intros ? [(?&?&?&[[] _])|(?&?&?&[[] _])]; done).
  assert (Qt : forall t, quiet 0 t -> rg (rely 0) (guar 0) (waits 0) t (fun _ : bool => ready_upto m) s).
  { intros t T. apply (quiet_rg base n 0 t (ready_upto m)); [done|done|apply U; by left|by left|auto]. }
  destruct op as [b| |port|address port|t payload|]; cbn [th_op].
  - apply Qt. apply steady_bind; [by apply steady_write; [apply _|intros t; split_and!]|]. intros ?. apply steady_done, _.
  - apply Qt, steady_read, _.
  - by apply StartListener_owner.
  - by apply Connect_owner.
  - apply Qt, SendFrame_quiet.
  - destruct H as (h & b & k & C). eapply rg_seq; [exact (close_spec m h b k false s Lm C)|].
    cbn beta. intros ? s' H. apply (rg_done _ _ _ _ (ready m)); [apply stable_ready | by eapply shut_ready | by left].
Qed.

Lemma ops_owner ops m s :
  (m + length ops <= n)%nat -> ready m s ->
  rg (rely 0) (guar 0) (waits 0) (th_ops ops) (fun _ s => exists m', (m' <= n)%nat /\ ready m' s) s.
Proof.
  revert m s. induction ops as [|op ops IH]; cbn [th_ops length]; intros m s Lm H.
  - apply (rg_done _ _ _ _ (ready m)); [apply stable_ready | done | exists m; split; [lia | done]].
  - eapply rg_seq; [exact (op_owner m op s ltac:(lia) H)|]. cbn beta. intros b s' H'.
    assert (exists m', (m' + length ops <= n)%nat /\ ready m' s') as (m' & L' & R').
    { destruct H' as [H'|H']; [exists m | exists (S m)]; (split; [lia | done]). }
    eapply rg_seq; [exact (IH m' s' L' R')|]. cbn beta. intros bs s'' (m'' & L'' & R'').
    apply (rg_done _ _ _ _ (ready m'')); [apply stable_ready | done | by eauto].
Qed.

(** Everything closed, stopped and joined. *)
Definition closed_down s : Prop := exists m, (m <= n)%nat /\ shut m true s.

Lemma owner_spec ops s :
  (length ops <= n)%nat -> ready 0 s ->
  rg (rely 0) (guar 0) (waits 0) (th_owner ops) (fun _ => closed_down) s.
Proof.
  intros L H. unfold th_owner. eapply rg_seq; [exact (ops_owner ops 0 s L H)|]. clear s H.
  cbn beta. intros bs s (m & Lm & h & b & k & C).
  eapply rg_seq; [exact (close_spec m h b k false s Lm C)|]. clear s C. cbn beta. intros ? s (O & C & E & _).
  assert (C1 : closing m INVALID_SOCKET false None true s) by (split_and!; auto).
  eapply rg_seq; [exact (close_spec m _ _ _ _ s Lm C1)|]. clear s O C E C1. cbn beta. intros ? s H.
  apply (rg_done _ _ _ _ (shut m true)); [apply stable_shut | done | by exists m].
Qed.

(** ** The workers *)

(** Thread [j] is the next to be created, or created and not finished; [u] bounds
    what is left to read. *)
Definition unfinished (j u : nat) s : Prop :=
  ours j s /\ base ⊆ open_ s /\ sound s /\ (fin s < j)%nat /\ (fin s <= st s <= S (fin s))%nat /\
  (left_ s <= u)%nat /\ ((st s <= fin s)%nat \/ st s = j -> rx s = false).
(** It runs, and has or has not begun to receive. *)
Definition at_work (j u : nat) (r : bool) s : Prop :=
  ours j s /\ base ⊆ open_ s /\ sound s /\ running j s /\ (j <= S (fin s))%nat /\ (left_ s <= u)%nat /\ rx s = r.
Definition busy (j : nat) s : Prop := exists u r, at_work j u r s.
(** It may store socket [h]. *)
Definition may_store (j u : nat) (h : handle) s : Prop := at_work j u false s /\ storable base h s /\ h <> c_ s.
Definition accepted (j u : nat) (h : handle) s : Prop :=
  at_work j u false s /\ (m_isRunning (tcp s) = true -> may_store j u h s).
(** The socket it accepts or receives on, while it is open, is the member's. *)
Definition accepting (j u : nat) (h : handle) s : Prop :=
  at_work j u false s /\ (h ∈ open_ s -> l_ s = h).
Definition receives_on (j u : nat) (h : handle) s : Prop :=
  at_work j u true s /\ (h ∈ open_ s -> c_ s = h).

Section Worker.
Context (j : nat) (Hj : (0 < j <= n)%nat).
Abbreviation runs t Q s := (rg (rely j) (guar j) (waits j) t Q s).

Lemma works_sound s s' : works base s s' -> sound s -> sound s'.
Proof.
  intros [] So Run. destruct So as [L C]; [congruence|]. split.
  - rewrite works_listen. destruct L as [L|L]; [by left | right; set_solver].
  - destruct works_client as [E|(_ & C' & _)]; [|by right]. rewrite E.
    destruct C as [C|C]; [by left | right; set_solver].
Qed.

Lemma calm_sound s s' : calm s s' -> sound s -> sound s'.
Proof. intros [] So Run. rewrite calm_listen, calm_client, calm_open. apply So. congruence. Qed.

Lemma stable_unfinished u : stable (rely j) (unfinished j u).
Proof.
  intros s s' R (U & B & So & F & T & Lu & Nr). assert (U' : ours j s') by (by eapply (stable_unlocked base n)).
  destruct R as (i & N & _ & Lu' & [C|[[-> O]|(Li & [Ei Ri] & Wk)]]).
  - pose proof (calm_sound _ _ C So). destruct C. rewrite <- calm_started, <- calm_finished, <- calm_receiving in Nr.
    split_and!; [done|by rewrite calm_open|done|lia..|done].
  - destruct O. split_and!; auto; [lia..|]. rewrite owner_receiving. intros Hn. apply Nr. lia.
  - pose proof (works_sound _ _ Wk So). destruct Wk. split_and!; [done|set_solver|done|lia..|].
    intros Hn. destruct works_ended as [E|]; [lia | done].
Qed.

(** What the others do while thread [j] runs. *)
Lemma rely_running s s' :
  running j s -> rely j s s' -> (left_ s' <= left_ s)%nat /\ (calm s s' \/ owner base s s').
Proof.
  intros [E F] (i & N & _ & L & [C|[[-> O]|(Li & [<- Ri] & Wk)]]); (split; [done|]); [by left | by right | done].
Qed.

Lemma stable_at_work u r : stable (rely j) (at_work j u r).
Proof.
  intros s s' R (U & B & So & Ru & Lj & Lu & Er). assert (U' : ours j s') by (by eapply (stable_unlocked base n)).
  destruct (rely_running _ _ Ru R) as [Lu' [C|O]]; destruct Ru as [E F].
  - pose proof (calm_sound _ _ C So). destruct C.
    split_and!; [done|by rewrite calm_open|done|split; lia|lia..|congruence].
  - destruct O. split_and!; auto; [split; lia|lia..|congruence].
Qed.

(** A step of the others as a running worker sees it: the owner gives up a member
    only when its socket is closed. *)
Lemma rely_members u r s s' :
  at_work j u r s -> rely j s s' ->
  (l_ s' = l_ s \/ l_ s' = INVALID_SOCKET /\ l_ s ∉ open_ s) /\
  (c_ s' = c_ s \/ c_ s' = INVALID_SOCKET /\ (rx s = true -> c_ s ∉ open_ s)) /\
  (m_isRunning (tcp s') = true -> m_isRunning (tcp s) = true) /\
  (forall h, h ∈ open_ s -> h <> l_ s -> h <> c_ s -> h ∈ open_ s') /\ open_ s' ⊆ open_ s.
Proof.
  intros (_ & _ & _ & Ru & _) R. destruct (rely_running _ _ Ru R) as [_ [C|O]]; destruct Ru as [E F].
  - destruct C. rewrite calm_open. split_and!; [by left|by left|congruence|done|done].
  - destruct O. assert (Rn : (fin s < st s)%nat) by lia. split_and!; auto.
Qed.

Lemma stable_may_store u h : stable (rely j) (may_store j u h).
Proof.
  intros s s' R (Wk & (N & I & B & L) & C). pose proof (stable_at_work _ _ _ _ R Wk) as Wk'.
  destruct (rely_members _ _ _ _ Wk R) as (El & Ec & _ & K & _).
  destruct El as [El|[El _]], Ec as [Ec|[Ec _]]; (split; [done|]); (split; [split_and!|]); auto; congruence.
Qed.

Lemma stable_accepted u h : stable (rely j) (accepted j u h).
Proof.
  intros s s' R (Wk & K). split; [by eapply stable_at_work|]. intros Run.
  eapply stable_may_store; [exact R|]. apply K. by apply (rely_members _ _ _ _ Wk R).
Qed.

Lemma stable_accepting u h : stable (rely j) (accepting j u h).
Proof.
  intros s s' R (Wk & K). split; [by eapply stable_at_work|]. intros O.
  destruct (rely_members _ _ _ _ Wk R) as (El & _ & _ & _ & Sub). apply Sub in O. specialize (K O).
  destruct El as [El|[_ El]]; [congruence|]. by rewrite K in El.
Qed.

Lemma stable_receives_on u h : stable (rely j) (receives_on j u h).
Proof.
  intros s s' R (Wk & K). split; [by eapply stable_at_work|]. intros O.
  destruct (rely_members _ _ _ _ Wk R) as (_ & Ec & _ & _ & Sub). apply Sub in O. specialize (K O).
  destruct Ec as [Ec|[_ Ec]]; [congruence|]. rewrite K in Ec. by destruct Ec; [apply Wk|].
Qed.

(** *** Steps of the worker *)
Lemma guar_works u r s s' :
  at_work j u r s -> mx s' = mx s -> (left_ s' <= left_ s)%nat -> works base s s' -> guar j s s'.
Proof.
  intros (_ & _ & _ & Ru & _) M L Wk. split; [by left|]. split; [done|]. right; right. split; [exact Hj | by split].
Qed.

Lemma at_work_step u r u' r' s s' :
  at_work j u r s -> mx s' = mx s -> works base s s' -> fin s' = fin s -> (left_ s' <= u')%nat -> rx s' = r' ->
  at_work j u' r' s'.
Proof.
  intros (U & B & So & [E F] & Lj & _) M Wk Ef Lu Er. pose proof (works_sound _ _ Wk So). destruct Wk.
  split_and!; [by unfold ours; rewrite M|by etrans|done|split; lia|lia|lia|done].
Qed.

Lemma at_work_quiet {X C} u r (t : Thread SH X) (k : X -> Thread SH C) (Qa : C -> SH -> Prop) s :
  quiet j t -> at_work j u r s -> (forall x s, at_work j u r s -> runs (k x) Qa s) ->
  runs (let@ x := t in k x) Qa s.
Proof.
  intros T H K. eapply rg_seq.
  - eapply (quiet_rg _ _ _ _ (at_work j u r) (fun _ => at_work j u r)); [apply stable_at_work|done|apply H|done|auto].
  - intros x s'. apply K.
Qed.

Lemma at_work_done {X} u r (x : X) s : at_work j u r s -> runs (Done x) (fun _ => busy j) s.
Proof.
  intros H. apply (rg_done _ _ _ _ (at_work j u r)); [apply stable_at_work|done|]. intros s' H'. by exists u, r.
Qed.

(** A step that opens, stores and ends nothing. *)
Lemma works_plain u r s s' :
  at_work j u r s -> l_ s' = l_ s -> c_ s' = c_ s -> m_isRunning (tcp s') = m_isRunning (tcp s) ->
  m_workerThread (tcp s') = m_workerThread (tcp s) -> st s' = st s -> fin s' = fin s -> open_ s' = open_ s ->
  (rx s' = true -> rx s = true \/ m_isRunning (tcp s) = true) -> works base s s'.
Proof.
  intros (_ & _ & _ & [Es F] & _) El Ec Er Et Es' Ef Eo Ex.
  split; try done; [by left|lia|by rewrite Eo|by left|by left].
Qed.

Lemma accept_worker {C} (k : handle * string -> Thread SH C) (Qa : C -> SH -> Prop) u l s :
  accepting j u l s ->
  (forall a peer s, at_work j u false s -> a = INVALID_SOCKET \/ accepted j u a s -> runs (k (a, peer)) Qa s) ->
  runs (let@ x := th_accept l in k x) Qa s.
Proof.
  intros H K. apply (rg_atom _ _ _ (accepting j u l)); [apply stable_accepting | done |].
  clear s H. intros s [H O]. unfold is_open.
  destruct (Z.eqb_spec l INVALID_SOCKET) as [->|Nl]; [|case_bool_decide as Lo]; cbn [negb andb].
  1,3: split; [apply guar_refl | apply K; [done | by left]].
  destruct (accept_ready l (system s)).
  2: { split; [apply H|]. right; right; right. split; [exact Hj|]. split; [apply H|]. left. by rewrite (O Lo). }
  pose proof (accept_law l (system s)) as Law. pose proof (accept_unread l (system s)) as Lu.
  unfold sys, zoom, pcall. change (view s) with (system s).
  destruct (accept l (system s)) as [[a peer] w]. cbn in Lu.
  assert (Wk : works base s (put w s)).
  { pose proof H as (_ & _ & _ & [Es F] & _ & _ & Er).
    split; try done; cbn; [by left|lia| |right; by rewrite (O Lo)|by rewrite Er|by left|by rewrite Er].
    case_bool_decide; [by rewrite Law | set_solver]. }
  assert (H' : at_work j u false (put w s)).
  { eapply at_work_step; [done..| |apply H]. cbn. destruct H as (_ & _ & _ & _ & _ & L & _). lia. }
  split; [by eapply guar_works|]. apply K; [done|].
  case_bool_decide as D; [by left|]. right. destruct Law as [F Eo]. split; [done|]. intros Run.
  destruct H as (_ & B & So & _). destruct (So Run) as [L C0].
  split; [done|]. split; [split_and!|]; [done|cbn; rewrite Eo; set_solver|set_solver|..]; cbn.
  - destruct L as [L|L]; congruence.
  - destruct C0 as [C0|C0]; congruence.
Qed.

Lemma store_worker {C} (k : unit -> Thread SH C) (Qa : C -> SH -> Prop) u a s :
  may_store j u a s -> (forall s, at_work j u false s -> runs (k tt) Qa s) ->
  runs (let@ x := write (with_clientSocket a) in k x) Qa s.
Proof.
  intros H K. apply (rg_act _ _ _ (may_store j u a)); [apply stable_may_store | done |].
  clear s H. intros s (H & St & N). unfold wpx, modify, zoom, pcall, wpx. cbn.
  pose proof H as (_ & _ & _ & [Es F] & _ & Lu & Er).
  assert (Wk : works base s (put (with_clientSocket a (tcp s)) s)).
  { split; try done; cbn; [by right|lia|by left|by left|by left|by rewrite Er]. }
  split; [by eapply guar_works|]. apply K. by eapply at_work_step.
Qed.

Lemma connect_worker {C} (k : unit -> Thread SH C) (Qa : C -> SH -> Prop) u r s :
  at_work j u r s -> (forall s, at_work j u r s -> runs (k tt) Qa s) ->
  runs (let@ x := write (with_isConnected true) in k x) Qa s.
Proof.
  intros H K. apply (rg_act _ _ _ (at_work j u r)); [apply stable_at_work | done |].
  clear s H. intros s H. pose proof H as (_ & _ & _ & _ & _ & Lu & Er).
  assert (Wk : works base s (put (with_isConnected true (tcp s)) s)) by (eapply works_plain; [exact H|done..|by left]).
  split; [by eapply guar_works|]. apply K. by eapply at_work_step.
Qed.

(** *** The receive loop *)

(** From the first time it finds the transport running. *)
Lemma running_worker {C} (k : bool -> Thread SH C) (Qa : C -> SH -> Prop) u r s :
  at_work j u r s -> (forall b r s, at_work j u r s -> (b = true -> r = true) -> runs (k b) Qa s) ->
  runs (let@ b := read_running in k b) Qa s.
Proof.
  intros H K. apply (rg_act _ _ _ (at_work j u r)); [apply stable_at_work | done |].
  clear s H. intros s H. pose proof H as (_ & _ & _ & _ & _ & Lu & _). unfold wpx. cbn.
  destruct (m_isRunning (tcp s)) eqn:E; [|split; [apply guar_refl | by apply (K false r)]].
  set (s' := with_sync _ s). assert (Wk : works base s s') by (eapply works_plain; [exact H|done..|by right]).
  split; [by eapply guar_works|]. apply (K true true); [|done]. by eapply at_work_step.
Qed.

Lemma client_worker {C} (k : handle -> Thread SH C) (Qa : C -> SH -> Prop) u s :
  at_work j u true s -> (forall h s, receives_on j u h s -> runs (k h) Qa s) ->
  runs (let@ h := read m_clientSocket in k h) Qa s.
Proof.
  intros H K. apply (rg_read _ _ _ (at_work j u true)); [apply stable_at_work | done |].
  clear s H. intros s H. apply K. by split.
Qed.

(** It waits only for the open connection, and reads use up what is left. *)
Lemma recv_worker {C} (k : Z * list byte -> Thread SH C) (Qa : C -> SH -> Prop) u h n' s :
  receives_on j u h s ->
  (forall r buf u' s, at_work j u' true s -> (u' <= u)%nat -> (0 < r -> (u' < u)%nat) -> runs (k (r, buf)) Qa s) ->
  runs (let@ x := th_recv h n' in k x) Qa s.
Proof.
  intros H K. apply (rg_atom _ _ _ (receives_on j u h)); [apply stable_receives_on | done |].
  clear s H. intros s [H O]. unfold is_open.
  destruct (Z.eqb_spec h INVALID_SOCKET) as [->|Nh]; [|case_bool_decide as Lo]; cbn [negb andb].
  1,3: split; [apply guar_refl | by apply (K SOCKET_ERROR [] u)].
  destruct (recv_ready h (system s)).
  2: { split; [apply H|]. right; right; right. split; [exact Hj|]. split; [apply H|]. right.
       split; [apply H | by rewrite (O Lo)]. }
  pose proof (recv_law h n' (system s)) as Law. pose proof (recv_unread h n' (system s)) as Lu.
  unfold sys, zoom, pcall. change (view s) with (system s).
  destruct (recv h n' (system s)) as [[r buf] w]. destruct Law as (Eo & _), Lu as [Lu1 Lu2].
  assert (Wk : works base s (put w s)) by (eapply works_plain; [exact H|done..|by left]).
  split; [by eapply guar_works|]. pose proof H as (_ & _ & _ & _ & _ & Lu & Er).
  apply (K r buf (unread w)); [by eapply at_work_step|lia|]. intros R. specialize (Lu2 R). lia.
Qed.

Lemma receive_worker fuel u r buf s :
  (u < fuel)%nat -> at_work j u r s -> runs (th_receive_loop j fuel buf) (fun _ => busy j) s.
Proof.
  revert u r buf s. induction fuel as [|fuel IH]; intros u r buf s L H; [lia|]. cbn [th_receive_loop].
  apply (running_worker _ _ u r); [done|]. clear r s H. intros running r s H Hr.
  apply (at_work_quiet u r); [destruct running; [apply steady_read, _|apply steady_done, _]|done|].
  clear s H. intros connected s H. destruct running; [|by eapply at_work_done].
  destruct connected; [|by eapply at_work_done]. cbn [andb negb]. rewrite Hr in H by done. clear r Hr.
  apply (client_worker _ _ u); [done|]. clear s H. intros h s H.
  eapply recv_worker; [exact H|]. clear s H. intros r tmp u' s H L1 L2.
  destruct (Z.leb_spec r 0) as [R|R].
  - apply (at_work_quiet u' true); [apply steady_disconnect, _|done|]. clear s H. intros ? s H.
    eapply rg_mono; [eapply (quiet_rg _ _ _ _ (at_work j u' true) (fun _ => at_work j u' true));
      [apply stable_at_work|apply quiet_notify, state_quiet|apply H|done|auto]|].
    intros ? s' H'. by exists u', true.
  - apply (at_work_quiet u' true); [apply drain_quiet|done|]. clear s H. intros kept s H.
    apply (IH u' true); [|done]. specialize (L2 R). lia.
Qed.

Lemma ListenerWorker_worker fuel u s :
  (u < fuel)%nat -> at_work j u false s -> runs (th_ListenerWorker j fuel) (fun _ => busy j) s.
Proof.
  intros Lf H. unfold th_ListenerWorker. apply (rg_read _ _ _ (at_work j u false)); [apply stable_at_work|done|].
  clear s H. intros s H.
  apply (accept_worker _ _ u); [by split|]. clear s H. intros a peer s H Acc. cbn beta iota.
  destruct (Z.eqb_spec a INVALID_SOCKET) as [->|Na]; [by eapply at_work_done|].
  destruct Acc as [?|Acc]; [done|].
  apply (rg_read _ _ _ (accepted j u a)); [apply stable_accepted|done|]. clear s H Acc. intros s [H St].
  destruct (m_isRunning (tcp s)); cbn [negb]; [|by eapply at_work_done].
  apply (store_worker _ _ u a); [auto|]. clear s H St. intros s H.
  eapply connect_worker; [done|]. clear s H. intros s H.
  apply (at_work_quiet u false); [apply quiet_notify, state_quiet|done|]. clear s H. intros ? s H.
  by apply (receive_worker fuel u false).
Qed.

(** What holds when a worker has ended. *)
Definition ended (j : nat) s : Prop := ours j s /\ (j <= fin s)%nat.

Lemma stable_ended_worker : stable (rely j) (ended j).
Proof.
  intros s s' R [U L]. split; [by eapply (stable_unlocked base n)|].
  destruct R as (i & N & _ & _ & [[]|[[-> []]|(Li & Ri & [])]]); lia.
Qed.

Lemma th_worker_spec fuel u s :
  (u < fuel)%nat -> unfinished j u s -> runs (th_worker fuel j) (fun _ => ended j) s.
Proof.
  intros Lf H. unfold th_worker. apply (rg_await _ _ _ (unfinished j u)); [apply stable_unfinished|done|].
  clear s H. intros s (U & B & So & F & T & Lu & Nr).
  destruct (Nat.leb_spec j (st s)) as [L|L]; [|by split; [|right; right; left]].
  split; [apply guar_refl|].
  assert (H : at_work j u false s) by (split_and!; try done; [split; lia|lia|apply Nr; lia]). clear U B So F T L Nr Lu.
  eapply (rg_seq _ _ _ _ _ (fun _ => busy j)).
  - destruct (spawned (sync s)); [by apply (ListenerWorker_worker fuel u) | by apply (receive_worker fuel u false)].
  - clear s H. intros ? s (u' & r & H). apply (rg_act _ _ _ (at_work j u' r)); [apply stable_at_work|done|].
    clear s H. intros s H. pose proof H as (U & _ & _ & [Es F] & L & _). split.
    + eapply guar_works; [exact H|done..|]. split; try done; cbn; [by left|lia|by left|by right].
    + by apply (rg_done _ _ _ _ (ended j)); [apply stable_ended_worker|..].
Qed.
End Worker.

(** ** The pool *)
Definition outcome (i : nat) (_ : list bool) s : Prop :=
  ours i s /\ (i = 0%nat -> closed_down s) /\ ((0 < i <= n)%nat -> (i <= fin s)%nat).

Lemma shut_ours m idle s : shut m idle s -> ours 0 s.
Proof. intros [[] _]. done. Qed.

Lemma owner_outcome ops s :
  (length ops <= n)%nat -> ready 0 s -> rg (rely 0) (guar 0) (waits 0) (th_owner ops) (outcome 0) s.
Proof.
  intros L H. eapply rg_mono; [exact (owner_spec ops s L H)|]. cbn beta. intros bs s' (m & Lm & Sh).
  split; [by eapply shut_ours|]. split; [intros _; by exists m | lia].
Qed.

Lemma worker_outcome j fuel u s :
  (0 < j <= n)%nat -> (u < fuel)%nat -> unfinished j u s ->
  rg (rely j) (guar j) (waits j) (th_worker fuel j ;@ Done []) (outcome j) s.
Proof.
  intros Hj Lf H. eapply rg_seq; [exact (th_worker_spec j Hj fuel u s Lf H)|]. cbn beta. intros ? s' E.
  apply (rg_done _ _ _ _ (ended j)); [apply stable_ended_worker; lia|done|].
  intros s2 [U L]. split; [done|]. split; [lia | done].
Qed.

Lemma sender_outcome i frames s :
  (n < i)%nat -> ours i s -> rg (rely i) (guar i) (waits i) (th_sends i frames) (outcome i) s.
Proof.
  intros Hi H. apply (quiet_rg base n i _ (ours i)); [apply stable_unlocked|apply sends_quiet|done..|].
  intros ? s' U _. split; [done|]. split; lia.
Qed.

(** Done, or a worker that was never created. *)
Definition settled (c : SH * list (Thread SH (list bool))) : Prop :=
  forall i t, c.2 !! i = Some t -> is_done t \/ (0 < i <= n)%nat /\ (st c.1 < i)%nat.

Abbreviation spec := (specified rely guar waits outcome).

Lemma guar_holder N i s s' :
  (i < N)%nat -> guar i s s' -> (forall j, mx s = Some j -> (j < N)%nat) ->
  forall j, mx s' = Some j -> (j < N)%nat.
Proof. intros L (M & _) H j E. destruct M as [Em|[[_ Em]|[_ Em]]]; [apply H | ..]; congruence. Qed.

Lemma stuck_settled c :
  (n < length c.2)%nat -> spec c -> nf pool_step c -> (forall j, mx c.1 = Some j -> (j < length c.2)%nat) ->
  settled c /\ closed_down c.1.
Proof.
  intros Ln Sp Nf Hold.
  assert (Pr : forall i t, c.2 !! i = Some t -> (exists a, t = Done a /\ outcome i a c.1) \/ waits i c.1).
  { intros i t E. destruct (specified_progress _ _ _ _ c i t Sp E) as [D|[B|St]]; auto. by destruct Nf. }
  assert (Em : mx c.1 = None).
  { destruct (mx c.1) as [j|] eqn:Em; [|done]. destruct (lookup_lt_is_Some_2 c.2 j (Hold j eq_refl)) as [t E].
    destruct (Pr j t E) as [(a & _ & U & _)|[U _]]; by destruct U. }
  assert (Wk : forall i, waits i c.1 -> (0 < i <= n)%nat /\ (st c.1 < i)%nat \/
    i = 0%nat /\ (fin c.1 < st c.1 <= n)%nat /\ l_ c.1 = INVALID_SOCKET /\ (rx c.1 = true -> c_ c.1 = INVALID_SOCKET) \/
    (0 < i <= n)%nat /\ running i c.1 /\ (l_ c.1 <> INVALID_SOCKET \/ rx c.1 = true /\ c_ c.1 <> INVALID_SOCKET)).
  { intros i [_ [H|[H|[H|H]]]]; auto. rewrite Em in H. by destruct H. }
  (* when the last worker is done, or waits, the owner does not wait for it *)
  assert (Ow : outcome 0 [] c.1).
  { destruct (lookup_lt_is_Some_2 c.2 0%nat ltac:(lia)) as [t E].
    destruct (Pr _ _ E) as [(a & _ & H)|B]; [done|]. exfalso.
    destruct (Wk _ B) as [[? _]|[(_ & L & Hl & Hc)|[? _]]]; [lia| |lia].
    destruct (lookup_lt_is_Some_2 c.2 (st c.1) ltac:(lia)) as [t' E'].
    destruct (Pr _ _ E') as [(a & _ & _ & _ & F)|B']; [specialize (F ltac:(lia)); lia|].
    destruct (Wk _ B') as [?|[?|(_ & _ & [?|[? ?]])]]; [lia|lia|done|auto]. }
  destruct Ow as (_ & Cd & _). specialize (Cd eq_refl). split; [|done].
  intros i t E. destruct (Pr i t E) as [(a & -> & _)|B]; [by left|].
  destruct Cd as (m & Lm & _ & _ & Ef & _). right. destruct (Wk i B) as [H|[H|(_ & [? ?] & _)]]; [done|lia|lia].
Qed.
End Races.

(** ** Start *)
Section Pool.
Context {W : Type} `{HS : Winsock W} `{HWM : WinsockModel W} `{HWL : !WinsockLaws W}
        `{HU : Unread W} `{HFS : !FiniteStreams W} `{HB : Blocking W}
        `{HLi : ThreadListener W} `{HQL : !QuietListener W}.

(** A constructed transport. *)
Definition fresh_transport (w : W) : Shared W := {| tcp := new_TcpTransport; sync := new_Sync; system := w |}.

Lemma pool_specified fuel ops senders w :
  (unread w < fuel)%nat ->
  specified (rely (socks w) (length ops)) (guar (socks w) (length ops)) (waits (length ops))
    (outcome (socks w) (length ops)) (fresh_transport w, th_pool fuel ops senders).
Proof.
  intros Lf [|i] t E; cbn [fst snd] in *.
  - injection E as <-. apply owner_outcome; [done|done|]. exists INVALID_SOCKET, false, None.
    split; [by split|]. split_and!; first [by left | done].
  - unfold th_pool in E. cbn in E. apply lookup_app_Some in E as [E|[Li E]].
    + apply list_lookup_fmap_Some in E as (j & -> & E). apply lookup_seq in E as [-> Lj].
      apply (worker_outcome _ _ _ _ (unread w)); [lia|done|]. split_and!; cbn; try done; lia.
    + rewrite length_fmap, length_seq in *. rewrite list_lookup_imap in E.
      destruct (senders !! _) as [frames|]; [|done]. injection E as <-.
      replace (S (length ops + (i - length ops))) with (S i) by lia.
      apply sender_outcome; lia || done.
Qed.
End Pool.

(** * Properties *)


(** * Witnesses *)
From S2P Require Import Simulator.

#[local] Existing Instance echo.
#[local] Existing Instance echo_quiet.

(** A phone connects; socket 7 is another program's. *)
Definition race_world : Sim := set_peers ["192.168.1.7:40001"%string] (set_socks {[7]} sim0).
Definition race_ops : list OwnerOp := [OpStartListener 5500; OpClose; OpIsConnected].
Definition race_start : Shared Sim * list (Thread (Shared Sim) (list bool)) :=
  (fresh_transport race_world, th_pool 8 race_ops [[(UNLOCK_REQ, [x01])]]).


(** The worker of a silent peer waits in [recv] (after 12 steps of the owner and 9
    of its own), until [Close] closes its socket. *)
Definition waiting_worker (c : Shared Sim * list (Thread (Shared Sim) (list bool))) : bool :=
  match c.2 !! 1%nat with
  | Some (Done _) | None => false
  | Some t => negb (moves c.1 t) && m_isRunning (tcp c.1)
  end.
Definition worker_ended (c : Shared Sim * list (Thread (Shared Sim) (list bool))) : bool :=
  match c.2 !! 1%nat with Some (Done _) => negb (m_isRunning (tcp c.1)) | _ => false end.
Example close_wakes_worker :
  reaches (replicate 12 0%nat ++ replicate 10 1%nat) waiting_worker race_start = true /\
  reaches (replicate 12 0%nat ++ replicate 10 1%nat ++ replicate 8 0%nat ++ replicate 4 1%nat) worker_ended race_start = true.
Proof. split; vm_compute; reflexivity. Qed.

(** Why the owner closes twice: a connection accepted while [Close] runs survives
    it.  The owner (thread 0) starts to listen; the worker (1) accepts and finds
    the transport running; [Close] runs up to its [join]; the worker stores its
    socket, reports a connection and ends.  [IsConnected] then says true, and the
    client socket is open. *)
Definition race_schedule : list nat :=
  replicate 12 0%nat ++ replicate 4 1%nat ++ replicate 7 0%nat ++ replicate 5 1%nat ++ replicate 3 0%nat.

Definition still_connected (c : Shared Sim * list (Thread (Shared Sim) (list bool))) : bool :=
  bool_decide (m_workerThread (tcp c.1) = None /\ finished (sync c.1) = started (sync c.1) /\
    m_isRunning (tcp c.1) = false /\ m_isConnected (tcp c.1) = true /\
    m_clientSocket (tcp c.1) ∈ socks (system c.1)).

Example connected_after_Close :
  exists c, rtc pool_step race_start c /\ m_workerThread (tcp c.1) = None /\
    finished (sync c.1) = started (sync c.1) /\ m_isRunning (tcp c.1) = false /\
    m_isConnected (tcp c.1) = true /\ m_clientSocket (tcp c.1) ∈ socks (system c.1).
Proof.
  destruct (reaches_spec race_schedule still_connected race_start) as (c & R & T); [vm_compute; reflexivity|].
  exists c. split; [done|]. by apply bool_decide_eq_true in T.
Qed.
