(* ===== verification/TcpSends.v ===== *)
(** * TcpSends: frames sent by several threads at once

    [SendFrame] may be called from any thread; the agent calls it from its main
    thread and from the receiver's callbacks.  Here any number of senders share a
    connection with the receiver thread, and the mutex's invariant says what is
    on the wire whenever it is free. *)
From S2P Require Import Prelude Bytes FrameProtocol Platform TransportInterface TcpTransport Threads TcpThreads TcpRoles.

(** The frame an entry of the journal stands for, with its sequence number. *)
Definition entry_frame (q : Z) (e : Entry) : TransportFrame := outgoing_frame (e_type e) q (e_payload e).
Definition seq_of (q0 : Z) (k : nat) : Z := u32 (q0 + Z.of_nat k).

(** What a call put on the wire: the whole frame, or less and it failed. *)
Definition entry_good (q : Z) (e : Entry) : Prop :=
  if Z.of_nat (length (e_payload e)) >? MAX_PAYLOAD_SIZE then e_ok e = false /\ e_out e = []
  else sent_part (e_ok e) (frame_layout (entry_frame q e)) (e_out e).

(** A call with its result and what it left in the journal. *)
Definition told (t : TransportMessageType) (payload : list byte) (b : bool) (es : list Entry) : Prop :=
  b = false /\ es = [] \/
  exists e, es = [e] /\ e_type e = t /\ e_payload e = payload /\ e_ok e = b.
Inductive tells : list (TransportMessageType * list byte) -> list bool -> list Entry -> Prop :=
| tells_nil : tells [] [] []
| tells_cons t payload b es frames bs rest :
    told t payload b es -> tells frames bs rest -> tells ((t, payload) :: frames) (b :: bs) (es ++ rest).

Lemma seq_of_next q0 k : u32 (seq_of q0 k + 1) = seq_of q0 (S k).
Proof. unfold seq_of, u32, wrap. rewrite Zplus_mod_idemp_l. f_equal. lia. Qed.

Section Sends.
Context {W : Type} `{HS : Winsock W} `{HWM : WinsockModel W} `{HWL : !WinsockLaws W}.
Abbreviation SH := (Shared W).
Implicit Types (s : SH).
Abbreviation mx s := (m_sendMutex (sync s)).
Abbreviation log s := (journal (sync s)).
Abbreviation seq s := (m_sequenceCounter (tcp s)).
Abbreviation client s := (m_clientSocket (tcp s)).

(** The connection, what it had carried before, and the sequence number then. *)
Context (c : handle) (out0 : list byte) (q0 : Z).
Abbreviation out s := (sent (system s) c).

(** The mutex's invariant. *)
Definition wired s : Prop :=
  out s = out0 ++ concat (e_out <$> log s) /\ seq s = seq_of q0 (length (log s)) /\
  forall k e, log s !! k = Some e -> entry_good (seq_of q0 k) e.

(** Thread [i] writes and counts only while it holds the mutex, and restores the
    invariant, with an entry of its own, when it lets go. *)
Definition same_wire s s' : Prop := out s' = out s /\ seq s' = seq s /\ log s' = log s.
Record sends (i : nat) s s' : Prop := {
  sends_client : client s' = client s;
  sends_mutex : mutex_by i s s';
  sends_outside : mx s <> Some i -> same_wire s s';
  sends_inside : mx s = Some i -> mx s' = Some i -> log s' = log s;
  sends_release : mx s = Some i -> mx s' = None ->
    wired s' /\ exists e, e_thread e = i /\ log s' = log s ++ [e];
}.
Definition lets (i : nat) s s' : Prop := exists i', i' <> i /\ sends i' s s'.

Lemma sends_lets i j s s' : i <> j -> sends i s s' -> lets j s s'.
Proof. intros N H. by exists i. Qed.

(** What thread [i] knows outside the mutex, [mine] being its entries so far. *)
Definition outside (i : nat) (mine : list Entry) s : Prop :=
  ours i s /\ client s = c /\ (mx s = None -> wired s) /\
  filter (fun e => e_thread e = i) (log s) = mine.
(** And inside. *)
Definition inside (i : nat) (x : list byte) (es : list Entry) (q : Z) s : Prop :=
  mx s = Some i /\ client s = c /\ out s = x /\ log s = es /\ seq s = q.

Lemma wired_same s s' : same_wire s s' -> wired s -> wired s'.
Proof. intros (E1 & E2 & E3). unfold wired. by rewrite E1, E2, E3. Qed.

Lemma stable_outside i mine : stable (lets i) (outside i mine).
Proof.
  intros s s' (i' & N & [C M O I Re]) (U & Ec & Wi & F). destruct (decide (mx s = Some i')) as [E|E].
  - destruct M as [M|[[? _]|[_ M]]]; [|congruence|].
    + rewrite E in M. specialize (I E M). split_and!; [unfold ours; congruence..| |by rewrite I].
      intros ?; congruence.
    + destruct (Re E M) as [Wi' (e & Ee & L)]. split_and!; [unfold ours; congruence|congruence|done|].
      rewrite L, filter_app, F, filter_cons_False, filter_nil by congruence. apply app_nil_r.
  - pose proof (O E) as Sw. split_and!; [|congruence| |by destruct Sw as (_ & _ & ->)].
    + destruct M as [M|[[_ M]|[? _]]]; unfold ours in *; congruence.
    + intros M'. apply (wired_same s); [done|]. apply Wi.
      destruct M as [M|[[_ M]|[? _]]]; congruence.
Qed.

Lemma stable_inside i x es q : stable (lets i) (inside i x es q).
Proof.
  intros s s' (i' & N & [C M O I Re]) (U & Ec & Ex & El & Eq).
  destruct O as (O1 & O2 & O3); [congruence|]. split_and!; try congruence.
  destruct M as [M|[[? _]|[? _]]]; congruence.
Qed.

(** Thread 0, the receiver, waits for its peer too. *)
Definition held_up (i : nat) s : Prop := held i s \/ i = 0%nat /\ ours 0 s.
Abbreviation run i t Q s := (rg (lets i) (sends i) (held_up i) t Q s).

(** Steps that leave the wire alone. *)
Lemma sends_same i s s' :
  client s' = client s -> mx s' = mx s -> same_wire s s' -> sends i s s'.
Proof. intros C M Sw. split; [done|by left|done|intros _ _; apply Sw|congruence]. Qed.

Lemma outside_same i mine s s' :
  client s' = client s -> mx s' = mx s -> same_wire s s' -> outside i mine s -> outside i mine s'.
Proof.
  intros C M Sw (U & Ec & Wi & F). split_and!; [unfold ours; congruence|congruence| |by destruct Sw as (_ & _ & ->)].
  intros M'. apply (wired_same s); [done|]. apply Wi. congruence.
Qed.

Lemma outside_act {X A} i mine (m : Proc SH X) (k : X -> Thread SH A) (Qa : A -> SH -> Prop) s :
  (forall s, wp m (fun _ s' => client s' = client s /\ mx s' = mx s /\ same_wire s s') s) ->
  outside i mine s -> (forall x s, outside i mine s -> run i (k x) Qa s) -> run i (let@ x := act m in k x) Qa s.
Proof.
  intros Hm H K. apply (rg_act _ _ _ (outside i mine)); [apply stable_outside|done|]. clear s H. intros s H.
  eapply wp_mono; [apply Hm|]. intros x s' (C & M & Sw). split; [by apply sends_same|].
  apply K. by eapply outside_same.
Qed.

Lemma outside_read {X A} i mine (f : TcpTransport -> X) (k : X -> Thread SH A) (Qa : A -> SH -> Prop) s :
  outside i mine s -> (forall x s, outside i mine s -> run i (k x) Qa s) -> run i (let@ x := read f in k x) Qa s.
Proof. apply outside_act. intros s'. by split_and!. Qed.

Lemma outside_done {A} i mine (a : A) (Qa : A -> SH -> Prop) s :
  outside i mine s -> (forall s, outside i mine s -> Qa a s) -> run i (Done a) Qa s.
Proof. intros H K. by apply (rg_done _ _ _ _ (outside i mine)); [apply stable_outside|..]. Qed.

(** *** Inside the mutex *)
Lemma inside_read_client {A} i x es q (k : handle -> Thread SH A) (Qa : A -> SH -> Prop) s :
  inside i x es q s -> (forall s, inside i x es q s -> run i (k c) Qa s) ->
  run i (let@ h := read m_clientSocket in k h) Qa s.
Proof.
  intros H K. apply (rg_act _ _ _ (inside i x es q)); [apply stable_inside|done|]. clear s H. intros s H.
  pose proof H as (_ & Ec & _). cbn. unfold wpx. rewrite Ec. split; [by apply sends_same|by apply K].
Qed.

Lemma inside_disconnect {A} i x es q (k : unit -> Thread SH A) (Qa : A -> SH -> Prop) s :
  inside i x es q s -> (forall s, inside i x es q s -> run i (k tt) Qa s) ->
  run i (let@ u := write (with_isConnected false) in k u) Qa s.
Proof.
  intros H K. apply (rg_act _ _ _ (inside i x es q)); [apply stable_inside|done|]. clear s H. intros s H.
  split; [by apply sends_same|]. apply K. by destruct H as (?&?&?&?&?).
Qed.

Lemma inside_step i x es q x' q' s s' :
  inside i x es q s -> inside i x' es q' s' -> sends i s s'.
Proof.
  intros (M & Ec & _ & El & _) (M' & Ec' & _ & El' & _).
  split; [congruence|left; congruence|congruence|congruence|congruence].
Qed.

Lemma inside_sequence {A} i x es q (k : Z -> Thread SH A) (Qa : A -> SH -> Prop) s :
  inside i x es q s -> (forall s, inside i x es (u32 (q + 1)) s -> run i (k q) Qa s) ->
  run i (let@ n := next_sequence in k n) Qa s.
Proof.
  intros H K. apply (rg_act _ _ _ (inside i x es q)); [apply stable_inside|done|]. clear s H. intros s H.
  assert (H' : inside i x es (u32 (q + 1)) (put (with_sequenceCounter (u32 (seq s + 1)) (tcp s)) s)).
  { destruct H as (M & Ec & Ex' & El & Eq'). split_and!; try done. cbn. by rewrite Eq'. }
  unfold wpx. cbn. replace (seq s) with q in * by (by destruct H as (_ & _ & _ & _ & ->)).
  split; [by eapply inside_step|]. by apply K.
Qed.

Lemma inside_send {A} i x es q data (k : Z -> Thread SH A) (Qa : A -> SH -> Prop) s :
  inside i x es q s ->
  (forall r s, r <= Z.of_nat (length data) -> inside i (x ++ take (Z.to_nat r) data) es q s -> run i (k r) Qa s) ->
  run i (let@ r := os (send c data) in k r) Qa s.
Proof.
  intros H K. apply (rg_act _ _ _ (inside i x es q)); [apply stable_inside|done|]. clear s H. intros s H.
  apply (wp_sys False). intros r w E. change (view s) with (system s) in E.
  pose proof (send_law c data (system s)) as L. rewrite E in L. destruct L as (_ & _ & P & N).
  assert (H' : inside i (x ++ take (Z.to_nat r) data) es q (put w s)).
  { destruct H as (M & Ec & Ex & El & Eq). split_and!; [done|done| |done|done]. cbn.
    destruct (Z.ltb_spec 0 r) as [R|R]; [rewrite <- Ex; by apply P|].
    rewrite N by done. replace (Z.to_nat r) with 0%nat by lia. cbn. by rewrite app_nil_r. }
  split; [by eapply inside_step|]. apply K; [|done].
  destruct (Z.ltb_spec 0 r); [by apply P | lia].
Qed.

Lemma send_loop_inside fuel i x es q data tot s :
  0 <= tot <= Z.of_nat (length data) -> Z.of_nat (length data) - tot <= Z.of_nat fuel ->
  inside i (x ++ take (Z.to_nat tot) data) es q s ->
  run i (th_send_loop fuel data tot)
    (fun '(ok, tot') s => inside i (x ++ take (Z.to_nat tot') data) es q s /\
       sent_part ok data (take (Z.to_nat tot') data)) s.
Proof.
  assert (All : forall tot s, inside i (x ++ take (Z.to_nat tot) data) es q s -> Z.of_nat (length data) <= tot ->
    run i (Done (true, tot)) (fun '(ok, tot') s => inside i (x ++ take (Z.to_nat tot') data) es q s /\
       sent_part ok data (take (Z.to_nat tot') data)) s).
  { clear. intros tot s H L. apply (rg_done _ _ _ _ (inside i (x ++ take (Z.to_nat tot) data) es q));
      [apply stable_inside|done|]. intros s' H'. split; [done|]. cbn. by rewrite take_ge by lia. }
  revert tot s. induction fuel as [|fuel IH]; intros tot s Ht Hf H; cbn [th_send_loop]; [apply All; [done | lia]|].
  destruct (Z.ltb_spec tot (Z.of_nat (length data))) as [L|L]; cbn [negb]; [|by apply All].
  apply (inside_read_client i (x ++ take (Z.to_nat tot) data) es q); [done|]. clear s H. intros s H.
  eapply inside_send; [exact H|]. clear s H. intros r s Lr H. rewrite length_drop in Lr.
  destruct (Z.leb_spec r 0) as [R|R].
  - replace (Z.to_nat r) with 0%nat in H by lia. cbn in H. rewrite app_nil_r in H.
    eapply inside_disconnect; [exact H|]. clear s H. intros s H.
    apply (rg_done _ _ _ _ (inside i (x ++ take (Z.to_nat tot) data) es q)); [apply stable_inside|done|].
    clear s H. intros s H. split; [done|]. exists (drop (Z.to_nat tot) data). rewrite take_drop. split; [|done].
    intros Em. apply (f_equal length) in Em. revert Em. len.
  - apply IH; [lia..|]. rewrite <- app_assoc in H. rewrite take_take_drop in H.
    by replace (Z.to_nat (tot + r)) with (Z.to_nat tot + Z.to_nat r)%nat by lia.
Qed.

(** Letting go, with the invariant restored. *)
Lemma inside_unlock {A} i x es q e mine (k : unit -> Thread SH A) (Qa : A -> SH -> Prop) s :
  inside i x es q s -> e_thread e = i -> x = out0 ++ concat (e_out <$> es ++ [e]) ->
  q = seq_of q0 (length (es ++ [e])) ->
  (forall j e', (es ++ [e]) !! j = Some e' -> entry_good (seq_of q0 j) e') ->
  filter (fun e => e_thread e = i) es = mine ->
  (forall s, outside i (mine ++ [e]) s -> run i (k tt) Qa s) ->
  run i (let@ u := unlock e in k u) Qa s.
Proof.
  intros H Ee Ex Eq Good F K. apply (rg_act _ _ _ (inside i x es q)); [apply stable_inside|done|]. clear s H.
  intros s (M & Ec & Exs & El & Eqs). cbn. unfold wpx.
  set (s' := with_sync (with_entry e (with_mutex None (sync s))) s).
  assert (Wi : wired s').
  { unfold wired. cbn. by rewrite El, Exs, Eqs. }
  split.
  - split; [done|right; by right|done|done|]. intros _ _. split; [done|]. by exists e.
  - apply K. split_and!; [done|done|done|]. cbn. rewrite El, filter_app, F, filter_cons_True, filter_nil by done. done.
Qed.

Lemma good_snoc es e :
  (forall j e', es !! j = Some e' -> entry_good (seq_of q0 j) e') -> entry_good (seq_of q0 (length es)) e ->
  forall j e', (es ++ [e]) !! j = Some e' -> entry_good (seq_of q0 j) e'.
Proof.
  intros Good G j e' E. apply lookup_app_Some in E as [E|[L E]]; [by apply Good|].
  apply list_lookup_singleton_Some in E as [Ej <-]. by replace j with (length es) by lia.
Qed.

Lemma concat_snoc (es : list Entry) e : concat (e_out <$> es ++ [e]) = concat (e_out <$> es) ++ e_out e.
Proof. rewrite fmap_app, concat_app. cbn. by rewrite app_nil_r. Qed.

Lemma SendFrame_sends i t payload mine s :
  outside i mine s ->
  run i (th_SendFrame i t payload) (fun b s => exists es, told t payload b es /\ outside i (mine ++ es) s) s.
Proof.
  intros H. unfold th_SendFrame.
  assert (Refuse : forall s, outside i mine s ->
    run i (Done false) (fun b s => exists es, told t payload b es /\ outside i (mine ++ es) s) s).
  { clear s H. intros s H. eapply outside_done; [exact H|]. clear s H. intros s H. exists [].
    rewrite app_nil_r. split; [by left | done]. }
  eapply outside_read; [exact H|]. clear s H. intros connected s H. destruct (negb connected); [by apply Refuse|].
  eapply outside_read; [exact H|]. clear s H. intros h s H. destruct (h =? INVALID_SOCKET); [by apply Refuse|].
  apply (rg_await _ _ _ (outside i mine)); [apply stable_outside|done|]. clear s H.
  intros s (U & Ec & Wi & F). destruct (mx s) as [j|] eqn:Em; [left; by split; [|rewrite Em]|].
  destruct (Wi eq_refl) as (Ex & Eq & Good).
  split; [split; [done|right; by left|done|congruence|congruence]|]. set (s1 := with_sync _ s).
  assert (H : inside i (out s) (log s) (seq s) s1) by (by split_and!).
  revert H. generalize (log s) (seq s) (out s) Ex Eq Good F. clearbody s1. clear s U Ec Wi Em Ex Eq Good F.
  rename s1 into s. intros es q x Ex Eq Good F H.
  (* the sequence number *)
  eapply inside_sequence; [exact H|]. clear s H. intros s H.
  assert (Eq1 : forall e, u32 (q + 1) = seq_of q0 (length (es ++ [e]))).
  { intros e. rewrite Eq, seq_of_next, length_app. cbn. f_equal. lia. }
  assert (Fin : forall e s x', inside i x' es (u32 (q + 1)) s -> e_thread e = i -> e_type e = t -> e_payload e = payload ->
    x' = x ++ e_out e -> entry_good q e ->
    run i (unlock e ;@ Done (e_ok e)) (fun b s => exists es, told t payload b es /\ outside i (mine ++ es) s) s).
  { clear s H. intros e s x' H Ei Et Ep Ex' G. eapply (inside_unlock i x' es _ e mine); [exact H|done| |done| |done|].
    - rewrite concat_snoc, app_assoc. by rewrite <- Ex.
    - apply good_snoc; [done|]. by rewrite <- Eq.
    - clear s H. intros s H. eapply outside_done; [exact H|]. clear s H. intros s H. exists [e].
      split; [right; by exists e | done]. }
  destruct (Z.gtb_spec (Z.of_nat (length payload)) MAX_PAYLOAD_SIZE) as [O|O].
  - rewrite SerializeFrame_oversize by (cbn; lia). cbn [local tbind].
    match goal with |- context[unlock ?e] => apply (Fin e s x) end; try done; [by rewrite app_nil_r|].
    unfold entry_good. cbn. by replace (_ >? _) with true by lia.
  - rewrite SerializeFrame_layout by (cbn; lia). cbn [local tbind].
    set (d := frame_layout (outgoing_frame t q payload)).
    assert (L : (18 <= length d)%nat) by (unfold d; rewrite length_frame_layout; lia).
    assert (G : forall ok tot, sent_part ok d (take (Z.to_nat tot) d) -> entry_good q
      {| e_thread := i; e_type := t; e_payload := payload; e_out := take (Z.to_nat tot) d; e_ok := ok |}).
    { intros ok tot P. unfold entry_good. cbn. by replace (_ >? _) with false by lia. }
    clearbody d. destruct d as [|b0 d']; [cbn in L; lia|]. remember (b0 :: d') as d eqn:Ed. clear Ed.
    eapply rg_seq; [apply (send_loop_inside (length d) i x es (u32 (q + 1)) d 0 s); [lia..|]|].
    { cbn. by rewrite app_nil_r. }
    intros [ok tot] s' [H' P]. eapply Fin; [exact H'|done..|]. by apply G.
Qed.

Lemma sends_spec i frames mine s :
  outside i mine s ->
  run i (th_sends i frames) (fun bs s => exists es, tells frames bs es /\ outside i (mine ++ es) s) s.
Proof.
  revert mine s. induction frames as [|[t payload] frames IH]; intros mine s H; cbn [th_sends].
  - eapply outside_done; [exact H|]. clear s H. intros s H. exists []. rewrite app_nil_r. split; [constructor | done].
  - eapply rg_seq; [exact (SendFrame_sends i t payload mine s H)|]. cbn beta. clear s H. intros b s (es & T & H).
    eapply rg_seq; [exact (IH _ _ H)|]. cbn beta. clear s H. intros bs s (es' & T' & H).
    eapply outside_done; [exact H|]. clear s H. intros s H. exists (es ++ es'). rewrite app_assoc.
    split; [by constructor | done].
Qed.

(** ** The receiver and its callbacks *)
Definition sending (i : nat) {A} (t : Thread SH A) : Prop :=
  forall mine s, outside i mine s -> run i t (fun _ s => exists es, outside i (mine ++ es) s) s.

Lemma SendFrame_sending i t payload : sending i (th_SendFrame i t payload).
Proof. intros mine s H. eapply rg_mono; [exact (SendFrame_sends i t payload mine s H)|]. intros b s' (es & _ & K). eauto. Qed.

Lemma sending_act {X} i (m : Proc SH X) :
  (forall s, wp m (fun _ s' => client s' = client s /\ mx s' = mx s /\ same_wire s s') s) -> sending i (act m).
Proof.
  intros Hm mine s H. apply (rg_atom _ _ _ (outside i mine)); [apply stable_outside|done|].
  clear s H. intros s H. specialize (Hm s). unfold wpx in Hm. destruct (m s) as [[x s']|]; [|done].
  destruct Hm as (C & M & Sw). split; [by apply sends_same|]. eapply outside_done.
  - by eapply outside_same.
  - intros s2 H2. exists []. by rewrite app_nil_r.
Qed.

#[export] Instance sending_class i : ThreadClass W (fun A => @sending i A).
Proof.
  split.
  - intros A a mine s H. eapply outside_done; [exact H|]. clear s H. intros s H. exists []. by rewrite app_nil_r.
  - intros A C t k T K mine s H. eapply rg_seq; [exact (T mine s H)|]. cbn beta. intros a s' (es & H').
    eapply rg_mono; [exact (K a _ _ H')|]. cbn beta. intros _ s2 (es2 & H2). exists (es ++ es2). by rewrite app_assoc.
  - intros X f. apply sending_act. intros s. by split_and!.
  - apply sending_act. intros s. by split_and!.
Qed.

Lemma running_sending i : sending i read_running.
Proof. apply sending_act. intros s. unfold wpx. cbn. by destruct (m_isRunning (tcp s)); split_and!. Qed.
Lemma recv_sending `{HB : Blocking W} h k : sending 0 (th_recv h k).
Proof.
  intros mine s H. apply (rg_atom _ _ _ (outside 0 mine)); [apply stable_outside|done|]. clear s H. intros s H.
  assert (Go : forall x s', client s' = client s -> mx s' = mx s -> same_wire s s' ->
    sends 0 s s' /\ run 0 (Done (x : Z * list byte)) (fun _ s => exists es, outside 0 (mine ++ es) s) s').
  { intros x s' C M Sw. split; [by apply sends_same|]. eapply outside_done; [by eapply outside_same|].
    intros s2 H2. exists []. by rewrite app_nil_r. }
  destruct (negb (is_open h s)); [by apply Go|].
  destruct (recv_ready h (system s)); [|right; split; [done | apply H]].
  pose proof (recv_law h k (system s)) as L. unfold sys, zoom, pcall. change (view s) with (system s).
  destruct (recv h k (system s)) as [[r buf] w]. destruct L as (_ & L & _).
  apply Go; [done|done|]. split_and!; [cbn; by rewrite L|done|done].
Qed.
Lemma stuck_sending : sending 0 (@out_of_fuel W unit).
Proof.
  intros mine s H. apply (rg_atom _ _ _ (outside 0 mine)); [apply stable_outside|done|].
  clear s H. intros s H. right. split; [done | apply H].
Qed.
End Sends.

(** Callbacks whose only dealings with the connection are to send. *)
Class SendingListener (W : Type) `{Winsock W, WinsockModel W, ThreadListener W} : Prop :=
  sending_callbacks c out0 q0 i :: CallbackClass W (fun A => @sending W _ c out0 q0 i A) i.

(** ** A connection in use: its receiver and some senders *)
Section Connection.
Context {W : Type} `{HS : Winsock W} `{HWM : WinsockModel W} `{HWL : !WinsockLaws W} `{HB : Blocking W}
        `{HLi : ThreadListener W} `{HSL : !SendingListener W}.

Definition connection (fuel : nat) (senders : list (list (TransportMessageType * list byte)))
    : list (Thread (Shared W) (list bool)) :=
  (th_ReceiverWorker 0 fuel ;@ Done []) :: imap (fun k frames => th_sends (S k) frames) senders.

Context (senders : list (list (TransportMessageType * list byte))) (c : handle) (out0 : list byte) (q0 : Z).

(** Each sender's results are about its own entries. *)
Definition sender_told (i : nat) (bs : list bool) (s : Shared W) : Prop :=
  exists mine, outside c out0 q0 i mine s /\
    forall k frames, i = S k -> senders !! k = Some frames -> tells frames bs mine.

Lemma connection_specified fuel s :
  m_clientSocket (tcp s) = c -> m_sendMutex (sync s) = None -> journal (sync s) = [] -> wired c out0 q0 s ->
  specified (lets c out0 q0) (sends c out0 q0) held_up sender_told (s, connection fuel senders).
Proof.
  intros Ec Em Ej Wi. assert (O : forall i, outside c out0 q0 i [] s).
  { intros i. split_and!; [by unfold ours; rewrite Em|done|done|by rewrite Ej]. }
  intros [|k] t E; cbn [fst snd] in *.
  - injection E as <-.
    eapply rg_seq; [exact (receive_class (fun A => @sending W _ c out0 q0 0 A) 0 fuel [] (running_sending _ _ _ 0)
      (recv_sending c out0 q0) (stuck_sending c out0 q0) [] s (O 0%nat))|].
    cbn beta. intros ? s' (es & H). eapply outside_done; [exact H|]. intros s2 H2. exists ([] ++ es).
    split; [done|]. intros k frames [=].
  - change (imap (fun k frames => th_sends (S k) frames) senders !! k = Some t) in E. rewrite list_lookup_imap in E. destruct (senders !! k) as [frames|] eqn:Es; [|done]. injection E as <-.
    eapply rg_mono; [exact (sends_spec c out0 q0 (S k) frames [] s (O (S k)))|].
    cbn beta. intros bs s' (es & T & H). exists ([] ++ es). split; [done|].
    intros k' frames' [= <-] Es'. by simplify_eq.
Qed.

Lemma sends_keep i s s' :
  sends c out0 q0 i s s' -> (m_sendMutex (sync s) = None -> wired c out0 q0 s) ->
  m_sendMutex (sync s') = None -> wired c out0 q0 s'.
Proof.
  intros [_ M O I Re] Wi E. destruct (decide (m_sendMutex (sync s) = Some i)) as [Ei|Ni]; [by apply Re|].
  apply (wired_same c out0 q0 s); [by apply O|]. apply Wi. destruct M as [M|[[? _]|[? _]]]; congruence.
Qed.

Lemma holder_in_pool fuel s c' j :
  specified (lets c out0 q0) (sends c out0 q0) held_up sender_told (s, connection fuel senders) ->
  m_sendMutex (sync s) = None -> rtc pool_step (s, connection fuel senders) c' ->
  m_sendMutex (sync c'.1) = Some j -> (j < length c'.2)%nat.
Proof.
  intros Sp0 Em R. revert j. rewrite <- (pool_steps_length _ _ R).
  refine (specified_invariant _ _ _ _ (sends_lets c out0 q0)
    (fun N s => forall j, m_sendMutex (sync s) = Some j -> (j < N)%nat) _ _ _ Sp0 _ R); [|cbn; congruence].
  intros N i s1 s2 L [_ M _ _ _] H j E. destruct M as [M|[[_ M]|[_ M]]]; [apply H | ..]; congruence.
Qed.

(** When nothing moves the senders are done; the receiver may wait for its peer. *)
Definition senders_done (c' : Shared W * list (Thread (Shared W) (list bool))) : Prop :=
  forall k t, c'.2 !! S k = Some t -> is_done t.

Lemma connection_settles fuel s c' :
  specified (lets c out0 q0) (sends c out0 q0) held_up sender_told (s, connection fuel senders) ->
  m_sendMutex (sync s) = None -> rtc pool_step (s, connection fuel senders) c' -> nf pool_step c' ->
  senders_done c' /\ m_sendMutex (sync c'.1) = None.
Proof.
  intros Sp0 Em R Nf. pose proof (specified_steps _ _ _ _ (sends_lets c out0 q0) _ _ Sp0 R) as Sp.
  assert (Pr : forall i t, c'.2 !! i = Some t ->
    m_sendMutex (sync c'.1) <> Some i /\ (is_done t \/ i = 0%nat \/ is_Some (m_sendMutex (sync c'.1)))).
  { intros i t E. destruct (specified_progress _ _ _ _ c' i t Sp E) as [(a & -> & mine & O & _)|[[[U B]|[-> U]]|St]]; auto.
    - split; [apply O | by left].
    - by destruct Nf. }
  assert (Em' : m_sendMutex (sync c'.1) = None).
  { destruct (m_sendMutex (sync c'.1)) as [j|] eqn:E; [|done].
    destruct (lookup_lt_is_Some_2 c'.2 j (holder_in_pool _ _ _ _ Sp0 Em R E)) as [t Et].
    destruct (Pr j t Et) as [N _]; congruence. }
  split; [|done]. intros k t E. destruct (Pr (S k) t E) as [_ [D|[?|H]]]; [done|done|].
  rewrite Em' in H. by destruct H.
Qed.
End Connection.

(** ** The peer's view *)
Definition sent_frame (f : nat -> Z) (k : nat) (e : Entry) : list byte * TransportFrame := ([], entry_frame (f k) e).

Lemma good_stream (f : nat -> Z) es :
  (forall k e, es !! k = Some e -> entry_good (f k) e) -> Forall (fun e => e_ok e = true) es ->
  stream (imap (sent_frame f) es) = concat (e_out <$> es).
Proof.
  revert f. induction es as [|e es IH]; intros f Good Ok; [done|]. inversion Ok as [|? ? Oe Oes]; subst.
  rewrite imap_cons. unfold stream in *. rewrite !fmap_cons. cbn [concat fst snd sent_frame app].
  f_equal; [|apply (IH (fun k => f (S k))); [intros k e' E; exact (Good (S k) e' E) | done]].
  specialize (Good 0%nat e eq_refl). unfold entry_good in Good. destruct (_ >? _); [destruct Good; congruence|].
  rewrite Oe in Good. done.
Qed.

Lemma good_small (f : nat -> Z) es :
  (forall k e, es !! k = Some e -> entry_good (f k) e) -> Forall (fun e => e_ok e = true) es ->
  (forall k, 0 <= f k < 2 ^ 32) ->
  Forall (fun gf => small_frame gf.2 /\ no_magic gf.1 (frame_layout gf.2)) (imap (sent_frame f) es).
Proof.
  intros Good Ok R. apply Forall_lookup. intros k gf E. rewrite list_lookup_imap in E.
  destruct (es !! k) as [e|] eqn:Ee; [|done]. injection E as <-. cbn.
  specialize (Good k e Ee). unfold entry_good in Good. assert (e_ok e = true) by (by eapply (Forall_lookup_1 _ _ _ _ Ok)).
  destruct (Z.gtb_spec (Z.of_nat (length (e_payload e))) MAX_PAYLOAD_SIZE); [destruct Good; congruence|].
  split.
  - split; [|cbn; lia]. by split; try apply R.
  - intros i Hi. cbn in Hi. lia.
Qed.

Lemma peer_receives (f : nat -> Z) es chunks :
  (forall k e, es !! k = Some e -> entry_good (f k) e) -> Forall (fun e => e_ok e = true) es ->
  concat chunks = concat (e_out <$> es) -> (forall k, 0 <= f k < 2 ^ 32) ->
  rx_chunks [] chunks = imap (fun k e => EvFrame (received (entry_frame (f k) e))) es.
Proof.
  intros Good Ok Ec R. rewrite rx_chunks_concat by done. cbn [app]. rewrite Ec, <- (good_stream f es) by done.
  rewrite rx_stream by (by apply good_small). cbn [fst]. unfold stream_events. clear.
  revert f. induction es as [|e es IH]; intros f; [done|].
  rewrite !imap_cons, fmap_cons. cbn. f_equal. apply (IH (fun k => f (S k))).
Qed.

(** * Properties *)

(** C7: frames sent by several threads at once.  On a connection, the receiver
    thread, whose callbacks may send too, and any number of senders run in any
    interleaving of their accesses, on any network.  Nothing undefined happens,
    and when nothing can move any more all senders are done.  Whenever the mutex
    is free, the wire carries exactly what the calls that took it wrote, one after
    the other in the order of their sequence numbers: the whole frame of each call
    that returns true, and of each call that fails a part of its frame, which the
    next frame then follows.  Each sender's results are about its own calls.  If
    no call failed, a peer that reads the stream in any segments receives exactly
    those frames in that order. *)
Theorem concurrent_sends {W : Type} `{HS : Winsock W} `{HWM : WinsockModel W} `{HWL : !WinsockLaws W}
    `{HB : Blocking W} `{HLi : ThreadListener W} `{HSL : !SendingListener W} fuel senders (s : Shared W) c' :
  let c := m_clientSocket (tcp s) in
  let q0 := m_sequenceCounter (tcp s) in
  0 <= q0 < 2 ^ 32 -> m_sendMutex (sync s) = None -> journal (sync s) = [] ->
  rtc pool_step (s, connection fuel senders) c' ->
  let es := journal (sync c'.1) in
  ~ goes_wrong c' /\ sn pool_step c' /\
  (nf pool_step c' -> senders_done c' /\ m_sendMutex (sync c'.1) = None) /\
  (m_sendMutex (sync c'.1) = None ->
    sent (system c'.1) c = sent (system s) c ++ concat (e_out <$> es) /\
    (forall k e, es !! k = Some e -> entry_good (seq_of q0 k) e) /\
    forall chunks, Forall (fun e => e_ok e = true) es -> concat chunks = concat (e_out <$> es) ->
      rx_chunks [] chunks = imap (fun k e => EvFrame (received (entry_frame (seq_of q0 k) e))) es) /\
  forall k frames bs, senders !! k = Some frames -> c'.2 !! S k = Some (Done bs) ->
    tells frames bs (filter (fun e => e_thread e = S k) es).
Proof.
  intros c q0 Hq Em Ej R es. set (out0 := sent (system s) c).
  assert (Wi : wired c out0 q0 s).
  { unfold wired. rewrite Ej. split_and!; [by rewrite app_nil_r| |done].
    cbn. unfold seq_of, u32, wrap. rewrite Z.add_0_r. by rewrite Z.mod_small. }
  pose proof (connection_specified senders c out0 q0 fuel s eq_refl Em Ej Wi) as Sp0.
  pose proof (specified_steps _ _ _ _ (sends_lets c out0 q0) _ _ Sp0 R) as Sp.
  assert (Wi' : m_sendMutex (sync c'.1) = None -> wired c out0 q0 c'.1).
  { refine (specified_invariant _ _ _ _ (sends_lets c out0 q0)
      (fun _ s => m_sendMutex (sync s) = None -> wired c out0 q0 s) _ _ _ Sp0 _ R); [|done].
    intros. by eapply sends_keep. }
  split_and!.
  - by eapply specified_safe.
  - apply runs_finite.
  - by eapply connection_settles.
  - intros E. destruct (Wi' E) as (Eo & _ & Good). split; [done|]. split; [done|]. intros chunks Ok Ec.
    apply peer_receives; [done..|]. intros k. apply wrap_range. lia.
  - intros k frames bs Es E. destruct (specified_done _ _ _ _ c' (S k) bs Sp E) as (mine & (_ & _ & _ & F) & T).
    unfold es. rewrite F. by eapply T.
Qed.

(** * Witnesses *)
From S2P Require Import Simulator.

#[local] Existing Instance echo.
#[local] Instance echo_sending : SendingListener Sim.
Proof.
  intros c out0 q0 i. pose proof (sending_class c out0 q0 i) as Cl.
  split; intros; [|exact (class_done (ThreadClass:=Cl) tt)..].
  refine (class_bind (ThreadClass:=Cl) _ _ _ (fun _ => class_done (ThreadClass:=Cl) tt)).
  apply SendFrame_sending.
Qed.

(** Two senders; the phone's frame is echoed by the receiver. *)
Definition busy_senders : list (list (TransportMessageType * list byte)) :=
  [[(UNLOCK_REQ, [x01]); (UNLOCK_REQ, [x02])]; [(UNLOCK_RESP, [x03])]].
Definition busy (quota : list Z) : Shared Sim :=
  {| tcp := with_isRunning true demo_tcp; sync := new_Sync;
     system := set_quota quota (set_inbox [frame_layout demo_frame] sim0) |}.

Lemma concurrent_sends_witness :
  exists c', rtc pool_step (busy [5], connection 8 busy_senders) c' /\ nf pool_step c' /\ senders_done c' /\
    sent (system c'.1) 9 = concat (e_out <$> journal (sync c'.1)).
Proof.
  destruct (runs_settle (busy [5], connection 8 busy_senders)) as (c' & R & N).
  destruct (concurrent_sends 8 busy_senders (busy [5]) c' ltac:(split; [discriminate | reflexivity]) eq_refl eq_refl R)
    as (_ & _ & End & Wire & _).
  destruct (End N) as [D M]. destruct (Wire M) as [E _].
  exists c'. split; [done|]. split; [done|]. split; [done|]. exact E.
Defined.

(** [SendFrame] looks at [m_isConnected] before it waits for the mutex: a sender
    that waits while another one's frame breaks off still sends.  The peer gets
    the rest of the broken frame from the next one and drops the connection. *)
Definition break_schedule : list nat :=
  replicate 2 1%nat ++ replicate 2 2%nat ++ replicate 8 1%nat ++ replicate 5 2%nat.
Definition broken_wire : list byte :=
  take 5 (frame_layout (outgoing_frame UNLOCK_REQ 1 [x01])) ++ frame_layout (outgoing_frame UNLOCK_RESP 2 [x03]).
Definition breaks (c' : Shared Sim * list (Thread (Shared Sim) (list bool))) : bool :=
  bool_decide (m_sendMutex (sync c'.1) = None /\ m_isConnected (tcp c'.1) = false /\
    sent (system c'.1) 9 = broken_wire /\ e_ok <$> journal (sync c'.1) = [false; true]).

Example whole_after_part :
  (exists c', rtc pool_step (busy [5; 0], connection 8 busy_senders) c' /\
     m_isConnected (tcp c'.1) = false /\ sent (system c'.1) 9 = broken_wire /\
     e_ok <$> journal (sync c'.1) = [false; true]) /\
  (rx broken_wire).1 = [EvOversize].
Proof.
  split; [|vm_compute; reflexivity].
  destruct (reaches_spec break_schedule breaks (busy [5; 0], connection 8 busy_senders)) as (c' & R & T);
    [vm_compute; reflexivity|].
  exists c'. split; [done|]. apply bool_decide_eq_true in T as (_ & D & E & O). done.
Qed.
