(* ===== verification/TcpSockets.v ===== *)
(** * TcpSockets: the sockets of the TCP transport

    Theorems about the whole of windows/common/TcpTransport.cpp as modelled in
    TcpTransport: whatever sequence of calls the program makes and whenever the
    worker thread gets to run between them, the open sockets are those of the
    rest of the program and the ones the transport's members hold. *)
From S2P Require Import Prelude Bytes FrameProtocol Platform TransportInterface TcpTransport TcpWorker.

(** ** Calls *)
Inductive TcpOp : Type :=
| TcpSetListener (listener : bool)
| TcpStartListener (port : Z)
| TcpConnect (address : string) (port : Z)
| TcpSend (t : TransportMessageType) (payload : list byte)
| TcpClose
| TcpWork (fuel : nat).           (** the worker thread runs *)

Section Ops.
Context {S W : Type} `{LT : Lens S TcpTransport} `{LW : Lens S W} `{HS : Winsock W}
        `{HLi : ITransportListener S}.

(** What the worker thread does next, for up to [fuel] reads: a listener thread
    that has not accepted yet accepts; one that has, and a receiver thread, is
    in the receive loop. *)
Definition work (fuel : nat) : Proc S bool :=
  let* t := members in
  match m_workerThread t with
  | None => pret true
  | Some ListenerThread =>
    if m_clientSocket t =? INVALID_SOCKET then tcp_ListenerWorker fuel else tcp_ReceiverWorker fuel
  | Some ReceiverThread => tcp_ReceiverWorker fuel
  end.

Definition tcp_op (op : TcpOp) : Proc S bool :=
  match op with
  | TcpSetListener listener => tcp_SetListener listener ;; pret true
  | TcpStartListener port => tcp_StartListener port
  | TcpConnect address port => tcp_Connect address port
  | TcpSend t payload => tcp_SendFrame t payload
  | TcpClose => tcp_Close ;; pret true
  | TcpWork fuel => work fuel
  end.

Fixpoint tcp_run (ops : list TcpOp) : Proc S unit :=
  match ops with
  | [] => pret tt
  | op :: ops => tcp_op op ;; tcp_run ops
  end.
End Ops.

(** ** Ownership *)

(** [I] is an invariant of the program apart from the transport and the
    sockets. *)
Class Apart (S W : Type) (I : S -> Prop) `{Lens S TcpTransport, Lens S W, CngModel W} : Prop := {
  apart_tcp : forall (t : TcpTransport) s, I s -> I (put t s);
  apart_world : forall (w : W) s, obj w = obj (view (V:=W) s) -> I s -> I (put w s);
}.

Section Sockets.
Context {S W : Type} `{LT : Lens S TcpTransport} `{LW : Lens S W}
        `{LTL : !LensLaws S TcpTransport} `{LWL : !LensLaws S W} `{LD : !LensDisjoint S TcpTransport W}
        `{HS : Winsock W} `{HWM : WinsockModel W} `{HWL : !WinsockLaws W}
        `{HM : CngModel W} `{HWC : !WinsockCng W}.

(** What ownership is about. *)
Definition link (s : S) : handle * handle * bool * option Worker * gset handle :=
  let t := view (V:=TcpTransport) s in
  (m_listenSocket t, m_clientSocket t, m_isRunning t, m_workerThread t, socks (view (V:=W) s)).

Definition held (h : handle) : gset handle := if decide (h = INVALID_SOCKET) then ∅ else {[h]}.

Context (I : S -> Prop) `{HA : !Apart S W I}.

(** The open sockets are [base] and the two the members hold, all different; a
    joinable thread is a running one. *)
Record owns (base : gset handle) (s : S) : Prop := {
  own_socks : socks (view (V:=W) s) =
    base ∪ held (m_listenSocket (view s)) ∪ held (m_clientSocket (view s));
  own_listen : base ## held (m_listenSocket (view s));
  own_client : base ## held (m_clientSocket (view s));
  own_distinct : held (m_listenSocket (view s)) ## held (m_clientSocket (view s));
  own_running : m_workerThread (view s) <> None -> m_isRunning (view s) = true;
  own_inv : I s;
}.

Lemma owns_link base s s' : link s' = link s /\ I s' -> owns base s -> owns base s'.
Proof.
  unfold link. intros [[= E1 E2 E3 E4 E5] J] []. by split; rewrite ?E5, ?E4, ?E3, ?E2, ?E1.
Qed.

Context (ub : Prop).

(** A procedure that leaves the sockets and the thread alone. *)
Definition keeps {A} (m : Proc S A) : Prop :=
  forall s, I s -> wpx ub m (fun _ s' => link s' = link s /\ I s') s.

Lemma keeps_ret {A} (a : A) : keeps (pret a).
Proof. intros s J. by apply wp_ret. Qed.

Lemma keeps_bind {A B} (m : Proc S A) (k : A -> Proc S B) :
  keeps m -> (forall a, keeps (k a)) -> keeps (pbind m k).
Proof.
  intros M K s J. eapply wp_seq; [by apply M|]. intros a s1 [E1 J1].
  eapply wp_mono; [by apply K|]. intros b s2 [E2 J2]. by rewrite E2.
Qed.

Lemma keeps_members : keeps members.
Proof. intros s J. by apply wp_members. Qed.

Lemma keeps_modify f :
  (forall t, m_listenSocket (f t) = m_listenSocket t /\ m_clientSocket (f t) = m_clientSocket t /\
             m_isRunning (f t) = m_isRunning t /\ m_workerThread (f t) = m_workerThread t) ->
  keeps (modify f).
Proof.
  intros F s J. apply wp_modify. unfold link. rewrite view_put, view_put_r.
  destruct (F (view s)) as (-> & -> & -> & ->). split; [done | by apply apart_tcp].
Qed.

Lemma keeps_sys {A} (f : W -> A * W) :
  (forall w, socks (f w).2 = socks w) -> (forall w, obj (f w).2 = obj w) -> keeps (sys f).
Proof.
  intros F O s J. apply wp_sys. intros a w E. unfold link. rewrite view_put_l, view_put.
  pose proof (F (view s)) as P. pose proof (O (view s)) as Q. rewrite E in P, Q. cbn in P, Q.
  rewrite P. split; [done | by apply apart_world].
Qed.

Lemma keeps_if {A} (b : bool) (m n : Proc S A) : keeps m -> keeps n -> keeps (if b then m else n).
Proof. by destruct b. Qed.

Lemma keeps_notify cb : keeps cb -> keeps (notify cb).
Proof. intros C. apply keeps_bind; [apply keeps_members|]. intros t. apply keeps_if; [done | apply keeps_ret]. Qed.
End Sockets.

(** What the transport needs of its listener: the callbacks leave its sockets
    and its thread alone, given the listener's own invariant. *)
Class SocketsKept (ub : Prop) (S W : Type) (I : S -> Prop) `{Lens S TcpTransport, Lens S W, WinsockModel W}
    `{ITransportListener S} : Prop := {
  frame_keeps : forall f, keeps (S:=S) (W:=W) I ub (OnFrameReceived f);
  state_keeps : forall b p, keeps (S:=S) (W:=W) I ub (OnConnectionStateChanged b p);
  error_keeps : forall e, keeps (S:=S) (W:=W) I ub (OnError e);
}.

Section Steps.
Context {S W : Type} `{LT : Lens S TcpTransport} `{LW : Lens S W}
        `{LTL : !LensLaws S TcpTransport} `{LWL : !LensLaws S W} `{LD : !LensDisjoint S TcpTransport W}
        `{HS : Winsock W} `{HWM : WinsockModel W} `{HWL : !WinsockLaws W}
        `{HM : CngModel W} `{HWC : !WinsockCng W} `{HLi : ITransportListener S}.
Context (ub : Prop) (I : S -> Prop) `{HA : !Apart S W I}.
Abbreviation keeps := (keeps (S:=S) (W:=W) I ub).
Abbreviation owns := (owns (S:=S) (W:=W) I).

Lemma inv_tcp (t : TcpTransport) s : I s -> I (put t s).
Proof. apply (apart_tcp (W:=W)). Qed.
Lemma inv_world (w : W) s : obj w = obj (view (V:=W) s) -> I s -> I (put w s).
Proof. apply apart_world. Qed.
#[local] Hint Resolve inv_tcp inv_world : core.

Lemma held_some h : h <> INVALID_SOCKET -> held h = {[h]}.
Proof. intros N. unfold held. by rewrite decide_False. Qed.
Lemma held_invalid : held INVALID_SOCKET = ∅.
Proof. done. Qed.

(** After [Close] only [base] is left. *)
Definition closed (base : gset handle) (s : S) : Prop :=
  m_listenSocket (view s) = INVALID_SOCKET /\ m_clientSocket (view s) = INVALID_SOCKET /\
  m_workerThread (view s) = None /\ socks (view (V:=W) s) = base /\ I s.

Lemma closed_owns base s : closed base s -> owns base s.
Proof.
  intros (L & C & T & E & J). split; rewrite ?L, ?C, ?held_invalid; try set_solver; congruence.
Qed.

(** Closing the socket a member holds. *)
Lemma close_member (h : handle) (f : TcpTransport -> TcpTransport) (Q : unit -> S -> Prop) s :
  (forall w', socks w' = socks (view (V:=W) s) ∖ held h -> obj w' = obj (view (V:=W) s) ->
     h <> INVALID_SOCKET -> Q tt (put (f (view (V:=TcpTransport) s)) (put w' s))) ->
  (h = INVALID_SOCKET -> Q tt s) ->
  wpx ub (if negb (h =? INVALID_SOCKET) then sys (W:=W) (closesocket h) ;; modify f else pret tt) Q s.
Proof.
  intros K N. destruct (Z.eqb_spec h INVALID_SOCKET) as [->|Ne]; cbn [negb]; [apply wp_ret; by apply N|].
  apply wp_bind, wp_sys. intros r w' E. apply wp_modify. rewrite view_put_l.
  pose proof (close_socket_law h (view (V:=W) s)) as L. pose proof (close_socket_obj h (view (V:=W) s)) as O.
  rewrite E in L, O. apply K; [by rewrite held_some | done..].
Qed.

Ltac views := rewrite ?view_put, ?view_put_l, ?view_put_r, ?view_put; cbn [m_listenSocket m_clientSocket
  m_isRunning m_workerThread with_listenSocket with_clientSocket with_isRunning with_isConnected
  with_workerThread with_sequenceCounter with_listener].

Lemma close_owned base s :
  owns base s -> wpx ub (tcp_Close (S:=S) (W:=W)) (fun _ s' => closed base s') s.
Proof.
  intros [E L C D _ J]. unfold tcp_Close.
  apply wp_bind, wp_modify. apply wp_bind, wp_modify. apply wp_bind, wp_members. apply wp_bind.
  set (s1 := put _ (put _ s)).
  assert (V1 : m_listenSocket (view s1) = m_listenSocket (view s) /\
               m_clientSocket (view s1) = m_clientSocket (view s) /\
               socks (view (V:=W) s1) = socks (view (V:=W) s) /\ I s1).
  { unfold s1. views. do 3 (split; [done|]). by auto. }
  destruct V1 as (V1 & V2 & V3 & J1). clearbody s1. rewrite <- V1, <- V2, <- ?V3 in *. clear V1 V2 V3 J s.
  eapply wp_mono with (Q := fun _ s2 => m_listenSocket (view s2) = INVALID_SOCKET /\
    m_clientSocket (view s2) = m_clientSocket (view s1) /\
    socks (view (V:=W) s2) = base ∪ held (m_clientSocket (view s1)) /\ I s2).
  { apply close_member.
    - intros w' K O _. views. split; [done|]. split; [done|]. split; [rewrite K, E; set_solver|].
      by auto.
    - intros N. split; [done|]. split; [done|]. split; [|done]. rewrite E, N, held_invalid. set_solver. }
  intros ? s2 (L2 & C2 & E2 & J2). apply wp_bind, wp_members. apply wp_bind.
  eapply wp_mono with (Q := fun _ s3 => m_listenSocket (view s3) = INVALID_SOCKET /\
    m_clientSocket (view s3) = INVALID_SOCKET /\ socks (view (V:=W) s3) = base /\ I s3).
  { rewrite C2. apply close_member.
    - intros w' K O _. views. split; [done|]. split; [done|]. split; [rewrite K, E2; set_solver|].
      by auto.
    - intros N. rewrite C2, N in *. split; [done|]. split; [done|]. split; [|done].
      rewrite E2, held_invalid. set_solver. }
  intros ? s3 (L3 & C3 & E3 & J3). apply wp_bind, wp_members.
  destruct (m_workerThread (view s3)) eqn:T; [apply wp_modify | apply wp_ret];
    unfold closed; views; split_and!; auto.
Qed.

Context `{HK : !SocketsKept ub S W I}.

Lemma sys_keeps {A} (f : W -> A * W) :
  (forall w, socks (f w).2 = socks w) -> (forall w, obj (f w).2 = obj w) -> keeps (sys f).
Proof. apply keeps_sys, _. Qed.

Lemma drain_keeps buf : keeps (drain_loop (length buf) buf).
Proof.
  intros s J. unfold wpx. rewrite drain_refines.
  change (wpx ub (deliver_all (rx_events (length buf) buf).1 ;; pret (rx_events (length buf) buf).2)
            (fun _ s' => link (W:=W) s' = link s /\ I s') s).
  revert s J. apply keeps_bind; [|intros ?; apply keeps_ret].
  induction (rx_events _ buf).1 as [|ev evs IH]; cbn [deliver_all]; [apply keeps_ret|].
  apply keeps_bind; [|done]. destruct ev; cbn [deliver].
  - apply keeps_notify, error_keeps.
  - apply keeps_bind; [apply keeps_notify, error_keeps|]. intros _. by apply keeps_modify.
  - apply keeps_notify, frame_keeps.
  - apply keeps_notify, error_keeps.
Qed.

Lemma receive_keeps fuel buf : keeps (receive_loop fuel buf).
Proof.
  revert buf. induction fuel as [|fuel IH]; intros buf; cbn [receive_loop]; [apply keeps_ret|].
  apply keeps_bind; [apply keeps_members|]. intros t. apply keeps_if; [apply keeps_ret|].
  apply keeps_bind.
  { apply sys_keeps; [|apply recv_obj]. intros w. pose proof (recv_law (m_clientSocket t) 4096 w) as L.
    destruct (recv _ _ w) as [[r b] w2]. apply L. }
  intros [r bytes]. apply keeps_if.
  - apply keeps_bind; [by apply keeps_modify|]. intros _.
    apply keeps_bind; [apply keeps_notify, state_keeps | intros _; apply keeps_ret].
  - cbn zeta. apply keeps_bind; [apply drain_keeps | intros kept; apply IH].
Qed.

Lemma send_loop_keeps fuel data tot : keeps (send_loop fuel data tot).
Proof.
  revert tot. induction fuel as [|fuel IH]; intros tot; cbn [send_loop]; [apply keeps_ret|].
  apply keeps_if; [apply keeps_ret|]. apply keeps_bind; [apply keeps_members|]. intros t.
  apply keeps_bind.
  { apply sys_keeps; [|apply send_obj]. intros w. pose proof (send_law (m_clientSocket t) (drop (Z.to_nat tot) data) w) as L.
    destruct (send _ _ w). apply L. }
  intros r. apply keeps_if; [|apply IH]. apply keeps_bind; [by apply keeps_modify | intros _; apply keeps_ret].
Qed.

Lemma send_keeps t payload : keeps (tcp_SendFrame t payload).
Proof.
  apply keeps_bind; [apply keeps_members|]. intros m. apply keeps_if; [apply keeps_ret|].
  cbn zeta. apply keeps_bind; [by apply keeps_modify|]. intros _. apply keeps_bind.
  - intros s J. destruct (decide (Z.of_nat (length payload) <= MAX_PAYLOAD_SIZE)).
    + eapply wp_lift; [by apply SerializeFrame_layout | done].
    + eapply wp_lift; [apply SerializeFrame_oversize; cbn; lia | done].
  - intros [|b l]; [apply keeps_ret | apply send_loop_keeps].
Qed.

Definition owned (base : gset handle) {A : Type} (_ : A) (s : S) : Prop := owns base s.

Lemma keeps_owned base {A} (m : Proc S A) s :
  keeps m -> owns base s -> wpx ub m (owned base) s.
Proof. intros K O. eapply wp_mono; [apply K, O|]. intros a s' E. exact (owns_link _ _ _ _ E O). Qed.

(** No thread runs, and the members hold [l] and [c]. *)
Record idle (base : gset handle) (l c : handle) (s : S) : Prop := {
  idle_listen : m_listenSocket (view s) = l;
  idle_client : m_clientSocket (view s) = c;
  idle_thread : m_workerThread (view s) = None;
  idle_owns : owns base s;
}.

Lemma closed_idle base s : closed base s -> idle base INVALID_SOCKET INVALID_SOCKET s.
Proof. intros C. pose proof (closed_owns _ _ C). destruct C as (L & Cl & T & _). by split. Qed.

Lemma idle_link base l c s s' : link (W:=W) s' = link s /\ I s' -> idle base l c s -> idle base l c s'.
Proof.
  intros E [L C T O]. pose proof (owns_link _ _ _ _ E O). destruct E as [E _]. unfold link in E.
  injection E as E1 E2 E3 E4 E5.
  by split; rewrite ?E1, ?E2, ?E4.
Qed.

Lemma idle_step base l c {A B} (m : Proc S A) (k : A -> Proc S B) s :
  keeps m -> idle base l c s ->
  (forall a s', idle base l c s' -> wpx ub (k a) (owned base) s') -> wpx ub (pbind m k) (owned base) s.
Proof.
  intros K J N. eapply wp_seq; [apply K, J|]. intros a s' E. apply N. exact (idle_link _ _ _ _ _ E J).
Qed.

(** A new socket, or none. *)
Lemma socket_new (w w' : W) h base :
  socket w = (h, w') -> socks w = base -> socks w' = base ∪ held h /\ base ## held h /\ obj w' = obj w.
Proof.
  intros E <-. pose proof (socket_law w) as L. pose proof (socket_obj w) as O. rewrite E in L, O. unfold held.
  destruct (decide (h = INVALID_SOCKET)) as [->|N].
  - rewrite bool_decide_true in L by done. set_solver.
  - rewrite bool_decide_false in L by done. set_solver.
Qed.

Lemma listen_idle base s h w' :
  closed base s -> socket (view (V:=W) s) = (h, w') ->
  idle base h INVALID_SOCKET (put (with_listenSocket h (view s)) (put w' s)).
Proof.
  intros (L & C & T & E & J) Es. destruct (socket_new _ _ _ _ Es E) as (E' & D & O). split; views; [done..|].
  split; views; rewrite ?C, ?T, ?E', ?held_invalid; try set_solver; auto.
Qed.

Lemma client_idle base s h w' :
  closed base s -> socket (view (V:=W) s) = (h, w') ->
  idle base INVALID_SOCKET h (put (with_clientSocket h (view s)) (put w' s)).
Proof.
  intros (L & C & T & E & J) Es. destruct (socket_new _ _ _ _ Es E) as (E' & D & O). split; views; [done..|].
  split; views; rewrite ?L, ?T, ?E', ?held_invalid; try set_solver; auto.
Qed.

Lemma one_less (B L C : gset handle) :
  B ## L -> B ## C -> L ## C ->
  (B ∪ L ∪ C) ∖ L = B ∪ ∅ ∪ C /\ (B ∪ L ∪ C) ∖ C = B ∪ L ∪ ∅.
Proof. set_solver. Qed.

(** Giving the new socket up again. *)
Lemma abandon_socket base l c h (f : TcpTransport -> TcpTransport) cb s :
  (f = with_listenSocket INVALID_SOCKET /\ h = l \/ f = with_clientSocket INVALID_SOCKET /\ h = c) ->
  idle base l c s -> h <> INVALID_SOCKET -> keeps cb ->
  wpx ub (sys (W:=W) (closesocket h) ;; modify f ;; notify cb ;; pret false) (owned base) s.
Proof.
  intros F [L C T [E DL DC D R J]] N K. apply wp_bind, wp_sys. intros r w' Ec.
  pose proof (close_socket_law h (view (V:=W) s)) as Law. pose proof (close_socket_obj h (view (V:=W) s)) as O.
  rewrite Ec in Law, O. cbn in Law, O.
  apply wp_bind, wp_modify. rewrite view_put_l. eapply wp_seq; [apply keeps_notify; [done | by auto]|].
  intros a s' Es. apply wp_ret. apply (owns_link _ _ _ _ Es).
  rewrite L, C in *. rewrite <- (held_some h N), E in Law. destruct (one_less _ _ _ DL DC D) as [U1 U2].
  destruct F as [[-> ->]|[-> ->]]; split; views; rewrite ?L, ?C, ?T, ?Law, ?U1, ?U2, ?held_invalid;
    try done; auto.
Qed.

Lemma start_owned base port s :
  owns base s -> wpx ub (tcp_StartListener (S:=S) (W:=W) port) (owned base) s.
Proof.
  intros O. unfold tcp_StartListener. eapply wp_seq; [by apply close_owned|]. intros ? s1 Cl.
  apply wp_bind, wp_sys. intros h w2 E2. apply wp_bind, wp_modify. rewrite view_put_l.
  pose proof (listen_idle _ _ _ _ Cl E2) as J. clear Cl.
  set (s2 := put _ (put w2 s1)) in *. clearbody s2.
  destruct (Z.eqb_spec h INVALID_SOCKET) as [->|N].
  { eapply idle_step; [apply keeps_notify, error_keeps | exact J|].
    intros ? s3 J3. apply wp_ret. apply J3. }
  eapply idle_step; [apply sys_keeps; [apply setsockopt_law | apply setsockopt_obj] | exact J|]. intros ? s3 J3.
  eapply idle_step; [apply sys_keeps; [apply bind_law | apply bind_obj] | exact J3|]. intros r s4 J4.
  destruct (r =? SOCKET_ERROR); [apply (abandon_socket base h INVALID_SOCKET); auto; apply error_keeps|].
  eapply idle_step; [apply sys_keeps; [apply listen_law | apply listen_obj] | exact J4|]. intros r2 s5 J5.
  destruct (r2 =? SOCKET_ERROR); [apply (abandon_socket base h INVALID_SOCKET); auto; apply error_keeps|].
  apply wp_bind, wp_modify, wp_bind, wp_modify, wp_ret.
  destruct (idle_owns _ _ _ _ J5) as [E DL DC D _ J6]. split; views; try done; auto.
Qed.

Lemma connect_owned base address port s :
  owns base s -> wpx ub (tcp_Connect (S:=S) (W:=W) address port) (owned base) s.
Proof.
  intros O. unfold tcp_Connect. eapply wp_seq; [by apply close_owned|]. intros ? s1 Cl.
  apply wp_bind, wp_sys. intros h w2 E2. apply wp_bind, wp_modify. rewrite view_put_l.
  pose proof (client_idle _ _ _ _ Cl E2) as J. clear Cl.
  set (s2 := put _ (put w2 s1)) in *. clearbody s2.
  destruct (Z.eqb_spec h INVALID_SOCKET) as [->|N].
  { eapply idle_step; [apply keeps_notify, error_keeps | exact J|].
    intros ? s3 J3. apply wp_ret. apply J3. }
  eapply idle_step; [apply sys_keeps; [apply connect_law | apply connect_obj] | exact J|]. intros r s3 J3.
  destruct (r =? SOCKET_ERROR); [apply (abandon_socket base INVALID_SOCKET h); auto; apply error_keeps|].
  apply wp_bind, wp_modify, wp_bind, wp_modify.
  set (s4 := put _ (put _ s3)). assert (R : owns base s4 /\ m_isRunning (view s4) = true).
  { destruct (idle_owns _ _ _ _ J3) as [E DL DC D _ J']. unfold s4. split; [|by views]. split; views; try done; auto. }
  clearbody s4. eapply wp_seq; [apply keeps_notify; [apply state_keeps | apply R]|]. intros ? s5 E5.
  apply wp_bind, wp_modify, wp_ret. destruct R as [R1 R2].
  destruct (owns_link _ _ _ _ E5 R1) as [E DL DC D _ J5]. destruct E5 as [E5 _]. unfold link in E5.
  injection E5 as _ _ E5 _ _. split; views; try done; auto. intros _. by rewrite E5.
Qed.

Lemma one_more (B L : gset handle) h :
  h ∉ B ∪ L ∪ ∅ -> {[h]} ∪ (B ∪ L ∪ ∅) = B ∪ L ∪ {[h]} /\ B ## {[h]} /\ L ## {[h]}.
Proof. set_solver. Qed.

(** The listener thread, while it holds no connection yet. *)
Lemma listener_owned base fuel s :
  owns base s -> m_clientSocket (view s) = INVALID_SOCKET -> m_workerThread (view s) <> None ->
  wpx ub (tcp_ListenerWorker (S:=S) (W:=W) fuel) (owned base) s.
Proof.
  intros O C T. pose proof (own_running _ _ _ O T) as R. unfold tcp_ListenerWorker.
  apply wp_bind, wp_members, wp_bind, wp_sys. intros [h peer] w1 E1.
  pose proof (accept_law (m_listenSocket (view s)) (view (V:=W) s)) as Law. rewrite E1 in Law. cbn in Law.
  apply wp_bind, wp_members. views. rewrite R, orb_false_r. destruct O as [E DL DC D _ J].
  pose proof (accept_obj (m_listenSocket (view s)) (view (V:=W) s)) as Ob. rewrite E1 in Ob. cbn in Ob.
  destruct (Z.eqb_spec h INVALID_SOCKET) as [->|N].
  { apply wp_ret. rewrite bool_decide_true in Law by done. split; views; rewrite ?Law; try done; auto. }
  rewrite bool_decide_false in Law by done. destruct Law as [F Law].
  apply wp_bind, wp_modify, wp_bind, wp_modify. set (s3 := put _ (put _ _)).
  assert (O3 : owns base s3).
  { rewrite E, C, held_invalid in Law, F. destruct (one_more _ _ _ F) as (U & D1 & D2). rewrite U in Law.
    unfold s3. split; views; rewrite ?Law, ?(held_some h N), ?view_put_l; try done; auto. }
  clearbody s3. eapply wp_seq; [apply keeps_owned; [apply keeps_notify, state_keeps | exact O3]|].
  intros ? s4 O4. apply keeps_owned; [apply receive_keeps | exact O4].
Qed.

Lemma op_owned base op s : owns base s -> wpx ub (tcp_op (S:=S) (W:=W) op) (owned base) s.
Proof.
  intros O. destruct op as [l|port|a port|t p| |fuel]; cbn [tcp_op].
  - apply keeps_owned; [|done]. apply keeps_bind; [by apply keeps_modify | intros; apply keeps_ret].
  - by apply start_owned.
  - by apply connect_owned.
  - apply keeps_owned; [apply send_keeps | done].
  - eapply wp_seq; [by apply close_owned|]. intros ? s1 C. apply wp_ret. by apply closed_owns.
  - unfold work. apply wp_bind, wp_members. destruct (m_workerThread (view s)) as [[|]|] eqn:T.
    + destruct (Z.eqb_spec (m_clientSocket (view s)) INVALID_SOCKET) as [C|C].
      * apply listener_owned; [done..|]. by rewrite T.
      * apply keeps_owned; [apply receive_keeps | done].
    + apply keeps_owned; [apply receive_keeps | done].
    + by apply wp_ret.
Qed.

Lemma run_owned base ops s : owns base s -> wpx ub (tcp_run (S:=S) (W:=W) ops) (owned base) s.
Proof.
  revert s. induction ops as [|op ops IH]; intros s O; cbn [tcp_run]; [by apply wp_ret|].
  eapply wp_seq; [by apply op_owned|]. intros ? s1 O1. by apply IH.
Qed.
End Steps.

(** * Properties *)

(** C28: the transport's sockets.  Take a new transport and any sequence of its
    calls, with the worker thread running for any number of reads between
    them, whatever socket calls fail and whatever bytes arrive, under a listener
    that leaves the transport alone.  At the end the open sockets are those that
    were open before and the ones the two members hold, which differ from each
    other and from the former, and a joinable thread is one that is told to run;
    and [Close] (the body of the destructor) closes exactly the transport's
    own sockets. *)
Theorem tcp_sockets_owned {S W : Type} `{LT : Lens S TcpTransport} `{LW : Lens S W}
    `{LTL : !LensLaws S TcpTransport} `{LWL : !LensLaws S W} `{LD : !LensDisjoint S TcpTransport W}
    `{HS : Winsock W} `{HWM : WinsockModel W} `{HWL : !WinsockLaws W}
    `{HM : CngModel W} `{HWC : !WinsockCng W} `{HLi : ITransportListener S}
    (ub : Prop) (I : S -> Prop) `{HA : !Apart S W I} `{HK : !SocketsKept ub S W I} ops (s : S) :
  I s -> view s = new_TcpTransport ->
  wpx ub (tcp_run ops) (fun _ s1 =>
    owns I (socks (view (V:=W) s)) s1 /\
    wp tcp_Close (fun _ s2 => closed I (socks (view (V:=W) s)) s2) s1) s.
Proof.
  intros J N. eapply wp_mono; [apply (run_owned ub I (socks (view (V:=W) s)))|].
  - split; rewrite ?N; cbn; rewrite ?held_invalid; try done; set_solver.
  - intros a s1 O. split; [exact O|]. by apply close_owned.
Qed.

(** * Witness *)
From S2P Require Import Simulator.

#[export] Instance quiet_apart : Apart (TcpTransport * Sim) Sim (fun _ => True).
Proof. by split. Qed.
#[export] Instance quiet_kept : SocketsKept False (TcpTransport * Sim) Sim (fun _ => True).
Proof. split; intros; apply keeps_ret. Qed.

(** Two sockets of somebody else, a peer that connects, and its bytes. *)
Definition demo_machine : TcpTransport * Sim :=
  (new_TcpTransport,
   set_peers ["10.0.0.2:5000"%string]
     (set_inbox [take 3 (stream demo_stream); drop 3 (stream demo_stream)] (set_socks {[3; 4]} sim0))).
Definition demo_calls : list TcpOp :=
  [TcpSetListener true; TcpStartListener 8443; TcpWork 60; TcpSend UNLOCK_REQ [x01]; TcpConnect "10.0.0.3" 99].

Lemma tcp_sockets_owned_witness :
  wp (tcp_run demo_calls) (fun _ s1 =>
    owns (fun _ => True) {[3; 4]} s1 /\
    wp tcp_Close (fun _ s2 => closed (fun _ => True) {[3; 4]} s2) s1) demo_machine.
Proof. exact (tcp_sockets_owned False (fun _ => True) demo_calls demo_machine I eq_refl). Defined.

(** The calls of the witness end with one socket more than before. *)
Example demo_calls_open :
  match tcp_run demo_calls demo_machine with
  | Def (_, s) => elements (socks s.2 ∖ {[3; 4]}) = [m_clientSocket s.1] /\ m_isConnected s.1 = true
  | UB => False
  end.
Proof. vm_compute. split; reflexivity. Qed.

(** When the transport is being stopped while a connection comes in, the accepted
    socket is neither kept nor closed. *)
Example accepted_and_lost :
  let stopping := put (with_isRunning false (with_listenSocket 7 new_TcpTransport)) demo_machine in
  match tcp_ListenerWorker 60 stopping with
  | Def (_, s) => s.1 = stopping.1 /\ elements (socks s.2 ∖ socks stopping.2) <> []
  | UB => False
  end.
Proof. vm_compute. split; [reflexivity | discriminate]. Qed.
