(* ===== verification/Phone.v ===== *)
(** * Phone: the phone's end of the protocol

    Models the part of the Android application (android/app/src/main/java/com/
    phonekey) that talks to the agent: transport/FrameProtocol.kt,
    crypto/ProtocolEncoder.kt, the sending and receiving of
    transport/TcpTransportClient.kt, and [handleUnlockRequest] of
    engine/UnlockController.kt.  Kotlin's [Int], [Short] and [Long] are signed
    and wrap; an exception is [None].  The theorems say that these codecs and the
    C++ ones are the same. *)
From S2P Require Import Prelude Bytes Protocol FrameProtocol Platform TransportInterface TcpTransport.

(** ** Kotlin's integers and byte buffers *)

(** Reduction to a signed [w]-bit integer. *)
Definition swrap (w z : Z) : Z :=
  let u := wrap w z in if u <? 2 ^ (w - 1) then u else u - 2 ^ w.
Abbreviation i32 := (swrap 32).
Abbreviation i64 := (swrap 64).

(** [java.nio.ByteBuffer] in big-endian order; [None] is a buffer overflow or
    underflow. *)
Record ByteBuffer : Type := { array : list byte; position : nat }.

Definition bb_wrap (data : list byte) : ByteBuffer := {| array := data; position := 0 |}.
Definition allocate (n : Z) : option ByteBuffer :=
  if n <? 0 then None else Some (bb_wrap (replicate (Z.to_nat n) x00)).

Definition bb_put (src : list byte) (b : ByteBuffer) : option ByteBuffer :=
  if (position b + length src <=? length (array b))%nat
  then Some {| array := take (position b) (array b) ++ src ++ drop (position b + length src) (array b);
               position := position b + length src |}
  else None.
Definition putShort (v : Z) := bb_put (be_bytes 2 v).
Definition putInt (v : Z) := bb_put (be_bytes 4 v).
Definition putLong (v : Z) := bb_put (be_bytes 8 v).

Definition bb_get (n : nat) (b : ByteBuffer) : option (list byte * ByteBuffer) :=
  if (position b + n <=? length (array b))%nat
  then Some (sub (position b) n (array b), {| array := array b; position := position b + n |})
  else None.
Definition get_word (n : nat) (b : ByteBuffer) : option (Z * ByteBuffer) :=
  match bb_get n b with
  | Some (l, b) => Some (swrap (8 * Z.of_nat n) (be_value l), b)
  | None => None
  end.
Definition getShort := get_word 2.
Definition getInt := get_word 4.
Definition getLong := get_word 8.

Notation "'let!' p ':=' c1 'in' c2" := (match c1 with Some p => c2 | None => None end)
  (at level 10, p pattern, c1 at level 100, c2 at level 200,
   format "'[v' 'let!'  p  ':='  c1  'in' '/' c2 ']'") : phonekey_scope.

(** ** transport/FrameProtocol.kt *)

(** [java.util.zip.CRC32] over the first [length] bytes. *)
Definition calculateCrc32 (data : list byte) (length : Z) : option Z :=
  if (0 <=? length) && (length <=? Z.of_nat (base.length data))
  then Some (crc32 (take (Z.to_nat length) data)) else None.

(** [TransportFrame] has the fields of the C++ structure, its integers signed. *)
Definition serializeFrame (frame : TransportFrame) : option (list byte) :=
  let payloadLen := Z.of_nat (length (payload frame)) in
  let totalLen := i32 (14 + payloadLen + 4) in
  let! buffer := allocate totalLen in
  let! buffer := putInt FRAME_MAGIC buffer in
  let! buffer := putInt payloadLen buffer in
  let! buffer := bb_put [to_u8 (TransportMessageType_value (messageType frame))] buffer in
  let! buffer := bb_put [flags frame] buffer in
  let! buffer := putInt (sequenceNumber frame) buffer in
  let! buffer := (if payloadLen >? 0 then bb_put (payload frame) buffer else Some buffer) in
  let! crcVal := calculateCrc32 (array buffer) (14 + payloadLen) in
  let! buffer := putInt (i32 crcVal) buffer in
  Some (array buffer).

(** [TransportMessageType.fromCode] *)
Definition fromCode (code : byte) : TransportMessageType := default ERROR_MSG (known_message_type code).

(** The inner option is Kotlin's [null]. *)
Definition deserializeFrame (data : list byte) : option (option TransportFrame) :=
  if (length data <? 18)%nat then Some None else
  let buffer := bb_wrap data in
  let! (magic, buffer) := getInt buffer in
  if negb (magic =? FRAME_MAGIC) then Some None else
  let! (payloadLen, buffer) := getInt buffer in
  if (payloadLen <? 0) || (payloadLen >? MAX_PAYLOAD_SIZE) then Some None else
  if Z.of_nat (length data) <? 14 + payloadLen + 4 then Some None else
  let! (messageTypeCode, buffer) := bb_get 1 buffer in
  let! (flags, buffer) := bb_get 1 buffer in
  let! (seqNum, buffer) := getInt buffer in
  let! (payload, buffer) := (if payloadLen >? 0 then bb_get (Z.to_nat payloadLen) buffer
                             else Some ([], buffer)) in
  let! (expectedChecksum, _) := getInt buffer in
  let! crcVal := calculateCrc32 data (14 + payloadLen) in
  let actualChecksum := i32 crcVal in
  if negb (actualChecksum =? expectedChecksum) then Some None else
  Some (Some {| magic := magic; payloadLength := payloadLen;
                messageType := fromCode (nth 0 messageTypeCode x00); flags := nth 0 flags x00;
                sequenceNumber := seqNum; payload := payload; checksum := actualChecksum |}).

(** ** crypto/ProtocolEncoder.kt *)

(** The defaults of the data class's first three fields. *)
Definition phone_payload (deviceId sessionId pcId challenge : list byte) (expirationTimestampMs : Z)
    : AuthPayload :=
  {| domain := DOMAIN_PREFIX; protocolVersion := CURRENT_PROTOCOL_VERSION;
     algorithmId := ALGORITHM_ECDSA_P256_SHA256; deviceId := deviceId; sessionId := sessionId;
     pcId := pcId; challenge := challenge; expirationTimestampMs := expirationTimestampMs |}.

Definition kt_encode (p : AuthPayload) : option (list byte) :=
  if negb (length (deviceId p) =? 16)%nat then None else
  if negb (length (sessionId p) =? 16)%nat then None else
  if negb (length (pcId p) =? 16)%nat then None else
  if negb (length (challenge p) =? 32)%nat then None else
  let! buffer := allocate CANONICAL_PAYLOAD_SIZE in
  let n := Nat.min (length (domain p)) 16 in
  let domainFixed := take n (domain p) ++ replicate (16 - n) x00 in
  let! buffer := bb_put domainFixed buffer in
  let! buffer := putShort (protocolVersion p) buffer in
  let! buffer := putShort (algorithmId p) buffer in
  let! buffer := bb_put (deviceId p) buffer in
  let! buffer := bb_put (sessionId p) buffer in
  let! buffer := bb_put (pcId p) buffer in
  let! buffer := bb_put (challenge p) buffer in
  let! buffer := putLong (expirationTimestampMs p) buffer in
  Some (array buffer).

Definition kt_decode (bytes : list byte) : option AuthPayload :=
  if negb (Z.of_nat (length bytes) =? CANONICAL_PAYLOAD_SIZE) then None else
  let! (domain, buffer) := bb_get 16 (bb_wrap bytes) in
  let! (version, buffer) := getShort buffer in
  let! (algorithm, buffer) := getShort buffer in
  let! (deviceId, buffer) := bb_get 16 buffer in
  let! (sessionId, buffer) := bb_get 16 buffer in
  let! (pcId, buffer) := bb_get 16 buffer in
  let! (challenge, buffer) := bb_get 32 buffer in
  let! (expiration, _) := getLong buffer in
  Some {| domain := domain; protocolVersion := version; algorithmId := algorithm; deviceId := deviceId;
          sessionId := sessionId; pcId := pcId; challenge := challenge;
          expirationTimestampMs := expiration |}.

(** ** transport/TcpTransportClient.kt *)

(** What the receiver tells its listener. *)
Inductive PhoneEvent : Type :=
| OnFrame (frame : TransportFrame)
| OnBadFrame
| OnCorrupted.

(** One iteration of the inner loop: leave it for want of bytes, leave it over
    corruption, throw, or go on. *)
Inductive LoopStep : Type :=
| LoopWait
| LoopCorrupted
| LoopThrow
| LoopGo (ev : PhoneEvent) (rest : list byte).

Definition loop_step (rxBytes : list byte) : LoopStep :=
  if (length rxBytes <? 18)%nat then LoopWait else
  match getInt (bb_wrap rxBytes) with
  | None => LoopThrow
  | Some (magic, headerBuf) =>
    match getInt headerBuf with
    | None => LoopThrow
    | Some (payloadLen, _) =>
      if negb (magic =? FRAME_MAGIC) || (payloadLen >? MAX_PAYLOAD_SIZE) then LoopCorrupted else
      let totalFrameLen := 14 + payloadLen + 4 in
      if Z.of_nat (length rxBytes) <? totalFrameLen then LoopWait else
      if totalFrameLen <? 0 then LoopThrow else
      match deserializeFrame (take (Z.to_nat totalFrameLen) rxBytes) with
      | None => LoopThrow
      | Some frame =>
        LoopGo (match frame with Some f => OnFrame f | None => OnBadFrame end)
          (drop (Z.to_nat totalFrameLen) rxBytes)
      end
    end
  end.

(** The inner loop: the events, what is left in [rxBuffer], and whether it threw.
    [None]: it has not ended within [fuel] iterations. *)
Fixpoint inner_loop (fuel : nat) (rxBytes : list byte) : option (list PhoneEvent * list byte * bool) :=
  match loop_step rxBytes with
  | LoopWait => Some ([], rxBytes, false)
  | LoopCorrupted => Some ([OnCorrupted], rxBytes, false)
  | LoopThrow => Some ([], rxBytes, true)
  | LoopGo ev rest =>
    match fuel with
    | O => None
    | S fuel =>
      let! (evs, kept, thrown) := inner_loop fuel rest in
      Some (ev :: evs, kept, thrown)
    end
  end.

(** [receiverLoop], round by round: what [isConnected] is when the loop looks at
    it, and what the read then returns; nothing stands for [read <= 0]. *)
Fixpoint receiverLoop (rounds : list (bool * list byte)) (rxBuffer : list byte) : option (list PhoneEvent) :=
  match rounds with
  | [] => Some []
  | (isConnected, buffer) :: rounds =>
    if negb isConnected then Some [] else
    if bool_decide (buffer = []) then Some [] else
    let rxBytes := rxBuffer ++ buffer in
    let! (evs, kept, thrown) := inner_loop (length rxBytes) rxBytes in
    if thrown : bool then Some evs else
    let! evs' := receiverLoop rounds kept in
    Some (evs ++ evs')
  end.

(** The members that sending uses; a socket that is there has its stream. *)
Record TcpTransportClient : Type := {
  socket_connected : bool;
  isConnected : bool;
  sequenceCounter : Z;
}.
Definition new_TcpTransportClient : TcpTransportClient :=
  {| socket_connected := false; isConnected := false; sequenceCounter := 1 |}.

(** [write]: how many bytes the stream takes, and whether it then throws.  The
    result, the bytes written, and the new state. *)
Definition sendFrame (write : list byte -> nat * bool) (messageType : TransportMessageType)
    (payload : list byte) (t : TcpTransportClient) : bool * list byte * TcpTransportClient :=
  if negb (isConnected t && socket_connected t) then (false, [], t) else
  let frame := {| magic := FRAME_MAGIC; payloadLength := Z.of_nat (length payload);
                  messageType := messageType; flags := x00; sequenceNumber := sequenceCounter t;
                  payload := payload; checksum := 0 |} in
  let counted := {| socket_connected := socket_connected t; isConnected := isConnected t;
                    sequenceCounter := i32 (sequenceCounter t + 1) |} in
  let failed := {| socket_connected := socket_connected t; isConnected := false;
                   sequenceCounter := i32 (sequenceCounter t + 1) |} in
  match serializeFrame frame with
  | None => (false, [], failed)
  | Some serialized =>
    let '(n, throws) := write serialized in
    if throws : bool then (false, take n serialized, failed) else (true, serialized, counted)
  end.

(** ** engine/UnlockController.kt *)

(** What [BiometricSigner.authenticateAndSign] calls back with. *)
Inductive BiometricResult : Type :=
| BioSuccess (signatureDerBytes : list byte)
| BioError
| BioFailed.

(** A message to the status callback, an exception, or the payload given to
    [sendFrame] as UNLOCK_RESP. *)
Inductive UnlockOutcome : Type :=
| UnlockRefused
| UnlockThrows
| UnlockRespond (fullPayload : list byte).

(** [key]: the keystore has the private key; [authenticate]: the prompt's result
    for the bytes to sign. *)
Definition handleUnlockRequest (myDeviceId : list byte) (nowMs : Z) (key : bool)
    (authenticate : list byte -> BiometricResult) (payload : list byte) : UnlockOutcome :=
  if (length payload <? 80)%nat then UnlockRefused else
  match
    let! (sessionId, buffer) := bb_get 16 (bb_wrap payload) in
    let! (pcId, buffer) := bb_get 16 buffer in
    let! (challenge, buffer) := bb_get 32 buffer in
    let! (createdTime, buffer) := getLong buffer in
    let! (expireTime, buffer) := getLong buffer in
    Some (sessionId, pcId, challenge, expireTime)
  with
  | None => UnlockThrows
  | Some (sessionId, pcId, challenge, expireTime) =>
    if nowMs >? expireTime then UnlockRefused else
    if negb key then UnlockRefused else
    match kt_encode (phone_payload myDeviceId sessionId pcId challenge expireTime) with
    | None => UnlockThrows
    | Some canonicalBytes =>
      match authenticate canonicalBytes with
      | BioSuccess signatureDerBytes => UnlockRespond (canonicalBytes ++ signatureDerBytes)
      | BioError | BioFailed => UnlockRefused
      end
    end
  end.

(** [onFrameReceived] *)
Definition phone_onFrameReceived (myDeviceId : list byte) (nowMs : Z) (key : bool)
    (authenticate : list byte -> BiometricResult) (frame : TransportFrame) : option UnlockOutcome :=
  match messageType frame with
  | UNLOCK_REQ => Some (handleUnlockRequest myDeviceId nowMs key authenticate (payload frame))
  | _ => None
  end.

(** ** Signed words *)
Lemma swrap_mod w z : 0 <= w -> swrap w z mod 2 ^ w = z mod 2 ^ w.
Proof.
  intros Hw. unfold swrap, wrap. case_match; [apply Zmod_mod|].
  rewrite <- (Z.mul_1_l (2 ^ w)) at 2. rewrite Zminus_mod, Z.mul_1_l, Z_mod_same_full, Z.sub_0_r.
  by rewrite !Zmod_mod.
Qed.

Lemma swrap_small w z : 0 < w -> 0 <= z < 2 ^ (w - 1) -> swrap w z = z.
Proof.
  intros Hw Hz. assert (2 ^ w = 2 * 2 ^ (w - 1)) by (rewrite <- Z.pow_succ_r by lia; f_equal; lia).
  unfold swrap. rewrite wrap_small by lia. by rewrite (proj2 (Z.ltb_lt _ _)) by lia.
Qed.

Lemma swrap_wrap w z : 0 <= w -> swrap w (wrap w z) = swrap w z.
Proof. intros Hw. unfold swrap. by rewrite (wrap_small w (wrap w z)) by (by apply wrap_range). Qed.

(** A reduced value is in range. *)
Lemma swrap_add w z k : 0 <= w -> swrap w (swrap w z + k) = swrap w (z + k).
Proof.
  intros Hw. rewrite <- swrap_wrap, <- (swrap_wrap w (z + k)) by done. f_equal. unfold wrap.
  by rewrite <- Zplus_mod_idemp_l, swrap_mod, Zplus_mod_idemp_l.
Qed.

Lemma swrap_range w z : 0 < w -> - 2 ^ (w - 1) <= swrap w z < 2 ^ (w - 1).
Proof.
  intros Hw. assert (2 ^ w = 2 * 2 ^ (w - 1)) by (rewrite <- Z.pow_succ_r by lia; f_equal; lia).
  unfold swrap. pose proof (wrap_range w z ltac:(lia)). case_match eqn:E; lia.
Qed.

Lemma be_bytes_swrap n z : be_bytes n (swrap (8 * Z.of_nat n) z) = be_bytes n z.
Proof. rewrite <- be_bytes_mod, swrap_mod by lia. apply be_bytes_mod. Qed.

(** ** Byte buffers *)

(** [n] bytes are still to be written. *)
Definition filled (pre : list byte) (n : nat) : ByteBuffer :=
  {| array := pre ++ replicate n x00; position := length pre |}.
(** [pos] bytes have been read. *)
Definition at_byte (data : list byte) (pos : nat) : ByteBuffer := {| array := data; position := pos |}.

Lemma allocate_filled n : allocate (Z.of_nat n) = Some (filled [] n).
Proof. unfold allocate. replace (_ <? 0) with false by lia. by rewrite Nat2Z.id. Qed.

Lemma bb_put_filled pre n src :
  (length src <= n)%nat -> bb_put src (filled pre n) = Some (filled (pre ++ src) (n - length src)).
Proof.
  intros L. unfold bb_put, filled. cbn. rewrite (proj2 (Nat.leb_le _ _)) by len.
  rewrite take_app_length, drop_app_ge by lia. rewrite drop_replicate.
  replace (n - (length pre + length src - length pre))%nat with (n - length src)%nat by lia.
  by rewrite <- app_assoc, length_app.
Qed.

Lemma bb_get_at data pos n :
  (pos + n <= length data)%nat -> bb_get n (at_byte data pos) = Some (sub pos n data, at_byte data (pos + n)).
Proof. intros L. unfold bb_get, at_byte. cbn. by rewrite (proj2 (Nat.leb_le _ _)). Qed.

Lemma get_word_at data pos n :
  (pos + n <= length data)%nat ->
  get_word n (at_byte data pos) = Some (swrap (8 * Z.of_nat n) (be_value (sub pos n data)), at_byte data (pos + n)).
Proof. intros L. unfold get_word. by rewrite bb_get_at. Qed.

(** ** Frames *)

(** Integer fields as the phone sees them. *)
Definition signed_frame (f : TransportFrame) : TransportFrame :=
  {| magic := i32 (magic f); payloadLength := i32 (payloadLength f); messageType := messageType f;
     flags := flags f; sequenceNumber := i32 (sequenceNumber f); payload := payload f;
     checksum := i32 (checksum f) |}.
(** And on the PC. *)
Definition unsigned_frame (f : TransportFrame) : TransportFrame :=
  {| magic := u32 (magic f); payloadLength := u32 (payloadLength f); messageType := messageType f;
     flags := flags f; sequenceNumber := u32 (sequenceNumber f); payload := payload f;
     checksum := u32 (checksum f) |}.

Lemma frame_layout_unsigned f : frame_layout (unsigned_frame f) = frame_layout f.
Proof.
  assert (E : frame_body (unsigned_frame f) = frame_body f).
  { unfold frame_body. cbn. do 4 f_equal. apply (f_equal (fun l => l ++ payload f)), (be_bytes_mod 4). }
  unfold frame_layout. by rewrite E.
Qed.

Lemma unsigned_wf f : wf_frame (unsigned_frame f).
Proof. split; apply wrap_range; lia. Qed.

Lemma serializeFrame_layout f :
  Z.of_nat (length (payload f)) < 2 ^ 31 - 18 -> serializeFrame f = Some (frame_layout f).
Proof.
  intros L. unfold serializeFrame. set (N := length (payload f)) in *. cbv zeta.
  rewrite swrap_small by lia. replace (14 + Z.of_nat N + 4) with (Z.of_nat (18 + N)) by lia.
  rewrite allocate_filled. unfold putInt.
  do 5 (rewrite bb_put_filled by len; cbn [app length]).
  rewrite !length_be_bytes. replace (18 + N - 4 - 4 - 1 - 1 - 4)%nat with (N + 4)%nat by lia.
  match goal with |- context[if _ then bb_put _ ?b else Some ?b] =>
    replace (if Z.of_nat N >? 0 then bb_put (payload f) b else Some b) with (Some (filled (frame_body f) 4)) end.
  2: { destruct (Z.gtb_spec (Z.of_nat N) 0) as [P|P].
       - rewrite bb_put_filled by len. fold N. replace (N + 4 - N)%nat with 4%nat by lia.
         unfold frame_body. fold N. by rewrite <- !app_assoc.
       - unfold frame_body. fold N. replace N with 0%nat by lia.
         rewrite (nil_length_inv (payload f)) by (fold N; lia). by rewrite app_nil_r, <- !app_assoc. }
  unfold calculateCrc32. cbn [array filled]. pose proof (length_frame_body f) as LB. fold N in LB.
  replace (_ && _) with true by len. rewrite take_app_exact by (rewrite LB; lia).
  rewrite (be_bytes_swrap 4), bb_put_filled by len. rewrite length_be_bytes. cbn. by rewrite app_nil_r.
Qed.

(** Reading a frame back. *)
Lemma getInt_at data pos :
  (pos + 4 <= length data)%nat ->
  getInt (at_byte data pos) = Some (i32 (be_value (sub pos 4 data)), at_byte data (pos + 4)).
Proof. apply get_word_at. Qed.

Lemma be4_range data pos : 0 <= be_value (sub pos 4 data) < 2 ^ 32.
Proof.
  pose proof (be_value_range (sub pos 4 data)) as R.
  assert (length (sub pos 4 data) <= 4)%nat by (unfold sub; len).
  assert (2 ^ (8 * Z.of_nat (length (sub pos 4 data))) <= 2 ^ 32) by (apply Z.pow_le_mono_r; lia). lia.
Qed.

Lemma i32_eqb u k : 0 <= u < 2 ^ 32 -> 0 <= k < 2 ^ 31 -> (i32 u =? k) = (u =? k).
Proof. intros Hu Hk. unfold swrap. rewrite wrap_small by lia. case_match; lia. Qed.

Lemma i32_eqb2 u v : 0 <= u < 2 ^ 32 -> 0 <= v < 2 ^ 32 -> (i32 u =? i32 v) = (u =? v).
Proof. intros Hu Hv. unfold swrap. rewrite !wrap_small by lia. repeat case_match; lia. Qed.

(** A 32-bit length is too big, or what it says. *)
Lemma i32_oversize u :
  0 <= u < 2 ^ 32 ->
  if u >? MAX_PAYLOAD_SIZE then i32 u < 0 \/ i32 u > MAX_PAYLOAD_SIZE else i32 u = u.
Proof. intros Hu. unfold swrap, MAX_PAYLOAD_SIZE. rewrite wrap_small by lia. repeat case_match; lia. Qed.

(** What the phone makes of the PC's verdict on the same bytes. *)
Definition phone_verdict (data : list byte) (r : FrameResult) : option TransportFrame :=
  if frame_ok r then Some (signed_frame (outFrame r))
  else if bool_decide (outError r = err_type) then
    Some {| magic := FRAME_MAGIC; payloadLength := be_value (sub 4 4 data); messageType := ERROR_MSG;
            flags := nth 9 data x00; sequenceNumber := i32 (be_value (sub 10 4 data));
            payload := sub 14 (Z.to_nat (be_value (sub 4 4 data))) data;
            checksum := i32 (crc32 (take (14 + Z.to_nat (be_value (sub 4 4 data))) data)) |}
  else None.

Lemma deserializeFrame_spec data q :
  deserializeFrame data = Some (phone_verdict data (frame_check data (Z.of_nat (length data)) q)).
Proof.
  unfold deserializeFrame, frame_check, phone_verdict, rejected. cbv zeta.
  destruct (Nat.ltb_spec (length data) 18) as [L|L].
  { by rewrite (proj2 (Z.ltb_lt _ _)) by lia. }
  rewrite (proj2 (Z.ltb_ge _ 18)) by lia.
  change (bb_wrap data) with (at_byte data 0). rewrite getInt_at by lia.
  rewrite i32_eqb by (apply be4_range || done).
  destruct (be_value (sub 0 4 data) =? FRAME_MAGIC) eqn:Em; cbn [negb]; [|done].
  rewrite getInt_at by lia. cbn [Nat.add].
  set (u := be_value (sub 4 4 data)). pose proof (i32_oversize u (be4_range _ _)) as O.
  destruct (u >? MAX_PAYLOAD_SIZE) eqn:Eo.
  { by replace (_ || _) with true by lia. }
  rewrite O. pose proof (be4_range data 4). fold u in H. unfold MAX_PAYLOAD_SIZE in Eo.
  replace ((u <? 0) || (u >? MAX_PAYLOAD_SIZE)) with false by (unfold MAX_PAYLOAD_SIZE; lia).
  replace (Z.of_nat (length data) <? 14 + u + 4) with (Z.of_nat (length data) <? 18 + u) by lia.
  destruct (Z.ltb_spec (Z.of_nat (length data)) (18 + u)) as [|Lu]; [done|].
  rewrite bb_get_at by lia. cbn [Nat.add]. rewrite bb_get_at by lia. cbn [Nat.add].
  rewrite getInt_at by lia. cbn [Nat.add].
  replace (if u >? 0 then bb_get (Z.to_nat u) (at_byte data 14) else Some ([], at_byte data 14))
    with (Some (sub 14 (Z.to_nat u) data, at_byte data (14 + Z.to_nat u))).
  2: { destruct (Z.gtb_spec u 0); [by rewrite bb_get_at by lia|]. by replace (Z.to_nat u) with 0%nat by lia. }
  rewrite getInt_at by lia. unfold calculateCrc32. replace (_ && _) with true by lia.
  replace (Z.to_nat (14 + u)) with (14 + Z.to_nat u)%nat by lia.
  rewrite i32_eqb2 by (apply crc32_range || apply be4_range).
  destruct (crc32 _ =? _); cbn [negb]; [|done].
  rewrite !sub_1 by lia. cbn [nth]. unfold fromCode. apply Z.eqb_eq in Em. rewrite Em.
  change (i32 FRAME_MAGIC) with FRAME_MAGIC.
  destruct (known_message_type (nth 8 data x00)) as [t|]; cbn [default from_option frame_ok outFrame outError].
  - unfold signed_frame. cbn [magic payloadLength messageType flags sequenceNumber payload checksum].
    change (i32 FRAME_MAGIC) with FRAME_MAGIC. by rewrite O.
  - by rewrite bool_decide_true.
Qed.

(** ** The payload *)
Definition unsigned_payload (p : AuthPayload) : AuthPayload :=
  {| domain := domain p; protocolVersion := u16 (protocolVersion p); algorithmId := u16 (algorithmId p);
     deviceId := deviceId p; sessionId := sessionId p; pcId := pcId p; challenge := challenge p;
     expirationTimestampMs := u64 (expirationTimestampMs p) |}.

Definition signed_payload (p : AuthPayload) : AuthPayload :=
  {| domain := domain p; protocolVersion := swrap 16 (protocolVersion p);
     algorithmId := swrap 16 (algorithmId p); deviceId := deviceId p; sessionId := sessionId p;
     pcId := pcId p; challenge := challenge p; expirationTimestampMs := i64 (expirationTimestampMs p) |}.

(** What [encode] requires, and the domain of the default argument. *)
Record phone_sizes (p : AuthPayload) : Prop := {
  ps_domain : length (domain p) = 16%nat;
  ps_device : length (deviceId p) = 16%nat;
  ps_session : length (sessionId p) = 16%nat;
  ps_pc : length (pcId p) = 16%nat;
  ps_challenge : length (challenge p) = 32%nat;
}.

Lemma layout_unsigned p : layout (unsigned_payload p) = layout p.
Proof.
  unfold layout. cbn [domain protocolVersion algorithmId deviceId sessionId pcId challenge
    expirationTimestampMs unsigned_payload].
  pose proof (be_bytes_mod 2 (protocolVersion p)) as E1. pose proof (be_bytes_mod 2 (algorithmId p)) as E2.
  pose proof (be_bytes_mod 8 (expirationTimestampMs p)) as E3.
  change (8 * Z.of_nat 2) with 16 in *. change (8 * Z.of_nat 8) with 64 in *.
  unfold wrap. by rewrite E1, E2, E3.
Qed.

Lemma unsigned_payload_wf p : phone_sizes p -> wf_payload (unsigned_payload p).
Proof. intros []. split; try done; apply wrap_range; lia. Qed.

Lemma kt_encode_layout p : phone_sizes p -> kt_encode p = Some (layout p).
Proof.
  intros [Ld Le Ls Lp Lc]. unfold kt_encode. rewrite Le, Ls, Lp, Lc. cbn [Nat.eqb negb].
  change CANONICAL_PAYLOAD_SIZE with (Z.of_nat 108). rewrite allocate_filled. cbv zeta.
  rewrite Ld. change (Nat.min 16 16) with 16%nat. rewrite take_ge by lia.
  change (replicate (16 - 16) x00) with (@nil byte). rewrite app_nil_r.
  unfold putShort, putLong.
  repeat (rewrite bb_put_filled by (rewrite ?length_be_bytes, ?Ld, ?Le, ?Ls, ?Lp, ?Lc; lia);
    rewrite ?length_be_bytes, ?Ld, ?Le, ?Ls, ?Lp, ?Lc; cbn [Nat.sub app]).
  cbn [array filled replicate]. rewrite app_nil_r. unfold layout. by rewrite <- !app_assoc.
Qed.

Lemma getShort_at data pos :
  (pos + 2 <= length data)%nat ->
  getShort (at_byte data pos) = Some (swrap 16 (be_value (sub pos 2 data)), at_byte data (pos + 2)).
Proof. apply get_word_at. Qed.
Lemma getLong_at data pos :
  (pos + 8 <= length data)%nat ->
  getLong (at_byte data pos) = Some (i64 (be_value (sub pos 8 data)), at_byte data (pos + 8)).
Proof. apply get_word_at. Qed.

Lemma kt_decode_fields data :
  length data = 108%nat ->
  kt_decode data = Some (signed_payload (fields_at data)).
Proof.
  intros L. unfold kt_decode. rewrite L. cbn [Z.of_nat]. 
  change (bb_wrap data) with (at_byte data 0).
  repeat (first [rewrite bb_get_at by lia | rewrite getShort_at by lia | rewrite getLong_at by lia]; cbn [Nat.add]).
  done.
Qed.

(** ** The receiver *)

(** A frame of the PC, as it arrives. *)
Definition arrived (f : TransportFrame) : PhoneEvent := OnFrame (signed_frame (received f)).

Lemma loop_step_frame f rest :
  small_frame f -> loop_step (frame_layout f ++ rest) = LoopGo (arrived f) rest.
Proof.
  intros [Wf Sf]. pose proof (length_frame_layout f) as LL.
  destruct (frame_layout_fields f rest) as (E0 & E4 & _). unfold loop_step.
  rewrite (proj2 (Nat.ltb_ge _ 18)) by len. change (bb_wrap ?d) with (at_byte d 0).
  rewrite !getInt_at by len. cbn [Nat.add]. rewrite E0, E4. unfold MAX_PAYLOAD_SIZE in *.
  rewrite !be_value_be_bytes4 by (done || lia). change (i32 FRAME_MAGIC) with FRAME_MAGIC.
  rewrite (swrap_small 32) by lia. rewrite Z.eqb_refl. cbn [negb orb].
  replace (_ >? 65536) with false by lia. cbv zeta.
  rewrite (proj2 (Z.ltb_ge _ _)) by len. rewrite (proj2 (Z.ltb_ge _ 0)) by lia.
  rewrite take_app_exact, drop_app_exact by lia. rewrite deserializeFrame_spec with (q := new_TransportFrame).
  rewrite <- (app_nil_r (frame_layout f)), frame_check_layout by (done || (rewrite ?app_nil_r; unfold MAX_PAYLOAD_SIZE; lia)).
  done.
Qed.

Lemma loop_step_part f buf more tail :
  small_frame f -> buf ++ more = frame_layout f ++ tail -> (length buf < length (frame_layout f))%nat ->
  loop_step buf = LoopWait.
Proof.
  intros [Wf Sf] E L. unfold loop_step. destruct (Nat.ltb_spec (length buf) 18) as [|L18]; [done|].
  destruct (frame_layout_fields f tail) as (E0 & E4 & _). rewrite <- E in E0, E4.
  rewrite sub_prefix in E0, E4 by lia. change (bb_wrap ?d) with (at_byte d 0).
  rewrite !getInt_at by lia. cbn [Nat.add]. rewrite E0, E4. unfold MAX_PAYLOAD_SIZE in *.
  rewrite !be_value_be_bytes4 by (done || lia). change (i32 FRAME_MAGIC) with FRAME_MAGIC.
  rewrite (swrap_small 32) by lia. rewrite Z.eqb_refl. cbn [negb orb].
  replace (_ >? 65536) with false by lia. cbv zeta. rewrite length_frame_layout in L.
  by rewrite (proj2 (Z.ltb_lt _ _)) by lia.
Qed.

Abbreviation frames_layout l := (concat (frame_layout <$> l)).

(** A part of a stream of frames: the whole frames are delivered, the rest is a
    part of the next. *)
Lemma inner_loop_part fuel l buf more :
  Forall small_frame l -> buf ++ more = frames_layout l -> (length buf <= fuel)%nat ->
  exists l1 l2 kept, l = l1 ++ l2 /\ inner_loop fuel buf = Some (arrived <$> l1, kept, false) /\
    kept ++ more = frames_layout l2 /\
    match l2 with [] => kept = [] | f :: _ => (length kept < length (frame_layout f))%nat end.
Proof.
  intros Sm. revert fuel buf. induction Sm as [|f l Sf Sl IH]; intros fuel buf E L.
  - cbn in E. apply app_eq_nil in E as [-> ->]. exists [], [], []. split; [done|]. split; [by destruct fuel|]. done.
  - rewrite fmap_cons in E. cbn [concat] in E.
    destruct (Nat.ltb_spec (length buf) (length (frame_layout f))) as [Lb|Lb].
    + exists [], (f :: l), buf. split; [done|]. split; [|done].
      assert (St : loop_step buf = LoopWait) by (by eapply loop_step_part).
      destruct fuel; cbn [inner_loop]; by rewrite St.
    + assert (Eb : exists buf', buf = frame_layout f ++ buf' /\ buf' ++ more = frames_layout l).
      { exists (drop (length (frame_layout f)) buf).
        assert (take (length (frame_layout f)) buf = frame_layout f) as Et.
        { apply (f_equal (take (length (frame_layout f)))) in E. by rewrite take_app_le, take_app_length in E by lia. }
        split; [by rewrite <- Et at 1; rewrite take_drop|].
        apply (f_equal (drop (length (frame_layout f)))) in E. by rewrite drop_app_le, drop_app_length in E by lia. }
      destruct Eb as (buf' & -> & E'). pose proof (length_frame_layout f) as LL. rewrite length_app in L.
      destruct fuel as [|fuel]; [lia|].
      destruct (IH fuel buf' E' ltac:(lia)) as (l1 & l2 & kept & -> & R & K & M).
      exists (f :: l1), l2, kept. split; [done|]. split; [|done]. cbn [inner_loop].
      by rewrite loop_step_frame, R.
Qed.

(** The rounds of a receiver that stays connected. *)
Definition connected (reads : list (list byte)) : list (bool * list byte) := (fun r => (true, r)) <$> reads.

Lemma receiverLoop_frames reads l kept :
  Forall small_frame l -> Forall (fun r => r <> []) reads -> kept ++ concat reads = frames_layout l ->
  match l with [] => kept = [] | f :: _ => (length kept < length (frame_layout f))%nat end ->
  receiverLoop (connected reads) kept = Some (arrived <$> l).
Proof.
  intros Sm Ne. revert l kept Sm. induction Ne as [|r reads Nr Ne IH]; intros l kept Sm E K.
  - cbn in *. rewrite app_nil_r in E. destruct l as [|f l]; [done|]. rewrite E, fmap_cons in K. cbn in K.
    rewrite length_app in K. lia.
  - unfold connected. rewrite fmap_cons. cbn [receiverLoop negb]. rewrite bool_decide_false by done.
    cbn [concat] in E. rewrite app_assoc in E. cbv zeta.
    destruct (inner_loop_part (length (kept ++ r)) l (kept ++ r) (concat reads) Sm E)
      as (l1 & l2 & kept' & -> & R & E' & K'); [done|]. rewrite R.
    apply Forall_app in Sm as [_ Sm]. fold (connected reads). rewrite (IH l2 kept' Sm E' K'). by rewrite fmap_app.
Qed.

(** One that may be disconnected, or find the stream's end, before it has read all. *)
Lemma receiverLoop_some rounds l kept more :
  Forall small_frame l -> kept ++ concat rounds.*2 ++ more = frames_layout l ->
  exists k, receiverLoop rounds kept = Some (arrived <$> take k l).
Proof.
  revert l kept. induction rounds as [|[c r] rounds IH]; intros l kept Sm E; [by exists 0%nat|].
  cbn [receiverLoop]. destruct c; cbn [negb]; [|by exists 0%nat]. case_bool_decide; [by exists 0%nat|].
  rewrite fmap_cons in E. cbn [concat snd] in E. rewrite <- app_assoc, app_assoc in E. cbv zeta.
  destruct (inner_loop_part (length (kept ++ r)) l (kept ++ r) (concat rounds.*2 ++ more) Sm E)
    as (l1 & l2 & kept' & -> & R & E' & _); [done|]. rewrite R.
  apply Forall_app in Sm as [_ Sm]. destruct (IH l2 kept' Sm E') as [k ->].
  exists (length l1 + k)%nat. by rewrite take_app_add, fmap_app.
Qed.

(** *** A loop without end *)
Lemma inner_loop_spins buf ev :
  loop_step buf = LoopGo ev buf -> forall fuel, inner_loop fuel buf = None.
Proof.
  intros E fuel. induction fuel as [|fuel IH]; cbn [inner_loop]; rewrite E; [done|]. by rewrite IH.
Qed.

Lemma loop_step_go buf ev rest :
  loop_step buf = LoopGo ev rest -> (length rest < length buf)%nat \/ rest = buf.
Proof.
  unfold loop_step. destruct (Nat.ltb_spec (length buf) 18) as [|L]; [done|].
  destruct (getInt _) as [[magic hb]|]; [|done]. destruct (getInt hb) as [[n hb']|]; [|done].
  destruct (_ || _); [done|]. cbv zeta. destruct (_ <? 14 + n + 4); [done|].
  destruct (Z.ltb_spec (14 + n + 4) 0) as [|P]; [done|].
  destruct (deserializeFrame _); [|done]. intros H.
  assert (drop (Z.to_nat (14 + n + 4)) buf = rest) as <- by congruence.
  destruct (Z.to_nat (14 + n + 4)) as [|k] eqn:E; [right | left]; [apply drop_0|].
  rewrite length_drop. lia.
Qed.

(** The fuel of [inner_loop] is enough: when it runs out, the loop spins. *)
Lemma inner_loop_fuel buf :
  inner_loop (length buf) buf = None -> forall fuel, inner_loop fuel buf = None.
Proof.
  assert (H : forall n buf, (length buf <= n)%nat -> inner_loop n buf = None -> forall fuel, inner_loop fuel buf = None).
  { clear. induction n as [|n IH]; intros buf L H fuel.
    - destruct buf; [|cbn in L; lia]. by destruct fuel.
    - cbn [inner_loop] in H. destruct (loop_step buf) as [| | |ev rest] eqn:E; [done..|].
      destruct (loop_step_go _ _ _ E) as [Lr| ->]; [|by eapply inner_loop_spins].
      assert (Hr : inner_loop n rest = None) by (destruct (inner_loop n rest) as [[[]]|]; done).
      destruct fuel as [|fuel]; cbn [inner_loop]; rewrite E; [done|]. by rewrite (IH rest ltac:(lia) Hr). }
  by apply H.
Qed.

(** * Properties *)

(** C9: one frame format on both ends.  For every frame of at most 64 KiB the
    phone and the PC serialize the same bytes; and of the same bytes, whatever
    they are, they make the same: neither throws nor reads out of bounds, both
    reject, or both accept with the same fields (the phone's integers being
    signed), but for unknown message types, which the PC rejects and the phone
    takes for ERROR_MSG. *)
Theorem frame_codecs_agree (f q : TransportFrame) (data : list byte) :
  Z.of_nat (length (payload f)) <= MAX_PAYLOAD_SIZE ->
  (exists out, serializeFrame f = Some out /\ SerializeFrame (unsigned_frame f) = Def out) /\
  exists r, DeserializeFrame (Some data) (Z.of_nat (length data)) q = Def r /\
    deserializeFrame data = Some (phone_verdict data r).
Proof.
  intros L. unfold MAX_PAYLOAD_SIZE in L. split.
  - exists (frame_layout f). split; [apply serializeFrame_layout; lia|].
    rewrite <- frame_layout_unsigned. by apply SerializeFrame_layout.
  - eexists. split; [by apply DeserializeFrame_spec | apply deserializeFrame_spec].
Qed.

(** C19: one signed payload on both ends.  When the identifiers have their sizes,
    the phone encodes its payload to the 108 bytes the PC's [Serialize] gives;
    the PC parses them back to the same payload if the header is the current
    one, and so does the phone's own decoder. *)
Theorem payload_codecs_agree (p q : AuthPayload) :
  phone_sizes p ->
  exists out, kt_encode p = Some out /\ Serialize (unsigned_payload p) = Def out /\ length out = 108%nat /\
    (valid_header p -> Deserialize (Some out) 108 q =
       Def {| Protocol.ok := true; Protocol.outPayload := unsigned_payload p; Protocol.outError := SUCCESS |}) /\
    (swrap 16 (protocolVersion p) = protocolVersion p -> swrap 16 (algorithmId p) = algorithmId p ->
     i64 (expirationTimestampMs p) = expirationTimestampMs p -> kt_decode out = Some p).
Proof.
  intros Sz. pose proof (unsigned_payload_wf p Sz) as Wf. exists (layout p).
  pose proof (length_layout _ Wf) as LL. rewrite layout_unsigned in LL.
  pose proof (fields_at_layout _ [] Wf) as F. rewrite app_nil_r, layout_unsigned in F.
  split; [by apply kt_encode_layout|]. split; [rewrite <- layout_unsigned; by apply Serialize_layout|].
  split; [done|]. split.
  - intros (H1 & H2 & H3). rewrite Deserialize_spec by lia. rewrite decide_True by done.
    rewrite header_check_valid; rewrite F; [done|]. unfold valid_header, unsigned_payload.
    cbn [domain protocolVersion algorithmId]. by rewrite H1, H2, H3.
  - intros E1 E2 E3. rewrite kt_decode_fields, F by done. unfold signed_payload, unsigned_payload.
    cbn [domain protocolVersion algorithmId deviceId sessionId pcId challenge expirationTimestampMs].
    rewrite !swrap_wrap, E1, E2, E3 by lia. by destruct p.
Qed.

(** C20: what the PC sends, the phone gets.  Frames of at most 64 KiB, written one
    after the other and split into reads in any way, are delivered by the phone's
    receiver, each once and in order, with nothing else and no exception; if the
    client is disconnected or the stream ends in between, the first of them are. *)
Theorem phone_receives (l : list TransportFrame) (reads : list (list byte)) :
  Forall small_frame l -> Forall (fun r => r <> []) reads -> concat reads = concat (frame_layout <$> l) ->
  receiverLoop (connected reads) [] = Some (arrived <$> l) /\
  forall rounds more, concat reads = concat rounds.*2 ++ more ->
    exists k, receiverLoop rounds [] = Some (arrived <$> take k l).
Proof.
  intros Sm Ne E. split.
  - apply receiverLoop_frames; [done..|]. destruct l as [|f l]; [done|]. rewrite length_frame_layout. cbn. lia.
  - intros rounds more E'. apply (receiverLoop_some rounds l [] more); [done|]. cbn [app]. by rewrite <- E'.
Qed.

(** * Witnesses *)
Lemma frame_codecs_agree_witness :
  (exists out, serializeFrame demo_frame = Some out /\ SerializeFrame (unsigned_frame demo_frame) = Def out) /\
  exists r, DeserializeFrame (Some [x50; x4b]) 2 new_TransportFrame = Def r /\
    deserializeFrame [x50; x4b] = Some (phone_verdict [x50; x4b] r).
Proof. exact (frame_codecs_agree demo_frame new_TransportFrame [x50; x4b] ltac:(vm_compute; discriminate)). Defined.

Definition demo_answer : AuthPayload :=
  phone_payload (replicate 16 x02) (replicate 16 x01) (replicate 16 x03) (replicate 32 x04) 31000.

Lemma payload_codecs_agree_witness :
  exists out, kt_encode demo_answer = Some out /\ Serialize (unsigned_payload demo_answer) = Def out /\
    kt_decode out = Some demo_answer.
Proof.
  destruct (payload_codecs_agree demo_answer new_AuthPayload) as (out & E & S & _ & _ & D); [by split|].
  exists out. split; [exact E|]. split; [exact S|]. by apply D.
Defined.

Lemma phone_receives_witness :
  receiverLoop (connected [take 5 (frame_layout demo_frame);
                           drop 5 (frame_layout demo_frame) ++ frame_layout demo_frame]) [] =
    Some [arrived demo_frame; arrived demo_frame].
Proof.
  apply (phone_receives [demo_frame; demo_frame]).
  - repeat constructor; apply demo_frame_small.
  - repeat constructor; vm_compute; discriminate.
  - vm_compute. reflexivity.
Defined.

(** A length of -18 makes a frame of no bytes: the receiver stays on it for ever. *)
Definition spin_bytes : list byte := be_bytes 4 FRAME_MAGIC ++ be_bytes 4 (-18) ++ replicate 10 x00.
Example receiver_spins : forall fuel, inner_loop fuel spin_bytes = None.
Proof. apply (inner_loop_spins _ OnBadFrame). vm_compute. reflexivity. Qed.

(** The phone never gets past a bad byte, where the PC drops it and goes on. *)
Example phone_never_resyncs :
  receiverLoop (connected [x00 :: frame_layout demo_frame; frame_layout demo_frame]) [] = Some [OnCorrupted; OnCorrupted] /\
  rx_chunks [] [x00 :: frame_layout demo_frame; frame_layout demo_frame] =
    [EvNoise; EvFrame (received demo_frame); EvFrame (received demo_frame)].
Proof. split; vm_compute; reflexivity. Qed.
