(* ===== verification/PhoneThreads.v ===== *)
(** * PhoneThreads: the phone's connection under concurrent calls

    The rest of transport/TcpTransportClient.kt: connecting, closing and the
    receiver thread, and sending again, with every access to a member, call of
    the socket and callback as a step of Threads.  The body of
    [synchronized(out)] is one step: only such bodies write to the stream.  The
    theorem is about senders and [close]; the Examples are about reconnecting,
    which the code does without waiting for the old receiver thread. *)
From S2P Require Import Prelude Bytes Protocol FrameProtocol Platform TransportInterface Phone Threads.

(** ** The Java sockets

    An exception is [None] or [true]. *)
Class JavaNet (W : Type) := {
  new_Socket : string -> Z -> W -> option handle * W;
  getStreams : handle -> W -> bool * W;
  in_read : handle -> W -> option (list byte) * W;
  out_write : handle -> list byte -> W -> (nat * bool) * W;
  out_flush : handle -> W -> bool * W;
  socket_close : handle -> W -> bool * W;
  socket_isConnected : handle -> W -> bool;
}.
Class JavaNetModel (W : Type) := { out_bytes : W -> handle -> list byte }.

(** A write appends some of its bytes, and all when it does not throw; nothing
    else touches what was written to a socket. *)
Class JavaNetLaws (W : Type) `{JavaNet W, JavaNetModel W} : Prop := {
  write_law : forall h l w, let '((n, throws), w') := out_write h l w in
    out_bytes w' h = out_bytes w h ++ take n l /\ (throws = false -> (length l <= n)%nat);
  flush_bytes : forall h g w, out_bytes (out_flush h w).2 g = out_bytes w g;
  close_bytes : forall h g w, out_bytes (socket_close h w).2 g = out_bytes w g;
}.

(** ** State *)

(** A frame given to the stream, by which thread, the how manieth number taken
    from the counter it has, and how much of it was written. *)
Record Written : Type := {
  w_thread : nat;
  w_index : nat;
  w_frame : TransportFrame;
  w_count : nat;
}.

(** [taken] (the thread that took each number), [journal] and [told] (the events
    of each receiver) are history variables; [started] counts the receiver
    threads. *)
Record Client (W : Type) : Type := {
  c_socket : option handle;
  c_inputStream : option handle;
  c_outputStream : option handle;
  c_isConnected : bool;
  c_sequenceCounter : Z;
  started : nat;
  taken : list nat;
  journal : list Written;
  told : list (nat * PhoneEvent);
  net : W;
}.
Arguments c_socket {W}. Arguments c_inputStream {W}. Arguments c_outputStream {W}.
Arguments c_isConnected {W}. Arguments c_sequenceCounter {W}. Arguments started {W}.
Arguments taken {W}. Arguments journal {W}. Arguments told {W}. Arguments net {W}.

Section Setters.
Context {W : Type}.
Implicit Types (s : Client W).
Definition with_socket v s : Client W :=
  {| c_socket := v; c_inputStream := c_inputStream s; c_outputStream := c_outputStream s;
     c_isConnected := c_isConnected s; c_sequenceCounter := c_sequenceCounter s; started := started s;
     taken := taken s; journal := journal s; told := told s; net := net s |}.
Definition with_inputStream v s : Client W :=
  {| c_socket := c_socket s; c_inputStream := v; c_outputStream := c_outputStream s;
     c_isConnected := c_isConnected s; c_sequenceCounter := c_sequenceCounter s; started := started s;
     taken := taken s; journal := journal s; told := told s; net := net s |}.
Definition with_outputStream v s : Client W :=
  {| c_socket := c_socket s; c_inputStream := c_inputStream s; c_outputStream := v;
     c_isConnected := c_isConnected s; c_sequenceCounter := c_sequenceCounter s; started := started s;
     taken := taken s; journal := journal s; told := told s; net := net s |}.
Definition with_isConnected v s : Client W :=
  {| c_socket := c_socket s; c_inputStream := c_inputStream s; c_outputStream := c_outputStream s;
     c_isConnected := v; c_sequenceCounter := c_sequenceCounter s; started := started s;
     taken := taken s; journal := journal s; told := told s; net := net s |}.
Definition with_counter v t s : Client W :=
  {| c_socket := c_socket s; c_inputStream := c_inputStream s; c_outputStream := c_outputStream s;
     c_isConnected := c_isConnected s; c_sequenceCounter := v; started := started s;
     taken := t; journal := journal s; told := told s; net := net s |}.
Definition with_started v s : Client W :=
  {| c_socket := c_socket s; c_inputStream := c_inputStream s; c_outputStream := c_outputStream s;
     c_isConnected := c_isConnected s; c_sequenceCounter := c_sequenceCounter s; started := v;
     taken := taken s; journal := journal s; told := told s; net := net s |}.
Definition with_journal v s : Client W :=
  {| c_socket := c_socket s; c_inputStream := c_inputStream s; c_outputStream := c_outputStream s;
     c_isConnected := c_isConnected s; c_sequenceCounter := c_sequenceCounter s; started := started s;
     taken := taken s; journal := v; told := told s; net := net s |}.
Definition with_told v s : Client W :=
  {| c_socket := c_socket s; c_inputStream := c_inputStream s; c_outputStream := c_outputStream s;
     c_isConnected := c_isConnected s; c_sequenceCounter := c_sequenceCounter s; started := started s;
     taken := taken s; journal := journal s; told := v; net := net s |}.
Definition with_net v s : Client W :=
  {| c_socket := c_socket s; c_inputStream := c_inputStream s; c_outputStream := c_outputStream s;
     c_isConnected := c_isConnected s; c_sequenceCounter := c_sequenceCounter s; started := started s;
     taken := taken s; journal := journal s; told := told s; net := v |}.
End Setters.
#[export] Instance client_net W : Lens (Client W) W := { view := net; put := with_net }.

(** ** Methods *)
Section Methods.
Context {W : Type} `{HJ : JavaNet W}.
Abbreviation step := (Thread (Client W)).

Definition get {X} (f : Client W -> X) : step X := act (fun s => Def (f s, s)).
Definition set (f : Client W -> Client W) : step unit := act (fun s => Def (tt, f s)).
Definition java {X} (f : W -> X * W) : step X := act (zoom (pcall f)).

Definition th_isConnected : step bool :=
  let@ b := get c_isConnected in
  if b : bool then
    let@ sock := get c_socket in
    match sock with
    | Some h => get (fun s => socket_isConnected h (net s))
    | None => Done false
    end
  else Done false.

(** [close]: what the socket's own [close] throws is ignored. *)
Definition th_close : step unit :=
  set (with_isConnected false) ;@
  let@ sock := get c_socket in
  (match sock with
   | Some h => java (socket_close h) ;@ Done tt
   | None => Done tt
   end) ;@
  set (with_socket None) ;@
  set (with_inputStream None) ;@
  set (with_outputStream None).

Definition th_connect (host : string) (port : Z) : step bool :=
  th_close ;@
  let@ sock := java (new_Socket host port) in
  match sock with
  | None => th_close ;@ Done false
  | Some h =>
    set (with_socket (Some h)) ;@
    let@ ok := java (getStreams h) in
    if negb ok then th_close ;@ Done false else
    set (with_inputStream (Some h)) ;@
    let@ ok := java (getStreams h) in
    if negb ok then th_close ;@ Done false else
    set (with_outputStream (Some h)) ;@
    set (with_isConnected true) ;@
    set (fun s => with_started (S (started s)) s) ;@
    Done true
  end.

Definition tell (i : nat) (evs : list PhoneEvent) : step unit :=
  set (fun s => with_told (told s ++ map (pair i) evs) s).

(** The reads of [receiverLoop], at most [fuel] of them. *)
Fixpoint th_reads (fuel : nat) (i : nat) (inStream : handle) (rxBuffer : list byte) : step unit :=
  match fuel with
  | O => Done tt
  | S fuel =>
    let@ b := get c_isConnected in
    if negb (b : bool) then Done tt else
    let@ read := java (in_read inStream) in
    match read with
    | None | Some [] => Done tt
    | Some buffer =>
      let rxBytes := rxBuffer ++ buffer in
      match inner_loop (length rxBytes) rxBytes with
      | None => await (fun _ => None)
      | Some (evs, kept, thrown) =>
        tell i evs ;@
        if thrown : bool then Done tt else th_reads fuel i inStream kept
      end
    end
  end.

Definition th_receiverLoop (fuel : nat) (i : nat) : step unit :=
  let@ inStream := get c_inputStream in
  match inStream with
  | None => Done tt
  | Some h =>
    th_reads fuel i h [] ;@
    set (with_isConnected false)
  end.
(** The [i]th receiver thread. *)
Definition th_receiver (fuel : nat) (i : nat) : step unit :=
  await (fun s => if (i <? started s)%nat then Some (tt, s) else None) ;@
  th_receiverLoop fuel i.

Definition phone_frame (t : TransportMessageType) (payload : list byte) (number : Z) : TransportFrame :=
  {| magic := FRAME_MAGIC; payloadLength := Z.of_nat (length payload); messageType := t; flags := x00;
     sequenceNumber := number; payload := payload; checksum := 0 |}.

(** [sequenceCounter.getAndIncrement()], and the how manieth number it is. *)
Definition getAndIncrement (i : nat) : step (nat * Z) :=
  act (fun s => Def ((length (taken s), c_sequenceCounter s),
                     with_counter (i32 (c_sequenceCounter s + 1)) (taken s ++ [i]) s)).

(** [synchronized(out) { out.write(serialized); out.flush() }]: whether it threw. *)
Definition locked_write (i k : nat) (out : handle) (frame : TransportFrame) (serialized : list byte) : step bool :=
  act (let* '(n, throws) := zoom (pcall (out_write out serialized)) in
       let* s := pget in
       pput (with_journal (journal s ++ [{| w_thread := i; w_index := k; w_frame := frame; w_count := n |}]) s) ;;
       if throws : bool then pret true else zoom (pcall (out_flush out))).

Definition th_sendFrame (i : nat) (t : TransportMessageType) (payload : list byte) : step bool :=
  let@ connected := th_isConnected in
  if negb connected then Done false else
  let@ out := get c_outputStream in
  match out with
  | None => Done false
  | Some out =>
    let@ '(k, number) := getAndIncrement i in
    let frame := phone_frame t payload number in
    match serializeFrame frame with
    | None => set (with_isConnected false) ;@ Done false
    | Some serialized =>
      let@ threw := locked_write i k out frame serialized in
      if threw : bool then set (with_isConnected false) ;@ Done false else Done true
    end
  end.

(** Alone, it is [sendFrame] of Phone, over the stream of the socket. *)
Definition stream_write (out : handle) (w : W) (l : list byte) : nat * bool :=
  let '((n, throws), w) := out_write out l w in (n, throws || (out_flush out w).1).
Definition plain (h : handle) (s : Client W) : TcpTransportClient :=
  {| socket_connected := socket_isConnected h (net s); isConnected := c_isConnected s;
     sequenceCounter := c_sequenceCounter s |}.

Lemma alone_sendFrame i t payload h s :
  c_socket s = Some h -> c_outputStream s = Some h -> (forall w w', socket_isConnected h w = socket_isConnected h w') ->
  exists b s' bytes, alone (th_sendFrame i t payload) s = Some (Def (b, s')) /\
    sendFrame (stream_write h (net s)) t payload (plain h s) = (b, bytes, plain h s').
Proof.
  intros Es Eo Sc. unfold th_sendFrame, th_isConnected, sendFrame, plain. rewrite alone_bind. cbn.
  destruct (c_isConnected s) eqn:Ec; cbn; [|exists false, s, []; by rewrite Ec].
  rewrite Es. cbn. destruct (socket_isConnected h (net s)) eqn:Ek; cbn; [|exists false, s, []; by rewrite Ec, Ek].
  rewrite Eo. cbn. fold (phone_frame t payload (c_sequenceCounter s)).
  assert (Sc' : forall w, socket_isConnected h w = true) by (intros w; rewrite <- Ek; apply Sc).
  destruct (serializeFrame _) as [bytes|]; cbn.
  2: { exists false. eexists _, []. split; [done|]. cbn. by rewrite Sc'. }
  unfold locked_write, stream_write, zoom, pcall, pbind. cbn.
  destruct (out_write h bytes (net s)) as [[n throws] w]. cbn. destruct throws; cbn.
  { exists false. eexists _, _. split; [done|]. cbn. by rewrite Sc'. }
  destruct (out_flush h w) as [b w2]. cbn. destruct b; cbn; eexists _, _, _; (split; [done|]); cbn; by rewrite Sc', ?Ec.
Qed.

(** ** Threads *)
Inductive ClientOp : Type := Send (t : TransportMessageType) (payload : list byte) | Close.

Definition client_op (i : nat) (op : ClientOp) : step bool :=
  match op with
  | Send t payload => th_sendFrame i t payload
  | Close => th_close ;@ Done true
  end.
Fixpoint client_ops (i : nat) (ops : list ClientOp) : step (list bool) :=
  match ops with
  | [] => Done []
  | op :: ops =>
    let@ b := client_op i op in
    let@ bs := client_ops i ops in
    Done (b :: bs)
  end.
Definition sender_pool (tasks : list (list ClientOp)) : list (step (list bool)) := imap client_ops tasks.
End Methods.

(** The bytes of an entry that were written. *)
Definition w_bytes (e : Written) : list byte := take (w_count e) (frame_layout (w_frame e)).
Definition entries_of (i : nat) (es : list Written) : list Written := filter (fun e => w_thread e = i) es.

(** What the answers of a thread's calls say of its entries: one that answers
    true wrote its frame whole. *)
Inductive says : list ClientOp -> list bool -> list Written -> Prop :=
| says_nil : says [] [] []
| says_close ops b bs es : says ops bs es -> says (Close :: ops) (b :: bs) es
| says_none t p ops bs es : says ops bs es -> says (Send t p :: ops) (false :: bs) es
| says_frame t p ops b bs e es :
    says ops bs es -> w_frame e = phone_frame t p (sequenceNumber (w_frame e)) ->
    (b = true -> w_bytes e = frame_layout (w_frame e)) ->
    says (Send t p :: ops) (b :: bs) (e :: es).

Lemma says_cons op b new ops bs es :
  says [op] [b] new -> says ops bs es -> says (op :: ops) (b :: bs) (new ++ es).
Proof.
  intros H. inversion H as [|? ? ? ? N|? ? ? ? ? N|? ? ? ? ? ? ? N]; subst; inversion N; subst; cbn;
    by constructor.
Qed.

(** ** What the threads keep *)
Section Sending.
Context {W : Type} `{HJ : JavaNet W} `{HM : JavaNetModel W} `{HL : !JavaNetLaws W}.
Implicit Types (s : Client W).
(** The connection, what was on it, and the counter at the start. *)
Context (out : handle) (before : list byte) (c0 : Z).

Record sound s : Prop := {
  so_stream : c_outputStream s = Some out \/ c_outputStream s = None;
  so_wire : out_bytes (net s) out = before ++ concat (w_bytes <$> journal s);
  so_counter : c_sequenceCounter s = i32 (c0 + Z.of_nat (length (taken s)));
  so_owner : Forall (fun e => taken s !! w_index e = Some (w_thread e) /\
    sequenceNumber (w_frame e) = i32 (c0 + Z.of_nat (w_index e))) (journal s);
  so_once : NoDup (w_index <$> journal s);
}.
Record link (i : nat) s s' : Prop := {
  lk_taken : exists ks, taken s' = taken s ++ ks;
  lk_journal : exists es, journal s' = journal s ++ es /\
    Forall (fun e => w_thread e = i /\ taken s' !! w_index e = Some i) es;
}.

(** A step that neither counts nor writes. *)
Lemma quiet_ok i s s' :
  (c_outputStream s' = c_outputStream s \/ c_outputStream s' = None) ->
  out_bytes (net s') out = out_bytes (net s) out ->
  (c_sequenceCounter s', taken s', journal s') = (c_sequenceCounter s, taken s, journal s) ->
  linked sound link i s s'.
Proof.
  intros Eo Ew [= E1 E2 E3] [Os Wr Co Ow On]. split.
  - split; rewrite ?E1, ?E2, ?E3, ?Ew; try done. destruct Eo as [-> | ->]; [done | by right].
  - split; [exists []; by rewrite app_nil_r | exists []; by rewrite app_nil_r, E3].
Qed.

Section Thread.
Context (i : nat).
Abbreviation runs := (keeps sound link i).

(** It has written [es]; the number with index [k] is its own and not used yet. *)
Definition wrote (es : list Written) s : Prop := entries_of i (journal s) = es.
Definition may_use (k : nat) s : Prop := taken s !! k = Some i /\ k ∉ (w_index <$> journal s).

Lemma entries_others j es : j <> i -> Forall (fun e => w_thread e = j) es -> entries_of i es = [].
Proof.
  intros N F. induction F as [|e es E F IH]; [done|]. unfold entries_of. by rewrite filter_cons_False by congruence.
Qed.

Lemma lasting_wrote es : lasting sound link i (wrote es).
Proof.
  intros j s s' N So Lk Ew. destruct (lk_journal _ _ _ Lk) as (new & Ej & F). unfold wrote, entries_of in *.
  rewrite Ej, filter_app, Ew. assert (E : entries_of i new = []); [|unfold entries_of in E; by rewrite E, app_nil_r].
  apply (entries_others j); [done|]. eapply Forall_impl; [exact F|]. by intros e [].
Qed.

Lemma lasting_may_use k : lasting sound link i (may_use k).
Proof.
  intros j s s' N So Lk [Tk Nk]. destruct (lk_taken _ _ _ Lk) as [ks Et]. destruct (lk_journal _ _ _ Lk) as (new & Ej & F).
  assert (T' : taken s' !! k = Some i) by (rewrite Et; by apply lookup_app_l_Some).
  split; [done|]. rewrite Ej, fmap_app, not_elem_of_app. split; [done|]. intros (e & -> & He)%list_elem_of_fmap.
  destruct (proj1 (Forall_forall _ _) F e He) as [_ T2]. congruence.
Qed.

(** Steps that neither count nor write. *)
Lemma quiet_runs {A X} P (m : Proc (Client W) X) (k : X -> Thread (Client W) A) Q s :
  lasting sound link i P -> sound s -> P s ->
  (forall s, sound s -> P s -> wp m (fun x s' =>
     (c_outputStream s' = c_outputStream s \/ c_outputStream s' = None) /\
     out_bytes (net s') out = out_bytes (net s) out /\
     (c_sequenceCounter s', taken s', journal s') = (c_sequenceCounter s, taken s, journal s) /\
     (sound s' -> P s' -> runs (k x) Q s')) s) ->
  (forall s s', (taken s', journal s') = (taken s, journal s) -> P s -> P s') ->
  runs (tbind (act m) k) Q s.
Proof.
  intros L So Ps H K. apply (keeps_act P); [done..|]. clear s So Ps. intros s So Ps.
  eapply wp_mono; [by apply H|]. intros x s' (E1 & E2 & E3 & R). split; [by apply quiet_ok|].
  intros So'. apply R; [done|]. apply (K s); [congruence|done].
Qed.

Lemma wrote_same es s s' : (taken s', journal s') = (taken s, journal s) -> wrote es s -> wrote es s'.
Proof. unfold wrote. by intros [= _ ->]. Qed.

Lemma get_runs {A X} es (f : Client W -> X) (k : X -> Thread (Client W) A) Q s :
  sound s -> wrote es s -> (forall s, sound s -> wrote es s -> runs (k (f s)) Q s) ->
  runs (tbind (get f) k) Q s.
Proof.
  intros So Ws H. apply (quiet_runs (wrote es)); [apply lasting_wrote|done|done| |apply wrote_same].
  clear s So Ws. intros s So Ws. split; [by left|]. split; [done|]. split; [done|]. auto.
Qed.

Lemma set_runs {A} es (f : Client W -> Client W) (k : unit -> Thread (Client W) A) Q s :
  (forall s, (c_outputStream (f s) = c_outputStream s \/ c_outputStream (f s) = None) /\ net (f s) = net s /\
     (c_sequenceCounter (f s), taken (f s), journal (f s)) = (c_sequenceCounter s, taken s, journal s)) ->
  sound s -> wrote es s -> (forall s, sound s -> wrote es s -> runs (k tt) Q s) ->
  runs (tbind (set f) k) Q s.
Proof.
  intros F So Ws H. apply (quiet_runs (wrote es)); [apply lasting_wrote|done|done| |apply wrote_same].
  clear s So Ws. intros s So Ws. destruct (F s) as (E1 & E2 & E3).
  split; [done|]. split; [by rewrite E2|]. split; [done|]. auto.
Qed.

Lemma java_runs {A X} es (f : W -> X * W) (k : X -> Thread (Client W) A) Q s :
  (forall w, out_bytes (f w).2 out = out_bytes w out) ->
  sound s -> wrote es s -> (forall x s, sound s -> wrote es s -> runs (k x) Q s) ->
  runs (tbind (java f) k) Q s.
Proof.
  intros F So Ws H. apply (quiet_runs (wrote es)); [apply lasting_wrote|done|done| |apply wrote_same].
  clear s So Ws. intros s So Ws. apply wp_zoom, wp_call. intros x w E. cbn [view put client_net] in *.
  pose proof (F (net s)) as Fw. rewrite E in Fw. split; [by left|]. split; [done|]. split; [done|]. auto.
Qed.

Lemma wrote_done {A} (a : A) es (Q : A -> Client W -> Prop) s :
  sound s -> wrote es s -> (forall s, sound s -> wrote es s -> Q a s) -> runs (Done a) Q s.
Proof. intros So Ws H. apply (keeps_done (wrote es)); [apply lasting_wrote|done..]. Qed.

Lemma close_runs {A} es (k : unit -> Thread (Client W) A) Q s :
  sound s -> wrote es s -> (forall s, sound s -> wrote es s -> runs (k tt) Q s) ->
  runs (tbind th_close k) Q s.
Proof.
  intros So Ws H. unfold th_close. apply rg_assoc, (set_runs es); [intros; by auto|done..|]. clear s So Ws. intros s So Ws.
  apply rg_assoc, (get_runs es); [done..|]. clear s So Ws. intros s So Ws.
  assert (Fin : forall s, sound s -> wrote es s -> runs (tbind (set (with_socket None) ;@
    set (with_inputStream None) ;@ set (with_outputStream None)) k) Q s).
  { intros s1 So1 Ws1. apply rg_assoc, (set_runs es); [intros; by auto|done..|]. intros s2 So2 Ws2.
    apply rg_assoc, (set_runs es); [intros; by auto|done..|]. intros s3 So3 Ws3.
    apply (set_runs es); [intros; by auto|done..]. }
  apply rg_assoc. destruct (c_socket s) as [h|]; [|by apply Fin].
  apply rg_assoc, (java_runs es); [intros w; apply close_bytes|done..|]. intros x s' So' Ws'. by apply Fin.
Qed.

(** Taking a number. *)
Lemma number_runs {A} es (k : nat * Z -> Thread (Client W) A) Q s :
  sound s -> wrote es s ->
  (forall n s, sound s -> wrote es s /\ may_use n s -> runs (k (n, i32 (c0 + Z.of_nat n))) Q s) ->
  runs (tbind (getAndIncrement i) k) Q s.
Proof.
  intros So Ws H. apply (keeps_act (wrote es)); [apply lasting_wrote|done..|]. clear s So Ws. intros s So Ws.
  unfold wpx. cbn. pose proof So as [Os Wr Co Ow On]. set (s' := with_counter _ _ s).
  assert (Nu : length (taken s) ∉ (w_index <$> journal s)).
  { intros (e & E & He)%list_elem_of_fmap. destruct (proj1 (Forall_forall _ _) Ow e He) as [T _].
    apply lookup_lt_Some in T. lia. }
  split.
  - intros _. split; [split|split]; cbn; [done|done| | |done| |].
    + rewrite Co, swrap_add, length_app by done. cbn. f_equal. lia.
    + eapply Forall_impl; [exact Ow|]. intros e [T N]. split; [|done]. by apply lookup_app_l_Some.
    + by exists [i].
    + exists []. by rewrite app_nil_r.
  - intros So'. rewrite Co. apply H; [done|]. split; [done|]. split; [|done].
    apply list_lookup_middle. done.
Qed.

Definition entry (k : nat) (frame : TransportFrame) (n : nat) : Written :=
  {| w_thread := i; w_index := k; w_frame := frame; w_count := n |}.

(** Writing a frame with a number of one's own. *)
Lemma locked_runs {A} es k frame (K : bool -> Thread (Client W) A) Q s :
  sequenceNumber frame = i32 (c0 + Z.of_nat k) -> sound s -> wrote es s /\ may_use k s ->
  (forall threw n s, sound s -> wrote (es ++ [entry k frame n]) s ->
     (threw = false -> w_bytes (entry k frame n) = frame_layout frame) -> runs (K threw) Q s) ->
  runs (tbind (locked_write i k out frame (frame_layout frame)) K) Q s.
Proof.
  intros Nm So Ws H. apply (keeps_act (fun s => wrote es s /\ may_use k s)); [|done..|].
  { apply lasting_and; [apply lasting_wrote | apply lasting_may_use]. }
  clear s So Ws. intros s So [Ws [Tk Nk]].
  unfold wpx, locked_write, pbind, zoom, pcall. cbn.
  destruct (out_write out (frame_layout frame) (net s)) as [[n throws] w] eqn:Ew.
  pose proof (write_law out (frame_layout frame) (net s)) as Wl. rewrite Ew in Wl. destruct Wl as [Wb Wn].
  set (s1 := with_journal (journal s ++ [entry k frame n]) (with_net w s)).
  assert (Whole : throws = false -> w_bytes (entry k frame n) = frame_layout frame).
  { intros F. unfold w_bytes. cbn. by rewrite take_ge by auto. }
  assert (L : forall w', out_bytes w' out = out_bytes w out -> linked sound link i s (with_net w' s1)).
  { intros w' E _. destruct So as [Os Wr Co Ow On]. split; [split|split]; cbn; [done| |done| | | |].
    - rewrite E, Wb, Wr, fmap_app, concat_app, <- app_assoc. cbn. by rewrite app_nil_r.
    - apply Forall_app. split; [done|]. by constructor.
    - rewrite fmap_app. apply NoDup_app. split; [done|]. split; [|apply NoDup_singleton].
      intros x Hx ->%list_elem_of_singleton. done.
    - exists []. by rewrite app_nil_r.
    - exists [entry k frame n]. split; [done|]. by constructor. }
  assert (Ws' : forall w', wrote (es ++ [entry k frame n]) (with_net w' s1)).
  { intros w'. unfold wrote, entries_of in *. cbn. by rewrite filter_app, Ws, filter_cons_True. }
  cbn. destruct throws; cbn.
  - split; [exact (L w eq_refl)|]. intros So'. apply (H true n); [done|exact (Ws' w)|done].
  - destruct (out_flush out w) as [b w2] eqn:Ef. pose proof (flush_bytes out out w) as Fl. rewrite Ef in Fl.
    split; [exact (L w2 Fl)|]. intros So'. apply (H b n); [done|exact (Ws' w2)|]. intros _. by apply Whole.
Qed.

(** *** Calls *)
Definition answered (es : list Written) (op : ClientOp) (b : bool) s : Prop :=
  sound s /\ exists new, wrote (es ++ new) s /\ says [op] [b] new.

Definition op_fits (op : ClientOp) : Prop :=
  match op with Send _ payload => Z.of_nat (length payload) < 2 ^ 31 - 18 | Close => True end.

Lemma send_none es t p s :
  sound s -> wrote es s -> runs (Done false) (answered es (Send t p)) s.
Proof.
  intros So Ws. apply (wrote_done false es); [done..|]. clear s So Ws. intros s So Ws. split; [done|].
  exists []. rewrite app_nil_r. split; [done|]. apply says_none, says_nil.
Qed.

Lemma connected_runs {A} es (k : bool -> Thread (Client W) A) Q s :
  sound s -> wrote es s -> (forall b s, sound s -> wrote es s -> runs (k b) Q s) ->
  runs (tbind th_isConnected k) Q s.
Proof.
  intros So Ws H. unfold th_isConnected. apply rg_assoc, (get_runs es); [done..|]. clear s So Ws. intros s So Ws.
  destruct (c_isConnected s); [|by apply H]. apply rg_assoc, (get_runs es); [done..|]. clear s So Ws. intros s So Ws.
  destruct (c_socket s) as [h|]; [|by apply H]. apply (get_runs es); [done..|]. intros s' So' Ws'. by apply H.
Qed.

Lemma phone_send_runs es t p s :
  op_fits (Send t p) -> sound s -> wrote es s -> runs (th_sendFrame i t p) (answered es (Send t p)) s.
Proof.
  intros Fit So Ws. unfold th_sendFrame. apply (connected_runs es); [done..|]. clear s So Ws. intros b s So Ws.
  destruct (negb b); [by apply send_none|]. apply (get_runs es); [done..|]. clear s So Ws. intros s So Ws.
  destruct (so_stream _ So) as [-> | ->]; [|by apply send_none].
  apply (number_runs es); [done..|]. clear s So Ws. intros n s So Ws. cbv zeta.
  set (frame := phone_frame t p (i32 (c0 + Z.of_nat n))). rewrite serializeFrame_layout by exact Fit.
  apply (locked_runs es n frame); [done..|]. clear s So Ws. intros threw m s So Ws Whole.
  assert (Fin : forall b s, (b = true -> threw = false) -> sound s -> wrote (es ++ [entry n frame m]) s ->
    runs (Done b) (answered es (Send t p)) s).
  { intros b' s1 Tb So1 Ws1. apply (wrote_done b' (es ++ [entry n frame m])); [done..|]. intros s2 So2 Ws2.
    split; [done|]. exists [entry n frame m]. split; [done|]. apply says_frame; [apply says_nil|done|auto]. }
  destruct threw; [|by apply Fin]. apply (set_runs (es ++ [entry n frame m])); [intros; by auto|done..|].
  intros s1 So1 Ws1. by apply Fin.
Qed.

Lemma phone_op_runs es op s : op_fits op -> sound s -> wrote es s -> runs (client_op i op) (answered es op) s.
Proof.
  intros Fit So Ws. destruct op as [t p|]; [by apply phone_send_runs|]. cbn [client_op].
  apply (close_runs es); [done..|]. clear s So Ws. intros s So Ws. apply (wrote_done true es); [done..|].
  clear s So Ws. intros s So Ws. split; [done|]. exists []. rewrite app_nil_r. split; [done|]. apply says_close, says_nil.
Qed.

Definition ended (es : list Written) (ops : list ClientOp) (bs : list bool) s : Prop :=
  sound s /\ exists new, wrote (es ++ new) s /\ says ops bs new.

Lemma phone_ops_runs es ops s :
  Forall op_fits ops -> sound s -> wrote es s -> runs (client_ops i ops) (ended es ops) s.
Proof.
  intros F. revert es s. induction F as [|op ops Fo F IH]; intros es s So Ws; cbn [client_ops].
  - apply (wrote_done [] es); [done..|]. clear s So Ws. intros s So Ws. split; [done|]. exists [].
    rewrite app_nil_r. split; [done|]. apply says_nil.
  - eapply rg_seq; [by apply (phone_op_runs es op)|]. clear s So Ws. intros b s (So & new & Ws & Sy).
    eapply rg_seq; [by apply IH|]. clear s So Ws. intros bs s (So & new' & Ws & Sy').
    apply (wrote_done (b :: bs) ((es ++ new) ++ new')); [done..|]. clear s So Ws. intros s So Ws. split; [done|].
    exists (new ++ new'). rewrite app_assoc. split; [done|]. by apply says_cons.
Qed.
End Thread.
End Sending.

(** ** The pool *)
Section Pool.
Context {W : Type} `{HJ : JavaNet W} `{HM : JavaNetModel W} `{HL : !JavaNetLaws W}.
Implicit Types (s : Client W).

(** A client with the connection [out], before the threads start. *)
Definition connection (out : handle) s : Prop :=
  c_outputStream s = Some out /\ taken s = [] /\ journal s = [] /\ c_sequenceCounter s = i32 (c_sequenceCounter s).

Definition post (tasks : list (list ClientOp)) (out : handle) (before : list byte) (c0 : Z)
    (i : nat) (bs : list bool) s : Prop :=
  forall ops, tasks !! i = Some ops -> ended out before c0 i [] ops bs s.

Lemma sends_run out tasks s c :
  connection out s -> Forall (Forall op_fits) tasks -> rtc pool_step (s, sender_pool tasks) c ->
  let before := out_bytes (net s) out in let c0 := c_sequenceCounter s in
  sound out before c0 c.1 /\ all_keep (sound out before c0) link (post tasks out before c0) c.
Proof.
  intros (Eo & Et & Ej & Ec) Fit Rs before c0.
  assert (So : sound out before c0 s).
  { split; rewrite ?Et, ?Ej; [by left|by rewrite app_nil_r| |constructor|constructor].
    cbn. unfold c0. by rewrite Z.add_0_r, <- Ec. }
  assert (Sp : all_keep (sound out before c0) link (post tasks out before c0) (s, sender_pool tasks)).
  { intros i t. cbn [fst snd]. unfold sender_pool. rewrite list_lookup_imap.
    destruct (tasks !! i) as [ops|] eqn:E; [|done]. intros [= <-]. eapply rg_mono.
    - apply (phone_ops_runs out before c0 i [] ops s); [by apply (Forall_lookup_1 _ _ i ops Fit)|done|].
      unfold wrote. by rewrite Ej.
    - intros bs s' H ops' E'. rewrite E in E'. by injection E' as <-. }
  split; [|by eapply all_keep_steps].
  by destruct (all_keep_invariant (sound out before c0) link (post tasks out before c0) (fun _ _ => True)
    (s, sender_pool tasks) c) as [So' _].
Qed.

Lemma i32_inj c a b : 0 <= a < 2 ^ 32 -> 0 <= b < 2 ^ 32 -> i32 (c + a) = i32 (c + b) -> a = b.
Proof.
  intros Ha Hb E. apply (f_equal (fun z => z mod 2 ^ 32)) in E. rewrite !swrap_mod in E by done.
  assert (D : (a - b) mod 2 ^ 32 = 0).
  { replace (a - b) with ((c + a) - (c + b)) by lia. rewrite Zminus_mod, E, Z.sub_diag. done. }
  apply Z.mod_divide in D as [q Hq]; [|done]. assert (q = 0) by nia. lia.
Qed.

(** The numbers on the wire differ while no more than 2^32 have been taken. *)
Lemma numbers_differ out before c0 s :
  sound out before c0 s -> Z.of_nat (length (taken s)) <= 2 ^ 32 ->
  NoDup ((fun e => sequenceNumber (w_frame e)) <$> journal s).
Proof.
  intros [_ _ _ Ow On] L. apply NoDup_fmap_2_strong; [|by eapply NoDup_fmap_1].
  intros x y Hx Hy E. pose proof (proj1 (Forall_forall _ _) Ow) as O.
  destruct (O x Hx) as [Tx Nx], (O y Hy) as [Ty Ny]. rewrite Nx, Ny in E.
  apply lookup_lt_Some in Tx, Ty. apply i32_inj in E; [|lia..]. apply Nat2Z.inj in E.
  apply list_elem_of_lookup in Hx as [jx Hx], Hy as [jy Hy].
  assert (jx = jy); [|congruence].
  apply (NoDup_lookup (w_index <$> journal s) jx jy (w_index x)); [done|by rewrite list_lookup_fmap, Hx|].
  by rewrite list_lookup_fmap, Hy, E.
Qed.
End Pool.

(** * Properties *)
Section Properties.
Context {W : Type} `{HJ : JavaNet W} `{HM : JavaNetModel W} `{HL : !JavaNetLaws W}.
Implicit Types (s : Client W).

(** C23: the phone's concurrent sends.  Threads send frames and close the
    connection, interleaved between any two accesses to the client's members.
    Then every run ends with all calls answered; what went out on the connection
    is, after what was there before, one frame after the other, each cut off only
    where its write threw; their sequence numbers differ (while fewer than 2^32
    are taken), though they need not be in order; and each call that answered
    true wrote its frame whole, in the order of its thread's calls. *)
Theorem phone_sends out tasks s c :
  connection out s -> Forall (Forall op_fits) tasks -> rtc pool_step (s, sender_pool tasks) c ->
  ~ goes_wrong c /\ sn pool_step c /\ (nf pool_step c -> all_done c) /\
  out_bytes (net c.1) out = out_bytes (net s) out ++ concat (w_bytes <$> journal c.1) /\
  (Z.of_nat (length (taken c.1)) <= 2 ^ 32 -> NoDup ((fun e => sequenceNumber (w_frame e)) <$> journal c.1)) /\
  (forall i ops answers, tasks !! i = Some ops -> c.2 !! i = Some (Done answers) ->
     says ops answers (entries_of i (journal c.1))).
Proof.
  intros Co Fit Rs. destruct (sends_run out tasks s c Co Fit Rs) as [So Sp].
  destruct (all_keep_ends _ _ _ c Sp) as (Ok1 & Ok2 & Ok3). do 3 (split; [done|]). split; [apply So|].
  split; [by eapply numbers_differ|]. intros i ops answers Ei Ht.
  destruct (specified_done _ _ _ _ c i answers Sp Ht ops Ei) as (_ & new & Ew & Sy). unfold wrote in Ew. cbn in Ew.
  by rewrite Ew.
Qed.
End Properties.

(** * Witness *)

(** A toy network: scripted reads, and writes that never throw. *)
Record Jvm : Type := { j_next : handle; j_in : gmap handle (list (list byte)); j_out : gmap handle (list byte) }.
#[export] Instance jvm_net : JavaNet Jvm := {
  new_Socket := fun _ _ w => (Some (j_next w), {| j_next := j_next w + 1; j_in := j_in w; j_out := j_out w |});
  getStreams := fun _ w => (true, w);
  in_read := fun h w =>
    match j_in w !! h with
    | Some (buffer :: rest) => (Some buffer, {| j_next := j_next w; j_in := <[h := rest]> (j_in w); j_out := j_out w |})
    | _ => (None, w)
    end;
  out_write := fun h l w =>
    ((length l, false), {| j_next := j_next w; j_in := j_in w;
                           j_out := <[h := default [] (j_out w !! h) ++ l]> (j_out w) |});
  out_flush := fun _ w => (false, w);
  socket_close := fun h w => (false, {| j_next := j_next w; j_in := delete h (j_in w); j_out := j_out w |});
  socket_isConnected := fun _ _ => true;
}.
#[export] Instance jvm_model : JavaNetModel Jvm := { out_bytes := fun w h => default [] (j_out w !! h) }.
#[export] Instance jvm_laws : JavaNetLaws Jvm.
Proof.
  constructor; [|done..]. intros h l w. cbn. rewrite lookup_insert_eq, take_ge by done. done.
Qed.

Definition new_client (w : Jvm) : Client Jvm :=
  {| c_socket := None; c_inputStream := None; c_outputStream := None; c_isConnected := false;
     c_sequenceCounter := 1; started := 0; taken := []; journal := []; told := []; net := w |}.
Definition jvm0 : Jvm := {| j_next := 1; j_in := ∅; j_out := ∅ |}.
Definition demo_client : Client Jvm :=
  with_isConnected true (with_outputStream (Some 1) (with_socket (Some 1) (new_client jvm0))).
Definition demo_send : ClientOp := Send UNLOCK_RESP [x01; x02].
Definition demo_senders : list (list ClientOp) := [[demo_send]; [demo_send; Close]].

(** The first thread takes its number first and writes last. *)
Definition overtaken (c : Client Jvm * list (Thread (Client Jvm) (list bool))) : bool :=
  match c.2 with
  | [Done [true]; Done [true; true]] => bool_decide (w_index <$> journal c.1 = [1; 0]%nat)
  | _ => false
  end.

Lemma phone_sends_witness :
  exists c, rtc pool_step (demo_client, sender_pool demo_senders) c /\ overtaken c = true /\
    out_bytes (net c.1) 1 = out_bytes (net demo_client) 1 ++ concat (w_bytes <$> journal c.1) /\
    says [demo_send] [true] (entries_of 0 (journal c.1)).
Proof.
  destruct (reaches_spec (replicate 5 0 ++ replicate 6 1 ++ [0] ++ replicate 6 1)%nat overtaken
    (demo_client, sender_pool demo_senders)) as (c & R & T); [vm_compute; reflexivity|].
  assert (Co : connection 1 demo_client) by (split; [reflexivity|]; split; [reflexivity|]; split; reflexivity).
  assert (Fit : Forall (Forall op_fits) demo_senders) by (repeat constructor).
  destruct (phone_sends 1 demo_senders demo_client c Co Fit R) as (_ & _ & _ & Wire & _ & Says).
  exists c. split; [done|]. split; [done|]. split; [exact Wire|]. apply (Says 0%nat); [reflexivity|].
  unfold overtaken in T. destruct c as [s [|[[|[] []]|] [|[[|[] [|[] []]]|] []]]]; done.
Defined.

(** Reconnecting: [close] does not wait for the receiver thread of the connection
    before, which ends later and marks the new connection as not connected.  The
    new receiver stops at once and nothing can be sent, though [connect] answered
    true and the socket is open. *)
Definition reconnect : list (Thread (Client Jvm) bool) :=
  [th_connect "pc" 8443 ;@ th_connect "pc" 8443; th_receiver 5 0 ;@ Done true; th_receiver 5 1 ;@ Done true].
Example reconnect_race :
  reaches (replicate 13 0 ++ [1; 1; 1] ++ replicate 14 0 ++ [1; 1] ++ [2; 2; 2; 2])%nat (fun c =>
    match c.2 with
    | [Done true; Done _; Done _] =>
      bool_decide (c_socket c.1 = Some 2) && negb (c_isConnected c.1)
    | _ => false
    end) (new_client jvm0, reconnect) = true.
Proof. vm_compute. reflexivity. Qed.

(** Stopping: a [close] that comes while [connect] is on its way closes nothing,
    and the connection is there after it. *)
Example stop_overtaken :
  reaches (replicate 6 0 ++ replicate 5 1 ++ replicate 7 0)%nat (fun c =>
    match c.2 with
    | [Done true; Done _] => c_isConnected c.1
    | _ => false
    end) (new_client jvm0, [th_connect "pc" 8443; th_close ;@ Done true]) = true.
Proof. vm_compute. reflexivity. Qed.
