(* ===== verification/PhonePairing.v ===== *)
(** * PhonePairing: the phone's end of pairing

    Models pairing/HkdfManager.kt, pairing/SasManager.kt and
    pairing/EcdhManager.kt of the Android application over the Java
    cryptography calls, and compares them with HkdfEngine, SasEngine and
    EcdhKeyExchange.  An exception is [None]; the app's strings are ASCII and
    the phone's locale is taken to have ASCII digits. *)
From stdpp Require Import pretty.
From S2P Require Import Prelude Bytes Platform CryptoEngine Hkdf EcdhKeyExchange Phone.

(** ** Arrays and big integers *)

(** [System.arraycopy] into another array. *)
Definition arraycopy (src : list byte) (srcPos : Z) (dest : list byte) (destPos n : Z) : option (list byte) :=
  if (0 <=? srcPos) && (0 <=? destPos) && (0 <=? n) && (srcPos + n <=? Z.of_nat (length src)) &&
     (destPos + n <=? Z.of_nat (length dest))
  then Some (take (Z.to_nat destPos) dest ++ sub (Z.to_nat srcPos) (Z.to_nat n) src ++
             drop (Z.to_nat (destPos + n)) dest)
  else None.

(** [ByteArray(n)] *)
Definition ByteArray (n : Z) : option (list byte) :=
  if n <? 0 then None else Some (replicate (Z.to_nat n) x00).

(** [BigInteger.toByteArray] of a non-negative number: two's complement, with
    room for the sign and no more. *)
Definition bitLength (x : Z) : Z := if x =? 0 then 0 else Z.log2 x + 1.
Definition toByteArray (x : Z) : list byte := be_bytes (Z.to_nat (bitLength x / 8 + 1)) x.

(** ** pairing/HkdfManager.kt and SasManager.kt *)
Section Derivation.
Context {W : Type} `{HM : CngModel W}.

(** [SecretKeySpec] refuses an empty key; the MAC itself is the one CNG computes. *)
Definition hmacSha256 (key data : list byte) : option (list byte) :=
  match key with [] => None | _ => Some (hmac_sha256 key data) end.

Definition extract (salt : option (list byte)) (ikm : list byte) : option (list byte) :=
  let actualSalt := match salt with
                    | None | Some [] => replicate 32 x00
                    | Some salt => salt
                    end in
  hmacSha256 actualSalt ikm.

(** [while (offset < outLen)]; [None] also when [fuel] runs out. *)
Fixpoint kt_expand_loop (fuel : nat) (prk infoBytes : list byte) (outLen : Z)
    (result t : list byte) (counter offset : Z) : option (list byte) :=
  if negb (offset <? outLen) then Some result else
  match fuel with
  | O => None
  | S fuel =>
    let msg := t ++ infoBytes ++ [to_u8 counter] in
    let! t := hmacSha256 prk msg in
    let toCopy := Z.min (Z.of_nat (length t)) (outLen - offset) in
    let! result := arraycopy t 0 result offset toCopy in
    kt_expand_loop fuel prk infoBytes outLen result t (swrap 8 (counter + 1)) (offset + toCopy)
  end.

Definition expand (prk : list byte) (info : string) (outLen : Z) : option (list byte) :=
  let! result := ByteArray outLen in
  kt_expand_loop (Z.to_nat outLen) prk (string_bytes info) outLen result [] 1 0.

Definition deriveKey (salt : option (list byte)) (ikm : list byte) (info : string) (outLen : Z)
    : option (list byte) :=
  let! prk := extract salt ikm in
  expand prk info outLen.

(** [mac[i].toInt() and 0xFF]: a [Byte] is signed. *)
Definition octet (mac : list byte) (i : nat) : Z := Z.land (swrap 8 (u8 (nth i mac x00))) 0xFF.

Definition computeSasPin (kSas : list byte) : option string :=
  match kSas with
  | [] => Some "000000"%string
  | _ =>
    let! mac := hmacSha256 kSas (string_bytes sas_info) in
    if (length mac <? 4)%nat then Some "000000"%string else
    let val32 := Z.lor (Z.lor (Z.lor (i32 (Z.shiftl (octet mac 0) 24)) (i32 (Z.shiftl (octet mac 1) 16)))
                   (i32 (Z.shiftl (octet mac 2) 8))) (octet mac 3) in
    let unsignedVal := Z.land val32 0xFFFFFFFF in
    let pin := Z.rem unsignedVal 900000 + 100000 in
    Some (setw6 (pretty (Z.to_N pin)))
  end.

End Derivation.

(** ** pairing/EcdhManager.kt *)

(** The Java calls: a private key's point, and a key agreement (from
    [KeyFactory.generatePublic] to [generateSecret]), which may throw. *)
Class Jca : Type := {
  jca_point : list byte -> Z * Z;
  jca_agree : list byte -> Z * Z -> option (list byte);
}.

Record EcdhManager : Type := { localKeyPair : option (list byte) }.
Definition new_EcdhManager : EcdhManager := {| localKeyPair := None |}.

Section Manager.
Context `{HJ : Jca}.

(** [keyPair]: what the key pair generator returns. *)
Definition generateEphemeralKeyPair (keyPair : list byte) (e : EcdhManager) : EcdhManager :=
  {| localKeyPair := Some keyPair |}.

Definition getFixedLengthBytes (bigIntBytes : list byte) (length : Z) : option (list byte) :=
  let! result := ByteArray length in
  let size := Z.of_nat (base.length bigIntBytes) in
  if size =? length then Some bigIntBytes else
  if size >? length then arraycopy bigIntBytes (size - length) result 0 length
  else arraycopy bigIntBytes 0 result (length - size) size.

(** The inner option is Kotlin's [null], here and below. *)
Definition getPublicPointUncompressed (e : EcdhManager) : option (option (list byte)) :=
  match localKeyPair e with
  | None => Some None
  | Some keyPair =>
    let '(affineX, affineY) := jca_point keyPair in
    let! xBytes := getFixedLengthBytes (toByteArray affineX) 32 in
    let! yBytes := getFixedLengthBytes (toByteArray affineY) 32 in
    Some (Some ([x04] ++ xBytes ++ yBytes))
  end.

Definition parseUncompressedPublicKey (e : EcdhManager) (xyBytes : list byte) : option (option (Z * Z)) :=
  let size := Z.of_nat (length xyBytes) in
  let offset := if (size =? 65) && Byte.eqb (nth 0 xyBytes x00) x04 then 1 else 0 in
  if negb (size - offset =? 64) then Some None else
  let! xBytes := arraycopy xyBytes offset (replicate 32 x00) 0 32 in
  let! yBytes := arraycopy xyBytes (offset + 32) (replicate 32 x00) 0 32 in
  match localKeyPair e with
  | None => Some None
  | Some _ => Some (Some (be_value xBytes, be_value yBytes))
  end.

Definition computeSharedSecret (e : EcdhManager) (peerPublicXy : list byte) : option (option (list byte)) :=
  match localKeyPair e with
  | None => Some None
  | Some localPriv =>
    let! peerPubKey := parseUncompressedPublicKey e peerPublicXy in
    match peerPubKey with
    | None => Some None
    | Some peerPubKey =>
      let! secret := jca_agree localPriv peerPubKey in
      Some (Some secret)
    end
  end.

End Manager.

(** ** The derivation *)
Section Laws.
Context {W : Type} `{HC : Cng W} `{HM : CngModel W} `{HL : !CngLaws W} `{HV : !CngLive W}.

Lemma hmacSha256_ok key data : key <> [] -> hmacSha256 key data = Some (hmac_sha256 key data).
Proof. by destruct key. Qed.

Lemma extract_ok salt ikm : extract (Some salt) ikm = Some (hkdf_extract salt ikm).
Proof. by destruct salt. Qed.

(** A block copied behind what is there. *)
Lemma arraycopy_block pre n src k :
  (k <= length src)%nat -> (k <= n)%nat ->
  arraycopy src 0 (pre ++ replicate n x00) (Z.of_nat (length pre)) (Z.of_nat k) =
    Some ((pre ++ take k src) ++ replicate (n - k) x00).
Proof.
  intros L1 L2. unfold arraycopy. replace (_ && _) with true by (rewrite length_app, length_replicate; lia).
  rewrite Nat2Z.id, take_app_length, Nat2Z.id.
  replace (Z.to_nat (Z.of_nat (length pre) + Z.of_nat k)) with (length pre + k)%nat by lia.
  rewrite drop_app_ge, drop_replicate by lia.
  replace (length pre + k - length pre)%nat with k by lia. by rewrite <- app_assoc.
Qed.

Lemma kt_expand_loop_ok fuel prk info L n :
  prk <> [] -> (L <= n + fuel)%nat ->
  kt_expand_loop fuel prk info (Z.of_nat L)
    (take L (hkdf_okm prk info n) ++ replicate (L - 32 * n) x00) (hkdf_T prk info n)
    (swrap 8 (Z.of_nat n + 1)) (Z.of_nat (Nat.min L (32 * n))) = Some (hkdf_expand prk info L).
Proof.
  intros Np. revert n. induction fuel as [|fuel IH]; intros n Hf; cbn [kt_expand_loop].
  - replace (negb _) with true by lia. replace (L - 32 * n)%nat with 0%nat by lia.
    by rewrite okm_enough, app_nil_r by lia.
  - destruct (Nat.le_gt_cases L (32 * n)) as [G|G].
    { replace (negb _) with true by lia. replace (L - 32 * n)%nat with 0%nat by lia.
      by rewrite okm_enough, app_nil_r by lia. }
    replace (negb _) with false by lia. rewrite hmacSha256_ok by done.
    assert (ET : hmac_sha256 prk (hkdf_T prk info n ++ info ++ [to_u8 (swrap 8 (Z.of_nat n + 1))]) =
                 hkdf_T prk info (S n)).
    { cbn [hkdf_T]. do 4 f_equal. unfold to_u8. do 3 f_equal. rewrite !swrap_mod by lia. f_equal. lia. }
    rewrite ET. assert (L32 : length (hkdf_T prk info (S n)) = 32%nat) by apply hmac_sha256_length.
    set (k := Nat.min 32 (L - 32 * n)).
    replace (Z.min _ _) with (Z.of_nat k) by lia.
    assert (Lp : length (take L (hkdf_okm prk info n)) = Nat.min L (32 * n)) by (by rewrite length_take, length_okm).
    rewrite <- Lp at 1. rewrite arraycopy_block by lia.
    replace (take L (hkdf_okm prk info n) ++ take k (hkdf_T prk info (S n)))
      with (take L (hkdf_okm prk info (S n))).
    2: { rewrite okm_S, take_app, length_okm. f_equal. unfold k.
         destruct (Nat.le_gt_cases 32 (L - 32 * n)); [|f_equal; lia].
         rewrite !take_ge; rewrite ?L32; [done | lia | lia]. }
    replace (L - 32 * n - k)%nat with (L - 32 * S n)%nat by lia.
    replace (swrap 8 (swrap 8 (Z.of_nat n + 1) + 1)) with (swrap 8 (Z.of_nat (S n) + 1)).
    2: { rewrite swrap_add by lia. f_equal. lia. }
    replace (Z.of_nat (Nat.min L (32 * n)) + Z.of_nat k) with (Z.of_nat (Nat.min L (32 * S n))) by lia.
    apply IH. lia.
Qed.

Lemma deriveKey_ok salt ikm info L :
  deriveKey (Some salt) ikm info (Z.of_nat L) = Some (hkdf salt ikm (string_bytes info) L).
Proof.
  unfold deriveKey. rewrite extract_ok. unfold expand, ByteArray. replace (_ <? 0) with false by lia.
  rewrite Nat2Z.id.
  pose proof (kt_expand_loop_ok L (hkdf_extract salt ikm) (string_bytes info) L 0) as E.
  rewrite Nat.mul_0_r, Nat.sub_0_r, Nat.min_0_r in E. unfold hkdf_okm in E. cbn [seq fmap list_fmap concat] in E.
  rewrite take_nil in E. apply E; [|lia]. intros N. apply (f_equal length) in N.
  unfold hkdf_extract in N. by rewrite hmac_sha256_length in N.
Qed.

(** ** The PIN *)
Lemma octet_u8 mac i : octet mac i = u8 (nth i mac x00).
Proof.
  unfold octet. change 0xFF with (Z.ones 8). rewrite Z.land_ones, swrap_mod by lia.
  apply Z.mod_small, u8_range.
Qed.

Lemma computeSasPin_ok key :
  key <> [] -> computeSasPin key = Some (six_digits (Z.to_N (pin_of (hmac_sha256 key (string_bytes sas_info))))).
Proof.
  intros N. unfold computeSasPin. rewrite hmacSha256_ok by done. destruct key as [|k0 key]; [done|].
  set (mac := hmac_sha256 _ _). assert (L32 : length mac = 32%nat) by apply hmac_sha256_length.
  rewrite L32. change (32 <? 4)%nat with false. cbv zeta iota. rewrite !octet_u8.
  change 0xFFFFFFFF with (Z.ones 32). rewrite !Z.land_lor_distr_l, !Z.land_ones, !swrap_mod by lia.
  rewrite (Z.mod_small (u8 (nth 3 mac x00))) by (pose proof (u8_range (nth 3 mac x00)); lia).
  fold (u32 (Z.shiftl (u8 (nth 0 mac x00)) 24)) (u32 (Z.shiftl (u8 (nth 1 mac x00)) 16))
       (u32 (Z.shiftl (u8 (nth 2 mac x00)) 8)).
  change (Z.lor _ _) with (be32 (nth 0 mac x00) (nth 1 mac x00) (nth 2 mac x00) (nth 3 mac x00)).
  rewrite be32_value. destruct mac as [|b0 [|b1 [|b2 [|b3 mac]]]]; try done. cbn [nth].
  pose proof (be_value_range [b0; b1; b2; b3]). rewrite Z.rem_mod_nonneg by lia.
  change (be_value _ mod 900000 + 100000) with (pin_of (b0 :: b1 :: b2 :: b3 :: mac)).
  assert (R : 100000 <= pin_of (b0 :: b1 :: b2 :: b3 :: mac) < 1000000).
  { unfold pin_of. pose proof (Z.mod_pos_bound (be_value (take 4 (b0 :: b1 :: b2 :: b3 :: mac))) 900000). lia. }
  rewrite pretty_six by lia. done.
Qed.
End Laws.

(** ** Points *)
Lemma length_toByteArray x : length (toByteArray x) = Z.to_nat (bitLength x / 8 + 1).
Proof. apply length_be_bytes. Qed.

Lemma bitLength_bound x : 0 <= x -> x < 2 ^ bitLength x.
Proof.
  intros Hx. unfold bitLength. destruct (Z.eqb_spec x 0) as [->|]; [done|].
  apply Z.log2_spec. lia.
Qed.

Lemma bitLength_small n x : 0 <= n -> 0 <= x < 2 ^ n -> 0 <= bitLength x <= n.
Proof.
  intros Hn Hx. unfold bitLength. destruct (Z.eqb_spec x 0) as [->|]; [lia|].
  pose proof (Z.log2_nonneg x). pose proof (proj1 (Z.log2_lt_pow2 x n ltac:(lia)) ltac:(lia)). lia.
Qed.

(** More bytes than the number needs are zeros in front. *)
Lemma be_bytes_pad n k x : 0 <= x < 2 ^ (8 * Z.of_nat n) -> be_bytes (k + n) x = replicate k x00 ++ be_bytes n x.
Proof.
  intros Hx. apply be_value_inj; [by rewrite length_app, !length_be_bytes, length_replicate|].
  rewrite be_value_app, length_be_bytes, (be_value_be_bytes_small n) by done.
  assert (E : be_value (replicate k x00) = 0).
  { clear. induction k as [|k IH]; [done|]. cbn [replicate]. by rewrite be_value_cons, IH. }
  rewrite E, be_value_be_bytes_small; [done|].
  pose proof (Z.pow_le_mono_r 2 (8 * Z.of_nat n) (8 * Z.of_nat (k + n)) ltac:(lia) ltac:(lia)). lia.
Qed.

(** A coordinate is 32 bytes, however long its [BigInteger] is. *)
Lemma getFixedLengthBytes_ok x :
  0 <= x < 2 ^ 256 -> getFixedLengthBytes (toByteArray x) 32 = Some (be_bytes 32 x).
Proof.
  intros Hx. unfold getFixedLengthBytes. change (ByteArray 32) with (Some (replicate 32 x00)). cbv iota beta.
  rewrite length_toByteArray. pose proof (bitLength_small 256 x ltac:(lia) Hx) as B.
  pose proof (bitLength_bound x ltac:(lia)) as Lx. set (n := Z.to_nat (bitLength x / 8 + 1)).
  assert (Hn : Z.of_nat n = bitLength x / 8 + 1) by lia.
  assert (Rn : 0 <= x < 2 ^ (8 * Z.of_nat n)).
  { split; [lia|]. eapply Z.lt_le_trans; [exact Lx|]. apply Z.pow_le_mono_r; [lia|].
    Z.to_euclidean_division_equations; lia. }
  assert (n <= 33)%nat by (Z.to_euclidean_division_equations; lia).
  change (toByteArray x) with (be_bytes n x).
  destruct (Z.eqb_spec (Z.of_nat n) 32) as [E|NE].
  { by replace n with 32%nat by lia. }
  destruct (Z.gtb_spec (Z.of_nat n) 32) as [G|G].
  - replace n with (1 + 32)%nat by lia. rewrite be_bytes_pad by (split; [lia | exact (proj2 Hx)]).
    unfold arraycopy. rewrite length_app, length_replicate, length_be_bytes, length_replicate.
    replace (_ && _) with true by done. reflexivity.
  - unfold arraycopy. rewrite length_be_bytes, length_replicate.
    replace (_ && _) with true by lia. f_equal. rewrite Nat2Z.id. unfold sub. cbn [Z.to_nat drop].
    rewrite (take_ge (be_bytes n x)) by (by rewrite length_be_bytes).
    rewrite (drop_ge (replicate 32 x00)) by (rewrite length_replicate; lia). rewrite app_nil_r, take_replicate.
    replace (Nat.min _ 32) with (32 - n)%nat by lia. rewrite <- be_bytes_pad by done. f_equal. lia.
Qed.

(** ** Both ends *)

(** The two libraries are on the same curve, and write the shared secret (a
    coordinate) in the order each documents: Java's key agreement with its most
    significant byte first, CNG's [BCRYPT_KDF_RAW_SECRET] with its least. *)
Class JcaLaws (W : Type) `{Jca, EcdhModel W} : Prop := {
  same_curve : forall a, let '(x, y) := jca_point a in
    0 <= x < 2 ^ 256 /\ 0 <= y < 2 ^ 256 /\ ecdh_public a = be_bytes 32 x ++ be_bytes 32 y;
  byte_orders : forall a b, jca_agree a (jca_point b) = Some (reverse (ecdh_shared a (ecdh_public b)));
}.

Section Exchange.
Context {W : Type} `{HC : Cng W} `{HM : CngModel W} `{HE : EcdhModel W} `{HL : !CngLaws W}
        `{HEL : !EcdhLaws W} `{HV : !CngLive W} `{HEV : !EcdhLive W} `{HJ : Jca} `{HJL : !JcaLaws W}.

(** The phone's PIN from its secret, as on the PC. *)
Definition phone_pin (sessionId secret : list byte) : option string :=
  let! kSas := deriveKey (Some sessionId) secret pairing_info 32 in
  computeSasPin kSas.

(** The phone's part, from the PC's point: its secret and its PIN, or null. *)
Definition phone_side (sessionId : list byte) (m : EcdhManager) (peer : list byte)
    : option (option (list byte * string)) :=
  let! secret := computeSharedSecret m peer in
  match secret with
  | None => Some None
  | Some secret =>
    let! pin := phone_pin sessionId secret in
    Some (Some (secret, pin))
  end.

(** A pairing of the PC with a phone: each makes a key pair and sends its point. *)
Definition pairing_over (sessionId keyPair : list byte)
    : Proc W ((list byte * string) * option (option (list byte * string))) :=
  let m := generateEphemeralKeyPair keyPair new_EcdhManager in
  let* '(_, e) := GenerateEphemeralKeyPair new_EcdhKeyExchange in
  let* pa := GetPublicPointUncompressed e in
  let pb := default [] (default None (getPublicPointUncompressed m)) in
  let* sa := ComputeSharedSecret e (Some pb) (Z.of_nat (length pb)) in
  let* pin := pairing_pin sessionId sa in
  destroy_EcdhKeyExchange e ;;
  pret ((sa, pin), phone_side sessionId m pa).

Lemma phone_point keyPair e :
  localKeyPair e = Some keyPair -> getPublicPointUncompressed e = Some (Some (x04 :: ecdh_public keyPair)).
Proof.
  intros E. unfold getPublicPointUncompressed. rewrite E. pose proof (same_curve keyPair) as C.
  destruct (jca_point keyPair) as [x y]. destruct C as (Hx & Hy & ->).
  by rewrite !getFixedLengthBytes_ok by done.
Qed.

Lemma arraycopy_half l off :
  (off + 32 <= length l)%nat ->
  arraycopy l (Z.of_nat off) (replicate 32 x00) 0 32 = Some (sub off 32 l).
Proof.
  intros L. unfold arraycopy. replace (_ && _) with true by (rewrite length_replicate; lia).
  rewrite Nat2Z.id. change (Z.to_nat 0) with 0%nat. change (Z.to_nat (0 + 32)) with 32%nat.
  change (Z.to_nat 32) with 32%nat. rewrite take_0, (drop_ge (replicate 32 x00)) by (by rewrite length_replicate).
  by rewrite app_nil_r.
Qed.

Lemma parse_point keyPair peer e :
  localKeyPair e = Some keyPair -> parseUncompressedPublicKey e (x04 :: ecdh_public peer) = Some (Some (jca_point peer)).
Proof.
  intros E. unfold parseUncompressedPublicKey. pose proof (same_curve peer) as C.
  destruct (jca_point peer) as [x y]. destruct C as (Hx & Hy & ->).
  assert (L : length (be_bytes 32 x ++ be_bytes 32 y) = 64%nat) by (by rewrite length_app, !length_be_bytes).
  cbn [length nth]. rewrite L. change (Z.of_nat 65 =? 65) with true.
  change (negb (Z.of_nat 65 - 1 =? 64)) with false. cbn [andb Byte.eqb]. cbv iota beta zeta.
  change (Byte.eqb x04 x04) with true. cbv iota.
  change (negb (Z.of_nat 65 - 1 =? 64)) with false. cbv iota. change (1 + 32) with (Z.of_nat 33).
  change 1 with (Z.of_nat 1). rewrite !arraycopy_half by (cbn [length]; lia). rewrite E.
  change (sub 1 32 (x04 :: ?l)) with (take 32 l). change (sub 33 32 (x04 :: ?l)) with (take 32 (drop 32 l)).
  rewrite take_app_length', drop_app_length' by (by rewrite length_be_bytes).
  rewrite take_ge by (by rewrite length_be_bytes). rewrite !be_value_be_bytes_small by done. done.
Qed.

Lemma phone_pin_ok sid secret : phone_pin sid secret = Some (PIN sid secret).
Proof.
  unfold phone_pin. change 32 with (Z.of_nat 32). rewrite deriveKey_ok. apply computeSasPin_ok.
  intros N. apply (f_equal length) in N. unfold hkdf, hkdf_expand in N. rewrite length_take, length_okm in N.
  cbn in N. lia.
Qed.

Lemma phone_side_ok sid keyPair peer m :
  localKeyPair m = Some keyPair ->
  let secret := reverse (ecdh_shared keyPair (ecdh_public peer)) in
  phone_side sid m (x04 :: ecdh_public peer) = Some (Some (secret, PIN sid secret)).
Proof.
  intros E secret. unfold phone_side, computeSharedSecret. rewrite E, (parse_point keyPair) by done.
  rewrite byte_orders. fold secret. by rewrite phone_pin_ok.
Qed.

End Exchange.

(** * Properties *)
Section Properties.
Context {W : Type} `{HC : Cng W} `{HM : CngModel W} `{HL : !CngLaws W} `{HV : !CngLive W}.

(** C17: one key derivation on both ends.  For every salt, key material, info and
    length, the phone's [deriveKey] and, when CNG is healthy, the PC's
    [DeriveKey] give the HKDF of RFC 5869; and from every non-empty key both make
    the same six-digit PIN, of a number from 100000 to 999999.  When CNG is not
    healthy the PC has that result, or the empty vector and "000000"; it leaves
    no CNG object behind. *)
Theorem derivations_agree salt ikm info L key (w : W) :
  Z.of_nat (length salt) < 2 ^ 32 -> Z.of_nat (length ikm) < 2 ^ 32 ->
  Z.of_nat (length (string_bytes info)) < 2 ^ 32 - 33 ->
  key <> [] -> Z.of_nat (length key) < 2 ^ 32 ->
  (exists okm, deriveKey (Some salt) ikm info (Z.of_nat L) = Some okm /\
     okm = hkdf salt ikm (string_bytes info) L /\ length okm = L /\
     wp (DeriveKey (Some salt) (Z.of_nat (length salt)) (Some ikm) (Z.of_nat (length ikm)) info (Z.of_nat L))
       (fun r w' => obj w' = obj w /\ (r = [] \/ r = okm) /\ (healthy w -> r = okm)) w) /\
  (exists n, (100000 <= n <= 999999)%N /\ computeSasPin key = Some (six_digits n) /\
     wp (ComputeSasPin (Some key) (Z.of_nat (length key)))
       (fun r w' => obj w' = obj w /\ (r = "000000"%string \/ r = six_digits n) /\
                    (healthy w -> r = six_digits n)) w).
Proof.
  intros Ls Li Ln Nk Lk. split.
  - eexists. split; [apply deriveKey_ok|]. split; [done|]. split.
    { unfold hkdf, hkdf_expand. rewrite length_take, length_okm. lia. }
    eapply wp_mono; [by apply derive_key_spec|]. intros r w' (O & D & H). split; [done|]. split; [done|]. apply H.
  - eexists. split; [|split; [by apply computeSasPin_ok|]].
    { unfold pin_of. pose proof (Z.mod_pos_bound
        (be_value (take 4 (hmac_sha256 key (string_bytes sas_info)))) 900000). lia. }
    eapply wp_mono; [by apply sas_spec|]. intros r w' (O & D & H). split; [done|]. split; [done|]. apply H.
Qed.

Context `{HE : EcdhModel W} `{HEL : !EcdhLaws W} `{HEV : !EcdhLive W} `{HJ : Jca} `{HJL : !JcaLaws W}.

(** C16: a pairing of the PC with a phone.  Each reads the other's point, whatever
    the sizes of its coordinates, neither throws, and nothing is left behind;
    but the phone's secret is the PC's with its bytes reversed, so that, when
    CNG is healthy, the two screens show the PIN of a secret and the PIN of the
    same secret backwards.  When CNG is not, an end has no secret or that one. *)
Theorem pairing_with_phone sid keyPair (w : W) :
  obj w !! NULL = None -> Z.of_nat (length sid) < 2 ^ 32 ->
  wp (pairing_over sid keyPair) (fun r w' =>
    obj w' = obj w /\
    exists secret, length secret = 32%nat /\
      (r.1.1 = [] \/ r.1.1 = secret) /\ (r.1.2 = "000000"%string \/ r.1.2 = PIN sid secret) /\
      (r.2 = Some None \/ r.2 = Some (Some (reverse secret, PIN sid (reverse secret)))) /\
      (healthy w -> r = ((secret, PIN sid secret), Some (Some (reverse secret, PIN sid (reverse secret)))))) w.
Proof.
  intros N Ls. unfold pairing_over. set (m := generateEphemeralKeyPair keyPair new_EcdhManager).
  rewrite (phone_point keyPair m) by done. cbn [default].
  eapply wp_seq; [by apply generate_pair_spec|]. intros [b1 e] w1 (Oe & [A Ke] & He). cbn [fst snd] in *.
  eapply wp_seq; [by apply public_point_spec|]. intros pa w2 (O2 & Da & H2).
  eapply wp_seq.
  { apply (derive_from_peer e A keyPair); [|by right]. eapply holds_mono; [exact Ke|]. by rewrite O2. }
  intros sa w3 (O3 & Dsa & H3). pose proof (ecdh_shared_length A (ecdh_public keyPair)) as L32.
  assert (Ep : pa = [] \/ phone_side sid m pa = Some (Some (reverse (ecdh_shared A (ecdh_public keyPair)),
                            PIN sid (reverse (ecdh_shared A (ecdh_public keyPair)))))).
  { destruct Da as [->| ->]; [by left|]. right. rewrite (phone_side_ok sid keyPair A m) by done.
    by rewrite ecdh_commutes. }
  set (secret := ecdh_shared A (ecdh_public keyPair)) in *.
  eapply wp_seq; [apply (pairing_pin_after sid secret sa (obj w1) w3 (healthy w)); try done; [congruence | naive_solver]|].
  intros pin w4 (O4 & D4 & H4).
  eapply wp_seq; [apply (destroy_owned e (obj w)); by rewrite O4|]. intros ? w5 O5. apply wp_ret.
  split; [done|]. exists secret. cbn [fst snd]. do 3 (split; [done|]). split.
  - destruct Ep as [-> | ->]; [by left | by right].
  - intros Hw. destruct (H4 Hw) as (_ & -> & ->). destruct (He Hw) as (V1 & _ & NN). destruct (H2 V1) as [_ Np].
    destruct Ep as [E | ->]; [by apply Np in E | done].
Qed.

End Properties.

(** * Witnesses *)
From S2P Require Import Simulator.

#[export] Instance sim_jca : Jca := {
  jca_point := fun a => (0, be_value a * 5 mod 2 ^ 256);
  jca_agree := fun a P => Some (reverse (toy_shared a (be_bytes 32 P.1 ++ be_bytes 32 P.2)));
}.
#[export] Instance sim_jca_laws : JcaLaws Sim.
Proof.
  assert (E : forall a, toy_public a = be_bytes 32 0 ++ be_bytes 32 (be_value a * 5 mod 2 ^ 256)).
  { intros a. unfold toy_public. pose proof (Z.mod_pos_bound (be_value a * 5) (2 ^ 256) ltac:(lia)).
    by apply (be_bytes_pad 32 32). }
  split; intros a; cbn [jca_point sim_jca].
  - split; [done|]. split; [apply Z.mod_pos_bound; lia | apply E].
  - intros b. change (Some (reverse (toy_shared a (be_bytes 32 0 ++ be_bytes 32 (be_value b * 5 mod 2 ^ 256)))) =
                       Some (reverse (toy_shared a (toy_public b)))).
    by rewrite <- E.
Qed.

Lemma derivations_agree_witness :
  (exists okm, deriveKey (Some [x01; x02]) [x03] "info" 70 = Some okm /\
     okm = hkdf [x01; x02] [x03] (string_bytes "info") 70 /\ length okm = 70%nat /\
     wp (DeriveKey (Some [x01; x02]) 2 (Some [x03]) 1 "info" 70)
       (fun r w' => obj w' = obj sim0 /\ (r = [] \/ r = okm) /\ (healthy sim0 -> r = okm)) sim0) /\
  (exists n, (100000 <= n <= 999999)%N /\ computeSasPin [x01; x02] = Some (six_digits n) /\
     wp (ComputeSasPin (Some [x01; x02]) 2)
       (fun r w' => obj w' = obj sim0 /\ (r = "000000"%string \/ r = six_digits n) /\
                    (healthy sim0 -> r = six_digits n)) sim0).
Proof.
  assert (N : [x01; x02] <> []) by done.
  exact (derivations_agree [x01; x02] [x03] "info" 70 [x01; x02] sim0 eq_refl eq_refl eq_refl N eq_refl).
Defined.

(** The two screens do show different PINs. *)
Lemma pairing_with_phone_witness :
  let sid := replicate 16 (to_u8 5) in
  let keyPair := be_bytes 32 123456789 in
  (match pairing_over sid keyPair sim0 with
   | Def ((sa, pinA), Some (Some (sb, pinB)), _) =>
       bool_decide (sb = reverse sa) && negb (String.eqb pinA pinB)
   | _ => false
   end = true) /\
  wp (pairing_over sid keyPair) (fun r w' =>
    obj w' = obj sim0 /\
    exists secret, length secret = 32%nat /\
      (r.1.1 = [] \/ r.1.1 = secret) /\ (r.1.2 = "000000"%string \/ r.1.2 = PIN sid secret) /\
      (r.2 = Some None \/ r.2 = Some (Some (reverse secret, PIN sid (reverse secret)))) /\
      (healthy sim0 -> r = ((secret, PIN sid secret), Some (Some (reverse secret, PIN sid (reverse secret)))))) sim0.
Proof.
  split; [vm_compute; reflexivity|].
  exact (pairing_with_phone (replicate 16 (to_u8 5)) (be_bytes 32 123456789) sim0 eq_refl eq_refl).
Defined.
