(* ===== verification/Session.v ===== *)
(** * Session: a whole unlock, from the request to the consumed challenge

    Puts the agent of AgentService over the TCP transport and the phone of Phone
    together: the agent asks, the phone reads the request off the wire, has the
    user sign and answers, and the agent accepts. *)
From S2P Require Import Prelude Bytes Protocol FrameProtocol ChallengeStore Platform DerSignature.
From S2P Require Import CryptoEngine DeviceRegistry ChallengeGenerator TransportInterface TcpTransport.
From S2P Require Import AgentService Phone.

Section Session.
Context {W : Type} `{HC : Cng W} `{HT : Clock W} `{HM : CngModel W} `{HL : !CngLaws W}
        `{HTL : !ClockLaws W} `{HV : !CngLive W} `{HS : Winsock W} `{HWM : WinsockModel W}
        `{HWL : !WinsockLaws W} `{HWC : !WinsockCng W}.
Implicit Types (a : Agent TcpTransport W).
Abbreviation client a := (m_clientSocket (m_transport a)).
Abbreviation out a := (sent (world a) (client a)).

(** ** What the agent writes *)

(** The last thing on the wire is the frame with this payload. *)
Definition wrote_frame a a' (t : TransportMessageType) (payload : list byte) : Prop :=
  m_isConnected (m_transport a') = true ->
  exists before, out a' = before ++ wire_frame t payload (m_transport a).

(** The members of the transport that sending leaves alone. *)
Definition same_link a a' : Prop :=
  m_listener (m_transport a') = m_listener (m_transport a) /\ client a' = client a.

Lemma send_writes t p a :
  client a <> INVALID_SOCKET -> Z.of_nat (length p) <= MAX_PAYLOAD_SIZE ->
  wp (SendFrame t p) (fun _ a' => agent_core a' = agent_core a /\ same_link a a' /\
    (m_isConnected (m_transport a) = true -> wrote_frame a a' t p)) a.
Proof.
  intros N L. eapply wp_mono; [apply wp_and; [apply send_core | exact (send_frame_spec t p a)]|].
  intros ok a' [C P]. split; [exact C|]. cbv zeta in P. change (view (V:=TcpTransport) a) with (m_transport a) in P.
  destruct (m_isConnected (m_transport a)) eqn:Ec; cbn [negb orb] in P.
  2: { destruct P as [_ ->]. split; [done|]. intros [=]. }
  rewrite (proj2 (Z.eqb_neq _ _) N) in P. replace (_ >? _) with false in P by lia.
  destruct P as (w' & o & -> & Wr & Pt). split; [by destruct ok|]. intros _ Ec'.
  destruct ok; [|done]. cbn in Pt. subst o. exists (out a).
  pose proof (wrote_out _ _ _ _ Wr) as Wo. exact Wo.
Qed.

Lemma initiate_writes did r0 a :
  wf_record r0 -> length did = 16%nat -> length (m_pcId a) = 16%nat -> client a <> INVALID_SOCKET ->
  wp (InitiateUnlockRequest did r0) (fun r a' =>
    wf_record r /\ rec_deviceId r = did /\ rec_pcId r = m_pcId a /\ state r = OUTSTANDING /\
    0 <= rec_expirationTimestampMs r < 2 ^ 64 /\ m_challengeStore a' = AddChallenge r (m_challengeStore a) /\ same_but_store a a' /\ same_link a a' /\
    wrote_frame a a' UNLOCK_REQ (request_layout r)) a.
Proof.
  intros Wf Ld Lp N. unfold InitiateUnlockRequest.
  apply wp_bind, wp_get. apply wp_bind, wp_zoom. eapply wp_mono; [by apply generate_spec|].
  intros r w1 (O1 & Wr & D & P & St & _ & Ex). change (obj w1 = obj (world a)) in O1.
  apply wp_bind, wp_get. apply wp_bind, wp_put.
  apply wp_bind. eapply wp_lift; [by apply unlock_request_layout|].
  apply wp_bind. cbn [IsConnected tcp_sender]. unfold tcp_IsConnected. apply wp_bind, wp_members, wp_ret.
  set (a1 := with_store _ _). apply wp_bind. change (view (V:=TcpTransport) a1) with (m_transport a1).
  assert (K : forall a', agent_core a' = agent_core a1 -> same_link a1 a' ->
    (m_isConnected (m_transport a1) = true -> wrote_frame a1 a' UNLOCK_REQ (request_layout r)) ->
    (m_isConnected (m_transport a1) = false -> m_isConnected (m_transport a') = false) ->
    wf_record r /\ rec_deviceId r = did /\ rec_pcId r = m_pcId a /\ state r = OUTSTANDING /\
    0 <= rec_expirationTimestampMs r < 2 ^ 64 /\ m_challengeStore a' = AddChallenge r (m_challengeStore a) /\ same_but_store a a' /\ same_link a a' /\
    wrote_frame a a' UNLOCK_REQ (request_layout r)).
  { intros a' C Sl Wf' Nc. unfold agent_core in C. injection C as C1 C2 C3 C4 C5 C6. split_and!; try done.
    - rewrite Ex. apply wrap_range. lia.
    - rewrite Ex. apply wrap_range. lia.
    - split_and!; cbn in *; congruence.
    - intros Ec. destruct (m_isConnected (m_transport a1)) eqn:E; [by apply Wf' | by rewrite Nc in Ec]. }
  destruct (m_isConnected (m_transport a1)) eqn:Ec.
  - eapply wp_mono; [apply send_writes; [done|]|].
    + destruct Wr. unfold request_layout, MAX_PAYLOAD_SIZE. len.
    + intros b a' (C & Sl & Wf'). apply wp_ret. apply K; auto; congruence.
  - apply wp_ret, wp_ret. apply K; [done|by split|congruence|done].
Qed.

(** ** What the agent reads *)
Lemma deliver_noise n evs a :
  deliver_all (replicate n EvNoise ++ evs) a = deliver_all evs a.
Proof.
  assert (E : deliver EvNoise a = Def (tt, a)).
  { cbn [deliver]. unfold notify, members, zoom, pbind, pget. cbn.
    by destruct (m_listener (m_transport a)); destruct a. }
  induction n as [|n IH]; [done|]. cbn [replicate app deliver_all]. unfold pbind at 1. by rewrite E.
Qed.

Lemma drain_noise_frame noise f a :
  small_frame f -> no_magic noise (frame_layout f) ->
  drain_loop (length (noise ++ frame_layout f)) (noise ++ frame_layout f) a =
    (deliver (EvFrame (received f)) ;; pret []) a.
Proof.
  intros [Wf Sf] Nm. rewrite drain_refines. fold (rx (noise ++ frame_layout f)).
  rewrite rx_noise by (done || (rewrite length_frame_layout; lia)).
  rewrite <- (app_nil_r (frame_layout f)), rx_frame by done. cbn [fst snd].
  unfold pbind at 1. rewrite deliver_noise. cbn [deliver_all]. unfold pbind.
  by destruct (deliver (EvFrame (received f)) a) as [[? a']|].
Qed.

Lemma notify_listening (cb : Proc (Agent TcpTransport W) unit) (Qa : unit -> Agent TcpTransport W -> Prop) a :
  m_listener (m_transport a) = true -> wp cb Qa a -> wp (notify cb) Qa a.
Proof. intros Li H. unfold notify. apply wp_bind, wp_members. change (view (V:=TcpTransport) a) with (m_transport a). by rewrite Li. Qed.

(** An authorised response, with noise before it: the challenge is consumed, and
    the phone is told. *)
Lemma agent_hears base a f noise P r s blob rec :
  registry_ok base (m_deviceRegistry a) (obj (world a)) ->
  healthy (system_clock_ms (world a)).2 ->
  obj (world a) !! m_hSha256Alg (m_cryptoEngine a) = Some (AlgObj SHA256 false) ->
  0 <= r < 2 ^ 256 -> 0 <= s < 2 ^ 256 -> length (der_encode r s) <> 64%nat ->
  authorised_by a (payload f) (system_clock_ms (world a)).1 rec P (der_encode r s) blob (raw_rs r s) ->
  messageType f = UNLOCK_RESP -> small_frame f -> no_magic noise (frame_layout f) ->
  m_listener (m_transport a) = true -> client a <> INVALID_SOCKET -> m_isConnected (m_transport a) = true ->
  wp (drain_loop (length (noise ++ frame_layout f)) (noise ++ frame_layout f)) (fun kept a' =>
    kept = [] /\ same_but_store a a' /\
    m_challengeStore a' = <[BytesToKey (sessionId P) := with_state CONSUMED rec]> (m_challengeStore a) /\
    wrote_frame a a' UNLOCK_RESP [x00; x00]) a.
Proof.
  intros R Hw Ha Hr Hs L64 Au Mt Sf Nm Li Cl Co.
  unfold wpx. rewrite (drain_noise_frame noise f a Sf Nm). apply wp_bind. cbn [deliver]. apply notify_listening; [done|].
  cbn [OnFrameReceived agent_listener]. unfold agent_OnFrameReceived. cbn [messageType received]. rewrite Mt.
  apply wp_bind. eapply wp_mono.
  { apply wp_run. exact (unlock_good base (received f) a P r s blob rec R Hw Ha Hr Hs L64 Au). }
  intros e a1 (Run & -> & Sm & St). cbn beta in St.
  destruct (wlp_elim _ _ _ _ _ (unlock_spec base (received f) a R) Run) as (_ & Tr & _).
  rewrite bool_decide_true by done. apply wp_bind.
  eapply wp_mono; [apply send_writes; [by rewrite Tr|done]|]. intros b a2 (C & Sl & Wr).
  apply wp_ret, wp_ret. unfold agent_core in C. injection C as C1 C2 C3 C4 C5 C6.
  split; [done|]. split; [destruct Sm as (?&?&?&?&?); split_and!; congruence|]. split; [congruence|].
  unfold wrote_frame in *. rewrite Tr in Wr. auto.
Qed.

(** ** What the phone does with a request *)
Definition answer_to (did : list byte) (rec : ChallengeRecord) : AuthPayload :=
  phone_payload did (rec_sessionId rec) (rec_pcId rec) (rec_challenge rec) (rec_expirationTimestampMs rec).

Lemma answer_sizes did rec : length did = 16%nat -> wf_record rec -> phone_sizes (answer_to did rec).
Proof. intros Ld []. by split. Qed.

Lemma phone_signs did rec now authenticate sig :
  length did = 16%nat -> wf_record rec -> 0 <= rec_expirationTimestampMs rec < 2 ^ 63 ->
  now <= rec_expirationTimestampMs rec -> authenticate (layout (answer_to did rec)) = BioSuccess sig ->
  handleUnlockRequest did now true authenticate (request_layout rec) =
    UnlockRespond (layout (answer_to did rec) ++ sig).
Proof.
  intros Ld Wf Rx Tm Au. pose proof (answer_sizes did rec Ld Wf) as Sz. destruct Wf as [Ls Lv Lp Lc].
  set (req := request_layout rec).
  assert (L : length req = 80%nat) by (unfold req, request_layout; len).
  assert (F1 : sub 0 16 req = rec_sessionId rec) by (unfold req, request_layout; by sub_field).
  assert (F2 : sub 16 16 req = rec_pcId rec) by (unfold req, request_layout; by sub_field).
  assert (F3 : sub 32 32 req = rec_challenge rec) by (unfold req, request_layout; by sub_field).
  assert (F4 : sub 72 8 req = be_bytes 8 (rec_expirationTimestampMs rec)) by (unfold req, request_layout; by sub_field).
  unfold handleUnlockRequest. rewrite L. cbn [Nat.ltb Nat.leb]. change (bb_wrap req) with (at_byte req 0).
  repeat (first [rewrite bb_get_at by lia | rewrite getLong_at by lia]; cbn [Nat.add]).
  rewrite F1, F2, F3, F4, be_value_be_bytes_small by (cbn; lia). rewrite (swrap_small 64) by lia.
  replace (now >? _) with false by lia. cbn [negb].
  fold (answer_to did rec). rewrite (kt_encode_layout _ Sz). by rewrite Au.
Qed.
End Session.

(** That answer is authorised. *)
Lemma answer_authorised {W : Type} `{HC : Cng W} `{HT : Clock W} `{HM : CngModel W}
    did blob (a0 a1 : Agent TcpTransport W) rec r s :
  length did = 16%nat -> wf_record rec -> rec_deviceId rec = did -> rec_pcId rec = m_pcId a0 ->
  state rec = OUTSTANDING -> m_challengeStore a1 = AddChallenge rec (m_challengeStore a0) ->
  same_but_store a0 a1 -> trusted (m_deviceRegistry a0) (obj (world a0)) did = Some blob ->
  0 <= r < 2 ^ 256 -> 0 <= s < 2 ^ 256 -> length (der_encode r s) <> 64%nat ->
  ecdsa_verify blob (sha256 (layout (answer_to did rec))) (raw_rs r s) = true ->
  (system_clock_ms (world a1)).1 <= rec_expirationTimestampMs rec ->
  authorised_by a1 (layout (answer_to did rec) ++ der_encode r s) (system_clock_ms (world a1)).1 rec
    (unsigned_payload (answer_to did rec)) (der_encode r s) blob (raw_rs r s).
Proof.
  intros Ld Wf Dv Pc St Es (M1 & M2 & M3 & M4 & M5) Tr Hr Hs L64 Vf Tm.
  split; rewrite ?layout_unsigned; try done.
  - by apply unsigned_payload_wf, answer_sizes.
  - rewrite Es. apply lookup_insert_eq.
  - by rewrite M2.
  - by rewrite M4, M5.
  - by apply signature_value_der.
Qed.

(** The user agrees and the phone's key signs: a DER signature (not of 64 bytes,
    which the PC would take for a raw one) that verifies under [blob]. *)
Definition honest {W} `{HM : CngModel W} (authenticate : list byte -> BiometricResult) (blob m : list byte) : Prop :=
  exists r s, authenticate m = BioSuccess (der_encode r s) /\ 0 <= r < 2 ^ 256 /\ 0 <= s < 2 ^ 256 /\
    length (der_encode r s) <> 64%nat /\ ecdsa_verify blob (sha256 m) (raw_rs r s) = true.

(** * Properties *)

(** C5: a whole unlock.  A connected agent with a healthy CNG issues a request for
    a registered phone, and sending it succeeds.  Then the end of the stream to
    the phone is one frame; however it is split into reads, the phone's receiver
    delivers it, and the phone, whose clock has not passed the expiry and whose
    user and key agree, answers.  Its frame, even with bytes of noise before it,
    is accepted by the agent if it arrives before the expiry: exactly the issued
    challenge is consumed, and unless the connection breaks the phone is sent
    the code for success. *)
Theorem unlock_session {W : Type} `{HC : Cng W} `{HT : Clock W} `{HM : CngModel W} `{HL : !CngLaws W}
    `{HTL : !ClockLaws W} `{HV : !CngLive W} `{HS : Winsock W} `{HWM : WinsockModel W}
    `{HWL : !WinsockLaws W} `{HWC : !WinsockCng W}
    base did blob r0 (a0 a1 : Agent TcpTransport W) rec nowPhone authenticate write (p : TcpTransportClient) :
  registry_ok base (m_deviceRegistry a0) (obj (world a0)) ->
  obj (world a0) !! m_hSha256Alg (m_cryptoEngine a0) = Some (AlgObj SHA256 false) ->
  trusted (m_deviceRegistry a0) (obj (world a0)) did = Some blob ->
  wf_record r0 -> length did = 16%nat -> length (m_pcId a0) = 16%nat ->
  m_listener (m_transport a0) = true -> m_clientSocket (m_transport a0) <> INVALID_SOCKET ->
  0 <= m_sequenceCounter (m_transport a0) < 2 ^ 32 ->
  InitiateUnlockRequest did r0 a0 = Def (rec, a1) -> m_isConnected (m_transport a1) = true ->
  nowPhone <= rec_expirationTimestampMs rec < 2 ^ 63 ->
  honest authenticate blob (layout (answer_to did rec)) ->
  isConnected p && socket_connected p = true -> (forall l, (write l).2 = false) ->
  healthy (system_clock_ms (world a1)).2 ->
  (system_clock_ms (world a1)).1 <= rec_expirationTimestampMs rec ->
  exists request frame answer bytes p',
    (exists before, sent (world a1) (m_clientSocket (m_transport a1)) = before ++ request) /\
    (forall reads, Forall (fun r => r <> []) reads -> concat reads = request ->
       receiverLoop (connected reads) [] = Some [OnFrame frame]) /\
    phone_onFrameReceived did nowPhone true authenticate frame = Some (UnlockRespond answer) /\
    sendFrame write UNLOCK_RESP answer p = (true, bytes, p') /\
    forall noise, no_magic noise bytes ->
      wp (drain_loop (length (noise ++ bytes)) (noise ++ bytes)) (fun kept a' =>
        kept = [] /\ same_but_store a1 a' /\
        m_challengeStore a' = <[BytesToKey (rec_sessionId rec) := with_state CONSUMED rec]> (m_challengeStore a0) /\
        wrote_frame a1 a' UNLOCK_RESP [x00; x00]) a1.
Proof.
  intros R Ha Tr Wf0 Ld Lp Li Cl Sq Run Co Tm (r & s & Au & Hr & Hs & L64 & Vf) Cp Wr Hw Tm2.
  assert (I : wp (InitiateUnlockRequest did r0) _ a0) by (by apply initiate_writes).
  unfold wpx in I. rewrite Run in I. destruct I as (Wf & Dv & Pc & St & Rx & Es & Sm & [L1 C1] & Wq).
  destruct (Wq Co) as [before Ewire].
  set (P := answer_to did rec) in *. pose proof (answer_sizes did rec Ld Wf) as Sz. fold P in Sz.
  set (fq := outgoing_frame UNLOCK_REQ (m_sequenceCounter (m_transport a0)) (request_layout rec)).
  assert (Sq' : small_frame fq).
  { split; [by split; try apply Sq|]. destruct Wf. cbn. unfold request_layout, MAX_PAYLOAD_SIZE. len. }
  set (fa := {| magic := FRAME_MAGIC; payloadLength := Z.of_nat (length (layout P ++ der_encode r s));
                messageType := UNLOCK_RESP; flags := x00; sequenceNumber := sequenceCounter p;
                payload := layout P ++ der_encode r s; checksum := 0 |}).
  pose proof (length_der_encode r s) as Lder.
  pose proof (length_layout _ (unsigned_payload_wf P Sz)) as LP. rewrite layout_unsigned in LP.
  assert (Lfa : Z.of_nat (length (payload fa)) <= MAX_PAYLOAD_SIZE).
  { change (payload fa) with (layout P ++ der_encode r s). unfold MAX_PAYLOAD_SIZE. rewrite length_app, LP. lia. }
  exists (frame_layout fq), (signed_frame (received fq)), (layout P ++ der_encode r s), (frame_layout fa).
  eexists. split; [by exists before|]. split.
  { intros reads Ne E. apply (receiverLoop_frames reads [fq] []); [by constructor|done| |].
    - cbn. by rewrite app_nil_r.
    - rewrite length_frame_layout. cbn. lia. }
  split.
  { unfold phone_onFrameReceived. cbn [messageType signed_frame received fq outgoing_frame payload].
    f_equal. apply phone_signs; [done|done|lia|lia|done]. }
  split.
  { unfold sendFrame. rewrite Cp. cbn [negb]. fold fa. rewrite serializeFrame_layout by (unfold MAX_PAYLOAD_SIZE in Lfa; lia).
    specialize (Wr (frame_layout fa)). destruct (write (frame_layout fa)) as [k th]. cbn in Wr. by subst th. }
  intros noise Nm. rewrite <- frame_layout_unsigned in *. destruct Sm as (M1 & M2 & M3 & M4 & M5).
  eapply wp_mono.
  { apply (agent_hears base a1 (unsigned_frame fa) noise (unsigned_payload P) r s blob rec); try done.
    - by rewrite M4, M5.
    - by rewrite M3, M5.
    - by apply (answer_authorised did blob a0 a1 rec r s).
    - split; [apply unsigned_wf | exact Lfa].
    - by rewrite L1.
    - by rewrite C1. }
  intros kept a' (K & Sm' & St' & Wr'). split; [done|]. split; [done|]. split; [|done].
  rewrite St', Es. apply insert_insert_eq.
Qed.

(** * Witnesses *)
From S2P Require Import Simulator.

Definition session_request : option (ChallengeRecord * Agent TcpTransport Sim) := Eval vm_compute in
  match InitiateUnlockRequest (replicate 16 x02) demo_record demo_agent with
  | Def (r, a) => Some (r, a)
  | UB => None
  end.
Definition session_record : ChallengeRecord := Eval vm_compute in
  match session_request with Some (r, _) => r | None => demo_record end.
Definition session_agent : Agent TcpTransport Sim := Eval vm_compute in
  match session_request with Some (_, a) => a | None => demo_agent end.
Definition session_phone : TcpTransportClient :=
  {| socket_connected := true; isConnected := true; sequenceCounter := 1 |}.
Definition toy_r (m : list byte) : Z := be_value (take 32 (toy_sign demo_blob (toy 7 m))).
Definition toy_s (m : list byte) : Z := be_value (drop 32 (toy_sign demo_blob (toy 7 m))).
Definition toy_finger (m : list byte) : BiometricResult := BioSuccess (der_encode (toy_r m) (toy_s m)).

Lemma unlock_session_witness :
  exists frame answer bytes p',
    phone_onFrameReceived (replicate 16 x02) 2500 true toy_finger frame = Some (UnlockRespond answer) /\
    sendFrame (fun l => (length l, false)) UNLOCK_RESP answer session_phone = (true, bytes, p') /\
    wp (drain_loop (length bytes) bytes) (fun kept a' => kept = [] /\
      m_challengeStore a' = <[BytesToKey (rec_sessionId session_record) := with_state CONSUMED session_record]>
                              (m_challengeStore demo_agent)) session_agent.
Proof.
  assert (Run : InitiateUnlockRequest (replicate 16 x02) demo_record demo_agent = Def (session_record, session_agent))
    by (vm_compute; reflexivity).
  assert (Hon : honest toy_finger demo_blob (layout (answer_to (replicate 16 x02) session_record))).
  { set (m := layout _). exists (toy_r m), (toy_s m). split; [reflexivity|].
    split; [vm_compute; split; [discriminate | reflexivity]|].
    split; [vm_compute; split; [discriminate | reflexivity]|]. split; [vm_compute; discriminate|].
    vm_compute. reflexivity. }
  destruct (unlock_session _ (replicate 16 x02) demo_blob demo_record demo_agent session_agent session_record 2500
      toy_finger (fun l => (length l, false)) session_phone demo_registry_ok
      ltac:(vm_compute; reflexivity) ltac:(vm_compute; reflexivity) ltac:(split; reflexivity) eq_refl eq_refl
      eq_refl ltac:(vm_compute; discriminate) ltac:(vm_compute; split; [discriminate | reflexivity]) Run eq_refl
      ltac:(vm_compute; split; [discriminate | reflexivity]) Hon eq_refl (fun l => eq_refl) eq_refl
      ltac:(vm_compute; discriminate))
    as (request & frame & answer & bytes & p' & _ & _ & Sg & Sd & Acc).
  exists frame, answer, bytes, p'. split; [exact Sg|]. split; [exact Sd|].
  eapply wp_mono; [apply (Acc []); intros i Hi; cbn in Hi; lia|].
  intros kept a' (K & _ & St & _). split; [exact K | exact St].
Defined.
