(* ===== verification/AgentThreads.v ===== *)
(** * AgentThreads: the agent under concurrent calls

    The methods of windows/agent/AgentService.cpp that run while the agent is
    up, as threads of Threads: each call that holds a mutex (of the store or of
    the registry), each CNG call outside it, each clock reading and each send is
    a step.  A pool runs the transport's callbacks, requests for an unlock and
    registrations in any number of threads and in any interleaving.  The lemmas
    [alone_*] say that without interference the threads are the methods of
    AgentService and CryptoEngine. *)
From S2P Require Import Prelude Bytes Protocol FrameProtocol ChallengeStore Platform DerSignature.
From S2P Require Import CryptoEngine DeviceRegistry ChallengeGenerator TransportInterface TcpTransport.
From S2P Require Import AgentService Threads.

(** ** State *)

(** What happened to the store, and by which thread; and what a thread saw when
    it looked at the clock. *)
Inductive Event : Type :=
| Looked (i : nat) (now : Z)
| Issued (i : nat) (rec : ChallengeRecord)
| Accepted (i : nat) (data : list byte) (now : Z) (rec : ChallengeRecord)
| Lapsed (i : nat) (key : string) (rec : ChallengeRecord).

(** [hashing] (the hash object a thread has made and not destroyed) and [history]
    are history variables: nothing reads them. *)
Record Busy (T W : Type) : Type := {
  agent : Agent T W;
  hashing : gmap nat handle;
  history : list Event;
}.
Arguments agent {T W}. Arguments hashing {T W}. Arguments history {T W}.

Definition with_agent {T W} (a : Agent T W) (s : Busy T W) : Busy T W :=
  {| agent := a; hashing := hashing s; history := history s |}.
Definition with_hashing {T W} v (s : Busy T W) : Busy T W :=
  {| agent := agent s; hashing := v; history := history s |}.
Definition with_event {T W} e (s : Busy T W) : Busy T W :=
  {| agent := agent s; hashing := hashing s; history := history s ++ [e] |}.

#[export] Instance busy_agent T W : Lens (Busy T W) (Agent T W) := { view := agent; put := with_agent }.

(** ** Methods *)
Section Methods.
Context {T W : Type} `{HC : Cng W} `{HT : Clock W}.
Abbreviation BU := (Busy T W).
Abbreviation step := (Thread BU).

(** A step on the agent, a look at a member, a call of the platform. *)
Definition on_agent {X} (m : Proc (Agent T W) X) : step X := act (zoom m).
Definition look {X} (f : Agent T W -> X) : step X := act (fun s => Def (f (agent s), s)).
Definition platform {X} (m : Proc W X) : step X := on_agent (zoom (V:=W) m).

Definition th_CreateHash (i : nat) (hAlg : handle) : step (Z * handle) :=
  act (let* '(status, hHash) := zoom (zoom (V:=W) (pcall (BCryptCreateHash hAlg None NULL))) in
       let* s := pget in
       (if NT_SUCCESS status then pput (with_hashing (<[i := hHash]> (hashing s)) s) else pret tt) ;;
       pret (status, hHash)).
(** [std::chrono::system_clock::now()], with what it told noted. *)
Definition read_clock (i : nat) : step Z :=
  act (let* now := zoom (zoom (V:=W) (pcall system_clock_ms)) in
       let* s := pget in
       pput (with_event (Looked i now) s) ;;
       pret now).
Definition th_DestroyHash (i : nat) (hHash : handle) : step unit :=
  act (zoom (zoom (V:=W) (pcall (BCryptDestroyHash hHash))) ;;
       let* s := pget in
       pput (with_hashing (delete i (hashing s)) s)).

(** [CryptoEngine::VerifySignature] *)
Definition th_VerifySignature (i : nat) (hKey : handle) (payloadData : option (list byte)) (payloadSize : Z)
    (signatureData : option (list byte)) (signatureSize : Z) : step bool :=
  match payloadData, signatureData with
  | Some payload, Some signature =>
    if (hKey =? NULL) || (payloadSize =? 0) || (signatureSize =? 0) then Done false else
    let@ e := look m_cryptoEngine in
    let@ '(status, hHash) := th_CreateHash i (m_hSha256Alg e) in
    if negb (NT_SUCCESS status) then Done false else
    let@ bytes := local (rd_slice payload 0 (u32 payloadSize)) in
    let@ status := platform (pcall (BCryptHashData hHash bytes)) in
    if negb (NT_SUCCESS status) then
      th_DestroyHash i hHash ;@
      Done false
    else
    let@ '(status, hashBuf) := platform (pcall (BCryptFinishHash hHash (replicate 32 x00))) in
    th_DestroyHash i hHash ;@
    if negb (NT_SUCCESS status) then Done false else
    let@ '(converted, rawRs) :=
      (if signatureSize =? 64
       then let@ rs := local (rd_slice signature 0 64) in Done (true, rs)
       else local (ConvertDerToRawRSignature (Some signature) signatureSize [])) in
    if negb converted then Done false else
    let@ status := platform (pcall (BCryptVerifySignature hKey hashBuf rawRs)) in
    Done (NT_SUCCESS status)
  | _, _ => Done false
  end.

(** [ChallengeStore::ValidateAndConsumeChallenge], with what it did noted. *)
Definition consume (i : nat) (data : list byte) (q : Query) (nowMs : Z) : step ErrorCode :=
  act (let* s := pget in
       let m_store := m_challengeStore (agent s) in
       let key := BytesToKey (q_sessionId q) in
       let '(err, store) := ValidateAndConsumeChallenge q nowMs m_store in
       pput (with_agent (with_store store (agent s)) s) ;;
       let* s := pget in
       match m_store !! key, err with
       | Some rec, SUCCESS => pput (with_event (Accepted i data nowMs rec) s)
       | Some rec, CHALLENGE_EXPIRED => pput (with_event (Lapsed i key rec) s)
       | _, _ => pret tt
       end ;;
       pret err).

Definition th_ProcessUnlockResponse (i : nat) (frame : TransportFrame) : step ErrorCode :=
  let data := payload frame in
  let size := Z.of_nat (length data) in
  if size <? 108 + 8 then Done INVALID_REQUEST else
  let@ r := local (Deserialize (Some data) 108 new_AuthPayload) in
  if negb (Protocol.ok r) then Done (Protocol.outError r) else
  let payloadP := outPayload r in
  let sigBytes := drop 108 data in
  let sigLen := size - 108 in
  let@ nowMs := read_clock i in
  let@ pcId := look m_pcId in
  let q := {| q_sessionId := sessionId payloadP; q_deviceId := deviceId payloadP;
              q_pcId := pcId; q_challenge := challenge payloadP |} in
  let@ '(valErr, _) := look (fun a => ValidateChallenge q nowMs blank_record (m_challengeStore a)) in
  if negb (bool_decide (valErr = SUCCESS)) then Done valErr else
  let@ hPubKey := look (fun a => GetDevicePublicKey (deviceId payloadP) (m_deviceRegistry a)) in
  if hPubKey =? NULL then Done UNKNOWN_DEVICE else
  let@ sigValid := th_VerifySignature i hPubKey (Some data) 108 (Some sigBytes) sigLen in
  if negb sigValid then Done INVALID_SIGNATURE else
  consume i data q nowMs.

(** [ChallengeStore::AddChallenge] *)
Definition issue (i : nat) (record : ChallengeRecord) : step unit :=
  act (let* s := pget in
       pput (with_event (Issued i record)
         (with_agent (with_store (AddChallenge record (m_challengeStore (agent s))) (agent s)) s))).

(** [ChallengeGenerator::GenerateChallenge] *)
Definition th_GenerateChallenge (i : nat) (deviceId : list byte) (record : ChallengeRecord) : step ChallengeRecord :=
  let@ e := look m_cryptoEngine in
  let@ pcId := look m_pcId in
  let record := with_ids deviceId pcId record in
  let@ '(_, buf) := platform (GenerateRandomBytes e (Some (rec_sessionId record)) UUID_SIZE) in
  let record := with_rec_sessionId (default [] buf) record in
  let@ '(_, buf) := platform (GenerateRandomBytes e (Some (rec_challenge record)) CHALLENGE_SIZE) in
  let record := with_rec_challenge (default [] buf) record in
  let@ nowMs := read_clock i in
  let record := with_times nowMs (u64 (nowMs + DEFAULT_CHALLENGE_TTL_MS)) record in
  Done (with_state OUTSTANDING record).

Context `{HF : FrameSender (Agent T W)}.

Definition th_InitiateUnlockRequest (i : nat) (deviceId : list byte) (record : ChallengeRecord)
    : step ChallengeRecord :=
  let@ record := th_GenerateChallenge i deviceId record in
  issue i record ;@
  let@ payload := local (unlock_request record) in
  let@ connected := on_agent IsConnected in
  (if connected : bool then on_agent (SendFrame UNLOCK_REQ payload) else Done false) ;@
  Done record.

(** The result, which the C++ method does not have, is the code it answers with. *)
Definition th_OnFrameReceived (i : nat) (frame : TransportFrame) : step (option ErrorCode) :=
  match messageType frame with
  | UNLOCK_RESP =>
    let@ err := th_ProcessUnlockResponse i frame in
    let respPayload := error_payload err in
    on_agent (SendFrame (if bool_decide (err = SUCCESS) then UNLOCK_RESP else ERROR_MSG) respPayload) ;@
    Done (Some err)
  | _ => Done None
  end.

(** ** Threads *)
Inductive AgentOp : Type :=
| OnFrame (frame : TransportFrame)
| Request (deviceId : list byte) (record : ChallengeRecord)
| Enroll (deviceId : list byte) (name : string) (rawPublicKeyXy : option (list byte)) (keyLen : Z).

Definition agent_op (i : nat) (op : AgentOp) : step (option ErrorCode) :=
  match op with
  | OnFrame frame => th_OnFrameReceived i frame
  | Request deviceId record => th_InitiateUnlockRequest i deviceId record ;@ Done None
  | Enroll deviceId name rawPublicKeyXy keyLen =>
    on_agent (agent_RegisterDevice deviceId name rawPublicKeyXy keyLen) ;@ Done None
  end.
Fixpoint agent_ops (i : nat) (ops : list AgentOp) : step (list (option ErrorCode)) :=
  match ops with
  | [] => Done []
  | op :: ops =>
    let@ b := agent_op i op in
    let@ bs := agent_ops i ops in
    Done (b :: bs)
  end.
Definition agent_pool (tasks : list (list AgentOp)) : list (step (list (option ErrorCode))) :=
  imap agent_ops tasks.
End Methods.

(** ** Alone, the threads are the methods *)
Section Alone.
Context {T W : Type} `{HC : Cng W} `{HT : Clock W}.
Implicit Types (s : Busy T W).

Abbreviation alone_as := (mirrors (agent (T:=T) (W:=W))).

Lemma alone_on_agent {A} (m : Proc (Agent T W) A) s : alone_as (on_agent m) m s.
Proof.
  unfold mirrors, on_agent, zoom, act. cbn. destruct (m (agent s)) as [[x a]|]; [|done]. by eexists.
Qed.

Lemma alone_look {A X} (f : Agent T W -> X) (k : X -> Thread (Busy T W) A) m s :
  alone_as (k (f (agent s))) m s -> alone_as (tbind (look f) k) m s.
Proof. done. Qed.

Lemma alone_zoom_seq {A B} (t : Thread (Busy T W) A) (m : Proc W A) (k : A -> Thread (Busy T W) B) k' s :
  alone_as t (zoom m) s -> (forall x s', alone_as (k x) (zoom (k' x)) s') -> alone_as (tbind t k) (zoom (pbind m k')) s.
Proof.
  unfold mirrors, pbind, zoom. intros H K. rewrite alone_bind. cbn [view put agent_world] in *.
  destruct (m (world (agent s))) as [[x w]|]; [|by rewrite H].
  destruct H as (s' & -> & Es). specialize (K x s'). rewrite Es in K. exact K.
Qed.

Lemma alone_platform {A} (m : Proc W A) s : alone_as (platform m) (zoom m) s.
Proof. apply alone_on_agent. Qed.

Lemma alone_zoom_local {A} (r : Res A) s : alone_as (local r) (zoom (V:=W) (plift r)) s.
Proof. destruct r; [|done]. by exists s; destruct s as [[] ? ?]. Qed.

Lemma alone_zoom_done {A} (x : A) s : alone_as (Done x) (zoom (V:=W) (pret x)) s.
Proof. by exists s; destruct s as [[] ? ?]. Qed.

Lemma alone_create i hAlg s : alone_as (th_CreateHash i hAlg) (zoom (pcall (BCryptCreateHash hAlg None NULL))) s.
Proof.
  unfold mirrors, th_CreateHash, zoom, pcall, pbind. cbn.
  destruct (BCryptCreateHash hAlg None NULL (world (agent s))) as [[st h] w]. cbn.
  destruct (NT_SUCCESS st); cbn; by eexists.
Qed.

Lemma alone_clock i s : alone_as (read_clock i) (zoom (pcall system_clock_ms)) s.
Proof.
  unfold mirrors, read_clock, zoom, pcall, pbind. cbn.
  destruct (system_clock_ms (world (agent s))) as [now w]. by eexists.
Qed.

Lemma alone_destroy_seq {B} i h (k : Thread (Busy T W) B) k' s :
  (forall s', alone_as k (zoom k') s') ->
  alone_as (tbind (th_DestroyHash i h) (fun _ => k)) (zoom (pbind (pcall (BCryptDestroyHash h)) (fun _ => k'))) s.
Proof.
  intros K. unfold mirrors, th_DestroyHash, zoom, pcall, pbind, act. cbn.
  destruct (BCryptDestroyHash h (world (agent s))) as [x w].
  exact (K (with_hashing (delete i (hashing s)) (with_agent (with_world w (agent s)) s))).
Qed.

Lemma alone_VerifySignature i hKey payload n signature sn s :
  alone_as (th_VerifySignature i hKey payload n signature sn)
    (zoom (VerifySignature (m_cryptoEngine (agent s)) hKey payload n signature sn)) s.
Proof.
  unfold th_VerifySignature, VerifySignature.
  destruct payload as [p|], signature as [sg|]; try apply alone_zoom_done.
  destruct (_ || _); [apply alone_zoom_done|]. apply alone_look.
  apply alone_zoom_seq; [apply alone_create|]. clear s. intros [st h] s.
  destruct (negb _); [apply alone_zoom_done|].
  apply alone_zoom_seq; [apply alone_zoom_local|]. clear s. intros bytes s.
  apply alone_zoom_seq; [apply alone_platform|]. clear st s. intros st s.
  destruct (negb _); [apply alone_destroy_seq; apply alone_zoom_done|].
  apply alone_zoom_seq; [apply alone_platform|]. clear st s. intros [st hash] s.
  apply alone_destroy_seq. clear s. intros s.
  destruct (negb _); [apply alone_zoom_done|].
  apply alone_zoom_seq.
  { destruct (sn =? 64); [|apply alone_zoom_local].
    apply alone_zoom_seq; [apply alone_zoom_local | intros; apply alone_zoom_done]. }
  clear s. intros [b rs] s. destruct (negb b); [apply alone_zoom_done|].
  apply alone_zoom_seq; [apply alone_platform | intros; apply alone_zoom_done].
Qed.

Lemma alone_consume i data q now s :
  alone_as (consume i data q now)
    (let* a := pget in
     let '(err, store) := ValidateAndConsumeChallenge q now (m_challengeStore a) in
     pput (with_store store a) ;;
     pret err) s.
Proof.
  unfold mirrors, consume, pbind, pget, pput, pret. cbn.
  destruct (ValidateAndConsumeChallenge q now (m_challengeStore (agent s))) as [err store].
  destruct (_ !! _) as [rec|]; [destruct err|]; by eexists.
Qed.

Lemma alone_ProcessUnlockResponse i frame s :
  alone_as (th_ProcessUnlockResponse i frame) (ProcessUnlockResponse frame) s.
Proof.
  unfold th_ProcessUnlockResponse, ProcessUnlockResponse. cbv zeta.
  destruct (_ <? _); [apply mirrors_done|]. apply mirrors_seq; [apply mirrors_local|]. clear s. intros r s.
  destruct (negb _); [apply mirrors_done|]. apply mirrors_seq; [apply alone_clock|]. clear s. intros now s.
  apply alone_look, mirrors_get, alone_look. destruct (ValidateChallenge _ _ _ _) as [err ?].
  destruct (negb _); [apply mirrors_done|]. apply alone_look.
  destruct (_ =? NULL); [apply mirrors_done|]. apply mirrors_seq; [apply alone_VerifySignature|]. 
  intros b s'. destruct (negb b); [apply mirrors_done | apply alone_consume].
Qed.

Lemma alone_GenerateChallenge i did r0 s :
  alone_as (th_GenerateChallenge i did r0)
    (zoom (GenerateChallenge (m_cryptoEngine (agent s)) did (m_pcId (agent s)) r0)) s.
Proof.
  unfold th_GenerateChallenge, GenerateChallenge. cbv zeta. apply alone_look, alone_look.
  apply alone_zoom_seq; [apply alone_platform|]. intros [b buf] s1.
  apply alone_zoom_seq; [apply alone_platform|]. intros [b' buf'] s2.
  apply alone_zoom_seq; [apply alone_clock|]. intros now s3. apply alone_zoom_done.
Qed.

Lemma alone_issue i rec s :
  alone_as (issue i rec) (let* a := pget in pput (with_store (AddChallenge rec (m_challengeStore a)) a)) s.
Proof. by eexists. Qed.

Context `{HF : FrameSender (Agent T W)}.

Lemma alone_InitiateUnlockRequest i did r0 s :
  alone_as (th_InitiateUnlockRequest i did r0) (InitiateUnlockRequest did r0) s.
Proof.
  unfold th_InitiateUnlockRequest, InitiateUnlockRequest. apply mirrors_get.
  apply mirrors_seq; [apply alone_GenerateChallenge|]. clear s. intros rec s.
  apply (mirrors_seq _ (let* a := pget in pput (with_store (AddChallenge rec (m_challengeStore a)) a))).
  { apply alone_issue. }
  clear s. intros _ s. apply mirrors_seq; [apply mirrors_local|]. clear s. intros p s.
  apply mirrors_seq; [apply alone_on_agent|]. clear s. intros c s.
  apply mirrors_seq; [|intros; apply mirrors_done]. destruct c; [apply alone_on_agent | apply mirrors_done].
Qed.

Lemma alone_OnFrameReceived i frame s :
  alone_as (th_OnFrameReceived i frame ;@ Done tt) (agent_OnFrameReceived frame) s.
Proof.
  unfold th_OnFrameReceived, agent_OnFrameReceived. destruct (messageType frame); try apply mirrors_done.
  apply mirrors_assoc, mirrors_seq; [apply alone_ProcessUnlockResponse|]. clear s. intros err s.
  apply mirrors_assoc, mirrors_seq; [apply alone_on_agent | intros; apply mirrors_done].
Qed.
End Alone.
