(* ===== verification/PhoneKeys.v ===== *)
(** * PhoneKeys: the phone's signing key and its enrolment on the PC

    The export of the public key in crypto/KeyManager.kt, the part of that class
    that is not a call into the Android keystore; the keystore's certificate is an
    argument.  The theorem takes the exported bytes to the agent's registry: what
    it trusts afterwards is what unlocking asks for. *)
From S2P Require Import Prelude Bytes Protocol FrameProtocol ChallengeStore Platform DerSignature.
From S2P Require Import CryptoEngine DeviceRegistry ChallengeGenerator TransportInterface TcpTransport.
From S2P Require Import AgentService Phone PhonePairing Threads AgentThreads.

(** What [getPublicKey()] finds in the certificate: it may be no EC key. *)
Inductive PublicKey : Type := ECPublicKey (affineX affineY : Z) | OtherKey.

(** [KeyManager.getFixedLengthBytes], the same text as in EcdhManager.kt. *)
Definition key_getFixedLengthBytes (bigIntBytes : list byte) (length : Z) : option (list byte) :=
  getFixedLengthBytes bigIntBytes length.

Definition getPublicKeyUncompressedXy (certificate : option PublicKey) : option (option (list byte)) :=
  match certificate with
  | Some (ECPublicKey affineX affineY) =>
    let! xBytes := key_getFixedLengthBytes (toByteArray affineX) 32 in
    let! yBytes := key_getFixedLengthBytes (toByteArray affineY) 32 in
    Some (Some (xBytes ++ yBytes))
  | _ => Some None
  end.

(** A point's coordinates, at their 32 bytes each. *)
Definition point (x y : Z) : list byte := be_bytes 32 x ++ be_bytes 32 y.

Lemma export_point x y :
  0 <= x < 2 ^ 256 -> 0 <= y < 2 ^ 256 ->
  getPublicKeyUncompressedXy (Some (ECPublicKey x y)) = Some (Some (point x y)).
Proof.
  intros Hx Hy. unfold getPublicKeyUncompressedXy, key_getFixedLengthBytes. by rewrite !getFixedLengthBytes_ok by done.
Qed.

Lemma length_point x y : length (point x y) = 64%nat.
Proof. unfold point. by rewrite length_app, !length_be_bytes. Qed.

Lemma key_point_point x y : key_point (point x y) 64 = point x y.
Proof.
  pose proof (length_point x y) as L. unfold key_point. destruct (point x y) as [|b l]; [done|].
  change (64 =? 65) with false. cbn [andb]. apply take_ge. by rewrite L.
Qed.

Section Enrolment.
Context {T W : Type} `{HC : Cng W} `{HT : Clock W} `{HM : CngModel W} `{HL : !CngLaws W}.
Implicit Types (a : Agent T W).

(** Registering touches only keys: a provider that was open stays open. *)
Lemma provider_kept base m m' o o' h alg hmac :
  registry_ok base m o -> registry_ok base m' o' ->
  o !! h = Some (AlgObj alg hmac) -> o' !! h = Some (AlgObj alg hmac).
Proof.
  intros R R' E. assert (B : base !! h = Some (AlgObj alg hmac)).
  { rewrite <- (rok_base _ _ _ R); [done|]. intros k d Hd <-.
    destruct (rok_live _ _ _ R k d Hd) as (_ & a & b & E'). by rewrite E in E'. }
  rewrite (rok_base _ _ _ R'); [done|]. intros k d Hd <-. by rewrite (rok_own _ _ _ R' k d Hd) in B.
Qed.

(** The parts of the agent that registering leaves alone. *)
Definition same_but_registry a a' : Prop :=
  (m_port a', m_pcId a', m_cryptoEngine a', m_challengeStore a', m_transport a') =
  (m_port a, m_pcId a, m_cryptoEngine a, m_challengeStore a, m_transport a).

Lemma agent_register base did name raw n a :
  registry_ok base (m_deviceRegistry a) (obj (world a)) -> op_safe (OpRegister did name raw n) ->
  wp (agent_RegisterDevice did name raw n) (fun b a' => same_but_registry a a' /\
    register_post base (m_deviceRegistry a) (obj (world a)) did (fun blob => exists l, raw = Some l /\
      blob = ecc_blob BCRYPT_ECDSA_PUBLIC_P256_MAGIC (key_point l n)) (b, m_deviceRegistry a') (world a')) a.
Proof.
  intros R Sf. unfold agent_RegisterDevice. apply wp_bind, wp_get, wp_bind, wp_zoom.
  eapply wp_mono; [by apply register_ok|]. intros [b m] w P.
  apply wp_bind, wp_get, wp_bind, wp_put, wp_ret. by split.
Qed.

(** The parts of an authorised response are those it was put together from. *)
Lemma authorised_signature a now rec P signature blob :
  wf_payload P -> authorises a (layout P ++ signature) now rec ->
  trusted (m_deviceRegistry a) (obj (world a)) (deviceId P) = Some blob ->
  exists raw, signature_value signature (Z.of_nat (length signature)) = Some raw /\
    ecdsa_verify blob (sha256 (layout P)) raw = true.
Proof.
  intros Wf (P' & sg & blob' & raw & [Ed Wf' _ _ _ _ _ _ _ Tr Rv Sg]) T0.
  assert (P' = P) as ->.
  { pose proof (fields_at_layout P signature Wf) as E. rewrite Ed in E.
    by rewrite fields_at_layout in E by done. }
  apply app_inv_head in Ed as ->. rewrite Tr in T0. injection T0 as ->. by exists raw.
Qed.

(** ** What the agent goes on to do *)
Context `{HTL : !ClockLaws W} `{HF : FrameSender (Agent T W)} `{HSL : !SenderLaws (Agent T W) _ agent_core}.

(** The calls of AgentThreads, one after the other. *)
Definition agent_call (op : AgentOp) : Proc (Agent T W) unit :=
  match op with
  | OnFrame frame => agent_OnFrameReceived frame
  | Request did record => InitiateUnlockRequest did record ;; pret tt
  | Enroll did name raw n => agent_RegisterDevice did name raw n ;; pret tt
  end.
Fixpoint agent_calls (ops : list AgentOp) : Proc (Agent T W) unit :=
  match ops with [] => pret tt | op :: ops => agent_call op ;; agent_calls ops end.

(** Calls with arguments of their types, that do not register [did] again. *)
Definition leaves_key (did : list byte) (op : AgentOp) : Prop :=
  match op with
  | OnFrame _ => True
  | Request did' record => wf_record record /\ length did' = 16%nat
  | Enroll did' name raw n => did' <> did /\ op_safe (OpRegister did' name raw n)
  end.

(** The agent is in order and trusts [did] with the key [blob]. *)
Definition trusts base did blob a : Prop :=
  length (m_pcId a) = 16%nat /\ registry_ok base (m_deviceRegistry a) (obj (world a)) /\
  trusted (m_deviceRegistry a) (obj (world a)) did = Some blob.

Lemma trusts_same base did blob a a' : same_but_store a a' -> trusts base did blob a -> trusts base did blob a'.
Proof. intros (_ & P & _ & D & O). unfold trusts. by rewrite P, D, O. Qed.

Lemma call_trusts base did blob op a :
  leaves_key did op -> trusts base did blob a -> wlp (agent_call op) (fun _ a' => trusts base did blob a') a.
Proof.
  intros Lk Tr. pose proof Tr as (Lp & R & Td). destruct op as [frame|did' r0|did' name raw n]; cbn [agent_call].
  - eapply wp_mono; [by apply (on_frame_spec base)|]. intros _ a' [Sm _]. by apply (trusts_same base did blob a).
  - destruct Lk as [Wr Ld]. apply wp_bind. eapply wp_mono; [apply wpx_weaken; by apply initiate_spec|].
    intros r a' (_ & _ & _ & _ & _ & _ & Sm). apply wp_ret. by apply (trusts_same base did blob a).
  - destruct Lk as [N Sf]. apply wp_bind. eapply wp_mono; [apply wpx_weaken; by apply (agent_register base)|].
    intros b a' [Sm P]. apply wp_ret. unfold same_but_registry in Sm. injection Sm as _ Ep _ _ _.
    unfold register_post in P. cbn [fst snd] in P. destruct b.
    + destruct P as (R' & blob' & _ & T'). split; [by rewrite Ep|]. split; [done|].
      by rewrite T', decide_False by (intros ->; by apply N).
    + destruct P as [Ed Eo]. unfold trusts. by rewrite Ep, Ed, Eo.
Qed.

Lemma calls_trust base did blob ops a :
  Forall (leaves_key did) ops -> trusts base did blob a ->
  wlp (agent_calls ops) (fun _ a' => trusts base did blob a') a.
Proof.
  intros F. revert a. induction F as [|op ops Lk F IH]; intros a Tr; cbn [agent_calls]; [by apply wp_ret|].
  apply wp_bind. eapply wp_mono; [by apply call_trusts|]. cbn beta. intros ? a' Tr'. by apply IH.
Qed.

(** What accepting a response of the device then tells. *)
Lemma trusts_accepted base did blob P signature frame a a' :
  trusts base did blob a -> wf_payload P -> deviceId P = did -> payload frame = layout P ++ signature ->
  ProcessUnlockResponse frame a = Def (SUCCESS, a') ->
  exists raw, signature_value signature (Z.of_nat (length signature)) = Some raw /\
    ecdsa_verify blob (sha256 (layout P)) raw = true.
Proof.
  intros (_ & R & Td) Wf <- Ed E. pose proof (wlp_elim _ _ _ _ _ (unlock_spec base frame a R) E) as (_ & _ & G).
  rewrite bool_decide_true in G by done. destruct G as (rec & Au & _). rewrite Ed in Au.
  by apply (authorised_signature a (system_clock_ms (world a)).1 rec P signature).
Qed.
End Enrolment.

(** * Properties *)
Section Properties.
Context {T W : Type} `{HC : Cng W} `{HT : Clock W} `{HM : CngModel W} `{HL : !CngLaws W} `{HTL : !ClockLaws W}
        `{HF : FrameSender (Agent T W)} `{HSL : !SenderLaws (Agent T W) _ agent_core}.
Implicit Types (a : Agent T W).

(** C18: enrolling a phone.  The phone exports the point of its key as 64 bytes,
    whatever its coordinates.  Registering them has a defined result.  If it is
    true, the agent trusts for that device exactly this point, for every other
    device what it trusted before, its registry is in order and open providers
    stay open, so that unlocking can start; and a response accepted after any
    number of further calls (frames, requests for an unlock, registrations of
    other devices), if it names the device, is signed under the phone's point.
    If it is false nothing has changed. *)
Theorem enrolment base did name x y a :
  0 <= x < 2 ^ 256 -> 0 <= y < 2 ^ 256 -> length (m_pcId a) = 16%nat ->
  registry_ok base (m_deviceRegistry a) (obj (world a)) ->
  exists xy, getPublicKeyUncompressedXy (Some (ECPublicKey x y)) = Some (Some xy) /\ length xy = 64%nat /\
  wp (agent_RegisterDevice did name (Some xy) 64) (fun b a' => same_but_registry a a' /\
    if b : bool
    then let blob := ecc_blob BCRYPT_ECDSA_PUBLIC_P256_MAGIC (be_bytes 32 x ++ be_bytes 32 y) in
      registry_ok base (m_deviceRegistry a') (obj (world a')) /\
      trusted (m_deviceRegistry a') (obj (world a')) did = Some blob /\
      (forall did', did' <> did -> trusted (m_deviceRegistry a') (obj (world a')) did' =
                                   trusted (m_deviceRegistry a) (obj (world a)) did') /\
      (forall h alg hmac, obj (world a) !! h = Some (AlgObj alg hmac) -> obj (world a') !! h = Some (AlgObj alg hmac)) /\
      (forall ops a1 P signature frame a2, Forall (leaves_key did) ops -> agent_calls ops a' = Def (tt, a1) ->
         wf_payload P -> deviceId P = did -> payload frame = layout P ++ signature ->
         ProcessUnlockResponse frame a1 = Def (SUCCESS, a2) ->
         exists raw, signature_value signature (Z.of_nat (length signature)) = Some raw /\
           ecdsa_verify blob (sha256 (layout P)) raw = true)
    else m_deviceRegistry a' = m_deviceRegistry a /\ obj (world a') = obj (world a)) a.
Proof.
  intros Hx Hy Lp R. exists (point x y). split; [by apply export_point|]. split; [apply length_point|].
  eapply wp_mono; [apply (agent_register base did name (Some (point x y)) 64 a R); cbn; by rewrite length_point|].
  intros b a' [Sm P]. split; [done|]. unfold register_post in P. cbn [fst snd] in P. destruct b; [|done].
  destruct P as (R' & blob & (l & [= <-] & ->) & Tr). rewrite key_point_point in Tr. fold (point x y).
  assert (Td : trusted (m_deviceRegistry a') (obj (world a')) did =
               Some (ecc_blob BCRYPT_ECDSA_PUBLIC_P256_MAGIC (point x y))) by (by rewrite Tr, decide_True).
  cbv zeta. do 2 (split; [done|]). split; [intros did' N; by rewrite Tr, decide_False|].
  split; [intros h alg hmac; by apply (provider_kept base (m_deviceRegistry a) (m_deviceRegistry a'))|].
  intros ops a1 P signature frame a2 F Run. apply (trusts_accepted base).
  refine (wlp_elim _ _ _ _ _ (calls_trust base did _ ops a' F _) Run). split; [|done].
  unfold same_but_registry in Sm. injection Sm as _ -> _ _ _. exact Lp.
Qed.
End Properties.

(** * Witness *)
From S2P Require Import Simulator.

(** A point whose first coordinate is short. *)
Definition demo_x : Z := 0x1234.
Definition demo_y : Z := 2 ^ 255 + 7.
Definition new_phone : list byte := replicate 16 x05.

Definition new_blob : list byte := ecc_blob BCRYPT_ECDSA_PUBLIC_P256_MAGIC (point demo_x demo_y).

(** The agent once the phone is registered; then it asks that phone for an unlock
    and registers another one. *)
Definition agent_of {A} (r : Res (A * Agent TcpTransport Sim)) : Agent TcpTransport Sim :=
  match r with Def (_, a) => a | UB => demo_agent end.
Definition enrolled_agent : Agent TcpTransport Sim := Eval vm_compute in
  agent_of (agent_RegisterDevice new_phone "phone" (Some (point demo_x demo_y)) 64 demo_agent).
Definition later_calls : list AgentOp :=
  [Request new_phone demo_record; Enroll (replicate 16 x06) "tablet" (Some (point demo_y demo_x)) 64].
Definition later_agent : Agent TcpTransport Sim := Eval vm_compute in agent_of (agent_calls later_calls enrolled_agent).

(** The phone's answer to that request. *)
Definition new_record : ChallengeRecord := Eval vm_compute in
  match ChallengeGenerator.GenerateChallenge demo_engine new_phone demo_pc demo_record (world enrolled_agent) with
  | Def (rec, _) => rec
  | UB => demo_record
  end.
Definition new_payload : AuthPayload :=
  {| domain := DOMAIN_PREFIX; protocolVersion := 256; algorithmId := 1;
     deviceId := new_phone; sessionId := rec_sessionId new_record; pcId := demo_pc;
     challenge := rec_challenge new_record; expirationTimestampMs := rec_expirationTimestampMs new_record |}.
Definition new_signature : list byte :=
  let rs := toy_sign new_blob (toy 7 (layout new_payload)) in
  der_encode (be_value (take 32 rs)) (be_value (drop 32 rs)).
Definition new_response : TransportFrame := outgoing_frame UNLOCK_RESP 1 (layout new_payload ++ new_signature).

Lemma demo_enrolled :
  agent_RegisterDevice new_phone "phone" (Some (point demo_x demo_y)) 64 demo_agent = Def (true, enrolled_agent).
Proof. vm_compute. reflexivity. Qed.
Lemma demo_later : agent_calls later_calls enrolled_agent = Def (tt, later_agent).
Proof. vm_compute. reflexivity. Qed.
Lemma demo_accepted : exists a, ProcessUnlockResponse new_response later_agent = Def (SUCCESS, a).
Proof. eexists. vm_compute. reflexivity. Qed.
Lemma later_calls_leave : Forall (leaves_key new_phone) later_calls.
Proof.
  constructor; [by split; [split|]|]. constructor; [|constructor]. split; [intros E; vm_compute in E; discriminate E|].
  vm_compute. intuition discriminate.
Qed.

Lemma enrolment_witness :
  trusted (m_deviceRegistry enrolled_agent) (obj (world enrolled_agent)) new_phone = Some new_blob /\
  trusted (m_deviceRegistry enrolled_agent) (obj (world enrolled_agent)) (replicate 16 x02) = Some demo_blob /\
  exists raw, signature_value new_signature (Z.of_nat (length new_signature)) = Some raw /\
    ecdsa_verify new_blob (sha256 (layout new_payload)) raw = true.
Proof.
  assert (Hx : 0 <= demo_x < 2 ^ 256) by (vm_compute; split; [discriminate | reflexivity]).
  assert (Hy : 0 <= demo_y < 2 ^ 256) by (vm_compute; split; [discriminate | reflexivity]).
  destruct (enrolment _ new_phone "phone" demo_x demo_y demo_agent Hx Hy eq_refl demo_registry_ok)
    as (xy & Ex & _ & E).
  rewrite (export_point _ _ Hx Hy) in Ex. injection Ex as <-.
  unfold wpx in E. rewrite demo_enrolled in E. destruct E as (_ & _ & Td & Others & _ & Later).
  split; [exact Td|]. split; [rewrite Others by (vm_compute; discriminate); vm_compute; reflexivity|].
  destruct demo_accepted as [a2 Acc].
  assert (Wf : wf_payload new_payload) by (split; vm_compute; first [reflexivity | split; [discriminate | reflexivity]]).
  exact (Later later_calls later_agent new_payload new_signature new_response a2 later_calls_leave demo_later
    Wf eq_refl eq_refl Acc).
Defined.
