(* ===== verification/AgentRaces.v ===== *)
(** * AgentRaces: unlocking under interference

    What the threads of AgentThreads may do to each other (the invariant [sound]
    and the guarantee [guar]), each thread's calls against what the others may
    do, and the theorems on all interleavings.  The object of a hash belongs to
    the thread that computes it, the keys to the registry, a challenge to the
    store.

    Frames may be any: a thread goes wrong only on a signature that the
    conversion reads past ([overruns]).  Phones are registered that were not: registering a known one again, or
    removing it, destroys a key that a running check may hold
    ([stale_handle] in DeviceRegistry), and then nothing is promised. *)
From S2P Require Import Prelude Bytes Protocol FrameProtocol ChallengeStore Platform DerSignature.
From S2P Require Import CryptoEngine DeviceRegistry ChallengeGenerator TransportInterface TcpTransport.
From S2P Require Import AgentService Threads AgentThreads.

(** ** What the history tells *)

(** The store that the events make of [m]. *)
Definition replay1 (e : Event) (m : Store) : Store :=
  match e with
  | Looked _ _ => m
  | Issued _ rec => AddChallenge rec m
  | Accepted _ data _ rec => <[BytesToKey (session_of data) := with_state CONSUMED rec]> m
  | Lapsed _ key rec => <[key := with_state EXPIRED rec]> m
  end.
Definition replay (es : list Event) (m : Store) : Store := fold_left (fun m e => replay1 e m) es m.

Definition event_by (e : Event) : nat :=
  match e with Looked i _ | Issued i _ | Accepted i _ _ _ | Lapsed i _ _ => i end.

(** What an event needs of the agent just before it. *)
Definition event_ok {T W} `{CngModel W} (e : Event) (a : Agent T W) : Prop :=
  match e with
  | Looked _ _ => True
  | Issued _ rec => rec_pcId rec = m_pcId a /\ state rec = OUTSTANDING /\
                    rec_expirationTimestampMs rec = u64 (creationTimestampMs rec + 30000)
  | Accepted _ data now rec => authorises a data now rec
  | Lapsed _ key rec => m_challengeStore a !! key = Some rec
  end.

(** Of what thread [i] did, the last was to read the clock, and it read [now]. *)
Definition looked_at (i : nat) (now : Z) (es : list Event) : Prop :=
  last (filter (fun e => event_by e = i) es) = Some (Looked i now).

(** A challenge is created at, and a response judged by, what the clock told that
    thread just before. *)
Definition clocked (es : list Event) (e : Event) : Prop :=
  match e with
  | Issued i rec => looked_at i (creationTimestampMs rec) es
  | Accepted i _ now _ => looked_at i now es
  | Looked _ _ | Lapsed _ _ _ => True
  end.

(** The responses thread [i] accepted; those an answered list of calls did. *)
Definition accepted_by (i : nat) (es : list Event) : list (list byte) :=
  omap (fun e => match e with
                 | Accepted j data _ _ => if Nat.eqb i j then Some data else None
                 | _ => None
                 end) es.
Fixpoint granted (ops : list AgentOp) (answers : list (option ErrorCode)) : list (list byte) :=
  match ops, answers with
  | OnFrame frame :: ops, Some SUCCESS :: answers => payload frame :: granted ops answers
  | _ :: ops, _ :: answers => granted ops answers
  | _, _ => []
  end.

(** The devices a thread registers. *)
Definition enrolls (ops : list AgentOp) : list (list byte) :=
  omap (fun op => match op with Enroll did _ _ _ => Some did | _ => None end) ops.

(** A signature past whose end the conversion reads (the property
    [Convert_reads_past_end] of DerSignature says which those are); a response
    that carries one. *)
Definition overruns (signature : list byte) : Prop :=
  length signature <> 64%nat /\
  ConvertDerToRawRSignature (Some signature) (Z.of_nat (length signature)) [] = UB.
Definition op_overruns (op : AgentOp) : Prop :=
  match op with OnFrame frame => overruns (drop 108 (payload frame)) | _ => False end.

(** Calls with arguments of their types; a frame may be any. *)
Definition op_fits (op : AgentOp) : Prop :=
  match op with
  | OnFrame _ => True
  | Request did r0 => wf_record r0 /\ length did = 16%nat
  | Enroll did name raw n => op_safe (OpRegister did name raw n)
  end.

(** *** Sessions in a history *)

(** The session has a record that is not outstanding. *)
Definition spent (key : string) (m : Store) : Prop := exists rec, m !! key = Some rec /\ state rec <> OUTSTANDING.

Definition reissues (key : string) (e : Event) : Prop :=
  match e with Issued _ rec => BytesToKey (rec_sessionId rec) = key | _ => False end.

Lemma replay_app es es' m : replay (es ++ es') m = replay es' (replay es m).
Proof. apply fold_left_app. Qed.

Lemma replay1_spent e key m : ~ reissues key e -> spent key m -> spent key (replay1 e m).
Proof.
  intros N (rec & E & St). destruct e as [i now|i r|i data now r|i k r]; cbn in N |- *.
  - by exists rec.
  - exists rec. unfold AddChallenge. by rewrite lookup_insert_ne.
  - destruct (decide (BytesToKey (session_of data) = key)) as [->|N'].
    + eexists. by rewrite lookup_insert_eq.
    + exists rec. by rewrite lookup_insert_ne.
  - destruct (decide (k = key)) as [->|N'].
    + eexists. by rewrite lookup_insert_eq.
    + exists rec. by rewrite lookup_insert_ne.
Qed.

Lemma replay_spent es key m : Forall (fun e => ~ reissues key e) es -> spent key m -> spent key (replay es m).
Proof. intros F. revert m. induction F as [|e es N F IH]; intros m Sp; [done|]. by apply IH, replay1_spent. Qed.

#[export] Instance reissues_dec key e : Decision (reissues key e).
Proof. destruct e; cbn; apply _. Defined.

(** If the session was accepted at [k1] and is outstanding at [k2], it was issued
    again in between. *)
Lemma reissued_between es m key k1 k2 i data now rec r2 :
  es !! k1 = Some (Accepted i data now rec) -> BytesToKey (session_of data) = key -> (k1 < k2 <= length es)%nat ->
  replay (take k2 es) m !! key = Some r2 -> state r2 = OUTSTANDING ->
  exists k e, (k1 < k < k2)%nat /\ es !! k = Some e /\ reissues key e.
Proof.
  intros E1 Ek Lt E2 St. set (mid := drop (S k1) (take k2 es)).
  assert (Eq : take k2 es = (take k1 es ++ [Accepted i data now rec]) ++ mid).
  { rewrite <- (take_drop (S k1) (take k2 es)). fold mid. f_equal. rewrite take_take, Nat.min_l by lia.
    by apply take_S_r. }
  destruct (decide (Exists (reissues key) mid)) as [X|X].
  - apply Exists_exists in X as (e & In & Re). apply list_elem_of_lookup in In as [k Hk].
    unfold mid in Hk. rewrite lookup_drop in Hk. exists (S k1 + k)%nat, e.
    assert (L : (S k1 + k < k2)%nat) by (apply lookup_lt_Some in Hk; rewrite length_take in Hk; lia).
    rewrite lookup_take_lt in Hk by done. split; [lia|]. done.
  - exfalso. rewrite Eq, replay_app in E2. apply not_Exists_Forall in X; [|apply _].
    destruct (replay_spent mid key (replay (take k1 es ++ [Accepted i data now rec]) m) X) as (r & E & N).
    + rewrite replay_app. cbn. rewrite Ek. eexists. rewrite lookup_insert_eq. done.
    + rewrite E2 in E. injection E as <-. done.
Qed.

(** ** Who may do what *)
Section Roles.
Context {T W : Type} `{HC : Cng W} `{HT : Clock W} `{HM : CngModel W} `{HL : !CngLaws W}
        `{HTL : !ClockLaws W} `{HCH : !CngHashes W}.
Abbreviation BU := (Busy T W).
Implicit Types (s : BU).
(** The CNG objects of others, the store at the start, the devices each thread
    may register. *)
Context (base : gmap handle CngObj) (m0 : Store) (claim : nat -> list (list byte)).

Abbreviation st_ s := (m_challengeStore (agent s)).
Abbreviation dev_ s := (m_deviceRegistry (agent s)).
Abbreviation obj_ s := (obj (world (agent s))).
Definition fixed s : Z * list byte * CryptoEngine :=
  (m_port (agent s), m_pcId (agent s), m_cryptoEngine (agent s)).

(** The invariant: without the hash objects in use the registry owns its keys;
    hash objects are alive and nobody else's; the history explains the store. *)
Record sound s : Prop := {
  so_core : exists core, registry_ok base (dev_ s) core /\
    (forall h, (forall i, hashing s !! i <> Some h) -> obj_ s !! h = core !! h) /\
    (forall i h, hashing s !! i = Some h -> core !! h = None);
  so_hash : forall i h, hashing s !! i = Some h -> is_Some (obj_ s !! h);
  so_inj : forall i j h, hashing s !! i = Some h -> hashing s !! j = Some h -> i = j;
  so_store : st_ s = replay (history s) m0;
  so_events : forall k e, history s !! k = Some e ->
    event_ok e (with_store (replay (take k (history s)) m0) (agent s));
  so_clock : forall k e, history s !! k = Some e -> clocked (take k (history s)) e;
}.

(** What a step of thread [i] does to the others. *)
Record link (i : nat) s s' : Prop := {
  lk_fixed : fixed s' = fixed s;
  lk_history : exists es, history s' = history s ++ es /\ Forall (fun e => event_by e = i) es;
  lk_hashing : forall j, j <> i -> hashing s' !! j = hashing s !! j;
  lk_obj : forall h o, obj_ s !! h = Some o -> hashing s !! i <> Some h -> obj_ s' !! h = Some o;
  lk_devices : dev_ s ⊆ dev_ s';
  lk_claim : forall did, is_Some (dev_ s' !! registry_key did) ->
    is_Some (dev_ s !! registry_key did) \/ did ∈ claim i;
}.

(** A step that concerns at most the thread's own hash object. *)
Record private (i : nat) s s' : Prop := {
  pr_agent : (fixed s', st_ s', dev_ s', history s') = (fixed s, st_ s, dev_ s, history s);
  pr_others : forall j, j <> i -> hashing s' !! j = hashing s !! j;
  pr_obj : forall h, hashing s !! i <> Some h -> hashing s' !! i <> Some h -> obj_ s' !! h = obj_ s !! h;
  pr_own : match hashing s !! i, hashing s' !! i with
           | None, None => True
           | None, Some h => obj_ s !! h = None /\ is_Some (obj_ s' !! h)
           | Some h, None => obj_ s' !! h = None
           | Some h, Some h' => h' = h /\ (is_Some (obj_ s !! h) -> is_Some (obj_ s' !! h))
           end;
}.

Abbreviation guar := (linked sound link).
Abbreviation rely := (linked_others sound link).

(** A key of the registry is nobody's hash object. *)
Lemma sound_key s k d :
  sound s -> dev_ s !! k = Some d ->
  (forall i, hashing s !! i <> Some (hPublicKey d)) /\
  hPublicKey d <> NULL /\ isEnabled d = true /\ k = registry_key (dev_deviceId d) /\
  exists alg blob, obj_ s !! hPublicKey d = Some (KeyObj alg blob).
Proof.
  intros [(core & R & Idle & Held) _ _ _ _ _] E.
  destruct (rok_live _ _ _ R _ _ E) as (N & alg & blob & Ec).
  destruct (rok_id _ _ _ R _ _ E) as [Ek En].
  assert (Nh : forall i, hashing s !! i <> Some (hPublicKey d)) by (intros i Ei; by rewrite (Held i _ Ei) in Ec).
  split; [done|]. split; [done|]. split; [done|]. split; [done|]. exists alg, blob. by rewrite Idle.
Qed.

Lemma trusted_link i s s' did blob :
  sound s -> link i s s' -> trusted (dev_ s) (obj_ s) did = Some blob ->
  trusted (dev_ s') (obj_ s') did = Some blob.
Proof.
  intros So Lk. unfold trusted. destruct (dev_ s !! registry_key did) as [d|] eqn:E; [|done]. cbn.
  destruct (sound_key s _ d So E) as (Nh & _ & _ & _ & alg & b & Eo). rewrite Eo. intros [= ->].
  pose proof (lookup_weaken _ _ _ _ E (lk_devices _ _ _ Lk)) as E'. rewrite E'. cbn.
  by rewrite (lk_obj _ _ _ Lk _ _ Eo).
Qed.

(** Events of the past stay justified. *)
Lemma event_ok_link i e m s s' :
  sound s -> link i s s' -> event_ok e (with_store m (agent s)) -> event_ok e (with_store m (agent s')).
Proof.
  intros So Lk. pose proof (lk_fixed _ _ _ Lk) as Fx. unfold fixed in Fx. injection Fx as F1 F2 F3.
  destruct e as [j now|j rec|j data now rec|j key rec]; cbn.
  - done.
  - by rewrite F2.
  - intros (P & sg & blob & raw & [A1 A2 A3 A4 A5 A6 A7 A8 A9 A10 A11 A12]). exists P, sg, blob, raw.
    split; try done; cbn in *; [by rewrite F2 | by eapply trusted_link].
  - done.
Qed.

(** *** Private steps *)
Lemma private_link i s s' : private i s s' -> link i s s'.
Proof.
  intros [Ag Ot Ob Ow]. injection Ag as E1 E2 E3 E4 E5 E6. split.
  - unfold fixed. congruence.
  - exists []. by rewrite app_nil_r.
  - done.
  - intros h o E N. rewrite Ob; [done..|]. intros E'. rewrite E' in Ow.
    destruct (hashing s !! i) as [h'|]; [|destruct Ow; congruence]. destruct Ow as [-> _]. done.
  - by rewrite E5.
  - rewrite E5. auto.
Qed.

Lemma private_sound i s s' : sound s -> private i s s' -> sound s'.
Proof.
  intros So Pr. pose proof (private_link i s s' Pr) as Lk. pose proof So as [(core & R & Idle & Held) Al Inj St Ev Ck].
  destruct Pr as [Ag Ot Ob Ow]. injection Ag as E1 E2 E3 E4 E5 E6.
  assert (Own : forall h, hashing s' !! i = Some h -> hashing s !! i = Some h \/ obj_ s !! h = None).
  { intros h E. rewrite E in Ow. destruct (hashing s !! i); [destruct Ow as [-> _]; by left | right; apply Ow]. }
  assert (Inj' : forall j h, j <> i -> hashing s' !! j = Some h -> hashing s' !! i <> Some h /\ hashing s !! i <> Some h).
  { intros j h N E. rewrite Ot in E by done.
    assert (hashing s !! i <> Some h) by (intros E2'; by apply N, (Inj j i h)). split; [|done]. intros E3'.
    destruct (Own h E3') as [|E0]; [done|]. destruct (Al j h E) as [? Es]. congruence. }
  split.
  - exists core. rewrite E5. split; [done|]. split.
    + intros h Ih. destruct (decide (hashing s !! i = Some h)) as [E|N].
      * rewrite E in Ow. destruct (hashing s' !! i) as [h'|] eqn:E'; [destruct Ow as [-> _]; by destruct (Ih i)|].
        by rewrite Ow, (Held i h).
      * rewrite Ob by done. apply Idle. intros j. destruct (decide (j = i)) as [->|Nj]; [done|]. by rewrite <- Ot.
    + intros j h E. destruct (decide (j = i)) as [->|N]; [|rewrite Ot in E by done; by eapply Held].
      destruct (Own h E) as [E'|E']; [by eapply Held|]. rewrite <- Idle; [done|]. intros j Ej.
      destruct (Al j h Ej) as [? Es]. congruence.
  - intros j h E. destruct (decide (j = i)) as [->|N].
    + rewrite E in Ow. destruct (hashing s !! i) as [h'|] eqn:E'; [|apply Ow]. destruct Ow as [-> K]. by eapply K, Al.
    + destruct (Inj' j h N E) as [N1 N2]. rewrite Ob by done. apply (Al j). by rewrite <- Ot.
  - intros j k h Ej Ek. destruct (decide (j = i)) as [->|Nj], (decide (k = i)) as [->|Nk]; [done|..].
    + by destruct (Inj' k h Nk Ek) as [[] _].
    + by destruct (Inj' j h Nj Ej) as [[] _].
    + rewrite Ot in Ej, Ek by done. by eapply Inj.
  - by rewrite E4, E6.
  - rewrite E6. intros k e E. eapply event_ok_link; [done..|]. by apply Ev.
  - by rewrite E6.
Qed.

Lemma private_guar i s s' : private i s s' -> guar i s s'.
Proof. intros Pr So. split; [by eapply private_sound | by apply private_link]. Qed.

(** A step that leaves the agent's own part alone. *)
Lemma core_private i s a : agent_core a = agent_core (agent s) -> private i s (with_agent a s).
Proof.
  unfold agent_core. intros [= E1 E2 E3 E4 E5 E6]. split; cbn.
  - unfold fixed. cbn. congruence.
  - done.
  - intros. by rewrite E6.
  - destruct (hashing s !! i); [|done]. by rewrite E6.
Qed.

(** *** Events *)

(** A step that is one event. *)
Lemma event_guar i e s :
  event_by e = i -> event_ok e (agent s) -> clocked (history s) e ->
  guar i s (with_event e (with_agent (with_store (replay1 e (st_ s)) (agent s)) s)).
Proof.
  intros By Ok Ck So. set (s' := with_event _ _).
  assert (Lk : link i s s').
  { split; [done| |done|done|done|auto]. exists [e]. split; [done|]. by constructor. }
  split; [|done]. pose proof So as [Co Al Inj St Ev Cks]. split; [done..| | |].
  - cbn. unfold replay. rewrite fold_left_app. cbn. by rewrite St.
  - cbn [history with_event with_agent s']. intros k e' E. apply lookup_snoc_Some in E as [[Lt E]|[-> ->]].
    + rewrite take_app_le by lia. change (event_ok e' (with_store (replay (take k (history s)) m0) (agent s))).
      by apply Ev.
    + rewrite take_app_le, take_ge by done. rewrite <- St. by destruct s as [[] ? ?].
  - cbn [history with_event with_agent s']. intros k e' E. apply lookup_snoc_Some in E as [[Lt E]|[-> ->]].
    + rewrite take_app_le by lia. by apply Cks.
    + by rewrite take_app_le, take_ge.
Qed.

(** A look at the clock. *)
Lemma looked_guar i now s w :
  obj w = obj_ s -> guar i s (with_event (Looked i now) (with_agent (with_world w (agent s)) s)).
Proof.
  intros Ow So. set (s1 := with_agent (with_world w (agent s)) s).
  assert (So1 : sound s1).
  { apply (private_sound i s); [done|]. apply core_private. unfold agent_core. cbn. by rewrite Ow. }
  destruct (event_guar i (Looked i now) s1) as [So2 _]; [done..|].
  change (replay1 (Looked i now) (st_ s1)) with (st_ s1) in So2.
  replace (with_store (st_ s1) (agent s1)) with (agent s1) in So2 by done. split; [exact So2|].
  split; cbn; [done| |done| |done|auto].
  - exists [Looked i now]. split; [done|]. by constructor.
  - intros h o E _. by rewrite Ow.
Qed.

(** *** Registering a device that is not registered *)
Lemma register_new e did name raw n devices w :
  devices !! registry_key did = None -> op_safe (OpRegister did name raw n) ->
  wp (RegisterDevice e did name raw n devices) (fun r w' =>
    (r.2 = devices /\ obj w' = obj w) \/
    exists h alg blob, h <> NULL /\ obj w !! h = None /\ obj w' = <[h := KeyObj alg blob]> (obj w) /\
      r.2 = <[registry_key did := {| dev_deviceId := did; deviceName := name; hPublicKey := h;
                                     isEnabled := true |}]> devices) w.
Proof.
  intros Em Sf. unfold RegisterDevice. destruct raw as [l|].
  2: { apply wp_bind, wp_ret, wp_ret. by left. }
  eapply wp_seq; [by apply import_raw_spec|]. intros h w1 I. cbn beta in I. unfold imported in I. unfold install.
  destruct (Z.eqb_spec h NULL) as [->|N]; [apply wp_ret; by left|]. destruct I as (Fr & alg & O1).
  rewrite Em. apply wp_bind, wp_ret, wp_ret. right. eauto 10.
Qed.

Lemma enrolled_guar i s did name h alg blob w :
  did ∈ claim i -> dev_ s !! registry_key did = None -> h <> NULL -> obj_ s !! h = None ->
  obj w = <[h := KeyObj alg blob]> (obj_ s) ->
  guar i s (with_agent (with_devices (<[registry_key did := {| dev_deviceId := did; deviceName := name;
      hPublicKey := h; isEnabled := true |}]> (dev_ s)) (with_world w (agent s))) s).
Proof.
  intros Cl Em N Fr Ow So. set (s' := with_agent _ _).
  pose proof So as [(core & R & Idle & Held) Al Inj St Ev Ck].
  assert (Ih : forall j, hashing s !! j <> Some h) by (intros j Ej; destruct (Al j h Ej) as [? Es]; congruence).
  assert (Fc : core !! h = None) by (by rewrite <- Idle).
  assert (Fb : base !! h = None).
  { rewrite <- (rok_base _ _ _ R); [done|]. intros k d Hd E.
    destruct (rok_live _ _ _ R k d Hd) as (_ & a & b & E2). by rewrite E, Fc in E2. }
  assert (Lk : link i s s').
  { split; cbn; [done|exists []; by rewrite app_nil_r|done| | |].
    - intros h' o E _. rewrite Ow, lookup_insert_ne; [done|]. intros <-. congruence.
    - by apply insert_subseteq.
    - intros did'. destruct (decide (did' = did)) as [->|N']; [by right|].
      rewrite lookup_insert_ne by (intros E; by apply N', registry_key_inj). by left. }
  split; [|done]. split; cbn; [| |done|done| |done].
  - exists (<[h := KeyObj alg blob]> core). split; [by eapply add_ok|]. split.
    + intros h' Ih'. rewrite Ow. destruct (decide (h = h')) as [->|N']; [by rewrite !lookup_insert_eq|].
      rewrite !lookup_insert_ne by done. by apply Idle.
    + intros j h' E. rewrite lookup_insert_ne by (intros ->; by apply (Ih j)). by eapply Held.
  - intros j h' E. rewrite Ow. destruct (decide (h = h')) as [->|N']; [by rewrite lookup_insert_eq|].
    rewrite lookup_insert_ne by done. by eapply Al.
  - intros k e E. apply (event_ok_link i e _ s s'); [done..|]. by apply Ev.
Qed.

(** ** One thread *)
Section Thread.
Context (i : nat) (disjoint : forall j k did, did ∈ claim j -> did ∈ claim k -> j = k).
(** Holds when the thread may go wrong. *)
Context (U : Prop).
Abbreviation runs := (keepsx sound link U i).
Abbreviation lasting := (lasting sound link i).

(** What the thread's own private steps keep, too. *)
Definition kept (P : BU -> Prop) : Prop :=
  lasting P /\ forall s s', sound s -> private i s s' -> P s -> P s'.

(** Steps that leave the agent's own part alone keep it. *)
Definition calm (P : BU -> Prop) : Prop :=
  forall s a, sound s -> agent_core a = agent_core (agent s) -> P s -> P (with_agent a s).
Definition steady (P : BU -> Prop) : Prop := lasting P /\ calm P.

Lemma kept_steady P : kept P -> steady P.
Proof. intros [L K]. split; [done|]. intros s a So E. apply K; [done|]. by apply core_private. Qed.

Lemma kept_and P Q : kept P -> kept Q -> kept (fun s => P s /\ Q s).
Proof.
  intros [LP KP] [LQ KQ]. split; [by apply lasting_and|]. intros s s' So Pr [HP HQ].
  split; [by eapply KP | by eapply KQ].
Qed.

Lemma private_refl s : private i s s.
Proof. split; try done. destruct (hashing s !! i) as [h|]; done. Qed.

Lemma runs_look {A X} P (f : Agent T W -> X) (k : X -> Thread BU A) Q s :
  lasting P -> sound s -> P s ->
  (forall s, sound s -> P s -> runs (k (f (agent s))) Q s) -> runs (tbind (look f) k) Q s.
Proof.
  intros L So Ps H. apply (keeps_act P); [done..|]. clear s So Ps. intros s So Ps.
  split; [apply private_guar, private_refl|]. intros _. by apply H.
Qed.

Lemma steady_and P Q : steady P -> steady Q -> steady (fun s => P s /\ Q s).
Proof.
  intros [LP KP] [LQ KQ]. split; [by apply lasting_and|]. intros s a So E [HP HQ].
  split; [by apply KP | by apply KQ].
Qed.

Lemma runs_inert {A X} P (m : Proc (Agent T W) X) (F : X -> Prop) (k : X -> Thread BU A) Q s :
  steady P -> sound s -> P s ->
  (forall a, wp m (fun x a' => agent_core a' = agent_core a /\ F x) a) ->
  (forall x s, F x -> sound s -> P s -> runs (k x) Q s) ->
  runs (tbind (on_agent m) k) Q s.
Proof.
  intros [L K] So Ps M H. apply (keeps_act P); [done..|]. clear s So Ps. intros s So Ps.
  apply wp_zoom. eapply wp_mono; [apply M|]. intros x a' [E Fx]. cbn [put busy_agent].
  split; [by apply private_guar, core_private|]. intros So'. apply H; [done..|]. by apply K.
Qed.

Lemma runs_platform {A X} P (m : Proc W X) (F : X -> Prop) (k : X -> Thread BU A) Q s :
  steady P -> sound s -> P s ->
  (forall w, wp m (fun x w' => obj w' = obj w /\ F x) w) ->
  (forall x s, F x -> sound s -> P s -> runs (k x) Q s) ->
  runs (tbind (platform m) k) Q s.
Proof.
  intros K So Ps M H. apply (runs_inert P _ F); [done..| |done]. intros a. apply wp_zoom.
  eapply wp_mono; [apply M|]. intros x w' [E Fx]. split; [|done]. unfold agent_core. cbn. by rewrite E.
Qed.

(** *** What a thread knows *)

(** It has no hash object; it has accepted [l]; the devices [todo] are its own to
    register and are not registered. *)
Definition free s : Prop := hashing s !! i = None.
Definition mine (l todo : list (list byte)) s : Prop :=
  accepted_by i (history s) = l /\
  forall did, did ∈ todo -> did ∈ claim i /\ dev_ s !! registry_key did = None.
(** The key of a device. *)
Definition keyed (did : list byte) (hKey : handle) (blob : list byte) s : Prop :=
  trusted (dev_ s) (obj_ s) did = Some blob /\
  exists d alg, dev_ s !! registry_key did = Some d /\ hPublicKey d = hKey /\
    obj_ s !! hKey = Some (KeyObj alg blob).

Lemma lasting_free : lasting free.
Proof. intros j s s' N So Lk F. unfold free. by rewrite (lk_hashing _ _ _ Lk). Qed.
Lemma steady_free : steady free.
Proof. split; [apply lasting_free | by intros s a _ _]. Qed.

(** The members that nobody changes. *)
Lemma kept_fixed x : kept (fun s => fixed s = x).
Proof.
  split.
  - intros j s s' _ So Lk E. by rewrite (lk_fixed _ _ _ Lk).
  - intros s s' So Pr E. by rewrite (lk_fixed _ _ _ (private_link _ _ _ Pr)).
Qed.

Lemma accepted_other j es : j <> i -> Forall (fun e => event_by e = j) es -> accepted_by i es = [].
Proof.
  intros N. induction 1 as [|e es E _ IH]; [done|]. unfold accepted_by in *. cbn.
  destruct e; cbn in E; subst; try done. by rewrite (proj2 (Nat.eqb_neq _ _)).
Qed.

Lemma accepted_app es es' : accepted_by i (es ++ es') = accepted_by i es ++ accepted_by i es'.
Proof. apply omap_app. Qed.

Lemma kept_mine l todo : kept (mine l todo).
Proof.
  split.
  - intros j s s' N So Lk [El Td]. destruct (lk_history _ _ _ Lk) as (es & Eh & By). split.
    + by rewrite Eh, accepted_app, (accepted_other j es), app_nil_r.
    + intros did Hd. destruct (Td did Hd) as [Cl Em]. split; [done|].
      destruct (dev_ s' !! registry_key did) eqn:E; [|done]. exfalso.
      destruct (lk_claim _ _ _ Lk did) as [[? E']|Cj]; [by rewrite E|congruence|].
      by apply N, (disjoint j i did).
  - intros s s' _ [Ag _ _ _]. injection Ag as E1 E2 E3 E4 E5 E6. unfold mine. by rewrite E5, E6.
Qed.

Lemma last_own_other j es es' :
  j <> i -> Forall (fun e => event_by e = j) es' ->
  filter (fun e => event_by e = i) (es ++ es') = filter (fun e => event_by e = i) es.
Proof.
  intros N F. rewrite filter_app. replace (filter _ es') with (@nil Event); [by rewrite app_nil_r|]. symmetry.
  induction F as [|e es' <- _ IH]; [done|]. by rewrite filter_cons_False.
Qed.

Lemma kept_looked now : kept (fun s => looked_at i now (history s)).
Proof.
  split.
  - intros j s s' N _ Lk. destruct (lk_history _ _ _ Lk) as (es & -> & By). unfold looked_at.
    by rewrite (last_own_other j).
  - intros s s' _ [Ag _ _ _]. injection Ag as E1 E2 E3 E4 E5 E6. by rewrite E6.
Qed.

Lemma looked_now now es : looked_at i now (es ++ [Looked i now]).
Proof. unfold looked_at. rewrite filter_app, filter_cons_True by done. apply last_snoc. Qed.

(** A look at the clock tells nothing new about the rest. *)
Definition ticks (P : BU -> Prop) : Prop := forall s now, P s -> P (with_event (Looked i now) s).

Lemma clock_runs {A} P (k : Z -> Thread BU A) Q s :
  steady P -> ticks P -> sound s -> P s ->
  (forall now s, looked_at i now (history s) -> sound s -> P s -> runs (k now) Q s) ->
  runs (tbind (read_clock i) k) Q s.
Proof.
  intros [L K] Tk So Ps H. apply (keeps_act P); [done..|]. clear s So Ps. intros s So Ps.
  apply wp_bind, wp_zoom, wp_zoom, wp_call. intros now w E. cbn [view put busy_agent agent_world] in *.
  apply wp_bind, wp_get, wp_bind, wp_put, wp_ret.
  pose proof (clock_obj (world (agent s))) as Ow. rewrite E in Ow. cbn [snd] in Ow.
  split; [by apply looked_guar|]. intros So'. apply H; [apply looked_now|done|]. apply Tk, K; [done| |done].
  unfold agent_core. cbn. by rewrite Ow.
Qed.

Lemma keyed_link j did hKey blob s s' :
  sound s -> link j s s' -> keyed did hKey blob s -> keyed did hKey blob s'.
Proof.
  intros So Lk (Tr & d & alg & E & <- & Eo). split; [by eapply trusted_link|].
  exists d, alg. split; [eapply lookup_weaken; [exact E | apply Lk]|]. split; [done|].
  apply (lk_obj _ _ _ Lk); [done|]. destruct (sound_key s _ d So E) as [Nh _]. apply Nh.
Qed.

Lemma kept_keyed did hKey blob : kept (keyed did hKey blob).
Proof.
  split.
  - intros j s s' _ So Lk. by eapply keyed_link.
  - intros s s' So Pr%private_link. by eapply keyed_link.
Qed.

(** *** Verifying a signature *)

(** The thread's hash object is [h], and has hashed [d]. *)
Definition owns (h : handle) s : Prop := hashing s !! i = Some h.
Definition hashed (h : handle) (d : list byte) s : Prop := owns h s /\ obj_ s !! h = Some (HashObj None d).

Lemma lasting_owns h : lasting (owns h).
Proof. intros j s s' N So Lk E. unfold owns. by rewrite (lk_hashing _ _ _ Lk). Qed.

Lemma lasting_hashed h d : lasting (hashed h d).
Proof.
  intros j s s' N So Lk [E Eo]. split; [by eapply lasting_owns|]. apply (lk_obj _ _ _ Lk); [done|].
  intros Ej. by apply N, (so_inj _ So j i h).
Qed.

Lemma create_runs {A} P hAlg (k : Z * handle -> Thread BU A) Q s :
  kept P -> sound s -> free s /\ P s ->
  (forall st h s, sound s -> P s -> (if NT_SUCCESS st then hashed h [] s else free s) -> runs (k (st, h)) Q s) ->
  runs (tbind (th_CreateHash i hAlg) k) Q s.
Proof.
  intros [L K] So Ps H. apply (keeps_act (fun s => free s /\ P s)); [by apply lasting_and, L; apply lasting_free|done..|].
  clear s So Ps. intros s So [F Ps]. apply wp_bind, wp_zoom, wp_zoom, wp_call. intros [st h] w E.
  destruct (create_hash_law hAlg None NULL (world (agent s))) as [M _]. cbn [view busy_agent agent_world] in E.
  rewrite E in M. unfold makes in M. apply wp_bind, wp_get. cbn [put busy_agent agent_world].
  set (s1 := with_agent (with_world w (agent s)) s). unfold free in F.
  destruct (NT_SUCCESS st) eqn:Est.
  - destruct M as (Nh & Fr & Ow). apply wp_bind, wp_put, wp_ret. set (s2 := with_hashing _ _).
    assert (Pr : private i s s2).
    { split; [done| | |].
      - intros j N. cbn. by rewrite lookup_insert_ne.
      - intros h' _. cbn. rewrite lookup_insert_eq, Ow. intros N. rewrite lookup_insert_ne; [done|]. congruence.
      - cbn. rewrite F, lookup_insert_eq. split; [done|]. rewrite Ow, lookup_insert_eq. by eexists. }
    split; [by apply private_guar|]. intros So'. apply H; [done|exact (K s _ So Pr Ps)|]. rewrite Est.
    split; [apply lookup_insert_eq|]. cbn. by rewrite Ow, lookup_insert_eq.
  - destruct M as [_ Ow]. apply wp_bind, wp_ret, wp_ret.
    assert (Pr : private i s s1).
    { split; try done; cbn; [intros; by rewrite Ow | by rewrite F]. }
    split; [by apply private_guar|]. intros So'. apply H; [done|exact (K s _ So Pr Ps)|]. by rewrite Est.
Qed.

(** A call on the thread's own hash object. *)
Lemma own_call_private {X} (f : W -> X * W) h s :
  owns h s -> only_touches h (world (agent s)) (f (world (agent s))).2 ->
  (is_Some (obj_ s !! h) -> is_Some (obj (f (world (agent s))).2 !! h)) ->
  private i s (with_agent (with_world (f (world (agent s))).2 (agent s)) s).
Proof.
  intros O Tc K. unfold owns in O. split; try done; cbn; rewrite O.
  - intros h' N _. apply (f_equal (.!! h')) in Tc. by rewrite !lookup_delete_ne in Tc by congruence.
  - done.
Qed.

Lemma own_runs {X A} P h d (f : W -> X * W) (F : X -> BU -> Prop) (k : X -> Thread BU A) Q s :
  kept P -> sound s -> hashed h d s /\ P s ->
  (forall w, only_touches h w (f w).2 /\ (is_Some (obj w !! h) -> is_Some (obj (f w).2 !! h))) ->
  (forall s, hashed h d s -> F (f (world (agent s))).1 (with_agent (with_world (f (world (agent s))).2 (agent s)) s)) ->
  (forall x s, sound s -> P s -> owns h s -> F x s -> runs (k x) Q s) ->
  runs (tbind (platform (pcall f)) k) Q s.
Proof.
  intros [L K] So Ps Law HF H.
  apply (keeps_act (fun s => hashed h d s /\ P s)); [by apply lasting_and, L; apply lasting_hashed|done..|].
  clear s So Ps. intros s So [O Ps]. apply wp_zoom, wp_zoom, wp_call. intros x w E.
  cbn [view busy_agent agent_world] in E. specialize (HF s O). destruct (Law (world (agent s))) as [Tc Al].
  pose proof (own_call_private f h s (proj1 O) Tc Al) as Pr. rewrite E in Pr, HF. cbn [put busy_agent agent_world].
  split; [by apply private_guar|]. intros So'. apply H; [done|exact (K s _ So Pr Ps)|apply O|done].
Qed.

Lemma destroy_runs {A} P h (k : unit -> Thread BU A) Q s :
  kept P -> sound s -> owns h s /\ P s ->
  (forall s, sound s -> free s /\ P s -> runs (k tt) Q s) ->
  runs (tbind (th_DestroyHash i h) k) Q s.
Proof.
  intros [L K] So Ps H.
  apply (keeps_act (fun s => owns h s /\ P s)); [by apply lasting_and, L; apply lasting_owns|done..|].
  clear s So Ps. intros s So [O Ps]. apply wp_bind, wp_zoom, wp_zoom, wp_call. intros x w E.
  cbn [view busy_agent agent_world put] in *. pose proof (destroy_hash_law h (world (agent s))) as Ow.
  rewrite E in Ow. cbn [snd] in Ow. apply wp_bind, wp_get, wp_put. set (s1 := with_hashing _ _).
  unfold owns in O. assert (Fr : hashing s1 !! i = None) by apply lookup_delete_eq.
  assert (Pr : private i s s1).
  { split; [done|..].
    - intros j N. cbn. by rewrite lookup_delete_ne.
    - intros h' N _. cbn. rewrite Ow, lookup_delete_ne; [done|]. congruence.
    - rewrite O, Fr. cbn. rewrite Ow. apply lookup_delete_eq. }
  split; [by apply private_guar|]. intros So'. apply H; [done|]. split; [done|]. exact (K s _ So Pr Ps).
Qed.

(** The conversion of a signature. *)
Lemma convert_runs {A} signature (k : bool * list byte -> Thread BU A) Q s :
  (overruns signature -> U) ->
  (forall b rs, (b = true -> signature_value signature (Z.of_nat (length signature)) = Some rs) ->
     runs (k (b, rs)) Q s) ->
  runs (tbind (if Z.of_nat (length signature) =? 64
               then let@ rs := local (rd_slice signature 0 64) in Done (true, rs)
               else local (ConvertDerToRawRSignature (Some signature) (Z.of_nat (length signature)) [])) k) Q s.
Proof.
  intros F H. unfold signature_value in H. destruct (Z.eqb_spec (Z.of_nat (length signature)) 64) as [E|N].
  - rewrite rd_slice_ok by lia. by apply H.
  - destruct (ConvertDerToRawRSignature _ _ _) as [[b rs]|] eqn:E; [apply H; by intros ->|].
    intros s' _. cbn. apply F. split; [lia | done].
Qed.

Definition verified (P : BU -> Prop) (blob message signature : list byte) (b : bool) s : Prop :=
  sound s /\ (free s /\ P s) /\
  (b = true -> exists raw, signature_value signature (Z.of_nat (length signature)) = Some raw /\
     ecdsa_verify blob (sha256 message) raw = true).

Lemma verified_no P blob message signature s :
  kept P -> sound s -> free s /\ P s -> runs (Done false) (verified P blob message signature) s.
Proof.
  intros [L _] So Ps. apply (keeps_done (fun s => free s /\ P s)); [by apply lasting_and, L; apply lasting_free|done..|].
  intros s' So' Ps'. by split.
Qed.

Lemma verify_runs P hKey blob p n signature s :
  kept P -> (forall s, P s -> exists alg, obj_ s !! hKey = Some (KeyObj alg blob)) ->
  0 < n < 2 ^ 32 -> n <= Z.of_nat (length p) -> (overruns signature -> U) ->
  sound s -> free s /\ P s ->
  runs (th_VerifySignature i hKey (Some p) n (Some signature) (Z.of_nat (length signature)))
    (verified P blob (take (Z.to_nat n) p) signature) s.
Proof.
  intros K Key Hn Ln Fit So Ps. pose proof K as [L KP]. unfold th_VerifySignature. cbv zeta.
  assert (LF : lasting (fun s => free s /\ P s)) by (apply lasting_and, L; apply lasting_free).
  destruct (_ || _); [by apply verified_no|].
  apply (runs_look (fun s => free s /\ P s)); [done..|]. clear s So Ps. intros s So Ps.
  apply (create_runs P); [done..|]. clear s So Ps. intros st h s So Ps H.
  destruct (NT_SUCCESS st); cbn [negb]; [|by apply verified_no]. clear st.
  rewrite wrap_small, rd_slice_ok by lia. cbn [local tbind]. change (Z.to_nat 0) with 0%nat.
  unfold sub. rewrite drop_0. set (msg := take (Z.to_nat n) p).
  apply (own_runs P h [] _ (fun st s => NT_SUCCESS st = true -> hashed h msg s)); [done..| | |].
  { intros w. split; [apply hash_data_law | apply hash_data_keeps]. }
  { intros s1 [O1 E1] Es. split; [done|].
    pose proof (proj2 (hash_data_law h msg (world (agent s1))) Es None [] E1) as Ow. cbn. rewrite Ow.
    apply lookup_insert_eq. }
  clear s So Ps H. intros st s So Ps O H. destruct (NT_SUCCESS st); cbn [negb].
  2: { apply (destroy_runs P); [done..|]. intros s1 So1 Ps1. by apply verified_no. }
  apply (own_runs P h msg _ (fun r _ => NT_SUCCESS r.1 = true -> r.2 = sha256 msg)); [done|done|by split; [apply H|]| | |].
  { intros w. split; [apply finish_hash_law | apply finish_hash_keeps]. }
  { intros s1 [_ E1] Es. by apply (proj2 (proj2 (finish_hash_law h (replicate 32 x00) (world (agent s1)))) Es None msg). }
  clear s So Ps O H. intros [st2 hash] s So Ps O H. cbn [fst snd] in H.
  apply (destroy_runs P); [done..|]. clear s So Ps O. intros s So Ps.
  destruct (NT_SUCCESS st2); cbn [negb]; [|by apply verified_no]. rewrite (H eq_refl). clear st2 hash H.
  apply convert_runs; [done|]. intros b rs V. destruct b; cbn [negb]; [|by apply verified_no].
  apply (keeps_act (fun s => free s /\ P s)); [done..|]. clear s So Ps. intros s So Ps.
  apply wp_zoom, wp_zoom, wp_call. intros st3 w E. cbn [view busy_agent agent_world put] in *.
  destruct (verify_law hKey (sha256 msg) rs (world (agent s))) as [Ow Yes]. rewrite E in Ow, Yes. cbn [fst snd] in *.
  set (s1 := with_agent _ _).
  assert (Pr : private i s s1) by (apply core_private; unfold agent_core; cbn; by rewrite Ow).
  split; [by apply private_guar|]. intros So1.
  apply (keeps_done (fun s => free s /\ P s)); [done|done|split; [apply Ps | exact (KP s _ So Pr (proj2 Ps))]|].
  intros s2 So2 Ps2. split; [done|]. split; [done|]. intros Y. destruct (Yes Y) as (alg & blob' & Ek & Ev).
  destruct (Key s (proj2 Ps)) as [alg' Ek']. rewrite Ek in Ek'. injection Ek' as -> ->.
  exists rs. split; [by apply V | done].
Qed.

(** *** Answering a response *)
Definition knows (l todo : list (list byte)) s : Prop := free s /\ mine l todo s.
Definition answered (l todo : list (list byte)) (data : list byte) (err : ErrorCode) s : Prop :=
  sound s /\ knows (if bool_decide (err = SUCCESS) then l ++ [data] else l) todo s.

Lemma ticks_knows l todo : ticks (knows l todo).
Proof.
  intros s now [F [El Td]]. split; [done|]. split; [|done].
  change (accepted_by i (history s ++ [Looked i now]) = l). by rewrite accepted_app, El, app_nil_r.
Qed.
Lemma steady_knows l todo : steady (knows l todo).
Proof. apply steady_and; [apply steady_free | apply kept_steady, kept_mine]. Qed.
Lemma lasting_knows l todo : lasting (knows l todo).
Proof. apply steady_knows. Qed.

(** After a step, that is what the thread knows. *)
Lemma knows_done l todo (s : BU) (e : Event) :
  event_by e = i -> knows l todo s ->
  knows (l ++ accepted_by i [e]) todo (with_event e (with_agent (with_store (replay1 e (st_ s)) (agent s)) s)).
Proof.
  intros By [F [El Td]]. split; [done|]. split; [|done].
  change (accepted_by i (history s ++ [e]) = l ++ accepted_by i [e]). by rewrite accepted_app, El.
Qed.

Lemma same_store_private (s : BU) : private i s (with_agent (with_store (st_ s) (agent s)) s).
Proof. by apply core_private. Qed.

Lemma answered_done l todo data err s :
  sound s -> knows (if bool_decide (err = SUCCESS) then l ++ [data] else l) todo s ->
  runs (Done err) (answered l todo data) s.
Proof.
  intros So Ks. apply (keeps_done (knows (if bool_decide (err = SUCCESS) then l ++ [data] else l) todo)); [|done..].
  apply lasting_knows.
Qed.

Lemma consume_runs l todo data q now P s :
  lasting P -> q_sessionId q = session_of data -> (forall s, P s -> looked_at i now (history s)) ->
  (forall s rec, sound s -> P s -> st_ s !! BytesToKey (q_sessionId q) = Some rec ->
     verdict q now rec = SUCCESS -> authorises (agent s) data now rec) ->
  sound s -> knows l todo s /\ P s ->
  runs (consume i data q now) (answered l todo data) s.
Proof.
  intros L Eq Lo Au So Ps. change (runs (tbind (consume i data q now) Done) (answered l todo data) s).
  apply (keeps_act (fun s => knows l todo s /\ P s)); [apply lasting_and; [apply lasting_knows | done]|done..|].
  clear s So Ps. intros s So [Ks Ps]. apply wp_bind, wp_get. cbv zeta. rewrite VAC_verdict.
  assert (No : forall err, err <> SUCCESS ->
    guar i s (with_agent (with_store (st_ s) (agent s)) s) /\
    (sound (with_agent (with_store (st_ s) (agent s)) s) ->
     runs (Done err) (answered l todo data) (with_agent (with_store (st_ s) (agent s)) s))).
  { intros err Ne. split; [apply private_guar, same_store_private|]. intros So'. apply answered_done; [done|].
    by rewrite bool_decide_false. }
  destruct (st_ s !! BytesToKey (q_sessionId q)) as [rec|] eqn:Er.
  2: { apply wp_bind, wp_put, wp_bind, wp_get, wp_bind, wp_ret, wp_ret. by apply No. }
  apply wp_bind, wp_put, wp_bind, wp_get, wp_bind.
  destruct (verdict q now rec) eqn:V; cbn [settle];
    try (rewrite (insert_id (st_ s)) by done; apply wp_ret, wp_ret; by apply No).
  - apply wp_put, wp_ret. set (e := Accepted i data now rec).
    split; [|intros So'; apply answered_done; [done|]]; rewrite Eq.
    + apply (event_guar i e); [done|by apply Au|by apply Lo].
    + rewrite bool_decide_true by done. replace [data] with (accepted_by i [e]) by (cbn; by rewrite Nat.eqb_refl).
      by apply (knows_done l todo s e).
  - apply wp_put, wp_ret. set (e := Lapsed i (BytesToKey (q_sessionId q)) rec).
    split; [by apply (event_guar i e)|]. intros So'. apply answered_done; [done|].
    pose proof (knows_done l todo s e eq_refl Ks) as H. cbn [accepted_by omap list_omap e] in H.
    by rewrite app_nil_r in H.
Qed.

Lemma key_of_device did s :
  sound s ->
  GetDevicePublicKey did (dev_ s) = NULL \/
  exists blob, keyed did (GetDevicePublicKey did (dev_ s)) blob s.
Proof.
  intros So. unfold GetDevicePublicKey, keyed, trusted.
  destruct (dev_ s !! registry_key did) as [d|] eqn:E; [|by left].
  destruct (sound_key s _ d So E) as (_ & N & -> & _ & alg & blob & Eo). right. exists blob. cbn. rewrite Eo.
  split; [done|]. by exists d, alg.
Qed.

Lemma process_runs frame l todo s :
  (overruns (drop 108 (payload frame)) -> U) -> sound s -> knows l todo s ->
  runs (th_ProcessUnlockResponse i frame) (answered l todo (payload frame)) s.
Proof.
  intros Fit So Ks. unfold th_ProcessUnlockResponse. set (data := payload frame) in *. cbv zeta.
  assert (No : forall err s, err <> SUCCESS -> sound s -> knows l todo s -> runs (Done err) (answered l todo data) s).
  { intros err s' Ne So' Ks'. apply answered_done; [done|]. by rewrite bool_decide_false. }
  destruct (Z.ltb_spec (Z.of_nat (length data)) (108 + 8)) as [|Ld]; [by apply No|].
  destruct (deserialize_108 data new_AuthPayload) as (r & Er & Rok & Rbad); [lia|]. rewrite Er. cbn [local tbind].
  destruct (Protocol.ok r); cbn [negb]; [|by apply No; auto]. destruct (Rok eq_refl) as [-> Hh]. clear Rok Rbad Er.
  set (P := fields_at data) in *.
  apply (clock_runs (knows l todo)); [apply steady_knows|apply ticks_knows|done..|].
  clear s So Ks. intros now s Lo So Ks. set (K0 s := knows l todo s /\ looked_at i now (history s)).
  assert (SK0 : steady K0) by (apply steady_and; [apply steady_knows | apply kept_steady, kept_looked]).
  apply (runs_look K0); [apply SK0|done|done|]. clear s So Ks Lo. intros s So Ks.
  destruct (fixed s) as [[port pcId] e] eqn:Fx. pose proof Fx as Fp. unfold fixed in Fp. injection Fp as _ -> _.
  set (q := {| q_sessionId := sessionId P; q_deviceId := deviceId P; q_pcId := pcId; q_challenge := challenge P |}).
  set (K s := K0 s /\ fixed s = (port, pcId, e)).
  assert (SK : steady K) by (apply steady_and; [done | apply kept_steady, kept_fixed]).
  apply (runs_look K); [apply SK|done|done|]. clear s So Ks Fx. intros s So Ks.
  destruct (ValidateChallenge _ _ _ _) as [valErr ?]. case_bool_decide as V; cbn [negb]; [|by apply No; [..|apply Ks]].
  apply (runs_look K); [apply SK|done..|]. clear s So Ks. intros s So Ks.
  destruct (Z.eqb_spec (GetDevicePublicKey (deviceId P) (dev_ s)) NULL) as [|NN]; [by apply No; [..|apply Ks]|].
  destruct (key_of_device (deviceId P) s So) as [|[blob Ky]]; [done|].
  revert NN Ky. generalize (GetDevicePublicKey (deviceId P) (dev_ s)). intros hKey NN Ky.
  set (M s := (mine l todo s /\ looked_at i now (history s)) /\ fixed s = (port, pcId, e) /\ keyed (deviceId P) hKey blob s).
  assert (KM : kept M).
  { apply kept_and; [apply kept_and; [apply kept_mine | apply kept_looked]|].
    apply kept_and; [apply kept_fixed | apply kept_keyed]. }
  replace (Z.of_nat (length data) - 108) with (Z.of_nat (length (drop 108 data))) by len.
  eapply (rg_seq _ _ _ _ _ (verified M blob (take 108 data) (drop 108 data))).
  { apply (verify_runs M hKey blob data 108 (drop 108 data)); [done| |lia|lia|done|done|].
    - intros s1 (_ & _ & _ & d & alg & _ & _ & Eo). by exists alg.
    - destruct Ks as [[[Fr Mi] Lo] Fx]. done. }
  clear s So Ks NN Ky. intros b s (So & [Fr Ms] & Yes). destruct b; cbn [negb].
  2: { apply No; [done..|]. split; [done | apply Ms]. }
  destruct (Yes eq_refl) as (raw & Sv & Ev). clear Yes.
  apply (consume_runs l todo data q now M); [apply KM|done|by intros ? [[_ ?] _]| |done|].
  2: { split; [split; [done | apply Ms] | done]. }
  clear s So Fr Ms. intros s rec So (_ & Fs & Tr & _) Er Vd. unfold fixed in Fs. injection Fs as _ Fp _.
  apply verdict_success in Vd as (V1 & V2 & V3 & V4 & V5).
  assert (L108 : (108 <= length data)%nat) by lia.
  exists P, (drop 108 data), blob, raw. split; try done.
  - unfold P. by rewrite layout_fields_at, take_drop.
  - by apply wf_fields_at.
  - by rewrite V4, Fp.
  - unfold P. by rewrite layout_fields_at.
Qed.

(** *** Asking for an unlock *)
Lemma random_runs {A} P e buf n (k : bool * option (list byte) -> Thread BU A) Q s :
  steady P -> n = Z.of_nat (length buf) -> 0 < n < 2 ^ 32 -> sound s -> P s ->
  (forall b out s, length out = length buf -> sound s -> P s -> runs (k (b, Some out)) Q s) ->
  runs (tbind (platform (GenerateRandomBytes e (Some buf) n)) k) Q s.
Proof.
  intros K En Ln So Ps H.
  apply (runs_platform P _ (fun r => exists out, r.2 = Some out /\ length out = length buf)); [done..| |].
  - intros w. eapply wp_mono; [by apply random_spec|]. intros r w' (O & out & Eo & Lo & _). eauto.
  - intros [b o] s' (out & Eo & Lo) So' Ps'. cbn in Eo. subst o. by apply H.
Qed.

Definition generated (P : BU -> Prop) (pc : list byte) (r : ChallengeRecord) s : Prop :=
  sound s /\ P s /\ looked_at i (creationTimestampMs r) (history s) /\
  wf_record r /\ rec_pcId r = pc /\ state r = OUTSTANDING /\
  rec_expirationTimestampMs r = u64 (creationTimestampMs r + 30000).

Lemma generate_runs P v did r0 s :
  steady P -> ticks P -> wf_record r0 -> length did = 16%nat -> length v.1.2 = 16%nat ->
  sound s -> fixed s = v -> P s ->
  runs (th_GenerateChallenge i did r0) (generated P v.1.2) s.
Proof.
  intros K Tk [S0 _ _ C0] Ld Lp So Fx Ps. unfold th_GenerateChallenge. cbv zeta.
  set (M s := P s /\ fixed s = v).
  assert (KM : steady M) by (apply steady_and; [done | apply kept_steady, kept_fixed]).
  apply (runs_look M); [apply KM|done|done|]. clear s So Fx Ps. intros s So Ms.
  apply (runs_look M); [apply KM|done|done|]. intros s1 So1 Ms1.
  replace (m_pcId (agent s1)) with v.1.2 by (by rewrite <- (proj2 Ms1)).
  apply (random_runs M); [done|cbn; by rewrite S0|done..|]. intros ? sid s2 Ls So2 Ms2.
  apply (random_runs M); [done|cbn; by rewrite C0|done..|]. intros ? ch s3 Lc So3 Ms3. cbn in Ls, Lc.
  apply (clock_runs M); [done|intros s4 now [Ps4 Fx4]; split; [by apply Tk | done]|done..|].
  intros t s4 Lo So4 Ms4. apply (keeps_done (fun s => M s /\ looked_at i t (history s))); [|done..|].
  { apply lasting_and; [apply KM | apply kept_looked]. }
  intros s5 So5 [[Ps5 _] Lo5].
  split; [done|]. split; [done|]. split; [done|]. split; [|done]. split; cbn; congruence.
Qed.

Lemma issue_runs {A} l todo r (k : unit -> Thread BU A) Q s :
  sound s -> (knows l todo s /\ m_pcId (agent s) = rec_pcId r) /\ looked_at i (creationTimestampMs r) (history s) ->
  state r = OUTSTANDING -> rec_expirationTimestampMs r = u64 (creationTimestampMs r + 30000) ->
  (forall s, sound s -> knows l todo s -> runs (k tt) Q s) ->
  runs (tbind (issue i r) k) Q s.
Proof.
  intros So Ks O X H. apply (keeps_act (fun s => (knows l todo s /\ m_pcId (agent s) = rec_pcId r) /\
      looked_at i (creationTimestampMs r) (history s))); [|done..|].
  { apply lasting_and; [|apply kept_looked]. apply lasting_and; [apply lasting_knows|]. intros j s1 s2 _ _ Lk <-.
    pose proof (lk_fixed _ _ _ Lk) as E. by injection E. }
  clear s So Ks. intros s So [[Ks Pc] Lo]. apply wp_bind, wp_get, wp_put. set (e := Issued i r).
  split; [by apply (event_guar i e)|]. intros So'. apply H; [done|].
  pose proof (knows_done l todo s e eq_refl Ks) as K. cbn [accepted_by omap list_omap e] in K.
  by rewrite app_nil_r in K.
Qed.

Context `{HF : FrameSender (Agent T W)} `{HSL : !SenderLaws (Agent T W) _ agent_core}.

Lemma send_runs {A} P t p (k : bool -> Thread BU A) Q s :
  steady P -> sound s -> P s -> (forall b s, sound s -> P s -> runs (k b) Q s) ->
  runs (tbind (on_agent (SendFrame t p)) k) Q s.
Proof.
  intros K So Ps H. apply (runs_inert P _ (fun _ => True)); [done..| |auto]. intros a.
  eapply wp_mono; [apply send_core|]. done.
Qed.

Lemma initiate_runs v did r0 l todo s :
  wf_record r0 -> length did = 16%nat -> length v.1.2 = 16%nat ->
  sound s -> fixed s = v -> knows l todo s ->
  runs (th_InitiateUnlockRequest i did r0) (fun _ s => sound s /\ knows l todo s) s.
Proof.
  intros Wf Ld Lp So Fx Ks. unfold th_InitiateUnlockRequest.
  apply (rg_seq _ _ _ _ _ (generated (fun s => knows l todo s /\ fixed s = v) v.1.2)).
  { apply generate_runs; [| |done..].
    - apply steady_and; [apply steady_knows | apply kept_steady, kept_fixed].
    - intros s1 now [Ks1 Fx1]. split; [by apply ticks_knows | done]. }
  clear s So Fx Ks. intros r s (So & [Ks Fx] & Lo & Wr & Pr & Or & Xr).
  apply (issue_runs l todo); [done|split; [split; [done|by rewrite Pr, <- Fx]|done]|done..|]. clear s So Ks Fx Lo. intros s So Ks.
  rewrite unlock_request_layout by done. cbn [local tbind].
  apply (runs_inert (knows l todo) _ (fun _ => True)); [apply steady_knows|done|done| |].
  { intros a. eapply wp_mono; [apply connected_core|]. by intros c a' ->. }
  clear s So Ks. intros c s _ So Ks.
  assert (Fin : forall s, sound s -> knows l todo s -> runs (Done r) (fun _ s => sound s /\ knows l todo s) s).
  { intros s' So' Ks'. by apply (keeps_done (knows l todo)); [apply lasting_knows|..]. }
  destruct c; [|by apply Fin]. apply (send_runs (knows l todo)); [apply steady_knows|done|done|auto].
Qed.

(** *** Calls *)
Lemma frame_runs frame l todo s :
  (overruns (drop 108 (payload frame)) -> U) -> sound s -> knows l todo s ->
  runs (th_OnFrameReceived i frame)
    (fun b s => sound s /\ knows (l ++ granted [OnFrame frame] [b]) todo s) s.
Proof.
  intros Fit So Ks. unfold th_OnFrameReceived.
  assert (No : runs (Done None) (fun b s => sound s /\ knows (l ++ granted [OnFrame frame] [b]) todo s) s).
  { apply (keeps_done (knows l todo)); [apply lasting_knows|done..|]. intros s' So' Ks'. cbn [granted].
    by rewrite app_nil_r. }
  destruct (messageType frame); try done. clear No.
  eapply rg_seq; [by apply (process_runs frame l todo)|]. clear s So Ks. cbv zeta.
  intros err s [So Ks]. set (l' := if bool_decide (err = SUCCESS) then _ else _) in Ks.
  apply (send_runs (knows l' todo)); [apply steady_knows|done|done|]. clear s So Ks. intros _ s So Ks.
  apply (keeps_done (knows l' todo)); [apply lasting_knows|done..|]. intros s' So' Ks'. split; [done|].
  replace (l ++ _) with l'; [done|]. unfold l'. destruct err; cbn; by rewrite ?app_nil_r.
Qed.

Lemma enroll_guar did name raw n l todo s :
  op_safe (OpRegister did name raw n) -> did ∉ todo -> sound s -> knows l (did :: todo) s ->
  wp (zoom (agent_RegisterDevice did name raw n))
    (fun _ s' => guar i s s' /\ (sound s' -> knows l todo s')) s.
Proof.
  intros Sf Nd So (Fr & El & Td). destruct (Td did) as [Cl Em]; [by left|].
  apply wp_zoom. unfold agent_RegisterDevice. cbn [view busy_agent]. apply wp_bind, wp_get.
  apply wp_bind, wp_zoom. eapply wp_mono; [by apply register_new|]. intros [b devices] w P.
  cbn [view put agent_world] in *. apply wp_bind, wp_get, wp_bind, wp_put, wp_ret.
  cbn [snd] in P. destruct P as [[-> Ow]|(h & alg & blob & Nh & Fh & Ow & ->)]; cbn [busy_agent put].
  - split; [apply private_guar, core_private; unfold agent_core; cbn; by rewrite Ow|]. intros _.
    split; [done|]. split; [done|]. intros did' H. apply Td. by right.
  - split; [by eapply (enrolled_guar i s did name h alg blob w)|]. intros _.
    split; [done|]. split; [done|]. intros did' H. destruct (Td did') as [Cl' Em']; [by right|]. split; [done|].
    cbn. rewrite lookup_insert_ne; [done|]. intros ->%registry_key_inj. done.
Qed.

(** The state a thread is in between two calls. *)
Definition ready v l (ops : list AgentOp) s : Prop := sound s /\ fixed s = v /\ knows l (enrolls ops) s.

Lemma call_runs v op ops l s :
  op_fits op -> (op_overruns op -> U) -> NoDup (enrolls (op :: ops)) -> length v.1.2 = 16%nat -> ready v l (op :: ops) s ->
  runs (agent_op i op) (fun b s => sound s /\ knows (l ++ granted [op] [b]) (enrolls ops) s) s.
Proof.
  intros Fit Hu Nd Lp (So & Fx & Ks). destruct op as [frame|did r0|did name raw n]; cbn [agent_op].
  - by apply frame_runs.
  - eapply rg_seq; [by apply (initiate_runs v did r0 l (enrolls ops)); [apply Fit|apply Fit|..]|].
    intros r s' [So' Ks']. cbn [granted]. rewrite app_nil_r.
    apply (keeps_done (U := U) (knows l (enrolls ops))); [apply lasting_knows|done..].
  - cbn in Nd. apply NoDup_cons in Nd as [Nd _].
    apply (keeps_act (knows l (did :: enrolls ops))); [apply lasting_knows|done..|].
    clear s So Fx Ks. intros s So Ks. eapply wp_mono; [by apply enroll_guar|]. intros b s' [G K]. split; [done|].
    intros So'. cbn [granted]. rewrite app_nil_r.
    apply (keeps_done (knows l (enrolls ops))); [apply lasting_knows|done|by apply K|done].
Qed.

Lemma op_runs v op ops l s :
  op_fits op -> (op_overruns op -> U) -> NoDup (enrolls (op :: ops)) -> length v.1.2 = 16%nat -> ready v l (op :: ops) s ->
  runs (agent_op i op) (fun b s => ready v (l ++ granted [op] [b]) ops s) s.
Proof.
  intros Fit Hu Nd Lp Rd. eapply rg_mono.
  - apply (keeps_frame fixed); [|apply Rd|by apply (call_runs v op ops l)]. intros j s1 s2 Lk. exact (lk_fixed _ _ _ Lk).
  - intros b s' (So & Fx & _ & Ks). split; [done|]. split; [|done]. rewrite Fx. apply Rd.
Qed.

Lemma granted_cons op b ops bs : granted (op :: ops) (b :: bs) = granted [op] [b] ++ granted ops bs.
Proof. destruct op; [destruct b as [[]|]|..]; done. Qed.

Lemma ops_runs v ops l s :
  Forall op_fits ops -> (Exists op_overruns ops -> U) -> NoDup (enrolls ops) -> length v.1.2 = 16%nat -> ready v l ops s ->
  runs (agent_ops i ops) (fun bs s => ready v (l ++ granted ops bs) [] s) s.
Proof.
  intros Fit. revert l s. induction Fit as [|op ops F Fit IH]; intros l s Hu Nd Lp Rd.
  - cbn [agent_ops granted]. rewrite app_nil_r.
    apply (keeps_done (fun s => fixed s = v /\ knows l [] s)); [|apply Rd|apply Rd|done].
    apply lasting_and; [apply kept_fixed | apply lasting_knows].
  - cbn [agent_ops]. eapply rg_seq; [apply (op_runs v op ops l); [done|by intros; apply Hu; left|done..]|]. clear s Rd. intros b s Rd. cbn beta in Rd.
    assert (Nd' : NoDup (enrolls ops)) by (destruct op; [done..|by apply NoDup_cons in Nd as [_ ?]]).
    eapply rg_seq; [apply IH; [by intros; apply Hu; right|done..]|]. clear s Rd. intros bs s (So & Fx & Ks).
    apply (keeps_done (U := U) (fun s => fixed s = v /\ knows ((l ++ granted [op] [b]) ++ granted ops bs) [] s)); [|done..|].
    { apply lasting_and; [apply kept_fixed | apply lasting_knows]. }
    intros s' So' Ks'. by rewrite granted_cons, app_assoc.
Qed.

End Thread.
End Roles.

(** ** The pool *)
Section Pool.
Context {T W : Type} `{HC : Cng W} `{HT : Clock W} `{HM : CngModel W} `{HL : !CngLaws W}
        `{HTL : !ClockLaws W} `{HCH : !CngHashes W}.
Context `{HF : FrameSender (Agent T W)} `{HSL : !SenderLaws (Agent T W) _ agent_core}.
Implicit Types (a : Agent T W).

(** The calls are about to start. *)
Definition start (a : Agent T W) : Busy T W := {| agent := a; hashing := ∅; history := [] |}.

Definition claims (tasks : list (list AgentOp)) (i : nat) : list (list byte) := default [] (enrolls <$> tasks !! i).

(** Calls that fit; each new phone is registered once, and none is a known one. *)
Record tasks_ok base (tasks : list (list AgentOp)) a : Prop := {
  ok_registry : registry_ok base (m_deviceRegistry a) (obj (world a));
  ok_pc : length (m_pcId a) = 16%nat;
  ok_fits : Forall (Forall op_fits) tasks;
  ok_once : NoDup (mjoin (enrolls <$> tasks));
  ok_new : forall did, did ∈ mjoin (enrolls <$> tasks) -> m_deviceRegistry a !! registry_key did = None;
}.

Lemma claims_elem tasks i did : did ∈ claims tasks i -> did ∈ mjoin (enrolls <$> tasks).
Proof.
  unfold claims. destruct (tasks !! i) as [ops|] eqn:E; [|by intros ?%not_elem_of_nil]. intros H.
  apply list_elem_of_join. exists (enrolls ops). split; [done|]. apply list_elem_of_fmap. exists ops. split; [done|].
  by eapply list_elem_of_lookup_2.
Qed.

Lemma claims_disjoint tasks :
  NoDup (mjoin (enrolls <$> tasks)) ->
  forall j k did, did ∈ claims tasks j -> did ∈ claims tasks k -> j = k.
Proof.
  induction tasks as [|t ts IH]; [by intros _ j k did ?%not_elem_of_nil|].
  cbn. intros (_ & D & Ns)%NoDup_app [|j] [|k] did Hj Hk; [done|..].
  - by destruct (D did Hj (claims_elem ts k did Hk)).
  - by destruct (D did Hk (claims_elem ts j did Hj)).
  - f_equal. by apply (IH Ns j k did).
Qed.

Lemma enrolls_NoDup tasks i ops : NoDup (mjoin (enrolls <$> tasks)) -> tasks !! i = Some ops -> NoDup (enrolls ops).
Proof.
  revert i. induction tasks as [|t ts IH]; [done|]. intros [|i]; cbn; intros (Nt & _ & Ns)%NoDup_app E.
  { by injection E as <-. }
  by eapply IH.
Qed.

Section Run.
Context (base : gmap handle CngObj) (tasks : list (list AgentOp)) (a : Agent T W).
Hypothesis Ok : tasks_ok base tasks a.
Abbreviation m0 := (m_challengeStore a).
Abbreviation sound_ := (sound base m0).
Abbreviation link_ := (link (claims tasks)).
Definition finished (i : nat) (answers : list (option ErrorCode)) (s : Busy T W) : Prop :=
  forall ops, tasks !! i = Some ops ->
    ready base m0 (claims tasks) i (fixed (start a)) (granted ops answers) [] s.

Lemma start_sound : sound_ (start a).
Proof.
  split; cbn; try done. exists (obj (world a)). split; [apply Ok|]. done.
Qed.

(** A thread may go wrong that is given a response whose signature the conversion
    reads past. *)
Definition may_overrun (i : nat) : Prop := exists ops, tasks !! i = Some ops /\ Exists op_overruns ops.

Lemma start_specified : all_keepx sound_ link_ may_overrun finished (start a, agent_pool tasks).
Proof.
  intros i t. cbn [fst snd]. unfold agent_pool. rewrite list_lookup_imap.
  destruct (tasks !! i) as [ops|] eqn:E; [|done]. intros [= <-].
  eapply rg_mono; [eapply (ops_runs base m0 (claims tasks) i (claims_disjoint tasks (ok_once _ _ _ Ok)) _ _ ops [])|].
  - by apply (Forall_lookup_1 _ _ i ops (ok_fits _ _ _ Ok)).
  - intros X. by exists ops.
  - by eapply enrolls_NoDup; [apply Ok|].
  - instantiate (1 := fixed (start a)). apply Ok.
  - split; [apply start_sound|]. split; [done|]. split; [done|]. split; [done|].
    intros did H. assert (Hc : did ∈ claims tasks i) by (unfold claims; by rewrite E).
    split; [done|]. by apply (ok_new _ _ _ Ok), (claims_elem tasks i).
  - intros bs s Rd ops' E'. rewrite E in E'. injection E' as <-. done.
Qed.

Lemma run_spec c :
  rtc pool_step (start a, agent_pool tasks) c ->
  all_keepx sound_ link_ may_overrun finished c /\ sound_ c.1 /\
  (forall j, (length tasks <= j)%nat -> hashing c.1 !! j = None) /\ length c.2 = length tasks.
Proof.
  intros Rs. pose proof start_specified as Sp.
  assert (Ln : length (agent_pool tasks) = length tasks) by apply length_imap.
  destruct (all_keepx_invariant sound_ link_ may_overrun finished (fun n s => forall j, (n <= j)%nat -> hashing s !! j = None)
    (start a, agent_pool tasks) c) as [So Out]; [|done|apply start_sound|done|done|].
  { intros n i s s' Lt _ Lk Out j Lj. rewrite (lk_hashing _ _ _ _ Lk) by lia. by apply Out. }
  split; [by eapply all_keepx_steps|]. split; [done|]. rewrite <- Ln. split; [done|].
  by rewrite <- (pool_steps_length _ _ Rs).
Qed.
End Run.

(** When all threads are done, no hash object is left. *)
Lemma done_registry base tasks a c :
  tasks_ok base tasks a -> rtc pool_step (start a, agent_pool tasks) c -> all_done c ->
  registry_ok base (m_deviceRegistry (agent c.1)) (obj (world (agent c.1))).
Proof.
  intros Ok Rs D. destruct (run_spec base tasks a Ok c Rs) as (Sp & So & Out & Ln).
  assert (Idle : forall i, hashing c.1 !! i = None).
  { intros i. destruct (decide (i < length tasks)%nat) as [Lt|]; [|apply Out; lia].
    destruct (lookup_lt_is_Some_2 c.2 i) as [t Ht]; [lia|].
    destruct t as [answers|]; [|by destruct (Forall_lookup_1 _ _ _ _ D Ht)].
    destruct (lookup_lt_is_Some_2 tasks i Lt) as [ops Ei].
    by destruct (specifiedx_done _ _ _ Sp Ht ops Ei) as (_ & _ & F & _). }
  destruct So as [(core & R & Same & _) _ _ _ _ _].
  replace (obj (world (agent c.1))) with core; [done|]. apply map_eq. intros h. symmetry. apply Same.
  intros i E. by rewrite Idle in E.
Qed.

(** * Properties *)

(** C2: the agent under concurrent calls.  Any number of threads run the
    transport's callbacks with any frames, requests for an unlock and
    registrations of phones not known yet, interleaved between any two calls that
    lock, call CNG, read the clock or send.  The only thing undefined that can
    happen is the read past the end of a signature that [overruns]; without such
    a frame every run ends with all calls answered, no thread waiting for ever,
    and then no hash object is left.  The store is what the history of issues,
    acceptances and expiries makes of it.  Each acceptance in it is of a response
    that proved what an unlock must prove to the store of that very moment,
    though other calls came between its validation, its signature check and its
    consumption, and it is unexpired by what the clock told that thread in that
    call; a challenge is issued with 30 s to live from what the clock told.  The
    calls that answered SUCCESS are exactly those acceptances. *)
Theorem agent_interleavings base tasks a c :
  tasks_ok base tasks a -> rtc pool_step (start a, agent_pool tasks) c ->
  (goes_wrong c -> exists i ops, tasks !! i = Some ops /\ Exists op_overruns ops) /\
  (nf pool_step c -> all_done c \/ goes_wrong c) /\
  (all_done c -> registry_ok base (m_deviceRegistry (agent c.1)) (obj (world (agent c.1)))) /\
  m_challengeStore (agent c.1) = replay (history c.1) (m_challengeStore a) /\
  (forall k e, history c.1 !! k = Some e ->
     clocked (take k (history c.1)) e /\
     event_ok e (with_store (replay (take k (history c.1)) (m_challengeStore a)) (agent c.1))) /\
  (forall i ops answers, tasks !! i = Some ops -> c.2 !! i = Some (Done answers) ->
     accepted_by i (history c.1) = granted ops answers).
Proof.
  intros Ok Rs. destruct (run_spec base tasks a Ok c Rs) as (Sp & So & _).
  destruct (all_keepx_ends _ _ _ _ c Sp) as [Wr En].
  split; [intros Gw; destruct (Wr Gw) as (i & _ & ops & H); by exists i, ops|]. split; [done|].
  split; [by eapply done_registry|]. split; [apply So|].
  split; [intros k e E; split; [by apply So | by apply (so_events _ _ _ So)]|].
  intros i ops answers Ei Ht. by destruct (specifiedx_done _ _ _ Sp Ht ops Ei) as (_ & _ & _ & El & _).
Qed.

(** C3: a challenge is accepted once.  In every interleaving, when two responses
    about the same session have been accepted, by whichever threads, then that
    session was issued again in between. *)
Theorem accepted_once base tasks a c :
  tasks_ok base tasks a -> rtc pool_step (start a, agent_pool tasks) c ->
  forall k1 k2 i1 i2 data1 data2 now1 now2 rec1 rec2,
  history c.1 !! k1 = Some (Accepted i1 data1 now1 rec1) ->
  history c.1 !! k2 = Some (Accepted i2 data2 now2 rec2) ->
  (k1 < k2)%nat -> session_of data1 = session_of data2 ->
  exists k j rec, (k1 < k < k2)%nat /\ history c.1 !! k = Some (Issued j rec) /\
    rec_sessionId rec = session_of data1.
Proof.
  intros Ok Rs k1 k2 i1 i2 d1 d2 n1 n2 r1 r2 E1 E2 Lt Es.
  destruct (run_spec base tasks a Ok c Rs) as (_ & So & _).
  pose proof (so_events _ _ _ So k2 _ E2) as Au. cbn [event_ok] in Au.
  pose proof (authorises_session _ _ _ _ Au) as El. cbn [m_challengeStore with_store] in El.
  destruct Au as (P & sg & blob & raw & [_ _ _ _ Or _ _ _ _ _ _ _]).
  rewrite <- Es in El. pose proof (lookup_lt_Some _ _ _ E2) as L2.
  destruct (reissued_between _ _ _ k1 k2 _ _ _ _ _ E1 eq_refl ltac:(lia) El Or) as (k & e & Lk & Ek & Re).
  destruct e as [|j rec| |]; [done| |done..]. exists k, j, rec. split; [done|]. split; [done|]. by apply BytesToKey_inj.
Qed.

End Pool.

(** * Witness *)
From S2P Require Import Simulator.

(** Two threads bring the same response; both get past the signature check
    before either consumes the challenge. *)
Definition demo_frame : AgentOp := OnFrame (response demo_payload).
Definition demo_tasks : list (list AgentOp) := [[demo_frame]; [demo_frame]].
Definition demo_schedule : list nat := replicate 10 0%nat ++ replicate 10 1%nat ++ [1; 0; 0; 1]%nat.
Definition answers_of (c : Busy TcpTransport Sim * list (Thread (Busy TcpTransport Sim) (list (option ErrorCode)))) :
    list (option (list (option ErrorCode))) :=
  (fun t => match t with Done answers => Some answers | Atom _ _ => None end) <$> c.2.
Definition one_winner c : bool :=
  match answers_of c with
  | [Some [Some CHALLENGE_ALREADY_CONSUMED]; Some [Some SUCCESS]] => true
  | _ => false
  end.

Lemma demo_tasks_ok : tasks_ok (delete 4 (obj (world demo_agent))) demo_tasks demo_agent.
Proof.
  split; [apply demo_registry_ok|reflexivity| |constructor|by intros did ?%not_elem_of_nil].
  assert (One : Forall op_fits [demo_frame]) by (constructor; [exact I | constructor]).
  constructor; [exact One|]. constructor; [exact One | constructor].
Qed.

Lemma demo_race : exists c, rtc pool_step (start demo_agent, agent_pool demo_tasks) c /\ one_winner c = true.
Proof. apply (reaches_spec demo_schedule). vm_compute. reflexivity. Qed.

Lemma agent_interleavings_witness :
  exists c answers, rtc pool_step (start demo_agent, agent_pool demo_tasks) c /\
    c.2 !! 1%nat = Some (Done answers) /\ answers = [Some SUCCESS] /\
    accepted_by 1 (history c.1) = [payload (response demo_payload)] /\
    m_challengeStore (agent c.1) = replay (history c.1) (m_challengeStore demo_agent).
Proof.
  destruct demo_race as (c & R & T). unfold one_winner in T.
  destruct (answers_of c) as [|[[|[[]|] []]|] [|[[|[[]|] []]|] []]] eqn:E; try discriminate T. clear T.
  assert (Ht : c.2 !! 1%nat = Some (Done [Some SUCCESS])).
  { assert (H : answers_of c !! 1%nat = Some (Some [Some SUCCESS])) by (by rewrite E). unfold answers_of in H.
    rewrite list_lookup_fmap in H. destruct (c.2 !! 1%nat) as [[ans|]|]; [|discriminate H..]. by injection H as ->. }
  destruct (agent_interleavings _ demo_tasks demo_agent c demo_tasks_ok R) as (_ & _ & _ & St & _ & El).
  exists c, [Some SUCCESS]. split; [done|]. split; [done|]. split; [done|]. split; [|done].
  exact (El 1%nat [demo_frame] [Some SUCCESS] eq_refl Ht).
Defined.

Lemma accepted_once_witness :
  exists c, rtc pool_step (start demo_agent, agent_pool demo_tasks) c /\ one_winner c = true /\
    forall k1 k2 i1 i2 data1 data2 now1 now2 rec1 rec2,
    history c.1 !! k1 = Some (Accepted i1 data1 now1 rec1) ->
    history c.1 !! k2 = Some (Accepted i2 data2 now2 rec2) ->
    (k1 < k2)%nat -> session_of data1 = session_of data2 ->
    exists k j rec, (k1 < k < k2)%nat /\ history c.1 !! k = Some (Issued j rec) /\
      rec_sessionId rec = session_of data1.
Proof.
  destruct demo_race as (c & R & T). exists c. split; [done|]. split; [done|].
  exact (accepted_once _ demo_tasks demo_agent c demo_tasks_ok R).
Defined.
