(* ===== verification/ComThreads.v ===== *)
(** * ComThreads: reference counts under concurrent calls

    The reference counting of ComServer with every interlocked operation,
    allocation, deletion and access to a member as a step of Threads, and a
    client whose threads use the interface pointers they were handed.  The
    count of a pointer handed out belongs to the thread that holds it; the
    theorem says that the counts stay right in every interleaving. *)
From S2P Require Import Prelude Bytes Platform Credential ComServer Threads.

(** ** State *)

(** [held] (the pointers each thread owes a release for) and [deleting] (the
    object a thread is about to delete) are history variables. *)
Record Shared : Type := { com : Com; held : list (list handle); deleting : gmap nat handle }.
Definition with_com v (s : Shared) : Shared := {| com := v; held := held s; deleting := deleting s |}.
Definition with_held v (s : Shared) : Shared := {| com := com s; held := v; deleting := deleting s |}.
Definition with_deleting v (s : Shared) : Shared := {| com := com s; held := held s; deleting := v |}.
#[export] Instance shared_com : Lens Shared Com := { view := com; put := with_com }.

Definition hold (i : nat) (f : list handle -> list handle) (s : Shared) : Shared :=
  match held s !! i with Some h => with_held (<[i := f h]> (held s)) s | None => s end.
Fixpoint drop_one (p : handle) (l : list handle) : list handle :=
  match l with [] => [] | q :: l => if p =? q then l else q :: drop_one p l end.

(** ** Methods *)
Abbreviation step := (Thread Shared).

(** [InterlockedIncrement(&m_cRef)]. *)
Definition th_AddRef (i : nat) (this : handle) : step Z :=
  act (let* n := zoom (AddRef this) in
       let* s := pget in
       pput (hold i (cons this) s) ;;
       pret n).

(** [InterlockedDecrement(&m_cRef)] and [delete this]. *)
Definition decrement (this : handle) : Proc Com Z :=
  let* o := this_object this in
  let cRef := s32 (m_cRef o - 1) in
  let* s := pget in
  pput (with_heap (<[this := with_cRef cRef o]> (heap s)) s) ;;
  pret cRef.
Definition delete_this (this : handle) : Proc Com unit :=
  let* _ := this_object this in
  let* s := pget in
  pput (with_heap (delete this (heap s)) s).

Definition th_Release (i : nat) (this : handle) : step Z :=
  let@ cRef := act (let* cRef := zoom (decrement this) in
                    let* s := pget in
                    let s := hold i (drop_one this) s in
                    pput (if cRef =? 0 then with_deleting (<[i := this]> (deleting s)) s else s) ;;
                    pret cRef) in
  (if cRef =? 0 then
     act (zoom (delete_this this) ;;
          let* s := pget in
          pput (with_deleting (delete i (deleting s)) s))
   else Done tt) ;@
  Done (u32 cRef).

(** [m_pcpce] of a credential, [m_pcpe] of a provider; a class factory has none. *)
Definition events (this : handle) : Proc Com handle :=
  let* o := this_object this in
  match o with
  | PhoneKeyCredential _ e | PhoneKeyCredentialProvider _ _ e _ => pret e
  | PhoneKeyClassFactory _ => plift UB
  end.
Definition set_events (this e : handle) : Proc Com unit :=
  let* o := this_object this in
  match o with
  | PhoneKeyCredential n _ => set_object this (PhoneKeyCredential n e)
  | PhoneKeyCredentialProvider n c _ u => set_object this (PhoneKeyCredentialProvider n c e u)
  | PhoneKeyClassFactory _ => plift UB
  end.
(** [m_upRef = upRef], which only a provider does. *)
Definition set_upRef (this : handle) (upRef : Z) : Proc Com unit :=
  let* o := this_object this in
  match o with
  | PhoneKeyCredentialProvider n c e _ => set_object this (PhoneKeyCredentialProvider n c e upRef)
  | _ => pret tt
  end.
Definition member {X} (m : Proc Com X) : step X := act (zoom m).

(** A virtual call through the pointer read from the member. *)
Definition th_foreign_ref (d : Z) (this : handle) : step unit :=
  let@ e := member (events this) in
  if e =? NULL then local UB else member (foreign_ref d e).

Definition th_Advise (this e : handle) (upRef : Z) : step Z :=
  member (set_events this e) ;@
  member (set_upRef this upRef) ;@
  let@ e := member (events this) in
  (if negb (e =? NULL) then th_foreign_ref 1 this else Done tt) ;@
  Done S_OK.

Definition th_UnAdvise (this : handle) : step Z :=
  let@ e := member (events this) in
  (if negb (e =? NULL) then
     th_foreign_ref (-1) this ;@
     member (set_events this NULL)
   else Done tt) ;@
  Done S_OK.

Definition th_LockServer (this : handle) (fLock : bool) : step Z :=
  member (called_on this FactoryClass) ;@
  member (count_lock fLock) ;@
  Done S_OK.

Section Server.
Context `{HP : ComPlatform}.

Definition th_QueryInterface (i : nat) (this : handle) (riid : Iid) : step (Z * option handle) :=
  let@ o := act (zoom (this_object this)) in
  if QISearch_finds (qit o) riid then
    th_AddRef i this ;@
    Done (S_OK, Some this)
  else Done (E_NOINTERFACE, None).

Definition th_new_object (i : nat) (o : ComObj) : step handle :=
  act (let* p := zoom (new_object o) in
       let* s := pget in
       pput (if p =? NULL then s else hold i (cons p) s) ;;
       pret p).

Definition th_CreateInstance (i : nat) (this pUnkOuter : handle) (riid : Iid) : step (Z * option handle) :=
  member (called_on this FactoryClass) ;@
  if negb (pUnkOuter =? NULL) then Done (CLASS_E_NOAGGREGATION, None) else
  let@ pProvider := th_new_object i new_PhoneKeyCredentialProvider in
  if pProvider =? NULL then Done (E_OUTOFMEMORY, None) else
  let@ '(hr, ppv) := th_QueryInterface i pProvider riid in
  th_Release i pProvider ;@
  Done (hr, ppv).

Definition th_GetCredentialAt (i : nat) (this : handle) (dwIndex : Z) (ppcpc : bool) : step (Z * option handle) :=
  member (called_on this ProviderClass) ;@
  if negb (dwIndex =? 0) || negb ppcpc then Done (E_INVALIDARG, None) else
  let@ pCred := th_new_object i new_PhoneKeyCredential in
  if pCred =? NULL then Done (E_OUTOFMEMORY, None) else
  let@ '(hr, ppv) := th_QueryInterface i pCred IID_ICredentialProviderCredential in
  th_Release i pCred ;@
  Done (hr, ppv).

Definition th_DllGetClassObject (i : nat) (rclsid : list Z) (riid : Iid) : step (Z * option handle) :=
  if bool_decide (rclsid = CLSID_PhoneKeyCredentialProvider) then
    let@ pFactory := th_new_object i new_PhoneKeyClassFactory in
    if pFactory =? NULL then Done (E_OUTOFMEMORY, None) else
    let@ '(hr, ppv) := th_QueryInterface i pFactory riid in
    th_Release i pFactory ;@
    Done (hr, ppv)
  else Done (CLASS_E_CLASSNOTAVAILABLE, None).

(** ** Clients

    A call names the pointer it is made on by its position among those the
    thread holds, so that a thread cannot but use pointers it holds; a call on a
    position that has none is left out.  So is a call of a method that the class
    of the object does not have, which the types of C++ exclude. *)
Inductive ComCall : Type :=
| CallAddRef (n : nat) | CallRelease (n : nat) | CallQuery (n : nat) (riid : Iid)
| CallClassObject (rclsid : list Z) (riid : Iid) | CallCreate (n : nat) (pUnkOuter : handle) (riid : Iid)
| CallCredential (n : nat) (dwIndex : Z) (ppcpc : bool) | CallLock (n : nat) (fLock : bool) | CallCanUnload.

(** Whether the pointer has that type; of an object that is gone it may have any. *)
Definition typed (p : handle) (cls : ComClass) : step bool :=
  act (fun s => Def (match heap (com s) !! p with Some o => bool_decide (class_of o = cls) | None => true end, s)).
Definition call_method (n : nat) (cls : ComClass) (m : handle -> step (list handle)) (l : list handle)
    : step (list handle) :=
  match l !! n with
  | Some p => let@ ok := typed p cls in if ok : bool then m p else Done l
  | None => Done l
  end.

Definition received (r : Z * option handle) (l : list handle) : list handle :=
  match r.2 with Some p => p :: l | None => l end.

Definition client_call (i : nat) (call : ComCall) (l : list handle) : step (list handle) :=
  match call with
  | CallAddRef n =>
    match l !! n with
    | Some p => th_AddRef i p ;@ Done (p :: l)
    | None => Done l
    end
  | CallRelease n =>
    match l !! n with
    | Some p => th_Release i p ;@ Done (drop_one p l)
    | None => Done l
    end
  | CallQuery n riid =>
    match l !! n with
    | Some p => let@ r := th_QueryInterface i p riid in Done (received r l)
    | None => Done l
    end
  | CallClassObject rclsid riid => let@ r := th_DllGetClassObject i rclsid riid in Done (received r l)
  | CallCreate n pUnkOuter riid =>
    call_method n FactoryClass (fun p => let@ r := th_CreateInstance i p pUnkOuter riid in Done (received r l)) l
  | CallCredential n dwIndex ppcpc =>
    call_method n ProviderClass (fun p => let@ r := th_GetCredentialAt i p dwIndex ppcpc in Done (received r l)) l
  | CallLock n fLock => call_method n FactoryClass (fun p => th_LockServer p fLock ;@ Done l) l
  | CallCanUnload => act (zoom DllCanUnloadNow) ;@ Done l
  end.

(** The pointers a thread ends with. *)
Fixpoint client (i : nat) (calls : list ComCall) (l : list handle) : step (list handle) :=
  match calls with
  | [] => Done l
  | call :: calls =>
    let@ l := client_call i call l in
    client i calls l
  end.

Definition client_pool (clients : list (list handle * list ComCall)) : list (step (list handle)) :=
  imap (fun i c => client i c.2 c.1) clients.
End Server.

(** ** Alone, the threads are the methods *)
Section Alone.
Context `{HP : ComPlatform}.
Abbreviation alone_as := (mirrors com).

Lemma com_hold i f s : com (hold i f s) = com s.
Proof. unfold hold. by destruct (held s !! i). Qed.

Lemma alone_AddRef i p s : alone_as (th_AddRef i p) (AddRef p) s.
Proof.
  unfold mirrors, th_AddRef, pbind, zoom. cbn. destruct (AddRef p (com s)) as [[n c]|]; [|done].
  eexists. split; [done|]. by rewrite com_hold.
Qed.

Lemma alone_Release i p s : alone_as (th_Release i p) (Release p) s.
Proof.
  unfold mirrors, th_Release, Release, decrement, delete_this, this_object, pbind, zoom. cbn.
  destruct (heap (com s) !! p) as [o|]; [|done]. cbn. destruct (s32 (m_cRef o - 1) =? 0); cbn.
  - rewrite com_hold. cbn. rewrite lookup_insert_eq. cbn. eexists. by split.
  - eexists. split; [done|]. by rewrite com_hold.
Qed.

Lemma alone_object p s : alone_as (act (zoom (this_object p))) (this_object p) s.
Proof.
  unfold mirrors, this_object, pbind, zoom. cbn. destruct (heap (com s) !! p) as [o|]; [|done]. cbn. by eexists.
Qed.

Lemma alone_QueryInterface i p riid s : alone_as (th_QueryInterface i p riid) (QueryInterface p riid) s.
Proof.
  apply mirrors_seq; [apply alone_object|]. clear s. intros o s. destruct (QISearch_finds (qit o) riid).
  - apply mirrors_seq; [apply alone_AddRef | intros; apply mirrors_done].
  - apply mirrors_done.
Qed.

Lemma alone_new_object i o s : alone_as (th_new_object i o) (new_object o) s.
Proof.
  unfold mirrors, th_new_object, new_object, pbind, zoom. cbn.
  destruct (operator_new (heap (com s)) =? NULL) eqn:E; cbn; rewrite ?E; [by eexists|].
  eexists. split; [done|]. by rewrite com_hold.
Qed.

Lemma alone_member {X} (m : Proc Com X) s : alone_as (member m) m s.
Proof. unfold mirrors, member, zoom, act. cbn. destruct (m (com s)) as [[x c]|]; [|done]. by eexists. Qed.

(** The body of the three factories. *)
Lemma alone_create_object i o riid err s :
  alone_as (let@ p := th_new_object i o in
            if p =? NULL then Done (err, None) else
            let@ '(hr, ppv) := th_QueryInterface i p riid in
            th_Release i p ;@
            Done (hr, ppv))
           (let* p := new_object o in
            if p =? NULL then pret (err, None) else
            let* '(hr, ppv) := QueryInterface p riid in
            Release p ;;
            pret (hr, ppv)) s.
Proof.
  apply mirrors_seq; [apply alone_new_object|]. clear s. intros p s. destruct (p =? NULL); [apply mirrors_done|].
  apply mirrors_seq; [apply alone_QueryInterface|]. clear s. intros [hr ppv] s.
  apply mirrors_seq; [apply alone_Release | intros; apply mirrors_done].
Qed.

Lemma alone_factories i s :
  (forall p outer riid, alone_as (th_CreateInstance i p outer riid) (CreateInstance p outer riid) s) /\
  (forall p n pp, alone_as (th_GetCredentialAt i p n pp) (GetCredentialAt p n pp) s) /\
  (forall p fLock, alone_as (th_LockServer p fLock) (LockServer p fLock) s) /\
  (forall rclsid riid, alone_as (th_DllGetClassObject i rclsid riid) (DllGetClassObject rclsid riid) s).
Proof.
  split; [|split; [|split]].
  - intros p x y. apply mirrors_seq; [apply alone_member|]. intros _ s1.
    destruct (negb _); [apply mirrors_done | apply alone_create_object].
  - intros p x y. apply mirrors_seq; [apply alone_member|]. intros _ s1.
    destruct (_ || _); [apply mirrors_done | apply alone_create_object].
  - intros p f. apply mirrors_seq; [apply alone_member|]. intros _ s1.
    apply mirrors_seq; [apply alone_member | intros; apply mirrors_done].
  - intros x y. unfold th_DllGetClassObject, DllGetClassObject. case_bool_decide; [apply alone_create_object | apply mirrors_done].
Qed.

Lemma alone_Advise p e u s : alone_as (th_Advise p e u) (Advise p e u) s.
Proof.
  unfold mirrors, th_Advise, Advise, th_foreign_ref, member, events, set_events, set_upRef, this_object, set_object,
    foreign_ref, pbind, zoom. cbn.
  destruct (heap (com s) !! p) as [[n e'|n c e' u'|n]|] eqn:E; cbn; [| |done..];
    rewrite lookup_insert_eq; cbn; rewrite lookup_insert_eq; cbn.
  - destruct (e =? NULL) eqn:Z0; cbn; [by eexists|]. rewrite lookup_insert_eq. cbn. rewrite Z0. by eexists.
  - rewrite insert_insert_eq. destruct (e =? NULL) eqn:Z0; cbn; [by eexists|]. rewrite lookup_insert_eq. cbn.
    rewrite Z0. by eexists.
Qed.

Lemma alone_UnAdvise p s : alone_as (th_UnAdvise p) (UnAdvise p) s.
Proof.
  unfold mirrors, th_UnAdvise, UnAdvise, th_foreign_ref, member, events, set_events, this_object, set_object,
    foreign_ref, pbind, zoom. cbn.
  destruct (heap (com s) !! p) as [[n e|n c e u|n]|] eqn:E; cbn; [| |done..].
  - destruct (e =? NULL) eqn:Z0; cbn; [eexists; split; [done|by destruct (com s)]|].
    rewrite E. cbn. rewrite Z0. cbn. rewrite E. by eexists.
  - destruct (e =? NULL) eqn:Z0; cbn; [eexists; split; [done|by destruct (com s)]|].
    rewrite E. cbn. rewrite Z0. cbn. rewrite E. by eexists.
Qed.
End Alone.

(** ** Counting *)
Definition occ (p : handle) (l : list handle) : Z := Z.of_nat (count_if (Z.eqb p) l).
Definition owed (s : Shared) (p : handle) : Z := occ p (mjoin (held s)).

Lemma occ_cons p q l : occ p (q :: l) = (if decide (p = q) then 1 else 0) + occ p l.
Proof. unfold occ. cbn. destruct (Z.eqb_spec p q); case_decide; lia. Qed.

Lemma occ_perm p l l' : l ≡ₚ l' -> occ p l = occ p l'.
Proof. unfold occ. by intros ->. Qed.

Lemma occ_app p l l' : occ p (l ++ l') = occ p l + occ p l'.
Proof. unfold occ. rewrite count_if_app. lia. Qed.

Lemma occ_bounds p l : 0 <= occ p l <= Z.of_nat (length l).
Proof.
  unfold occ. split; [lia|]. induction l as [|q l IH]; cbn; [lia|]. destruct (p =? q); lia.
Qed.

Lemma occ_elem p l : p ∈ l -> 0 < occ p l.
Proof.
  induction l as [|q l IH]; [by intros ?%not_elem_of_nil|]. rewrite occ_cons. pose proof (occ_bounds p l).
  intros [->|H']%elem_of_cons; [rewrite decide_True by done; lia|]. specialize (IH H'). case_decide; lia.
Qed.

Lemma drop_one_perm p l : p ∈ l -> l ≡ₚ p :: drop_one p l.
Proof.
  induction l as [|q l IH]; [by intros ?%not_elem_of_nil|]. intros [<-|H]%elem_of_cons; cbn.
  - by rewrite Z.eqb_refl.
  - destruct (Z.eqb_spec p q) as [->|N]; [done|]. rewrite (IH H) at 1. apply Permutation_swap.
Qed.

Lemma join_insert (ls : list (list handle)) i h :
  ls !! i = Some h -> exists rest, mjoin ls ≡ₚ h ++ rest /\ forall h', mjoin (<[i := h']> ls) ≡ₚ h' ++ rest.
Proof.
  revert i. induction ls as [|l ls IH]; [done|]. intros [|i]; cbn.
  - intros [= ->]. by exists (mjoin ls).
  - intros E. destruct (IH i E) as (rest & E1 & E2). exists (l ++ rest). split.
    + rewrite E1. apply Permutation_app_swap_app.
    + intros h'. rewrite E2. apply Permutation_app_swap_app.
Qed.

Lemma join_perm (ls ls' : list (list handle)) : Forall2 (≡ₚ) ls ls' -> mjoin ls ≡ₚ mjoin ls'.
Proof.
  induction 1 as [|l l' ls ls' P _ IH]; [done|]. change (l ++ mjoin ls ≡ₚ l' ++ mjoin ls'). by rewrite P, IH.
Qed.

Lemma room_total (ls : list (list handle)) bounds :
  Forall2 (fun l b => (length l <= b)%nat) ls bounds -> (length (mjoin ls) <= sum_list bounds)%nat.
Proof.
  induction 1 as [|l b ls bs Lb _ IH]; [done|]. change (mjoin (l :: ls)) with (l ++ mjoin ls).
  change (sum_list (b :: bs)) with (b + sum_list bs)%nat. rewrite length_app. lia.
Qed.

(** ** What the threads keep *)
Section Counts.
Context `{HP : ComPlatform} `{HL : !ComPlatformLaws}.
(** The most pointers each thread ever holds. *)
Context (bounds : list nat) (few : Z.of_nat (sum_list bounds) < 2 ^ 31).
Implicit Types (s : Shared).

Record sound s : Prop := {
  so_heap : forall p, match heap (com s) !! p with
    | Some o => m_cRef o = owed s p /\ (owed s p = 0 -> exists i, deleting s !! i = Some p)
    | None => owed s p = 0
    end;
  so_deleting : forall i p, deleting s !! i = Some p -> is_Some (heap (com s) !! p) /\ owed s p = 0;
  so_one : forall i j p, deleting s !! i = Some p -> deleting s !! j = Some p -> i = j;
  so_room : Forall2 (fun l b => (length l <= b)%nat) (held s) bounds;
}.
Record link (i : nat) s s' : Prop := {
  lk_held : forall j, j <> i -> held s' !! j = held s !! j;
  lk_deleting : forall j, j <> i -> deleting s' !! j = deleting s !! j;
  lk_class : forall p o o', heap (com s) !! p = Some o -> heap (com s') !! p = Some o' -> class_of o' = class_of o;
}.

(** What thread [i] knows between its steps: it holds the pointers [l] and
    deletes nothing. *)
Definition has (i : nat) (l : list handle) s : Prop :=
  (exists h, held s !! i = Some h /\ h ≡ₚ l) /\ deleting s !! i = None.

Lemma lasting_has i l : lasting sound link i (has i l).
Proof. intros j s s' N So Lk [H D]. split; [by rewrite (lk_held _ _ _ Lk) | by rewrite (lk_deleting _ _ _ Lk)]. Qed.

Lemma owed_small s p : sound s -> 0 <= owed s p < 2 ^ 31.
Proof.
  intros So. pose proof (room_total _ _ (so_room _ So)). pose proof (occ_bounds p (mjoin (held s))).
  unfold owed. lia.
Qed.

(** A pointer a thread holds is that of an object with that many references. *)
Lemma has_alive i l p s : sound s -> has i l s -> p ∈ l ->
  exists o, heap (com s) !! p = Some o /\ m_cRef o = owed s p /\ 0 < owed s p < 2 ^ 31.
Proof.
  intros So [(h & Eh & Ph) _] Hp. destruct (join_insert _ _ _ Eh) as (rest & Ej & _).
  assert (0 < owed s p).
  { unfold owed. rewrite (occ_perm p _ _ Ej), occ_app, (occ_perm p h l Ph).
    pose proof (occ_elem p l Hp). pose proof (occ_bounds p rest). lia. }
  pose proof (so_heap _ So p) as H'. pose proof (owed_small s p So).
  destruct (heap (com s) !! p) as [o|]; [|lia]. exists o. split; [done|]. split; [apply H' | lia].
Qed.

(** A thread's own change: pointers [h] become [h'], and the heap follows. *)
Lemma held_step i h h' b s :
  held s !! i = Some h -> bounds !! i = Some b -> sound s -> (length h' <= b)%nat ->
  (forall p, occ p (mjoin (<[i := h']> (held s))) = owed s p - occ p h + occ p h') /\
  Forall2 (fun l b => (length l <= b)%nat) (<[i := h']> (held s)) bounds.
Proof.
  intros Eh Eb So Lh. split.
  - intros p. destruct (join_insert _ _ _ Eh) as (rest & E1 & E2). unfold owed.
    rewrite (occ_perm p _ _ E1), (occ_perm p _ _ (E2 h')), !occ_app. lia.
  - rewrite <- (list_insert_id bounds i b) by done. apply Forall2_insert; [apply So | done].
Qed.

(** ** One thread *)
Section Thread.
Context (i b : nat) (own : bounds !! i = Some b).
Abbreviation runs := (keeps sound link i).

(** A step about one object [p]: the thread's pointers become [h'], the DLL's
    state [c], the objects about to be deleted [d]. *)
Lemma change_ok p h h' c d s :
  held s !! i = Some h -> sound s -> (length h' <= b)%nat ->
  (forall q, q <> p -> occ q h' = occ q h /\ heap c !! q = heap (com s) !! q) ->
  (forall j q, j <> i \/ q <> p -> d !! j = Some q <-> deleting s !! j = Some q) ->
  let n := owed s p - occ p h + occ p h' in
  match heap c !! p with
  | Some o => m_cRef o = n /\ (n = 0 -> exists j, d !! j = Some p)
  | None => n = 0
  end ->
  (forall j, d !! j = Some p -> is_Some (heap c !! p) /\ n = 0 /\ j = i) ->
  (forall j, deleting s !! j = Some p -> j = i) ->
  (forall o o', heap (com s) !! p = Some o -> heap c !! p = Some o' -> class_of o' = class_of o) ->
  linked sound link i s {| com := c; held := <[i := h']> (held s); deleting := d |}.
Proof.
  intros Eh So Lh Oth Del n Hp Dp _ Cls _. set (s' := {| com := c |}).
  destruct (held_step i h h' b s Eh own So Lh) as [Occ Room].
  assert (Op : owed s' p = n) by apply Occ.
  assert (Oq : forall q, q <> p -> owed s' q = owed s q).
  { intros q N. unfold owed at 1. cbn. rewrite Occ, (proj1 (Oth q N)). lia. }
  split; [split|split]; cbn.
  - intros q. destruct (decide (q = p)) as [->|N]; [by rewrite Op|].
    rewrite (proj2 (Oth q N)), (Oq q N). pose proof (so_heap _ So q) as H.
    destruct (heap (com s) !! q); [|done]. split; [apply H|]. intros Z0.
    destruct (proj2 H Z0) as [j Ej]. exists j. apply Del; [by right | done].
  - intros j q E. destruct (decide (q = p)) as [->|N]; [rewrite Op; split; by apply (Dp j)|].
    rewrite (proj2 (Oth q N)), (Oq q N). apply (so_deleting _ So j). apply Del; [by right | done].
  - intros j k q Ej Ek. destruct (decide (q = p)) as [->|N].
    + by rewrite (proj2 (proj2 (Dp j Ej))), (proj2 (proj2 (Dp k Ek))).
    + eapply (so_one _ So); (apply Del; [by right | done]).
  - done.
  - intros j N. by rewrite list_lookup_insert_ne.
  - intros j N. destruct (deleting s !! j) as [q|] eqn:E.
    + apply Del; [by left | done].
    + destruct (d !! j) as [q|] eqn:E'; [|done]. apply Del in E'; [congruence | by left].
  - intros q o o' E E'. destruct (decide (q = p)) as [->|N]; [by eapply Cls|].
    rewrite (proj2 (Oth q N)) in E'. congruence.
Qed.

(** The thread is about to delete [p]. *)
Definition ends (p : handle) (l : list handle) s : Prop :=
  (exists h, held s !! i = Some h /\ h ≡ₚ l) /\ deleting s !! i = Some p.

Lemma lasting_ends p l : lasting sound link i (ends p l).
Proof. intros j s s' N So Lk [H D]. split; [by rewrite (lk_held _ _ _ Lk) | by rewrite (lk_deleting _ _ _ Lk)]. Qed.

Lemma not_deleting p s : sound s -> 0 < owed s p -> forall j, deleting s !! j <> Some p.
Proof. intros So H j E. destruct (so_deleting _ So j p E). lia. Qed.

Lemma holds_new s h h' l :
  held s !! i = Some h -> h' ≡ₚ l -> exists h'', <[i := h']> (held s) !! i = Some h'' /\ h'' ≡ₚ l.
Proof. intros Eh Ph. exists h'. by rewrite list_lookup_insert_eq by (by eapply lookup_lt_Some). Qed.

Lemma AddRef_runs {A} p l (k : Z -> Thread Shared A) Q s :
  p ∈ l -> (S (length l) <= b)%nat -> sound s -> has i l s ->
  (forall n s, sound s -> has i (p :: l) s -> runs (k n) Q s) -> runs (tbind (th_AddRef i p) k) Q s.
Proof.
  intros Hp Lb So Hs K. apply (keeps_act (has i l)); [apply lasting_has|done..|].
  clear s So Hs. intros s So Hs. destruct (has_alive i l p s So Hs Hp) as (o & Eo & Ec & Pos).
  destruct Hs as [(h & Eh & Ph) Hd]. pose proof (not_deleting p s So (proj1 Pos)) as Nd.
  destruct (held_step i h (p :: h) b s Eh own So) as [Occ Room].
  { cbn. by rewrite Ph. }
  assert (Full : owed s p + 1 < 2 ^ 31).
  { pose proof (room_total _ _ Room). specialize (Occ p). rewrite occ_cons, decide_True in Occ by done.
    pose proof (occ_bounds p (mjoin (<[i := p :: h]> (held s)))). lia. }
  apply wp_bind, wp_zoom. cbn [view shared_com]. apply (AddRef_spec p o); [done|lia|].
  apply wp_bind, wp_get, wp_bind, wp_put, wp_ret. cbn [put shared_com]. unfold hold. cbn [held with_com]. rewrite Eh.
  split.
  - apply (change_ok p h); [done|done|cbn; by rewrite Ph| |done| | | |].
    + intros q N. cbn. rewrite occ_cons, decide_False, lookup_insert_ne by done. done.
    + cbn. rewrite lookup_insert_eq, cRef_with, occ_cons, decide_True by done. lia.
    + intros j E. by destruct (Nd j).
    + intros j E. by destruct (Nd j).
    + cbn. rewrite lookup_insert_eq. intros o1 o2 E [= <-]. rewrite Eo in E. injection E as <-. apply class_with.
  - intros So'. apply K; [done|]. split; [|done]. by apply (holds_new s h); [|rewrite Ph].
Qed.

Lemma delete_runs {A} p l (k : unit -> Thread Shared A) Q s :
  (length l <= b)%nat -> sound s -> ends p l s ->
  (forall s, sound s -> has i l s -> runs (k tt) Q s) ->
  runs (tbind (act (zoom (delete_this p) ;;
                    let* s := pget in
                    pput (with_deleting (delete i (deleting s)) s))) k) Q s.
Proof.
  intros Lb So Hs K. apply (keeps_act (ends p l)); [apply lasting_ends|done..|].
  clear s So Hs. intros s So [(h & Eh & Ph) Hd]. destruct (so_deleting _ So i p Hd) as [[o Eo] Z0].
  apply wp_bind, wp_zoom. cbn [view shared_com]. unfold delete_this. apply wp_bind, (object_spec _ _ o); [done|].
  apply wp_bind, wp_get, wp_put, wp_bind, wp_get, wp_put. cbn [put shared_com].
  unfold with_deleting, with_com. cbn [held com deleting]. rewrite <- (list_insert_id (held s) i h) at 1 by done. split.
  - apply (change_ok p h); [done|done|by rewrite Ph| | | | | |].
    + intros q N. cbn. by rewrite lookup_delete_ne.
    + intros j q D. cbn. destruct (decide (j = i)) as [->|N]; [|by rewrite lookup_delete_ne].
      rewrite lookup_delete_eq, Hd. destruct D as [|D]; [done|]. split; [done | congruence].
    + cbn. rewrite lookup_delete_eq. lia.
    + intros j E. apply lookup_delete_Some in E as [N E]. destruct N. by eapply (so_one _ So).
    + intros j E. by eapply (so_one _ So).
    + cbn. rewrite lookup_delete_eq. done.
  - intros So'. apply K; [done|]. split; [by exists h|]. apply lookup_delete_eq.
Qed.

(** The state after the decrement of [Release]. *)
Definition dropped (p : handle) (o : ComObj) (h : list handle) s : Shared :=
  {| com := with_heap (<[p := with_cRef (m_cRef o - 1) o]> (heap (com s))) (com s);
     held := <[i := drop_one p h]> (held s);
     deleting := if m_cRef o - 1 =? 0 then <[i := p]> (deleting s) else deleting s |}.

Lemma drop_one_length p l : (length (drop_one p l) <= length l)%nat.
Proof. induction l as [|q l IH]; [done|]. cbn. destruct (p =? q); cbn; lia. Qed.

Lemma dropped_ok p o h l s :
  held s !! i = Some h -> h ≡ₚ l -> deleting s !! i = None -> (length l <= b)%nat ->
  p ∈ l -> sound s -> heap (com s) !! p = Some o -> m_cRef o = owed s p -> 0 < owed s p ->
  linked sound link i s (dropped p o h s).
Proof.
  intros Eh Ph Hd Lb Hp So Eo Ec Pos. pose proof (not_deleting p s So Pos) as Nd.
  assert (Oh : forall q, occ q h = (if decide (q = p) then 1 else 0) + occ q (drop_one p h)).
  { intros q. rewrite <- occ_cons. apply occ_perm, drop_one_perm. by rewrite Ph. }
  apply (change_ok p h); [done|done| | | | | | |].
  - pose proof (drop_one_length p h). rewrite Ph in H at 2. lia.
  - intros q N. cbn. by rewrite Oh, decide_False, lookup_insert_ne by done.
  - intros j q D. destruct (_ =? 0); [|done]. destruct (decide (j = i)) as [->|N].
    + rewrite lookup_insert_eq, Hd. destruct D as [|D]; [done|]. split; [congruence | done].
    + by rewrite lookup_insert_ne.
  - cbn. rewrite lookup_insert_eq, cRef_with, Oh, decide_True by done. split; [lia|]. intros Z0. exists i.
    rewrite (proj2 (Z.eqb_eq (m_cRef o - 1) 0)) by lia. apply lookup_insert_eq.
  - intros j E. destruct (Z.eqb_spec (m_cRef o - 1) 0) as [Z0|]; [|by destruct (Nd j)].
    cbn. rewrite lookup_insert_eq, Oh, decide_True by done. split; [done|]. split; [lia|].
    destruct (decide (j = i)) as [|N]; [done|]. rewrite lookup_insert_ne in E by done. by destruct (Nd j).
  - intros j E. by destruct (Nd j).
  - cbn. rewrite lookup_insert_eq. intros o1 o2 E [= <-]. rewrite Eo in E. injection E as <-. apply class_with.
Qed.

Lemma Release_runs {A} p l (k : Z -> Thread Shared A) Q s :
  p ∈ l -> (length l <= b)%nat -> sound s -> has i l s ->
  (forall n s, sound s -> has i (drop_one p l) s -> runs (k n) Q s) -> runs (tbind (th_Release i p) k) Q s.
Proof.
  intros Hp Lb So Hs K. unfold th_Release. apply rg_assoc, (keeps_act (has i l)); [apply lasting_has|done..|].
  clear s So Hs. intros s So Hs. destruct (has_alive i l p s So Hs Hp) as (o & Eo & Ec & Pos).
  destruct Hs as [(h & Eh & Ph) Hd].
  apply wp_bind, wp_zoom. cbn [view shared_com]. unfold decrement. apply wp_bind, (object_spec _ _ o); [done|].
  cbv zeta. rewrite s32_small by lia.
  apply wp_bind, wp_get, wp_bind, wp_put, wp_ret, wp_bind, wp_get, wp_bind, wp_put, wp_ret.
  cbn [put shared_com]. unfold hold. cbn [held with_com]. rewrite Eh. unfold with_deleting, with_held, with_com. cbn [held com deleting].
  replace (if m_cRef o - 1 =? 0 then _ else _) with (dropped p o h s) by (unfold dropped; by destruct (_ =? 0)).
  split; [apply (dropped_ok p o h l); [done..|lia]|]. intros So'.
  assert (Hp' : exists h', held (dropped p o h s) !! i = Some h' /\ h' ≡ₚ drop_one p l).
  { apply (holds_new s h); [done|]. apply (Permutation_cons_inv (a:=p)). by rewrite <- !drop_one_perm by (by rewrite ?Ph). }
  pose proof (drop_one_length p l).
  assert (Fin : forall s, sound s -> has i (drop_one p l) s -> runs (tbind (Done (u32 (m_cRef o - 1))) k) Q s).
  { intros s' So1 Hs1. by apply K. }
  apply rg_assoc. destruct (m_cRef o - 1 =? 0) eqn:Z0.
  - apply (delete_runs p (drop_one p l)); [lia|done| |done]. split; [done|]. unfold dropped. cbn. rewrite Z0.
    apply lookup_insert_eq.
  - apply Fin; [done|]. split; [done|]. unfold dropped. cbn. by rewrite Z0.
Qed.

(** A step that changes nothing the counts are about. *)
Lemma same_heap_ok c s : heap c = heap (com s) -> linked sound link i s (with_com c s).
Proof. intros E So. split.
  - destruct So. split; cbn; [by rewrite E|by rewrite E|done|done].
  - split; cbn; [done..|]. rewrite E. congruence.
Qed.

Lemma idle_runs {A X} l (m : Proc Com X) (k : X -> Thread Shared A) Q s :
  sound s -> has i l s ->
  (forall s, sound s -> has i l s -> wp m (fun x c => heap c = heap (com s) /\
     forall s, sound s -> has i l s -> runs (k x) Q s) (com s)) ->
  runs (tbind (act (zoom m)) k) Q s.
Proof.
  intros So Hs H. apply (keeps_act (has i l)); [apply lasting_has|done..|]. clear s So Hs. intros s So Hs.
  apply wp_zoom. eapply wp_mono; [by apply (H s)|]. intros x c [E K]. cbn [put shared_com].
  split; [by apply same_heap_ok|]. intros So'. by apply K.
Qed.

Lemma QueryInterface_runs {A} p riid l (k : Z * option handle -> Thread Shared A) Q s :
  p ∈ l -> (S (length l) <= b)%nat -> sound s -> has i l s ->
  (forall r s, r.2 = None \/ r.2 = Some p -> sound s -> has i (received r l) s -> runs (k r) Q s) ->
  runs (tbind (th_QueryInterface i p riid) k) Q s.
Proof.
  intros Hp Lb So Hs K. unfold th_QueryInterface. apply rg_assoc, (idle_runs l); [done..|].
  clear s So Hs. intros s So Hs. destruct (has_alive i l p s So Hs Hp) as (o & Eo & _).
  apply (object_spec _ _ o); [done|]. split; [done|]. clear s So Hs Eo. intros s So Hs.
  destruct (QISearch_finds (qit o) riid).
  - apply rg_assoc, (AddRef_runs p l); [done..|]. intros n s' So' Hs'. apply (K (S_OK, Some p)); [by right|done..].
  - apply (K (E_NOINTERFACE, None)); [by left|done..].
Qed.

Lemma new_runs {A} o l (k : handle -> Thread Shared A) Q s :
  m_cRef o = 1 -> (S (length l) <= b)%nat -> sound s -> has i l s ->
  (forall p s, sound s -> has i (if p =? NULL then l else p :: l) s -> runs (k p) Q s) ->
  runs (tbind (th_new_object i o) k) Q s.
Proof.
  intros Ho Lb So Hs K. apply (keeps_act (has i l)); [apply lasting_has|done..|]. clear s So Hs. intros s So Hs.
  destruct Hs as [(h & Eh & Ph) Hd]. apply wp_bind, wp_zoom. cbn [view shared_com]. unfold new_object.
  apply wp_bind, wp_get. cbv zeta. set (p := operator_new (heap (com s))).
  destruct (Z.eqb_spec p NULL) as [Ep|Np].
  - apply wp_ret, wp_bind, wp_get, wp_bind. rewrite Z.eqb_refl. apply wp_put, wp_ret.
    split; [by apply same_heap_ok|]. intros So'. apply K; [done|]. split; [by exists h | done].
  - destruct (new_fresh (heap (com s))) as [|Fr]; [done|]. fold p in Fr.
    assert (Z0 : owed s p = 0) by (pose proof (so_heap _ So p) as H; by rewrite Fr in H).
    assert (Nd : forall j, deleting s !! j <> Some p).
    { intros j E. destruct (so_deleting _ So j p E) as [[x Ex] _]. congruence. }
    apply wp_bind, wp_put, wp_ret, wp_bind, wp_get, wp_bind. rewrite (proj2 (Z.eqb_neq p NULL)) by done.
    apply wp_put, wp_ret. cbn [put shared_com]. unfold hold. cbn [held with_com]. rewrite Eh. split.
    + apply (change_ok p h); [done|done|cbn; by rewrite Ph| |done| | | |].
      * intros q N. cbn. by rewrite occ_cons, decide_False, lookup_insert_ne.
      * cbn. rewrite lookup_insert_eq, occ_cons, decide_True by done. lia.
      * intros j E. by destruct (Nd j).
      * intros j E. by destruct (Nd j).
      * intros o1 o2 E. cbn in E. by rewrite Fr in E.
    + intros So'. apply K; [done|]. rewrite (proj2 (Z.eqb_neq p NULL)) by done.
      split; [|done]. by apply (holds_new s h); [|rewrite Ph].
Qed.

(** The body of the three factories. *)
Lemma create_object_runs {A} o riid err l (k : Z * option handle -> Thread Shared A) Q s :
  m_cRef o = 1 -> (S (S (length l)) <= b)%nat -> sound s -> has i l s ->
  (forall r s, sound s -> has i (received r l) s -> runs (k r) Q s) ->
  runs (tbind (let@ p := th_new_object i o in
               if p =? NULL then Done (err, None) else
               let@ '(hr, ppv) := th_QueryInterface i p riid in
               th_Release i p ;@
               Done (hr, ppv)) k) Q s.
Proof.
  intros Ho Lb So Hs K. apply rg_assoc, (new_runs o l); [done|lia|done..|]. clear s So Hs. intros p s So Hs.
  destruct (p =? NULL); [by apply (K (err, None))|].
  apply rg_assoc, (QueryInterface_runs p riid (p :: l)); [by left|done..|]. clear s So Hs.
  intros [hr ppv] s R So Hs. apply rg_assoc. cbn [snd] in R.
  apply (Release_runs p (received (hr, ppv) (p :: l))); [destruct R as [-> | ->]; set_solver| |done..|].
  { destruct R as [-> | ->]; cbn; lia. }
  clear s So Hs. intros n s So Hs. apply (K (hr, ppv)); [done|].
  destruct R as [-> | ->]; unfold received in *; cbn [snd drop_one] in *; by rewrite Z.eqb_refl in Hs.
Qed.

(** *** Calls on an object *)
Definition of_class (p : handle) (cls : ComClass) s : Prop := forall o, heap (com s) !! p = Some o -> class_of o = cls.

Lemma lasting_class p cls l :
  p ∈ l -> lasting sound link i (fun s => has i l s /\ of_class p cls s).
Proof.
  intros Hp j s s' N So Lk [Hs C]. split; [by apply (lasting_has i l j s)|]. intros o' E'.
  destruct (has_alive i l p s So Hs Hp) as (o & E & _). rewrite <- (C o E). by apply (lk_class _ _ _ Lk p).
Qed.

Lemma method_runs {A} p cls l (k : unit -> Thread Shared A) Q s :
  p ∈ l -> sound s -> has i l s -> of_class p cls s ->
  (forall s, sound s -> has i l s -> runs (k tt) Q s) ->
  runs (tbind (member (called_on p cls)) k) Q s.
Proof.
  intros Hp So Hs C K. apply (keeps_act (fun s => has i l s /\ of_class p cls s)); [by apply lasting_class|done..|].
  clear s So Hs C. intros s So [Hs C]. destruct (has_alive i l p s So Hs Hp) as (o & Eo & _).
  apply wp_zoom. unfold called_on. apply wp_bind, (object_spec _ _ o); [done|].
  rewrite bool_decide_true by (by apply C). apply wp_ret. cbn [put shared_com].
  split; [by apply same_heap_ok|]. intros So'. by apply K.
Qed.

Lemma call_method_runs n cls (m : handle -> Thread Shared (list handle)) l Q s :
  sound s -> has i l s ->
  (forall s, sound s -> has i l s -> runs (Done l) Q s) ->
  (forall p s, p ∈ l -> sound s -> has i l s -> of_class p cls s -> runs (m p) Q s) ->
  runs (call_method n cls m l) Q s.
Proof.
  intros So Hs D K. unfold call_method. destruct (l !! n) as [p|] eqn:E; [|by apply D].
  assert (Hp : p ∈ l) by (by eapply list_elem_of_lookup_2). clear E.
  apply (keeps_act (has i l)); [apply lasting_has|done..|]. clear s So Hs. intros s So Hs.
  destruct (has_alive i l p s So Hs Hp) as (o & Eo & _). unfold wpx. rewrite Eo.
  split; [intros; split; [done|split; [done..|congruence]]|]. intros _. case_bool_decide as C; [|by apply D].
  apply K; [done..|]. intros o' E'. congruence.
Qed.

Lemma received_length r l : (length (received r l) <= S (length l))%nat.
Proof. unfold received. destruct r.2; cbn; lia. Qed.

Definition called (l l' : list handle) s : Prop := (length l' <= S (length l))%nat /\ sound s /\ has i l' s.

Lemma client_call_runs call l s :
  (S (S (length l)) <= b)%nat -> sound s -> has i l s -> runs (client_call i call l) (called l) s.
Proof.
  intros Lb So Hs.
  assert (Fin : forall l' s, (length l' <= S (length l))%nat -> sound s -> has i l' s ->
    runs (Done l') (called l) s).
  { intros l' s' Ll So' Hs'. by apply (keeps_done (has i l')); [apply lasting_has|..]. }
  assert (Rec : forall r s, sound s -> has i (received r l) s -> runs (Done (received r l)) (called l) s).
  { intros r s' So' Hs'. apply Fin; [apply received_length|done..]. }
  destruct call as [n|n|n riid|rclsid riid|n outer riid|n dwIndex pp|n f|]; cbn [client_call].
  - destruct (l !! n) as [p|] eqn:E; [|apply Fin; [lia|done..]].
    apply (AddRef_runs p l); [by eapply list_elem_of_lookup_2|lia|done..|]. intros _ s'. by apply Fin.
  - destruct (l !! n) as [p|] eqn:E; [|apply Fin; [lia|done..]].
    apply (Release_runs p l); [by eapply list_elem_of_lookup_2|lia|done..|]. intros _ s'. apply Fin.
    pose proof (drop_one_length p l). lia.
  - destruct (l !! n) as [p|] eqn:E; [|apply Fin; [lia|done..]].
    apply (QueryInterface_runs p riid l); [by eapply list_elem_of_lookup_2|lia|done..|]. intros r s' _. apply Rec.
  - unfold th_DllGetClassObject. case_bool_decide; [|by apply (Rec (CLASS_E_CLASSNOTAVAILABLE, None))].
    by apply (create_object_runs _ riid E_OUTOFMEMORY l).
  - apply call_method_runs; [done..|by intros; apply Fin; [lia|..]|]. clear s So Hs. intros p s Hp So Hs C.
    apply rg_assoc, (method_runs p FactoryClass l); [done..|]. clear s So Hs C. intros s So Hs.
    destruct (negb _); [by apply (Rec (CLASS_E_NOAGGREGATION, None))|].
    by apply (create_object_runs _ riid E_OUTOFMEMORY l).
  - apply call_method_runs; [done..|by intros; apply Fin; [lia|..]|]. clear s So Hs. intros p s Hp So Hs C.
    apply rg_assoc, (method_runs p ProviderClass l); [done..|]. clear s So Hs C. intros s So Hs.
    destruct (_ || _); [by apply (Rec (E_INVALIDARG, None))|].
    by apply (create_object_runs _ IID_ICredentialProviderCredential E_OUTOFMEMORY l).
  - apply call_method_runs; [done..|by intros; apply Fin; [lia|..]|]. clear s So Hs. intros p s Hp So Hs C.
    apply rg_assoc, (method_runs p FactoryClass l); [done..|]. clear s So Hs C. intros s So Hs.
    apply rg_assoc, (idle_runs l); [done..|]. clear s So Hs. intros s So Hs. unfold count_lock.
    apply wp_bind, wp_get, wp_put. split; [done|]. intros s'. apply Fin. lia.
  - apply (idle_runs l); [done..|]. clear s So Hs. intros s So Hs. unfold DllCanUnloadNow.
    apply wp_bind, wp_get, wp_ret. split; [done|]. intros s'. apply Fin. lia.
Qed.

Lemma client_runs calls l s :
  (S (length l + length calls) <= b)%nat -> sound s -> has i l s ->
  runs (client i calls l) (fun l s => sound s /\ has i l s) s.
Proof.
  revert l s. induction calls as [|call calls IH]; intros l s Lb So Hs; cbn [client length] in *.
  - by apply (keeps_done (has i l)); [apply lasting_has|..].
  - eapply rg_seq; [apply (client_call_runs call l s); [lia|done..]|]. intros l' s' (Ll & So' & Hs'). apply IH; [lia|done..].
Qed.
End Thread.
End Counts.

(** ** The pool *)
Section Pool.
Context `{HP : ComPlatform} `{HL : !ComPlatformLaws}.

Definition start (s : Com) (clients : list (list handle * list ComCall)) : Shared :=
  {| com := s; held := clients.*1; deleting := ∅ |}.

(** At the start the count of each object is the number of pointers the threads
    hold; and there are not so many calls that a count could overflow. *)
Record clients_ok (s : Com) (clients : list (list handle * list ComCall)) : Prop := {
  cl_counts : forall p, match heap s !! p with
    | Some o => m_cRef o = occ p (mjoin clients.*1) /\ 0 < m_cRef o
    | None => occ p (mjoin clients.*1) = 0
    end;
  cl_few : Z.of_nat (sum_list_with (fun c => S (length c.1 + length c.2)) clients) < 2 ^ 31;
}.

Definition room (clients : list (list handle * list ComCall)) : list nat :=
  (fun c => S (length c.1 + length c.2)) <$> clients.

Lemma room_sum clients :
  sum_list (room clients) = sum_list_with (fun c => S (length c.1 + length c.2)) clients.
Proof. induction clients as [|c cs IH]; [done|]. cbn in *. by rewrite <- IH. Qed.

Lemma clients_start_sound s clients : clients_ok s clients -> sound (room clients) (start s clients).
Proof.
  intros [C F]. split; cbn; [|done|done|].
  - intros p. specialize (C p). unfold owed. cbn. destruct (heap s !! p); [|done]. split; [apply C | lia].
  - unfold room. clear C F. induction clients as [|c cs IH]; cbn; constructor; [lia | done].
Qed.

Definition holding (clients : list (list handle * list ComCall)) (i : nat) (l : list handle) (s : Shared) : Prop :=
  sound (room clients) s /\ has i l s.

Lemma clients_run s clients c :
  clients_ok s clients -> rtc pool_step (start s clients, client_pool clients) c ->
  sound (room clients) c.1 /\ length (held c.1) = length c.2 /\
  (forall j, (length c.2 <= j)%nat -> deleting c.1 !! j = None) /\
  all_keep (sound (room clients)) link (holding clients) c.
Proof.
  intros Ok Rs. pose proof (clients_start_sound s clients Ok) as So.
  assert (Few : Z.of_nat (sum_list (room clients)) < 2 ^ 31) by (rewrite room_sum; apply Ok).
  assert (Sp : all_keep (sound (room clients)) link (holding clients)
                 (start s clients, client_pool clients)).
  { intros i t. cbn [fst snd]. unfold client_pool. rewrite list_lookup_imap.
    destruct (clients !! i) as [[l calls]|] eqn:E; [|done]. intros [= <-]. cbn [fst snd].
    apply (client_runs (room clients) Few i (S (length l + length calls))); [|done|done|].
    - unfold room. by rewrite list_lookup_fmap, E.
    - split; [|done]. exists l. cbn. by rewrite list_lookup_fmap, E. }
  destruct (all_keep_invariant (sound (room clients)) link (holding clients) (fun n s => forall j, (n <= j)%nat -> deleting s !! j = None)
    (start s clients, client_pool clients) c) as [So' Out]; [|exact Sp|done..|].
  { intros n i s1 s2 Lt _ Lk Out j Lj. rewrite (lk_deleting _ _ _ Lk) by lia. by apply Out. }
  split; [done|]. rewrite (pool_steps_length _ _ Rs) in Out. split; [|split; [done | by eapply all_keep_steps]].
  rewrite (Forall2_length _ _ _ (so_room _ _ So')), <- (pool_steps_length _ _ Rs). unfold room, client_pool. cbn.
  by rewrite length_fmap, length_imap.
Qed.

(** * Properties *)

(** C24: object lifetime under concurrent calls.  Threads share objects of the DLL,
    query, add and release references, create objects through the class factory
    and the provider, lock the module and release what they hold, with their
    steps interleaved in any way, each using only pointers it holds.  Then no
    method runs on a destroyed object, the factories' included, and none is
    destroyed twice; a run ends only with all calls answered; and then an object
    exists exactly while some thread holds pointers to it, and its count is their
    number.  [Advise] and [UnAdvise] are not among the calls: their accesses to
    the events member race ([unadvise_twice], [unadvise_null]). *)
Theorem com_interleavings s clients c :
  clients_ok s clients -> rtc pool_step (start s clients, client_pool clients) c ->
  ~ goes_wrong c /\ (nf pool_step c -> all_done c) /\
  (forall ls, c.2 = Done <$> ls -> forall p,
     match heap (com c.1) !! p with
     | Some o => m_cRef o = occ p (mjoin ls) /\ 0 < m_cRef o
     | None => occ p (mjoin ls) = 0
     end).
Proof.
  intros Ok Rs. destruct (clients_run s clients c Ok Rs) as (So & Ln & Out & Sp).
  destruct (all_keep_ends _ _ _ c Sp) as (Ok1 & _ & Ok3). do 2 (split; [done|]).
  intros ls El p. assert (Has : forall i l, ls !! i = Some l -> has i l c.1).
  { intros i l Ei. eapply (specified_done _ _ _ _ c i l Sp). by rewrite El, list_lookup_fmap, Ei. }
  assert (Idle : forall j, deleting c.1 !! j = None).
  { intros j. destruct (ls !! j) as [l|] eqn:Ej; [by apply (Has j l)|]. apply Out.
    rewrite El, length_fmap. by apply lookup_ge_None. }
  assert (E : owed c.1 p = occ p (mjoin ls)).
  { apply occ_perm, join_perm, Forall2_same_length_lookup_2; [by rewrite Ln, El, length_fmap|].
    intros i h l Eh El'. destruct (Has i l El') as [(h' & Eh' & Ph) _]. congruence. }
  rewrite <- E. pose proof (so_heap _ _ So p) as H. destruct (heap (com c.1) !! p) as [o|]; [|done].
  split; [apply H|]. rewrite (proj1 H). pose proof (occ_bounds p (mjoin (held c.1))). unfold owed in *.
  destruct (decide (occ p (mjoin (held c.1)) = 0)) as [Z0|N].
  2: { lia. }
  destruct (proj2 H Z0) as [j Ej]. congruence.
Qed.
End Pool.

(** * Witness *)

(** Two threads share a class factory; while one locks the module and has a
    provider made, the other gives up its pointer.  The last releases destroy the
    provider and the factory. *)
Definition demo_clients : list (list handle * list ComCall) :=
  [([1], [CallLock 0 true; CallCreate 0 NULL IID_ICredentialProvider; CallRelease 0; CallRelease 0]);
   ([1], [CallRelease 0])].
Definition demo_shared : Com := with_heap {[1 := PhoneKeyClassFactory 2]} com0.
Definition all_released (c : Shared * list (Thread Shared (list handle))) : bool :=
  match c.2 with [Done []; Done []] => true | _ => false end.

Lemma demo_clients_ok : clients_ok demo_shared demo_clients.
Proof.
  split; [|done]. intros p. unfold demo_shared, occ. cbn. destruct (decide (p = 1)) as [->|N].
  - by rewrite lookup_singleton_eq.
  - rewrite lookup_singleton_ne by done. by destruct (Z.eqb_spec p 1).
Qed.

Lemma com_interleavings_witness :
  exists c, rtc pool_step (start demo_shared demo_clients, @client_pool demo_platform demo_clients) c /\
    all_released c = true /\ forall p, heap (com c.1) !! p = None.
Proof.
  destruct (reaches_spec ([0; 1] ++ replicate 12 0)%nat all_released
    (start demo_shared demo_clients, @client_pool demo_platform demo_clients)) as (c & R & T).
  { vm_compute. reflexivity. }
  exists c. split; [done|]. split; [done|]. intros p.
  destruct (@com_interleavings demo_platform demo_platform_laws demo_shared demo_clients c demo_clients_ok R)
    as (_ & _ & End).
  assert (El : c.2 = Done <$> [[]; []]).
  { unfold all_released in T. destruct c as [s [|[[]|] [|[[]|] []]]]; done. }
  specialize (End _ El p). destruct (heap (com c.1) !! p) as [o|]; [|done]. destruct End as [E1 E2]. by rewrite E1 in E2.
Defined.

(** The events members are not protected: of two threads that call [UnAdvise] on
    one object, both release its events object, or one calls through NULL. *)
Definition advised : Shared :=
  start (with_foreign {[77 := 1]} (with_heap {[1 := PhoneKeyCredential 2 77]} com0)) [([1], []); ([1], [])].
Definition unadvisers : list (Thread Shared Z) := [th_UnAdvise 1; th_UnAdvise 1].
Example unadvise_twice :
  reaches [0; 1; 0; 1; 0; 1; 0; 1]%nat (fun c =>
    match c.2 with
    | [Done _; Done _] => bool_decide (foreign (com c.1) !! 77 = Some (-1))
    | _ => false
    end) (advised, unadvisers) = true.
Proof. vm_compute. reflexivity. Qed.
Example unadvise_null :
  reaches [0; 1; 1; 1; 1; 0]%nat (fun c =>
    match c.2 !! 0%nat with
    | Some (Atom m _) => match m c.1 with Some UB => true | _ => false end
    | _ => false
    end) (advised, unadvisers) = true.
Proof. vm_compute. reflexivity. Qed.
