(* ===== verification/AgentHost.v ===== *)
(** * AgentHost: the agent's executable

    Models windows/agent/PhoneKeyAgent.cpp: the agent of AgentService over the
    transport of TcpTransport, from the constructor to the destructor.  Console
    output is not modelled.  While [main] waits for ENTER the transport's worker
    thread runs; [schedule] says how often it is given time and for how many
    reads. *)
From S2P Require Import Prelude Bytes Protocol FrameProtocol ChallengeStore Platform CryptoEngine.
From S2P Require Import DeviceRegistry TransportInterface TcpTransport AgentService TcpSockets.

Section Host.
Context {W : Type} `{HC : Cng W} `{HT : Clock W} `{HS : Winsock W}.
Abbreviation S := (Agent TcpTransport W).

Definition listenPort : Z := 8443.
Definition hostPcId : list byte := replicate 16 (to_u8 0x99).

(** [std::cin.get()]. *)
Fixpoint wait_for_enter (schedule : list nat) : Proc S unit :=
  match schedule with
  | [] => pret tt
  | fuel :: schedule => work fuel ;; wait_for_enter schedule
  end.

(** The agent is a local of [main]: its destructor runs on both returns. *)
Definition main (schedule : list nat) (w : W) : Res (Z * S) :=
  let? '(_, agent) := new_AgentService listenPort hostPcId new_TcpTransport w in
  (let* started := Start in
   let* code := (if negb started then pret 1
                 else wait_for_enter schedule ;; Stop ;; pret 0) in
   destroy_AgentService ;;
   pret code) agent.

End Host.

(** ** What the agent can do in there

    [main] registers no device and starts no request, so the store and the
    registry stay empty. *)
Section Laws.
Context {W : Type} `{HC : Cng W} `{HT : Clock W} `{HM : CngModel W} `{HL : !CngLaws W}
        `{HTL : !ClockLaws W} `{HS : Winsock W} `{HWM : WinsockModel W} `{HWL : !WinsockLaws W}
        `{HWC : !WinsockCng W} `{HSA : !SocketsApart W}.
Implicit Types (a : Agent TcpTransport W) (w : W).
Abbreviation S := (Agent TcpTransport W).

Record idle_agent (e : CryptoEngine) (o : gmap handle CngObj) a : Prop := {
  ia_store : m_challengeStore a = ∅;
  ia_devices : m_deviceRegistry a = ∅;
  ia_engine : m_cryptoEngine a = e;
  ia_obj : obj (world a) = o;
}.

#[export] Instance idle_apart e o : Apart S W (idle_agent e o).
Proof. split; intros x a; [|intros E]; intros [A B C D]; split; cbn in *; congruence. Qed.

(** Without an outstanding challenge every response is refused; only the clock
    is read. *)
Lemma empty_store_refuses frame a :
  m_challengeStore a = ∅ ->
  wp (ProcessUnlockResponse frame) (fun e a' => e <> SUCCESS /\
    exists w', a' = with_world w' a /\ obj w' = obj (world a) /\ socks w' = socks (world a)) a.
Proof.
  intros Em. assert (Q : exists w', a = with_world w' a /\ obj w' = obj (world a) /\ socks w' = socks (world a))
    by (exists (world a); by destruct a).
  unfold ProcessUnlockResponse. set (data := payload frame). cbn zeta.
  destruct (Z.ltb_spec (Z.of_nat (length data)) (108 + 8)) as [|L]; [by apply wp_ret|].
  destruct (deserialize_108 data new_AuthPayload) as (r & Er & _ & Bad); [lia|].
  apply wp_bind. eapply wp_lift; [exact Er|].
  destruct (Protocol.ok r); cbn [negb]; [|apply wp_ret; by auto].
  apply wp_bind, wp_zoom, wp_call. intros now w1 Ew. cbn [view agent_world] in Ew.
  pose proof (clock_obj (world a)) as O1. pose proof (clock_socks (world a)) as K1.
  rewrite Ew in O1, K1. cbn [snd] in O1, K1.
  apply wp_bind, wp_get. cbn [put agent_world with_world m_pcId m_challengeStore].
  unfold ValidateChallenge. rewrite Em, lookup_empty. apply wp_ret. split; [done|]. by exists w1.
Qed.

#[export] Instance idle_kept e o : SocketsKept False S W (idle_agent e o).
Proof.
  split; [|intros; apply keeps_ret..]. intros frame. cbn [OnFrameReceived agent_listener].
  unfold agent_OnFrameReceived. destruct (messageType frame); try apply keeps_ret.
  apply keeps_bind.
  - intros a J. eapply wp_mono; [apply empty_store_refuses, J|].
    intros err a' (_ & w' & -> & O & K). split.
    + unfold link. cbn. by rewrite K.
    + destruct J; split; cbn; congruence.
  - intros err. apply keeps_bind; [|intros; apply keeps_ret].
    apply (send_keeps False (idle_agent e o)).
Qed.

(** Neither opening nor closing the engine touches a socket. *)
Lemma Initialize_socks e : leaves (socks (W:=W)) (Initialize e).
Proof.
  unfold Initialize.
  do 3 (apply leaves_bind; [apply leaves_call, open_socks|]; intros [? ?]; cbn zeta;
        apply leaves_if; [apply leaves_ret|]).
  apply leaves_ret.
Qed.

Lemma destroy_engine_socks e : leaves (socks (W:=W)) (destroy_CryptoEngine e).
Proof.
  unfold destroy_CryptoEngine.
  do 3 (apply leaves_bind; [apply leaves_if; [apply leaves_call, close_socks | apply leaves_ret]|]; intros ?).
  apply leaves_ret.
Qed.

Abbreviation owned_by e o base := (owns (S:=S) (W:=W) (idle_agent e o) base).

Lemma wait_owned e o base schedule a :
  owned_by e o base a -> wp (wait_for_enter schedule) (fun _ a' => owned_by e o base a') a.
Proof.
  revert a. induction schedule as [|fuel schedule IH]; intros a O; cbn [wait_for_enter]; [by apply wp_ret|].
  eapply wp_seq; [apply (op_owned False (idle_agent e o) base (TcpWork fuel) a O)|].
  intros ? a1 O1. by apply IH.
Qed.

(** What the destructor leaves. *)
Definition cleaned (e : CryptoEngine) (o : gmap handle CngObj) (base : gset handle) a : Prop :=
  obj (world a) = without (engine_handles e) o /\ socks (world a) = base /\
  m_challengeStore a = ∅ /\ m_deviceRegistry a = ∅.

Lemma destroy_agent_spec e o base a :
  o !! NULL = None -> owned_by e o base a -> wp destroy_AgentService (fun _ => cleaned e o base) a.
Proof.
  intros N O. unfold destroy_AgentService, Stop. cbn [Close tcp_transport].
  eapply wp_seq; [by apply (close_owned False (idle_agent e o) base)|]. intros ? a1 C1.
  eapply wp_seq; [apply (close_owned False (idle_agent e o) base); exact (closed_owns (idle_agent e o) base a1 C1)|].
  intros ? a2 (_ & _ & _ & K2 & [S2 D2 E2 O2]).
  apply wp_bind, wp_get. rewrite D2. apply wp_bind, wp_zoom. apply wp_ret. apply wp_zoom.
  rewrite E2. cbn [view put agent_world world with_world].
  eapply wp_mono; [apply wp_and; [apply (destroy_spec e) | apply destroy_engine_socks]|].
  - cbn. by rewrite O2.
  - intros ? w' [E K]. unfold cleaned. cbn in *. rewrite E, K, O2. done.
Qed.

(** A freshly constructed agent, and what [Start] makes of it whether or not it
    succeeds. *)
Definition fresh_agent w : S :=
  {| m_port := listenPort; m_pcId := hostPcId; m_cryptoEngine := new_CryptoEngine; m_challengeStore := ∅;
     m_deviceRegistry := ∅; m_transport := with_listener true new_TcpTransport; world := w |}.

Lemma start_spec w :
  obj w !! NULL = None ->
  wp Start (fun _ a => exists e o, o !! NULL = None /\ without (engine_handles e) o = obj w /\
    owned_by e o (socks w) a) (fresh_agent w).
Proof.
  intros N. unfold Start. apply wp_bind, wp_get. apply wp_bind, wp_zoom.
  eapply wp_mono; [apply wp_and; [by apply Initialize_spec | apply Initialize_socks]|].
  intros [b e] w1 [(N1 & Wo & _) K1]. cbn [fst snd view agent_world world fresh_agent] in *.
  apply wp_bind, wp_get. apply wp_bind, wp_put. set (a1 := with_engine e _).
  assert (O1 : owned_by e (obj w1) (socks w) a1).
  { split; cbn; try done. rewrite K1. set_solver. }
  clearbody a1. destruct b; cbn [negb].
  - eapply wp_mono; [apply (start_owned False (idle_agent e (obj w1)) (socks w)); exact O1|].
    intros ? a2 O2. by exists e, (obj w1).
  - apply wp_ret. by exists e, (obj w1).
Qed.
End Laws.

(** * Properties *)


(** * Witness *)
From S2P Require Import Simulator.

(** Somebody else holds two sockets; a peer connects and sends noise and two
    frames. *)
Definition demo_host : Sim :=
  set_peers ["10.0.0.2:5000"%string]
    (set_inbox [take 3 (stream demo_stream); drop 3 (stream demo_stream)] (set_socks {[3; 4]} sim0)).


(** With no fault the agent runs and answers; with the second provider missing it
    does not start. *)
Example main_exit_codes :
  (let? '(code, _) := main [60; 5]%nat demo_host in Def code) = Def 0 /\
  (let? '(code, _) := main [60; 5]%nat (set_faults [false; true] demo_host) in Def code) = Def 1.
Proof. vm_compute. split; reflexivity. Qed.
