(* ===== verification/Ctap2Bridge.v ===== *)
(** * Ctap2Bridge: the WebAuthn view of an unlock

    Models windows/common/Ctap2Bridge.cpp: the authenticator data, the
    translation of a request into the signed payload, and the response. *)
From S2P Require Import Prelude Bytes Protocol Platform Hkdf.

Record Ctap2GetAssertionRequest : Type := {
  relyingPartyId : string;
  clientDataHash : list byte;
  allowCredentialId : list byte;
}.
Record Ctap2GetAssertionResponse : Type := {
  status : Z;
  authenticatorData : list byte;
  signatureDer : list byte;
  userHandle : list byte;
}.

Definition BuildAuthenticatorData {W} `{Cng W} (relyingPartyId : string) (signCount : Z)
    (userVerified : bool) : Proc W (list byte) :=
  let authData := replicate 37 x00 in
  let rp := string_bytes relyingPartyId in
  let* '(st, hAlg) := pcall (BCryptOpenAlgorithmProvider SHA256 false NULL) in
  let* authData :=
    (if NT_SUCCESS st then
       let* '(st, hHash) := pcall (BCryptCreateHash hAlg None NULL) in
       let* authData :=
         (if NT_SUCCESS st then
            let* bytes := plift (rd_slice rp 0 (u32 (Z.of_nat (length rp)))) in
            pcall (BCryptHashData hHash bytes) ;;
            let* target := plift (rd_slice authData 0 32) in
            let* '(_, digest) := pcall (BCryptFinishHash hHash target) in
            let* authData := plift (memcpy_to authData 0 digest) in
            pcall (BCryptDestroyHash hHash) ;;
            pret authData
          else pret authData) in
       pcall (BCryptCloseAlgorithmProvider hAlg) ;;
       pret authData
     else pret authData) in
  let flags := 0x01 in
  let flags := if userVerified then Z.lor flags 0x04 else flags in
  let* authData := plift (poke authData 32 (to_u8 flags)) in
  let* authData := plift (poke authData 33 (byte_at signCount 24)) in
  let* authData := plift (poke authData 34 (byte_at signCount 16)) in
  let* authData := plift (poke authData 35 (byte_at signCount 8)) in
  let* authData := plift (poke authData 36 (byte_at signCount 0)) in
  pret authData.

Definition TranslateToPhoneKeyPayload (req : Ctap2GetAssertionRequest)
    (deviceId sessionId pcId : list byte) (expirationMs : Z) : AuthPayload :=
  let p := new_AuthPayload in
  let p := with_protocolVersion CURRENT_PROTOCOL_VERSION p in
  let p := with_algorithmId ALGORITHM_ECDSA_P256_SHA256 p in
  let p := with_deviceId deviceId p in
  let p := with_sessionId sessionId p in
  let p := with_pcId pcId p in
  let p := with_challenge (clientDataHash req) p in
  with_expiration expirationMs p.

Definition FormatAssertionResponse (authData signatureDer : list byte) : Ctap2GetAssertionResponse :=
  {| status := 0x00; authenticatorData := authData; signatureDer := signatureDer;
     userHandle := [x01; x02; x03; x04] |}.

(** ** The authenticator data *)

(** The bytes after the hash: the flags and the counter. *)
Definition auth_trailer (signCount : Z) (userVerified : bool) : list byte :=
  to_u8 (if userVerified then 5 else 1) :: be_bytes 4 signCount.

Section Laws.
Context {W : Type} `{HC : Cng W} `{HM : CngModel W} `{HL : !CngLaws W} `{HV : !CngLive W}.

(** Big-endian counters, byte by byte. *)
Lemma be_bytes_4 v :
  be_bytes 4 v = [byte_at v 24; byte_at v 16; byte_at v 8; byte_at v 0].
Proof. rewrite !byte_at_to_u8. reflexivity. Qed.

(** The hash into the first 32 bytes, whichever call fails. *)
Lemma rp_hash_spec h rp (w : W) :
  Z.of_nat (length rp) < 2 ^ 32 ->
  wp (let* bytes := plift (rd_slice rp 0 (u32 (Z.of_nat (length rp)))) in
      pcall (BCryptHashData h bytes) ;;
      let* target := plift (rd_slice (replicate 37 x00) 0 32) in
      let* '(_, digest) := pcall (BCryptFinishHash h target) in
      let* authData := plift (memcpy_to (replicate 37 x00) 0 digest) in
      pcall (BCryptDestroyHash h) ;;
      pret authData)
    (fun r w' => obj w' = delete h (obj w) /\
       exists d, length d = 32%nat /\ r = d ++ replicate 5 x00 /\
         (healthy w -> obj w !! h = Some (HashObj None []) -> healthy w' /\ d = sha256 rp)) w.
Proof.
  intros L. rewrite wrap_small by lia.
  apply wp_bind. eapply wp_lift; [apply rd_slice_ok; lia|].
  rewrite Nat2Z.id. change (sub (Z.to_nat 0) (length rp) rp) with (take (length rp) rp). rewrite take_ge by lia.
  apply wp_bind, wp_call. intros st2 w2 E2. destruct (hash_data_law h rp w) as [T2 L2].
  pose proof (live_hash_data h None [] rp w) as V2. rewrite E2 in T2, L2, V2. cbn [fst snd] in *.
  apply wp_bind. eapply wp_lift; [reflexivity|]. apply wp_bind, wp_call. intros [st3 d] w3 E3.
  set (buf := take _ _) in E3. destruct (finish_hash_law h buf w2) as (T3 & Ld & L3).
  pose proof (live_finish_hash h None rp buf w2) as V3. rewrite E3 in T3, Ld, L3, V3. cbn [fst snd] in *.
  change (length d = 32%nat) in Ld.
  apply wp_bind. eapply wp_lift; [apply (memcpy_fill [] d 37); len|].
  apply wp_bind, wp_call. intros ? w4 E4. pose proof (destroy_hash_law h w3) as O4.
  pose proof (live_destroy_hash h w3) as V4. rewrite E4 in O4, V4. cbn [snd] in O4, V4.
  apply wp_ret. split; [by rewrite O4, T3, T2|].
  exists d. split; [done|]. split; [by rewrite Ld|]. intros Hw O1h.
  destruct (V2 Hw O1h) as [S2 Hw2]. assert (O2h : obj w2 !! h = Some (HashObj None rp)).
  { rewrite (L2 S2 None [] O1h). by rewrite lookup_insert_eq. }
  destruct (V3 Hw2 O2h eq_refl) as [S3 Hw3]. split; [by apply V4|]. by rewrite (L3 S3 None rp O2h).
Qed.

(** The authenticator data of a relying party: 37 bytes, the SHA-256 of its id
    when CNG is healthy, the flags and the big-endian counter; no CNG object is
    left behind. *)
Theorem BuildAuthenticatorData_layout rpId signCount userVerified (w : W) :
  Z.of_nat (length (string_bytes rpId)) < 2 ^ 32 ->
  wp (BuildAuthenticatorData rpId signCount userVerified) (fun r w' =>
    obj w' = obj w /\
    exists d, length d = 32%nat /\ r = d ++ auth_trailer signCount userVerified /\
      (healthy w -> healthy w' /\ d = sha256 (string_bytes rpId))) w.
Proof.
  intros L. unfold BuildAuthenticatorData. cbn zeta.
  apply wp_bind, wp_call. intros [st hAlg] w1 E1. pose proof (open_law SHA256 false NULL w) as M.
  pose proof (live_open SHA256 false NULL w) as V1. rewrite E1 in M, V1. unfold makes in M. cbn [fst snd] in V1.
  eapply wp_seq with (R := fun r w' => obj w' = obj w /\
       exists d, length d = 32%nat /\ r = d ++ replicate 5 x00 /\
         (healthy w -> healthy w' /\ d = sha256 (string_bytes rpId))).
  { destruct (NT_SUCCESS st).
    2: { apply wp_ret. destruct M as [_ O]. split; [done|]. exists (replicate 32 x00).
         split; [done|]. split; [done|]. intros Hw. by destruct (V1 Hw). }
    destruct M as (N & F & O). apply wp_bind, wp_call. intros [st2 h] w2 E2.
    destruct (create_hash_law hAlg None NULL w1) as [M2 _].
    pose proof (live_create_hash hAlg None NULL w1) as V2.
    rewrite E2 in M2, V2. unfold makes in M2. cbn [fst snd] in V2.
    eapply wp_seq with (R := fun r w3 => obj w3 = obj w1 /\
         exists d, length d = 32%nat /\ r = d ++ replicate 5 x00 /\
           (healthy w1 -> obj w1 !! hAlg = Some (AlgObj SHA256 false) -> healthy w3 /\ d = sha256 (string_bytes rpId))).
    { destruct (NT_SUCCESS st2).
      - destruct M2 as (N2 & F2 & O2). eapply wp_mono; [by apply rp_hash_spec|].
        intros r w3 (O3 & d & Ld & -> & V3). split; [rewrite O3, O2; by apply delete_insert_id|].
        exists d. split; [done|]. split; [done|]. intros Hw Ha. destruct (V2 Hw Ha) as [_ Hw2].
        apply V3; [done|]. by rewrite O2, lookup_insert_eq.
      - apply wp_ret. destruct M2 as [_ O2]. split; [done|]. exists (replicate 32 x00).
        split; [done|]. split; [done|]. intros Hw Ha. by destruct (V2 Hw Ha). }
    intros r w3 (O3 & d & Ld & -> & V3).
    apply wp_bind, wp_call. intros ? w4 E4. pose proof (close_law hAlg w3) as O4.
    pose proof (live_close hAlg w3) as V4. rewrite E4 in O4, V4. cbn [snd] in O4, V4. apply wp_ret. split.
    - rewrite O4, O3, O. by apply delete_insert_id.
    - exists d. split; [done|]. split; [done|]. intros Hw. destruct (V1 Hw) as [_ Hw1].
      destruct (V3 Hw1) as [Hw3 ->]; [by rewrite O, lookup_insert_eq|]. split; [by apply V4 | done]. }
  intros r w2 (O2 & d & Ld & -> & V2).
  do 5 (apply wp_bind; eapply wp_lift; [apply poke_fill; len|]; cbn [Nat.sub]).
  apply wp_ret. split; [done|]. exists d. split; [done|]. split; [|done].
  rewrite <- !app_assoc. unfold auth_trailer. rewrite app_nil_r, be_bytes_4. by destruct userVerified.
Qed.
End Laws.
