(* ===== verification/BluetoothTransport.v ===== *)
(** * BluetoothTransport: the stub of the BLE transport

    Models windows/common/BluetoothTransport.cpp the way TcpTransport models
    its TCP counterpart: the members inside the program state [S] through a
    lens, the callbacks on the whole state.  It satisfies the interfaces of
    TransportInterface, so the agent runs over it; what it does with a frame
    is proved below: it numbers and serializes it, and nothing leaves the
    machine. *)
From stdpp Require Import pretty.
From S2P Require Import Prelude Bytes Protocol FrameProtocol ChallengeStore Platform.
From S2P Require Import CryptoEngine ChallengeGenerator TransportInterface AgentService.

Record BluetoothTransport : Type := {
  m_listener : bool;               (** the pointer is non-null *)
  m_isConnected : bool;
  m_isRunning : bool;
  m_sequenceCounter : Z;
}.

Definition new_BluetoothTransport : BluetoothTransport :=
  {| m_listener := false; m_isConnected := false; m_isRunning := false; m_sequenceCounter := 1 |}.

Definition with_listener v (t : BluetoothTransport) : BluetoothTransport :=
  {| m_listener := v; m_isConnected := m_isConnected t; m_isRunning := m_isRunning t;
     m_sequenceCounter := m_sequenceCounter t |}.
Definition with_isConnected v (t : BluetoothTransport) : BluetoothTransport :=
  {| m_listener := m_listener t; m_isConnected := v; m_isRunning := m_isRunning t;
     m_sequenceCounter := m_sequenceCounter t |}.
Definition with_isRunning v (t : BluetoothTransport) : BluetoothTransport :=
  {| m_listener := m_listener t; m_isConnected := m_isConnected t; m_isRunning := v;
     m_sequenceCounter := m_sequenceCounter t |}.
Definition with_sequenceCounter v (t : BluetoothTransport) : BluetoothTransport :=
  {| m_listener := m_listener t; m_isConnected := m_isConnected t; m_isRunning := m_isRunning t;
     m_sequenceCounter := v |}.

(** The local [frame] of [SendFrame]: the defaults, with three members set. *)
Definition ble_frame (messageType : TransportMessageType) (seq : Z) (payload : list byte)
    : TransportFrame :=
  {| magic := magic new_TransportFrame; payloadLength := payloadLength new_TransportFrame;
     messageType := messageType; flags := flags new_TransportFrame; sequenceNumber := seq;
     payload := payload; checksum := checksum new_TransportFrame |}.

Section Ble.
Context {S : Type} `{LT : Lens S BluetoothTransport} `{HLi : ITransportListener S}.

Definition ble_members : Proc S BluetoothTransport := zoom (V:=BluetoothTransport) pget.
Definition ble_modify (f : BluetoothTransport -> BluetoothTransport) : Proc S unit :=
  zoom (V:=BluetoothTransport) (fun t => Def (tt, f t)).

Definition ble_notify (callback : Proc S unit) : Proc S unit :=
  let* t := ble_members in if m_listener t then callback else pret tt.

Definition ble_SetListener (listener : bool) : Proc S unit := ble_modify (with_listener listener).
Definition ble_IsConnected : Proc S bool := let* t := ble_members in pret (m_isConnected t).

Definition ble_StartListener (portOrServiceChannel : Z) : Proc S bool :=
  ble_modify (with_isRunning true) ;;
  ble_modify (with_isConnected true) ;;
  ble_notify (OnConnectionStateChanged true "BLE:Listening") ;;
  pret true.

Definition ble_Connect (addressOrUuid : string) (portOrChannel : Z) : Proc S bool :=
  ble_modify (with_isRunning true) ;;
  ble_modify (with_isConnected true) ;;
  ble_notify (OnConnectionStateChanged true addressOrUuid) ;;
  pret true.

Definition ble_SendFrame (messageType : TransportMessageType) (payload : list byte) : Proc S bool :=
  let* t := ble_members in
  if negb (m_isConnected t) then pret false else
  let frame := ble_frame messageType (m_sequenceCounter t) payload in
  ble_modify (with_sequenceCounter (u32 (m_sequenceCounter t + 1))) ;;
  let* serialized := plift (SerializeFrame frame) in
  pret true.

Definition ble_Close : Proc S unit :=
  ble_modify (with_isRunning false) ;;
  ble_modify (with_isConnected false) ;;
  ble_notify (OnConnectionStateChanged false "BLE:Disconnected").

Definition destroy_BluetoothTransport : Proc S unit := ble_Close.

#[export] Instance ble_sender : FrameSender S := {
  SendFrame := ble_SendFrame;
  IsConnected := ble_IsConnected;
}.
#[export] Instance ble_transport : ITransport S := {
  transport_sender := ble_sender;
  StartListener := ble_StartListener;
  Connect := ble_Connect;
  SetListener := ble_SetListener;
  Close := ble_Close;
}.
End Ble.

(** ** Sending *)

Section Send.
Context {S : Type} `{LT : Lens S BluetoothTransport} `{LTL : !LensLaws S BluetoothTransport}.
Context (ub : Prop).

Lemma wp_ble_members (Q : BluetoothTransport -> S -> Prop) s :
  Q (view s) s -> wpx ub ble_members Q s.
Proof. unfold wpx, ble_members, zoom, pget. by rewrite put_view. Qed.

Lemma wp_ble_modify f (Q : unit -> S -> Prop) s :
  Q tt (put (f (view s)) s) -> wpx ub (ble_modify f) Q s.
Proof. done. Qed.

(** A frame is counted and serialized, and goes nowhere: the state [s] of the
    whole program, world included, changes in the counter alone. *)
Lemma ble_send_spec t payload (s : S) :
  let ble := view (V:=BluetoothTransport) s in
  wpx ub (ble_SendFrame t payload) (fun ok s' => ok = m_isConnected ble /\
    s' = if m_isConnected ble
         then put (with_sequenceCounter (u32 (m_sequenceCounter ble + 1)) ble) s else s) s.
Proof.
  cbv zeta. unfold ble_SendFrame. apply wp_bind, wp_ble_members.
  destruct (m_isConnected (view s)) eqn:E; [|by apply wp_ret].
  cbn [negb]. cbv zeta. apply wp_bind, wp_ble_modify. apply wp_bind.
  set (f := ble_frame t _ payload).
  destruct (decide (Z.of_nat (length (FrameProtocol.payload f)) <= MAX_PAYLOAD_SIZE)) as [L|L].
  - eapply wp_lift; [by apply SerializeFrame_layout | by apply wp_ret].
  - eapply wp_lift; [apply SerializeFrame_oversize; lia | by apply wp_ret].
Qed.
End Send.

(** ** The life of a connection

    Calls on the transport, against a program that consists of the transport
    and of a listener that writes down what it is told. *)
Inductive BleCall : Type :=
| BleSetListener (listener : bool)
| BleStartListener (channel : Z)
| BleConnect (address : string) (channel : Z)
| BleSendFrame (t : TransportMessageType) (payload : list byte)
| BleClose.

Abbreviation Recorder := (BluetoothTransport * list (bool * string))%type.
#[local] Instance recorder_lens : Lens Recorder BluetoothTransport :=
  { view := fst; put := fun t s => (t, s.2) }.
#[local] Instance recorder_lens_laws : LensLaws Recorder BluetoothTransport.
Proof. by split; [|intros []|]. Qed.
#[local] Instance recorder : ITransportListener Recorder := {
  OnFrameReceived := fun _ => pret tt;
  OnConnectionStateChanged := fun up what s => Def (tt, (s.1, s.2 ++ [(up, what)]));
  OnError := fun _ => pret tt;
}.

Definition ble_call (c : BleCall) : Proc Recorder bool :=
  match c with
  | BleSetListener l => ble_SetListener l ;; pret true
  | BleStartListener ch => ble_StartListener ch
  | BleConnect a ch => ble_Connect a ch
  | BleSendFrame t p => ble_SendFrame t p
  | BleClose => ble_Close ;; pret true
  end.

Fixpoint ble_calls (cs : list BleCall) : Proc Recorder (list bool) :=
  match cs with
  | [] => pret []
  | c :: cs => let* b := ble_call c in let* bs := ble_calls cs in pret (b :: bs)
  end.

(** What the connection is meant to be: up or down, with a listener or not,
    and a count of the frames accepted. *)
Record BleLink : Type := { up : bool; heard : bool; accepted : nat }.

Definition link_step (c : BleCall) (l : BleLink) : bool * list (bool * string) * BleLink :=
  let tell e := if heard l then [e] else [] in
  match c with
  | BleSetListener b => (true, [], {| up := up l; heard := b; accepted := accepted l |})
  | BleStartListener _ =>
      (true, tell (true, "BLE:Listening"), {| up := true; heard := heard l; accepted := accepted l |})
  | BleConnect a _ => (true, tell (true, a), {| up := true; heard := heard l; accepted := accepted l |})
  | BleSendFrame _ _ =>
      (up l, [], {| up := up l; heard := heard l; accepted := (accepted l + if up l then 1 else 0)%nat |})
  | BleClose =>
      (true, tell (false, "BLE:Disconnected"), {| up := false; heard := heard l; accepted := accepted l |})
  end.

Fixpoint link_run (cs : list BleCall) (l : BleLink) : list bool * list (bool * string) * BleLink :=
  match cs with
  | [] => ([], [], l)
  | c :: cs =>
    let '(b, es, l) := link_step c l in
    let '(bs, es', l) := link_run cs l in
    (b :: bs, es ++ es', l)
  end.

(** The transport that stands for a link. *)
Definition ble_of (l : BleLink) : BluetoothTransport :=
  {| m_listener := heard l; m_isConnected := up l; m_isRunning := up l;
     m_sequenceCounter := u32 (1 + Z.of_nat (accepted l)) |}.

Lemma ble_call_spec c l log :
  ble_call c (ble_of l, log) =
    let '(b, es, l') := link_step c l in Def (b, (ble_of l', log ++ es)).
Proof.
  destruct l as [u h n], c as [lis|ch|a ch|t p|]; cbn [link_step heard up accepted ble_call].
  - by rewrite app_nil_r.
  - unfold ble_StartListener. cbn. by destruct h; cbn; rewrite ?app_nil_r.
  - unfold ble_Connect. cbn. by destruct h; cbn; rewrite ?app_nil_r.
  - pose proof (ble_send_spec False t p (ble_of {| up := u; heard := h; accepted := n |}, log)) as P.
    apply wp_Def in P as (ok & s' & E & -> & ->). rewrite E. destruct u; cbn; unfold ble_of; cbn.
    + rewrite app_nil_r. do 4 f_equal. unfold with_sequenceCounter. cbn. f_equal.
      unfold u32, wrap. rewrite Zplus_mod_idemp_l. f_equal. lia.
    + by rewrite app_nil_r, Nat.add_0_r.
  - unfold ble_Close. cbn. by destruct h; cbn; rewrite ?app_nil_r.
Qed.

(** The transport is the two-state link: whatever the calls, it answers them as
    the link does, tells the listener exactly what happened and in that order,
    is connected when the link is up, and numbers the frames it accepts from 1
    modulo 2^32. *)
Theorem ble_refines cs l log :
  ble_calls cs (ble_of l, log) =
    let '(bs, es, l') := link_run cs l in Def (bs, (ble_of l', log ++ es)).
Proof.
  revert l log. induction cs as [|c cs IH]; intros l log; cbn [ble_calls link_run].
  { by rewrite app_nil_r. }
  unfold pbind at 1. rewrite ble_call_spec. destruct (link_step c l) as [[b es] l1].
  unfold pbind. rewrite IH. destruct (link_run cs l1) as [[bs es'] l2].
  cbn. by rewrite app_assoc.
Qed.

(** ** The agent over it *)

Section OverBluetooth.
Context {W : Type} `{HC : Cng W} `{HT : Clock W} `{HM : CngModel W} `{HL : !CngLaws W}
        `{HTL : !ClockLaws W}.
Implicit Types (a : Agent BluetoothTransport W).

#[export] Instance agent_ble_sender_laws :
  SenderLaws (Agent BluetoothTransport W) _ (agent_core (T:=BluetoothTransport) (W:=W)).
Proof.
  split.
  - intros t p s. cbn [SendFrame ble_sender].
    eapply wp_mono; [apply ble_send_spec|]. intros ok s' [_ ->]. by destruct (m_isConnected _).
  - intros s. cbn [IsConnected ble_sender]. unfold ble_IsConnected.
    apply wp_bind, wp_ble_members. by apply wp_ret.
Qed.

(** An unlock request over Bluetooth leaves an outstanding challenge behind;
    apart from drawing it, the world is as it was, so the device never hears
    of it. *)
Theorem ble_unlock_unheard did r0 a :
  wf_record r0 -> length did = 16%nat -> length (m_pcId a) = 16%nat ->
  wp (InitiateUnlockRequest did r0) (fun r a' =>
    GenerateChallenge (m_cryptoEngine a) did (m_pcId a) r0 (world a) = Def (r, world a') /\
    state r = OUTSTANDING /\ m_challengeStore a' = AddChallenge r (m_challengeStore a)) a.
Proof.
  intros Wf Ld Lp. unfold InitiateUnlockRequest.
  apply wp_bind, wp_get. apply wp_bind, wp_zoom.
  eapply wp_mono; [apply wp_run; by apply generate_spec|].
  intros r w1 (G & _ & Wr & _ & _ & St & _ & _).
  apply wp_bind, wp_get. apply wp_bind, wp_put.
  apply wp_bind. eapply wp_lift; [by apply unlock_request_layout|].
  apply wp_bind. eapply wp_mono; [apply connected_core|]. intros c a1 ->.
  apply wp_bind. destruct c; [eapply wp_mono; [apply ble_send_spec|]; intros ok a2 [_ ->] | apply wp_ret];
    apply wp_ret; [destruct (m_isConnected _)|]; done.
Qed.
End OverBluetooth.
